(* ===== verification/_CoqProject ===== *)
-Q . S2P
Prelude.v
Lattice.v
PNCounter.v
VectorClock.v
Delta.v
Breaker.v
Membership.v
Json.v
Codec.v
Wal.v
Bully.v
Swim.v
Store.v
Messages.v
Service.v
ServiceSpec.v
Durability.v
Gossip.v
Cluster.v
Races.v
Admin.v
Bootstrap.v
Float.v
RateLimit.v
Convergence.v
Hazards.v
Server.v
Entry.v
Process.v
Metrics.v
Lifecycle.v
Heartbeat.v
Client.v
Deployment.v
Restart.v
Dashboard.v
Polling.v
Gateway.v
Proxy.v
Election.v
