(* ===== verification/Prelude.v ===== *)
(** * A verified model of the distributed PN-counter

    The program (module github.com/VeryFach/distributed-counter) is a replicated
    counter server.  Every node holds a PN-counter with any number of named
    counters and a vector clock; clients update and read any node over gRPC; a
    gossip engine exchanges deltas or full states with random peers; a membership
    table is kept by heartbeats, a SWIM failure detector and piggybacked
    statuses; a Bully election picks a leader; a write-ahead log and a snapshot
    store (Redis) make a node survive crashes; an admin service changes the
    membership; the gRPC server asks for an API key and limits the rate; an HTTP
    gateway and a dashboard serve the same services as JSON.

    ** Files and what they model

    - [Prelude] (this file): the fragment of Go the components use.  [int64] and
      [time.Duration] are [Z] with their wrap-around [wrap64]; a Go map is a
      [gmap]; [m.[k]] is Go's [m[k]] with its zero value; [range] is a loop over a
      map and [iteration_of] says that a list is one of its possible orders, so
      that theorems can quantify over the order Go does not specify; [≈] and [⊑]
      identify a missing entry with a zero one and compare maps entry by entry;
      strings, prefixes, sorting, times.
    - [Lattice]: the interface [JoinState] between replicated data and its
      clients, with convergence proved against it.
    - [PNCounter], [VectorClock], [Delta]: internal/crdt.  One definition per
      method, under the method's name; the mutex makes each of them atomic.
    - [Breaker]: internal/gossip/circuit.go.
    - [Membership]: internal/cluster/membership.go and discovery.go.
    - [Json]: the part of encoding/json the program uses, a writer and a
      recursive-descent reader over byte strings with their escapes, their
      treatment of UTF-8 and the limit on nesting; [Codec]: the texts of log
      entries, snapshots, vector clocks and counters, as their field tags say, and
      the interface [EntryCodec] of the log to its format.
    - [Wal], [Store]: internal/persistence.  The log is a byte string in a file
      of a [disk], read back line by line; [StoreOps] is the Go interface [Store]
      and the class [Store] its laws, which the Redis store is proved to meet.
    - [Bully]: internal/election/bully.go, with the announcements a node handles
      while its election probes the peers without a lock, and a cluster of nodes in
      which an election begins, goes on and ends in separate steps; [Election]: its
      messages between two processes, sent with the options of pkg/grpcutil and
      received through the middleware.
    - [Swim]: internal/cluster/swim.go and the heartbeat and staleness loops of
      cmd/server/main.go.
    - [Messages]: the messages of api/proto/counter.proto.
    - [Service]: internal/service/counter_service.go, every handler, over the
      record [CounterService] of the objects a node's process shares;
      [ServiceSpec]: what the handlers do; [Durability]: the start-up of main with
      [Restore] and [ReplayWAL], and crash recovery.
    - [Gossip]: internal/gossip/engine.go.  [gossipToPeer] is composed of
      [prepare] (up to the choice of the message), [deliver] (the retry loop) and
      [complete] (merge and new baseline); the engine's counter, clock, membership
      and log are those of the service, as in the code.
    - [Cluster]: several nodes, with [prepare], [sync_update] and [complete] as
      separately interleaved steps of one system, next to client updates and resets,
      lost and repeated messages, answers of seeds, restarts with and without the
      node's data and messages of strangers.  Every step carries its hazards: an
      update with a negative delta or beyond [int64] ([Unfit]), a reset ([Cleared]),
      the loss of the answer to a delta ([ReplyLost]), a restart without the data
      ([Forgotten]), counts and clock read at different instants ([Torn]), a message
      of a stranger ([Foreign]).  The code allows all of them; the convergence
      theorems are about runs in which none happened, and say so.
    - [Hazards]: one run per hazard in which that hazard alone, once, leaves two
      nodes with equal clocks and different values.
    - [Races]: what happens when an update falls between two steps the code does
      not hold a lock across: in [Snapshot], in [gossipToPeer], and a reset next
      to an exchange.
    - [Admin]: internal/admin, the auth interceptors of
      internal/server/middleware.go, and pkg/grpcutil.
    - [Bootstrap]: [joinCluster] and [recoverStateFromSeedNodes] of
      cmd/server/main.go, the latter with the changes the already running server
      makes between its steps ([interference]), and the defaults of internal/config.
    - [Float]: the [float64] operations of the code, over the Standard Library's
      binary64, with the error of each; [RateLimit]: the token bucket of
      internal/server/middleware.go.
    - [Convergence]: schedules of answered rounds on the system of [Cluster].
    - [Server]: internal/server/grpc_server.go, the chain of interceptors and the
      dispatch of every RPC onto the objects of one [Process].
    - [Entry]: the first steps of main, [Load] of internal/config over an
      interface to viper, pkg/logger over an interface to zap, and pkg/utils.
    - [Process]: the wiring of cmd/server/main.go and the events of a running
      process, freely interleaved; [Deployment]: several processes and the sync
      messages between them; [Restart]: the same with processes that die and are
      started again, from the disk they left or from any other.  Both keep the
      hazards of their steps.
    - [Metrics]: internal/metrics, over an interface to Prometheus, and the calls
      each event of a process makes.
    - [Lifecycle]: the goroutines of a node with their tickers and contexts, the
      calls and requests that are open at its servers, internal/tracing's [Init],
      the signal handler, which waits for them, and the deferred calls of main.
    - [Heartbeat]: a heartbeat between two processes, through the middleware of
      the receiver.
    - [Client]: pkg/grpcutil, the generated client stubs of
      api/proto/counter_grpc.pb.go, a connection to a process, and the program
      cmd/test-client.
    - [Dashboard]: internal/dashboard/dashboard.go, over a store of rows because
      the view shares a row between two places; [Polling]: its polls answered by
      processes.
    - [Gateway]: internal/gateway/gateway.go and the server side of the generated
      api/proto/counter.pb.gw.go; [Proxy]: the client side of the same file, which
      reaches the service over a connection.

    ** What the theorems show

    - Replication: merging is a least upper bound and order, grouping and
      repetition of merges do not matter ([merge_is_join],
      [merge_delivery_order]); a delta against a baseline the receiver covers has
      the effect of the full state ([delta_merge_equals_full]); in a cluster whose
      run had no hazard, equal versions mean equal values ([strong_convergence]), a
      completed exchange makes its ends equal ([exchange_synchronizes]), a skipped
      round loses nothing ([skipped_round_is_safe]), and undisturbed rounds that
      connect all nodes make them agree ([gossip_converges]); none of the hazards
      can be allowed ([hazards_matter]).
    - Processes: whatever events interleave, a process stays well formed
      ([process_wellformed]); a deployment of processes refines the cluster, hazard
      by hazard ([deployment_refines]), so that without hazards clients of processes
      with equal clocks read equal values ([deployment_reads_agree]); it still does
      when processes crash and restart, and a restart of a process all of whose
      changes were recorded is no hazard ([restarts_refine]).
    - The life of a node: its goroutines perform exactly the events of a
      well-formed process until the signal; the exit waits for open gRPC calls, goes
      through once they have ended, and no call or peer message is handled once the
      log or the store is closed, but an HTTP request the gateway gave up on may be
      ([node_lifecycle], [shutdown_orderly], [tickers_start]); the counters of
      Prometheus show what the node did ([metrics_exact]).
    - Counters: updates and resets touch one counter only when names have no
      colon, values are exact modulo 2^64 for every map order, names are listed sorted
      ([update_value_isolated], [ResetName_scoped], [ValueName_any_order],
      [Names_spec]); the handlers refine this whatever the log and the store
      answer ([update_handlers], [reset_handler], [ListCounters_spec]).
    - Durability: a node that crashes between operations and recovers any number of
      times, with non-negative deltas and writes that succeed, refines a replica in
      memory that never crashes ([restarts_invisible], [negative_count_lost]), on top of the
      contracts of the log and of the store ([wal_survives_restart],
      [redis_keeps_snapshots]) and of their formats ([formats_roundtrip]).
    - Membership and failure detection: the table's invariant under every
      operation, the escalation of silent members, the caution towards gossiped
      statuses, the selection of peers ([membership_invariant],
      [MarkStale_escalates], [ApplyMembership_cautious], [GetRandomPeers_spec],
      [swim_escalation], [round_answered]), and what a heartbeat changes at both
      ends ([heartbeat_exchange]).
    - Election: the followers of the best node stay with it as long as they run no
      election and are not asked to start one, only configured nodes with their own
      priority are followed, a round without answers elects, and every round ends
      ([healthy_leader_stable], [leader_is_genuine], [StartElection_outcome],
      [election_terminates]);
      between processes, a winner announces itself to every live member and is
      followed by those whose server admits the call ([leadership_spreads]), and a
      restarted leader is followed again once its term has caught up
      ([restarted_leader_catches_up]).
    - Transport: the breaker meets its contract, rounds never share a peer, the
      delivery loop finds the answering attempt ([breaker_contract],
      [rounds_exclusive], [delivery_retries]).
    - Start-up and operations: recovery ends with a seed's state merged into what
      the process has then, joining learns
      the seed's members, a removed node is not selected ([recovery_outcome],
      [joinCluster_learns], [RemoveNode_excludes]).
    - The fronts: only key holders are served over gRPC, and only they spend
      tokens ([auth_gate], [grpc_gate]); the handlers answer no more calls than
      the configured rate allows, up to one for all rounding, and a limited
      client is served again in time ([process_rate], [limiter_recovers]); each
      HTTP route runs its own RPC ([gateway_routes]), and the proxying gateway
      answers as the one in the process does where the middleware admits the
      call ([gateways_compared]); the test client prints the value its session
      leaves ([test_client_session]); the dashboard's rows and
      counters are what the table, the polls and the local service say
      ([dashboard_rows], [dashboard_counters]), the polls are the peers' own
      values ([dashboard_live]), and they reach the browser as they are
      ([Cluster_payload]).
    - Limits of the design, proved as such: [colon_name_leaks],
      [torn_tail_hides_log], [surviving_log_is_replayed_twice],
      [second_reply_is_empty], [leader_displaced_after_timeout],
      [snapshot_race_loses_updates], [torn_read_hides_update], [reset_undone],
      [seed_state_forgotten], [gateway_unguarded], [limited_leader_rivalled], and in [dashboard_rows] and
      [dashboard_counters] the address and the counters the dashboard shows of a
      peer.

    ** Conventions

    - Reading the clock, a random shuffle, and the outcome of each system call or
      remote call are arguments of the operation that performs it ([env],
      [round_env], [boot_env], [transport], functions from addresses to answers).
    - An operation that holds a lock, and a request handler, runs at one instant;
      a gossip exchange, a recovery, an election and a SWIM round, whose remote calls
      let others run, are split at the calls.  What two handlers can do to each
      other between their locks is the subject of [Races].
    - Strings are byte strings.  The theorems that go through JSON ask for valid
      UTF-8, which protobuf guarantees of the strings of a request, and for
      numbers in the range of their types; nothing is assumed of the format
      itself.  The gateway's mux and request decoders are the runtime's and
      parameters ([mux_literal], [codec]), and so is [strconv.Quote], whose tables
      of printable characters are not in the sources.
    - [float64] arithmetic is exact rounding to binary64; the bounds on the rate
      limiter hold for rates below 2^50 and windows whose accumulated rounding
      stays below one token, as the theorems state.
    - Recursion without a structural argument has the code's own bound as its
      fuel, so that no theorem depends on a guess: [deliver] runs [maxRetries]
      attempts, [try_attempts] [maxAttempts] = 5, [probe_loop] the configured
      number of probes, [await] one step per poll of the waiting loop,
      [SyncState] one per received message.  The reader of JSON has twice the
      length of the text, which [fuel_enough] proves to be enough.
    - Spans and log lines are left out: no decision of the program reads them.
      The metrics are an output of [Metrics] next to the events; the two totals the
      dashboard prints are an input of it.

    ** Not modelled

    What belongs to libraries outside the sources: the HTTP and gRPC transports
    with dialling and compression, the exposition of the metrics, the exporter and
    the spans of the tracing, the reflection of the generated messages.  Viper and
    zap are parameters of [Entry].  The test harness, which is not part of the
    program. *)

From stdpp Require Export prelude gmap strings list fin_maps sorting.
From Stdlib Require Export Ascii ZArith Lia.
From stdpp Require Import options.
Set Warnings "-clear-no-such-hyp".

Open Scope Z_scope.

(** ** Tactics and hint databases of the development *)

Create HintDb gomap.
Create HintDb goint.
Create Rewrite HintDb goint_rw.

(** Case analysis on every boolean comparison and [decide] of the goal. *)
Ltac case_bool :=
  repeat match goal with
  | |- context [Z.ltb ?a ?b] => destruct (Z.ltb_spec a b)
  | |- context [Z.leb ?a ?b] => destruct (Z.leb_spec a b)
  | |- context [Z.eqb ?a ?b] => destruct (Z.eqb_spec a b)
  | |- context [bool_decide ?P] => destruct (bool_decide_reflect P)
  | |- context [decide ?P] => destruct (decide P)
  end.

(** ** Machine integers *)

(** [int64] arithmetic wraps around modulo 2^64. *)
Definition wrap64 (z : Z) : Z := (z + 2 ^ 63) mod 2 ^ 64 - 2 ^ 63.

Definition in_int64 (z : Z) : Prop := - 2 ^ 63 <= z < 2 ^ 63.

Definition in_int32 (z : Z) : Prop := - 2 ^ 31 <= z < 2 ^ 31.

(** [uint64] and [uint32] reduce modulo their width. *)
Definition wrapu64 (z : Z) : Z := z mod 2 ^ 64.

Definition wrapu32 (z : Z) : Z := z mod 2 ^ 32.

Lemma wrap64_range (z : Z) : in_int64 (wrap64 z).
Proof.
  unfold in_int64, wrap64.
  pose proof (Z.mod_pos_bound (z + 2 ^ 63) (2 ^ 64) eq_refl). lia.
Qed.

Lemma wrap64_id (z : Z) : in_int64 z -> wrap64 z = z.
Proof. unfold in_int64, wrap64. intros ?. rewrite Z.mod_small; lia. Qed.

Lemma wrap64_eq (a b : Z) : (exists n, a = b + n * 2 ^ 64) -> wrap64 a = wrap64 b.
Proof.
  intros [n ->]. unfold wrap64.
  replace (b + n * 2 ^ 64 + 2 ^ 63) with (b + 2 ^ 63 + n * 2 ^ 64) by lia.
  by rewrite Z_mod_plus_full.
Qed.

Lemma wrap64_decomp (a : Z) : exists n, wrap64 a = a + n * 2 ^ 64.
Proof.
  unfold wrap64. exists (- ((a + 2 ^ 63) / 2 ^ 64)).
  pose proof (Z.div_mod (a + 2 ^ 63) (2 ^ 64) ltac:(lia)). lia.
Qed.

Lemma wrap64_add_l (a b : Z) : wrap64 (wrap64 a + b) = wrap64 (a + b).
Proof.
  apply wrap64_eq. destruct (wrap64_decomp a) as [n ->]. exists n. lia.
Qed.

Lemma wrap64_add_r (a b : Z) : wrap64 (a + wrap64 b) = wrap64 (a + b).
Proof. rewrite (Z.add_comm a), wrap64_add_l. f_equal. lia. Qed.

Lemma wrap64_sub (a b : Z) : wrap64 (wrap64 a - wrap64 b) = wrap64 (a - b).
Proof.
  apply wrap64_eq.
  destruct (wrap64_decomp a) as [n ->], (wrap64_decomp b) as [m ->].
  exists (n - m). lia.
Qed.

#[export] Hint Resolve wrap64_range : goint.
#[export] Hint Rewrite wrap64_add_l wrap64_add_r wrap64_sub : goint_rw.

(** ** Go maps *)

(** [m[k]] on a map with integer values: a missing key reads as zero.
    A nil map reads as the empty one. *)
Definition get0 (m : gmap string Z) (k : string) : Z := default 0 (m !! k).

Declare Scope go_scope.
Delimit Scope go_scope with go.
Notation "m .[ k ]" := (get0 m k) (at level 1, left associativity,
  format "m .[ k ]") : go_scope.
Open Scope go_scope.

(** [for k, v := range m { a = f(k, v, a) }]: Go leaves the iteration order
    open; [range] takes the one of [map_to_list], and [range_ind] below holds
    for every order, so that what is proved with it does not depend on it. *)
Definition range_list {V A : Type} (f : string -> V -> A -> A)
    (l : list (string * V)) (a : A) : A :=
  foldl (fun acc kv => f kv.1 kv.2 acc) a l.

Definition range {V A : Type} (f : string -> V -> A -> A)
    (m : gmap string V) (a : A) : A :=
  range_list f (map_to_list m) a.

(** [l] is a possible iteration order of [m]. *)
Definition iteration_of {V : Type} (l : list (string * V)) (m : gmap string V) : Prop :=
  l ≡ₚ map_to_list m.

Lemma iteration_of_self {V : Type} (m : gmap string V) : iteration_of (map_to_list m) m.
Proof. unfold iteration_of. reflexivity. Qed.

#[export] Hint Resolve iteration_of_self : gomap.

Section range_facts.
Context {V A : Type} (f : string -> V -> A -> A).

Lemma range_list_snoc (l : list (string * V)) (kv : string * V) (a : A) :
  range_list f (l ++ [kv]) a = f kv.1 kv.2 (range_list f l a).
Proof. unfold range_list. by rewrite foldl_app. Qed.

Lemma range_list_ind (P : gmap string V -> A -> Prop) (a : A) (l : list (string * V)) :
  NoDup l.*1 ->
  P ∅ a ->
  (forall k v m b, (k, v) ∈ l -> m !! k = None -> P m b -> P (<[k:=v]> m) (f k v b)) ->
  P (list_to_map l) (range_list f l a).
Proof.
  intros Hnd H0. induction l as [|[k v] l IH] using rev_ind; intros Hstep; [done|].
  rewrite fmap_app, NoDup_app in Hnd. destruct Hnd as (Hnd & Hnin & _).
  rewrite range_list_snoc. rewrite list_to_map_snoc.
  - apply Hstep; [set_solver| |apply IH; [done|]].
    + apply not_elem_of_list_to_map_1. intros Hin. apply (Hnin k Hin). simpl. set_solver.
    + intros k' v' m b Hin. apply Hstep. set_solver.
  - intros Hin. apply (Hnin k Hin). simpl. set_solver.
Qed.

(** Induction over a loop, for every iteration order; the processed entries
    are entries of the map. *)
Lemma range_ind_in (P : gmap string V -> A -> Prop) (a : A)
    (m : gmap string V) (l : list (string * V)) :
  iteration_of l m ->
  P ∅ a ->
  (forall k v m' b, m !! k = Some v -> m' !! k = None -> P m' b ->
     P (<[k:=v]> m') (f k v b)) ->
  P m (range_list f l a).
Proof.
  unfold iteration_of. intros Hl H0 Hstep.
  assert (NoDup l.*1) as Hnd by (rewrite Hl; apply NoDup_fst_map_to_list).
  replace m with (list_to_map l : gmap string V).
  - apply range_list_ind; [done..|]. intros k v m' b Hin. apply Hstep.
    by rewrite <- elem_of_map_to_list, <- Hl.
  - rewrite (list_to_map_proper _ (map_to_list m) Hnd Hl). apply list_to_map_to_list.
Qed.

Lemma range_ind_any (P : gmap string V -> A -> Prop) (a : A)
    (m : gmap string V) (l : list (string * V)) :
  iteration_of l m ->
  P ∅ a ->
  (forall k v m' b, m' !! k = None -> P m' b -> P (<[k:=v]> m') (f k v b)) ->
  P m (range_list f l a).
Proof. intros Hl H0 Hstep. apply range_ind_in; auto. Qed.

Lemma range_ind (P : gmap string V -> A -> Prop) (a : A) (m : gmap string V) :
  P ∅ a ->
  (forall k v m' b, m' !! k = None -> P m' b -> P (<[k:=v]> m') (f k v b)) ->
  P m (range f m a).
Proof. apply range_ind_any, iteration_of_self. Qed.

End range_facts.

(** ** The order on integer maps

    The replicated state is made of maps from keys to versions or counts that
    are compared entry by entry, a missing entry counting as zero. *)

Definition map_le (m1 m2 : gmap string Z) : Prop := forall k, m1.[k] <= m2.[k].

Definition map_sim (m1 m2 : gmap string Z) : Prop := forall k, m1.[k] = m2.[k].

Definition nonneg (m : gmap string Z) : Prop := forall k, 0 <= m.[k].

Infix "⊑" := map_le (at level 70) : go_scope.
Infix "≈" := map_sim (at level 70) : go_scope.

#[export] Instance map_sim_equivalence : Equivalence map_sim.
Proof.
  split.
  - intros m k. done.
  - intros m1 m2 H k. by rewrite H.
  - intros m1 m2 m3 H1 H2 k. by rewrite H1, H2.
Qed.

#[export] Instance map_le_preorder : PreOrder map_le.
Proof.
  split.
  - intros m k. lia.
  - intros m1 m2 m3 H1 H2 k. specialize (H1 k). specialize (H2 k). lia.
Qed.

Lemma map_le_antisym (m1 m2 : gmap string Z) : m1 ⊑ m2 -> m2 ⊑ m1 -> m1 ≈ m2.
Proof. intros H1 H2 k. specialize (H1 k). specialize (H2 k). lia. Qed.

#[export] Instance map_le_proper : Proper (map_sim ==> map_sim ==> iff) map_le.
Proof.
  intros m1 m1' H1 m2 m2' H2.
  split; intros H k; specialize (H k); rewrite ?H1, ?H2 in *; lia.
Qed.

#[export] Instance nonneg_proper : Proper (map_sim ==> iff) nonneg.
Proof. intros m m' H. split; intros Hn k; specialize (Hn k); rewrite ?H in *; lia. Qed.

#[export] Instance get0_proper : Proper (map_sim ==> eq ==> eq) get0.
Proof. intros m m' H k ? <-. apply H. Qed.

Lemma get0_empty (k : string) : get0 ∅ k = 0.
Proof. unfold get0. by rewrite lookup_empty. Qed.

Lemma get0_insert (m : gmap string Z) (k j : string) (v : Z) :
  (<[k:=v]> m).[j] = if decide (k = j) then v else m.[j].
Proof. unfold get0. rewrite lookup_insert. by case_decide. Qed.

Lemma get0_insert_eq (m : gmap string Z) (k : string) (v : Z) : (<[k:=v]> m).[k] = v.
Proof. rewrite get0_insert. by case_decide. Qed.

Lemma get0_insert_ne (m : gmap string Z) (k j : string) (v : Z) :
  k <> j -> (<[k:=v]> m).[j] = m.[j].
Proof. intros ?. rewrite get0_insert. by case_decide. Qed.

Lemma get0_None (m : gmap string Z) (k : string) : m !! k = None -> m.[k] = 0.
Proof. unfold get0. by intros ->. Qed.

Lemma get0_Some (m : gmap string Z) (k : string) (v : Z) : m !! k = Some v -> m.[k] = v.
Proof. unfold get0. by intros ->. Qed.

Lemma nonneg_empty : nonneg ∅.
Proof. intros k. by rewrite get0_empty. Qed.

Lemma nonneg_insert (m : gmap string Z) (k : string) (v : Z) :
  0 <= v -> nonneg m -> nonneg (<[k:=v]> m).
Proof. intros Hv Hm j. rewrite get0_insert. case_decide; auto. Qed.

Lemma map_le_empty (m : gmap string Z) : nonneg m -> ∅ ⊑ m.
Proof. intros H k. rewrite get0_empty. apply H. Qed.

#[export] Hint Resolve nonneg_empty nonneg_insert map_le_empty : gomap.
#[export] Hint Resolve get0_None get0_Some : gomap.

(** The comparisons are decidable: only the keys present matter. *)
Lemma map_le_forall (m1 m2 : gmap string Z) :
  m1 ⊑ m2 <->
  Forall (fun k => m1.[k] <= m2.[k]) ((map_to_list m1).*1 ++ (map_to_list m2).*1).
Proof.
  rewrite Forall_forall. split; [intros H k _; apply H|]. intros H k.
  destruct (m1 !! k) as [v|] eqn:H1.
  { apply H, elem_of_app. left. apply list_elem_of_fmap.
    exists (k, v). by rewrite elem_of_map_to_list. }
  destruct (m2 !! k) as [w|] eqn:H2.
  { apply H, elem_of_app. right. apply list_elem_of_fmap.
    exists (k, w). by rewrite elem_of_map_to_list. }
  unfold get0. by rewrite H1, H2.
Qed.

Lemma map_sim_le (m1 m2 : gmap string Z) : m1 ≈ m2 <-> m1 ⊑ m2 /\ m2 ⊑ m1.
Proof.
  split; [|intros [??]; by apply map_le_antisym].
  intros H. split; intros k; rewrite H; lia.
Qed.

Lemma nonneg_le (m : gmap string Z) : nonneg m <-> ∅ ⊑ m.
Proof. unfold nonneg, map_le. setoid_rewrite get0_empty. done. Qed.

#[export] Instance map_le_dec (m1 m2 : gmap string Z) : Decision (m1 ⊑ m2).
Proof.
  destruct (decide (Forall (fun k => m1.[k] <= m2.[k])
    ((map_to_list m1).*1 ++ (map_to_list m2).*1))); [left|right]; by rewrite map_le_forall.
Defined.

#[export] Instance map_sim_dec (m1 m2 : gmap string Z) : Decision (m1 ≈ m2).
Proof. destruct (decide (m1 ⊑ m2 /\ m2 ⊑ m1)); [left|right]; by rewrite map_sim_le. Defined.

#[export] Instance nonneg_dec (m : gmap string Z) : Decision (nonneg m).
Proof. destruct (decide (∅ ⊑ m)); [left|right]; by rewrite nonneg_le. Defined.

(** Proves a decidable closed statement by evaluation. *)
Ltac by_eval := apply (bool_decide_unpack _); vm_compute; exact I.

(** ** The max-based merge loop

    [for k, v := range src { if v > dst[k] { dst[k] = v } }] *)
Definition max_step (k : string) (v : Z) (dst : gmap string Z) : gmap string Z :=
  if dst.[k] <? v then <[k:=v]> dst else dst.

Definition max_into (src dst : gmap string Z) : gmap string Z := range max_step src dst.

Definition max_spec (src dst : gmap string Z) (k : string) : option Z :=
  match src !! k with
  | Some v => if dst.[k] <? v then Some v else dst !! k
  | None => dst !! k
  end.

(** The outcome of the loop, for every iteration order. *)
Lemma max_loop_lookup (src dst : gmap string Z) (l : list (string * Z)) (k : string) :
  iteration_of l src -> range_list max_step l dst !! k = max_spec src dst k.
Proof.
  intros Hl. revert k.
  apply (range_ind_any max_step
    (fun m b => forall k, b !! k = max_spec m dst k) dst src l Hl).
  - intros k. unfold max_spec. by rewrite lookup_empty.
  - intros k v m b Hk IH j. unfold max_step, max_spec.
    assert (b.[k] = dst.[k]) as Hbk.
    { unfold get0. rewrite IH. unfold max_spec. by rewrite Hk. }
    rewrite Hbk. rewrite lookup_insert. case_decide as Heq; subst.
    + destruct (dst.[j] <? v); [by rewrite lookup_insert_eq|].
      rewrite IH. unfold max_spec. by rewrite Hk.
    + destruct (dst.[k] <? v); [rewrite lookup_insert_ne by done|]; apply IH.
Qed.

Lemma max_into_lookup (src dst : gmap string Z) (k : string) :
  max_into src dst !! k = max_spec src dst k.
Proof. apply max_loop_lookup, iteration_of_self. Qed.

Lemma max_into_get (src dst : gmap string Z) (k : string) :
  (max_into src dst).[k] =
  match src !! k with Some v => Z.max dst.[k] v | None => dst.[k] end.
Proof.
  unfold get0 at 1. rewrite max_into_lookup. unfold max_spec.
  destruct (src !! k) as [v|]; [|done].
  case_bool; [simpl; lia|]. fold (dst.[k]). lia.
Qed.

Lemma max_into_get_nonneg (src dst : gmap string Z) (k : string) :
  nonneg dst -> (max_into src dst).[k] = Z.max dst.[k] src.[k].
Proof.
  intros Hd. rewrite max_into_get. unfold get0 at 4.
  destruct (src !! k); simpl; [done|]. specialize (Hd k). lia.
Qed.

Lemma max_into_nonneg (src dst : gmap string Z) : nonneg dst -> nonneg (max_into src dst).
Proof. intros Hd k. rewrite max_into_get_nonneg by done. specialize (Hd k). lia. Qed.

Lemma max_into_le_dst (src dst : gmap string Z) : dst ⊑ max_into src dst.
Proof. intros k. rewrite max_into_get. destruct (src !! k); lia. Qed.

Lemma max_into_le_src (src dst : gmap string Z) : nonneg dst -> src ⊑ max_into src dst.
Proof. intros Hd k. rewrite max_into_get_nonneg by done. lia. Qed.

Lemma max_into_lub (src dst m : gmap string Z) :
  src ⊑ m -> dst ⊑ m -> max_into src dst ⊑ m.
Proof.
  intros H1 H2 k. specialize (H1 k). specialize (H2 k).
  rewrite max_into_get. unfold get0 in H1 at 1. destruct (src !! k); simpl in *; lia.
Qed.

#[export] Hint Resolve max_into_nonneg max_into_le_dst max_into_le_src max_into_lub : gomap.

(** Merging respects the equivalence once the destination is non-negative. *)
Lemma max_into_sim (src src' dst dst' : gmap string Z) :
  nonneg dst -> src ≈ src' -> dst ≈ dst' -> max_into src dst ≈ max_into src' dst'.
Proof.
  intros Hd Hs Hd' k.
  rewrite !max_into_get_nonneg by (try rewrite <- Hd'; done). by rewrite Hs, Hd'.
Qed.

Lemma max_into_absorb (src dst : gmap string Z) :
  nonneg dst -> src ⊑ dst -> max_into src dst ≈ dst.
Proof.
  intros Hd H k. rewrite max_into_get_nonneg by done. specialize (H k). lia.
Qed.

(** ** Sums over a map

    [var s int64; for k, v := range m { if p(k) { s += v } }] *)
Definition sum_step (p : string -> bool) (k : string) (v : Z) (s : Z) : Z :=
  if p k then wrap64 (s + v) else s.

Definition sum_where (p : string -> bool) (m : gmap string Z) : Z := range (sum_step p) m 0.

(** The mathematical sum the loop computes modulo 2^64. *)
Definition msum (p : string -> bool) (m : gmap string Z) : Z :=
  map_fold (fun k v s => (if p k then v else 0) + s) 0 m.

Lemma msum_empty (p : string -> bool) : msum p ∅ = 0.
Proof. done. Qed.

Lemma msum_insert (p : string -> bool) (m : gmap string Z) (k : string) (v : Z) :
  m !! k = None -> msum p (<[k:=v]> m) = (if p k then v else 0) + msum p m.
Proof. intros Hk. unfold msum. rewrite map_fold_insert_L; [done| |done]. intros; lia. Qed.

Lemma msum_delete (p : string -> bool) (m : gmap string Z) (k : string) :
  msum p m = (if p k then m.[k] else 0) + msum p (delete k m).
Proof.
  unfold get0. destruct (m !! k) as [v|] eqn:Hk.
  - rewrite <- (insert_delete_id m k v Hk) at 1.
    rewrite msum_insert by apply lookup_delete_eq. done.
  - rewrite delete_id by done. destruct (p k); simpl; lia.
Qed.

(** Updating one entry shifts the sum by the difference. *)
Lemma msum_update (p : string -> bool) (m : gmap string Z) (k : string) (v : Z) :
  msum p (<[k:=v]> m) = msum p m + (if p k then v - m.[k] else 0).
Proof.
  rewrite <- insert_delete_eq, msum_insert by apply lookup_delete_eq.
  rewrite (msum_delete p m k). destruct (p k); lia.
Qed.

Lemma msum_zero (p : string -> bool) (m : gmap string Z) :
  (forall k, p k = true -> m.[k] = 0) -> msum p m = 0.
Proof.
  induction m as [|k v m Hk _ IH] using map_first_key_ind; [done|].
  intros Hz. rewrite msum_insert by done. rewrite IH.
  - destruct (p k) eqn:Hp; [|lia]. specialize (Hz k Hp). rewrite get0_insert_eq in Hz. lia.
  - intros j Hj. specialize (Hz j Hj). rewrite get0_insert in Hz.
    case_decide; [subst|done]. by apply get0_None.
Qed.

(** The sum only sees the entries that the predicate selects. *)
Lemma msum_ext (p : string -> bool) (m1 m2 : gmap string Z) :
  (forall k, p k = true -> m1.[k] = m2.[k]) -> msum p m1 = msum p m2.
Proof.
  revert m2. induction m1 as [|k v m1 Hk _ IH] using map_first_key_ind; intros m2 H.
  - symmetry. apply msum_zero. intros k Hp. by rewrite <- H, get0_empty.
  - rewrite msum_insert by done. rewrite (msum_delete p m2 k).
    rewrite (IH (delete k m2)).
    + destruct (p k) eqn:Hp; [|lia]. rewrite <- (H k Hp), get0_insert_eq. lia.
    + intros j Hj. unfold get0 at 2. rewrite lookup_delete. case_decide; [subst|].
      * simpl. by apply get0_None.
      * fold (m2.[j]). rewrite <- H by done. by rewrite get0_insert_ne.
Qed.

Lemma msum_mono (p : string -> bool) (m1 m2 : gmap string Z) :
  (forall k, p k = true -> m1.[k] <= m2.[k]) -> msum p m1 <= msum p m2.
Proof.
  revert m2. induction m1 as [|k v m1 Hk _ IH] using map_first_key_ind; intros m2 H.
  - rewrite msum_empty. revert H. induction m2 as [|k v m2 Hk _ IH2] using map_first_key_ind; [done|].
    intros H. rewrite msum_insert by done.
    assert (0 <= msum p m2).
    { apply IH2. intros j Hj. specialize (H j Hj). rewrite get0_insert in H.
      case_decide; [subst; by rewrite (get0_None m2 j Hk), get0_empty|done]. }
    destruct (p k) eqn:Hp; [|lia]. specialize (H k Hp).
    rewrite get0_insert_eq, get0_empty in H. lia.
  - rewrite msum_insert by done. rewrite (msum_delete p m2 k).
    assert (msum p m1 <= msum p (delete k m2)).
    { apply IH. intros j Hj. unfold get0 at 2. rewrite lookup_delete. case_decide; [subst|].
      - simpl. rewrite (get0_None m1 j Hk). lia.
      - fold (m2.[j]). specialize (H j Hj). by rewrite get0_insert_ne in H. }
    destruct (p k) eqn:Hp; [|lia]. specialize (H k Hp). rewrite get0_insert_eq in H. lia.
Qed.

#[export] Instance msum_proper (p : string -> bool) : Proper (map_sim ==> eq) (msum p).
Proof. intros m1 m2 H. by apply msum_ext. Qed.

(** The loop computes the sum modulo 2^64, in every iteration order. *)
Lemma sum_loop_spec (p : string -> bool) (m : gmap string Z) (l : list (string * Z)) :
  iteration_of l m -> range_list (sum_step p) l 0 = wrap64 (msum p m).
Proof.
  intros Hl.
  apply (range_ind_any (sum_step p) (fun m b => b = wrap64 (msum p m)) 0 m l Hl); [done|].
  intros k v m' b Hk ->. unfold sum_step. rewrite msum_insert by done.
  destruct (p k); [|f_equal; lia]. rewrite wrap64_add_l. f_equal. lia.
Qed.

Lemma sum_where_spec (p : string -> bool) (m : gmap string Z) :
  sum_where p m = wrap64 (msum p m).
Proof. apply sum_loop_spec, iteration_of_self. Qed.

(** ** Deleting while ranging

    [for k := range m { if p(k) { delete(m, k) } }] *)
Definition delete_step {V : Type} (p : string -> bool) (k : string) (_ : V)
    (m : gmap string V) : gmap string V :=
  if p k then delete k m else m.

Definition delete_where {V : Type} (p : string -> bool) (m : gmap string V) : gmap string V :=
  range (delete_step p) m m.

Lemma delete_loop_lookup {V : Type} (p : string -> bool) (m : gmap string V)
    (l : list (string * V)) (k : string) :
  iteration_of l m ->
  range_list (delete_step p) l m !! k = if p k then None else m !! k.
Proof.
  intros Hl.
  cut (forall j, range_list (delete_step p) l m !! j =
    match m !! j with Some _ => if p j then None else m !! j | None => m !! j end).
  { intros H. rewrite H. destruct (m !! k), (p k); done. }
  apply (range_ind_any (delete_step p) (fun m' b => forall j, b !! j =
    match m' !! j with Some _ => if p j then None else m !! j | None => m !! j end) m m l Hl).
  - intros j. by rewrite lookup_empty.
  - intros i v m' b Hi IH j. unfold delete_step. rewrite lookup_insert.
    case_decide as Heq; subst.
    + destruct (p j); [apply lookup_delete_eq|]. rewrite IH. by rewrite Hi.
    + destruct (p i); [rewrite lookup_delete_ne by done|]; apply IH.
Qed.

Lemma delete_where_lookup {V : Type} (p : string -> bool) (m : gmap string V) (k : string) :
  delete_where p m !! k = if p k then None else m !! k.
Proof. apply delete_loop_lookup, iteration_of_self. Qed.

Lemma delete_where_get (p : string -> bool) (m : gmap string Z) (k : string) :
  (delete_where p m).[k] = if p k then 0 else m.[k].
Proof. unfold get0. rewrite delete_where_lookup. by destruct (p k). Qed.

Lemma delete_where_nonneg (p : string -> bool) (m : gmap string Z) :
  nonneg m -> nonneg (delete_where p m).
Proof. intros H k. rewrite delete_where_get. destruct (p k); [done|apply H]. Qed.

#[export] Hint Resolve delete_where_nonneg : gomap.

(** ** Copying a map

    [res := make(map[string]T); for k, v := range m { res[k] = v }] *)
Definition copy_step {V : Type} (k : string) (v : V) (res : gmap string V) : gmap string V :=
  <[k:=v]> res.

Definition copy_map {V : Type} (m : gmap string V) : gmap string V := range copy_step m ∅.

Lemma copy_map_id {V : Type} (m : gmap string V) : copy_map m = m.
Proof.
  apply (range_ind copy_step (fun m b => b = m)); [done|]. intros k v m' b _ ->. done.
Qed.

#[export] Hint Rewrite @copy_map_id : goint_rw.

(** ** Go strings are byte strings *)

(** [strings.HasPrefix(s, p)] *)
Fixpoint HasPrefix (s p : string) : bool :=
  match p, s with
  | EmptyString, _ => true
  | String a p', String b s' => Ascii.eqb a b && HasPrefix s' p'
  | String _ _, EmptyString => false
  end.

(** [strings.Contains(s, ":")] for a one-byte pattern. *)
Fixpoint ContainsByte (s : string) (c : ascii) : bool :=
  match s with
  | EmptyString => false
  | String a s' => Ascii.eqb a c || ContainsByte s' c
  end.

(** [strings.IndexByte(s, c)]: the first position of the byte, or -1. *)
Fixpoint IndexByte (s : string) (c : ascii) : Z :=
  match s with
  | EmptyString => -1
  | String a s' =>
      if Ascii.eqb a c then 0
      else let i := IndexByte s' c in if i <? 0 then -1 else i + 1
  end.

(** [s[:n]] *)
Fixpoint str_take (n : nat) (s : string) : string :=
  match n, s with
  | O, _ => ""
  | S n', String a s' => String a (str_take n' s')
  | S _, EmptyString => ""
  end.

Definition colon : ascii := ":"%char.

Lemma str_app_assoc (a b c : string) : (a +:+ b) +:+ c = a +:+ (b +:+ c).
Proof.
  induction a as [|x a IH]; [done|]. change (String x ((a +:+ b) +:+ c) =
    String x (a +:+ (b +:+ c))). by rewrite IH.
Qed.

Lemma str_app_nil_r (a : string) : a +:+ "" = a.
Proof.
  induction a as [|x a IH]; [done|]. change (String x (a +:+ "") = String x a). by rewrite IH.
Qed.

Lemma str_app_length (a b : string) :
  String.length (a +:+ b) = (String.length a + String.length b)%nat.
Proof.
  induction a as [|x a IH]; [done|].
  change (S (String.length (a +:+ b)) = S (String.length a + String.length b)). by rewrite IH.
Qed.

Lemma str_app_inj_r (a b s : string) : a +:+ s = b +:+ s -> a = b.
Proof.
  revert b. induction a as [|c a IH]; intros [|c' b] Hs; try done.
  - apply (f_equal String.length) in Hs. rewrite !str_app_length in Hs. simpl in Hs. lia.
  - apply (f_equal String.length) in Hs. rewrite !str_app_length in Hs. simpl in Hs. lia.
  - injection Hs as -> Hs. f_equal. by apply IH.
Qed.

Lemma HasPrefix_spec (s p : string) : HasPrefix s p = true <-> exists r, s = p +:+ r.
Proof.
  revert s. induction p as [|a p IH]; intros s.
  - split; [by exists s|by destruct s].
  - destruct s as [|b s]; simpl.
    + split; [done|]. by intros [r Hr].
    + rewrite andb_true_iff, Ascii.eqb_eq, IH. split.
      * intros [-> [r ->]]. by exists r.
      * intros [r Hr]. injection Hr as -> ->. eauto.
Qed.

Lemma ContainsByte_app (a b : string) (c : ascii) :
  ContainsByte (a +:+ b) c = ContainsByte a c || ContainsByte b c.
Proof.
  induction a as [|x a IH]; [done|].
  change (Ascii.eqb x c || ContainsByte (a +:+ b) c =
          Ascii.eqb x c || ContainsByte a c || ContainsByte b c).
  by rewrite IH, orb_assoc.
Qed.

(** Two byte-free heads before the same separator are equal. *)
Lemma split_at_unique (a b r s : string) (c : ascii) :
  ContainsByte a c = false -> ContainsByte b c = false ->
  a +:+ String c r = b +:+ String c s -> a = b /\ r = s.
Proof.
  revert b. induction a as [|x a IH]; intros [|y b] Ha Hb Heq; simpl in *.
  - by injection Heq.
  - injection Heq as -> _. rewrite Ascii.eqb_refl in Hb. done.
  - injection Heq as -> _. rewrite Ascii.eqb_refl in Ha. done.
  - apply orb_false_iff in Ha as [_ Ha], Hb as [_ Hb].
    injection Heq as -> Heq. destruct (IH b Ha Hb Heq) as [-> ->]. done.
Qed.

Lemma IndexByte_neg (s : string) (c : ascii) :
  ContainsByte s c = false -> IndexByte s c = -1.
Proof.
  induction s as [|x s IH]; [done|]. simpl. intros [-> H]%orb_false_iff. by rewrite IH.
Qed.

Lemma IndexByte_app (a r : string) (c : ascii) :
  ContainsByte a c = false -> IndexByte (a +:+ String c r) c = Z.of_nat (String.length a).
Proof.
  induction a as [|x a IH]; intros Ha.
  - change (IndexByte (String c r) c = 0). simpl. by rewrite Ascii.eqb_refl.
  - simpl in Ha. apply orb_false_iff in Ha as [Hx Ha].
    change (IndexByte (String x (a +:+ String c r)) c = Z.of_nat (S (String.length a))).
    simpl. rewrite Hx, IH by done. case_bool; lia.
Qed.

Lemma str_take_app (a r : string) : str_take (String.length a) (a +:+ r) = a.
Proof. induction a as [|x a IH]; [by destruct r|]. by f_equal/=. Qed.

Lemma ContainsByte_split (s : string) (c : ascii) :
  ContainsByte s c = true ->
  exists a r, s = a +:+ String c r /\ ContainsByte a c = false.
Proof.
  induction s as [|x s IH]; [done|]. simpl. destruct (Ascii.eqb_spec x c) as [->|Hx].
  - intros _. by exists "", s.
  - intros H. destruct (IH H) as (a & r & -> & Ha). exists (String x a), r. split; [done|].
    simpl. destruct (Ascii.eqb_spec x c); [done|]. by rewrite Ha.
Qed.

(** ** [sort.Strings] *)

Definition sort_strings (l : list string) : list string := merge_sort String.le l.

Lemma sort_strings_sorted (l : list string) : StronglySorted String.le (sort_strings l).
Proof. apply StronglySorted_merge_sort; apply _. Qed.

Lemma sort_strings_perm (l : list string) : sort_strings l ≡ₚ l.
Proof. apply merge_sort_Permutation. Qed.

(** Sorting a duplicate-free list gives one result whatever the order it came
    in, so that the names below do not depend on the iteration order. *)
Lemma sort_strings_unique (l1 l2 : list string) :
  l1 ≡ₚ l2 -> sort_strings l1 = sort_strings l2.
Proof.
  intros H. apply (StronglySorted_unique String.le); [apply sort_strings_sorted..|].
  by rewrite !sort_strings_perm.
Qed.

(** ** Time

    A [time.Time] is the number of nanoseconds since the zero [time.Time]; a
    [time.Duration] is an [int64] number of nanoseconds. *)

Definition zeroTime : Z := 0.

Definition Second : Z := 1000000000.

Definition Millisecond : Z := 1000000.

Definition maxDuration : Z := 2 ^ 63 - 1.

Definition minDuration : Z := - 2 ^ 63.

(** [t.Sub(u)] saturates at the largest and smallest duration. *)
Definition time_Sub (t u : Z) : Z := Z.max minDuration (Z.min maxDuration (t - u)).

(** [t.Add(d)] *)
Definition time_Add (t d : Z) : Z := t + d.

(** [t.Before(u)] *)
Definition time_Before (t u : Z) : bool := t <? u.

(** Seconds from the zero time to the Unix epoch, [t.Unix()] and
    [time.Unix(s, 0)]. *)
Definition unixEpoch : Z := 62135596800.

Definition time_Unix (t : Z) : Z := t / Second - unixEpoch.

Definition unix_Time (s : Z) : Z := (s + unixEpoch) * Second.

Lemma unix_roundtrip (s : Z) : time_Unix (unix_Time s) = s.
Proof. unfold time_Unix, unix_Time. rewrite Z.div_mul; [lia|done]. Qed.
