(* ===== verification/Lattice.v ===== *)
(** * Join states: the interface between the replicated data and its clients

    The gossip protocol only relies on a merge being an upper bound that is
    below every other upper bound.  [JoinState] states that promise; the
    counters and the vector clocks discharge it, and convergence is proved
    against the interface. *)

From stdpp Require Import options.
From S2P Require Import Prelude.

Class JoinState (S : Type) := {
  js_le : relation S;
  js_wf : S -> Prop;
  js_join : S -> S -> S;
  js_preorder :: PreOrder js_le;
  js_join_wf : forall s t, js_wf s -> js_wf t -> js_wf (js_join s t);
  js_join_l : forall s t, js_wf s -> js_le s (js_join s t);
  js_join_r : forall s t, js_wf s -> js_le t (js_join s t);
  js_join_lub : forall s t u, js_le s u -> js_le t u -> js_le (js_join s t) u;
}.

Definition js_sim {S : Type} `{JoinState S} (s t : S) : Prop := js_le s t /\ js_le t s.

(** Merging a sequence of received states into a local one. *)
Definition deliver {S : Type} `{JoinState S} (s : S) (l : list S) : S := foldl js_join s l.

Section facts.
Context {S : Type} `{JoinState S}.

#[export] Instance js_sim_equivalence : Equivalence js_sim.
Proof.
  split.
  - intros s. split; reflexivity.
  - intros s t [H1 H2]. by split.
  - intros s t u [H1 H2] [H3 H4]. split; etrans; eauto.
Qed.

Lemma join_comm (s t : S) : js_wf s -> js_wf t -> js_sim (js_join s t) (js_join t s).
Proof. intros Hs Ht. split; apply js_join_lub; auto using js_join_l, js_join_r. Qed.

Lemma join_idem (s : S) : js_wf s -> js_sim (js_join s s) s.
Proof. intros Hs. split; [by apply js_join_lub|by apply js_join_l]. Qed.

Lemma join_assoc (s t u : S) : js_wf s -> js_wf t -> js_wf u ->
  js_sim (js_join s (js_join t u)) (js_join (js_join s t) u).
Proof.
  intros Hs Ht Hu. pose proof (js_join_wf s t Hs Ht) as Hst.
  split; repeat apply js_join_lub.
  - etrans; [by apply (js_join_l s t)|by apply js_join_l].
  - etrans; [by apply (js_join_r s t)|by apply js_join_l].
  - by apply js_join_r.
  - by apply js_join_l.
  - etrans; [by apply (js_join_l t u)|by apply js_join_r].
  - etrans; [by apply (js_join_r t u)|by apply js_join_r].
Qed.

Lemma join_absorb (s t : S) : js_wf s -> js_le t s -> js_sim (js_join s t) s.
Proof. intros Hs Hle. split; [by apply js_join_lub|by apply js_join_l]. Qed.

Lemma deliver_wf (s : S) (l : list S) : js_wf s -> Forall js_wf l -> js_wf (deliver s l).
Proof.
  intros Hs Hl. revert s Hs. induction Hl as [|t l Ht Hl IH]; intros s Hs; [done|].
  apply IH. by apply js_join_wf.
Qed.

(** The delivered state is the least upper bound of everything received. *)
Lemma deliver_start (s : S) (l : list S) :
  js_wf s -> Forall js_wf l -> js_le s (deliver s l).
Proof.
  intros Hs Hl. revert s Hs. induction Hl as [|t l Ht Hl IH]; intros s Hs; [done|].
  etrans; [by apply (js_join_l s t)|]. apply IH. by apply js_join_wf.
Qed.

Lemma deliver_member (s t : S) (l : list S) :
  js_wf s -> Forall js_wf l -> t ∈ l -> js_le t (deliver s l).
Proof.
  intros Hs Hl. revert s Hs. induction Hl as [|u l Hu Hl IH]; intros s Hs Ht.
  - by apply not_elem_of_nil in Ht.
  - pose proof (js_join_wf s u Hs Hu) as Hsu. apply elem_of_cons in Ht as [->|Ht].
    + etrans; [by apply (js_join_r s u)|]. by apply (deliver_start (js_join s u) l).
    + by apply IH.
Qed.

Lemma deliver_lub (s u : S) (l : list S) :
  js_le s u -> (forall t, t ∈ l -> js_le t u) -> js_le (deliver s l) u.
Proof.
  revert s. induction l as [|t l IH]; intros s Hs Hl; [done|].
  apply IH; [|set_solver]. apply js_join_lub; [done|]. apply Hl. set_solver.
Qed.

(** Delivery in any order, with any repetition, gives equivalent states. *)
Lemma deliver_sim (s : S) (l1 l2 : list S) :
  js_wf s -> Forall js_wf l1 -> Forall js_wf l2 -> (forall t, t ∈ l1 <-> t ∈ l2) ->
  js_sim (deliver s l1) (deliver s l2).
Proof.
  intros Hs H1 H2 Heq. split; apply deliver_lub; try by apply deliver_start.
  - intros t Ht. apply deliver_member; [done..|]. by apply Heq.
  - intros t Ht. apply deliver_member; [done..|]. by apply Heq.
Qed.

End facts.
