(* ===== verification/PNCounter.v ===== *)
(** * The PN-counter (internal/crdt/pn_counter.go)

    One instance holds every named counter of a replica: the contribution of
    replica [n] to counter [c] is the entry [counterKey c n] of the two maps. *)

From stdpp Require Import options.
From S2P Require Import Prelude Lattice.

(** ** Data *)

Record PNCounter := mkPNCounter {
  positive : gmap string Z;
  negative : gmap string Z;
  pn_nodeID : string;
}.

Definition NewPNCounter (nodeID : string) : PNCounter :=
  {| positive := ∅; negative := ∅; pn_nodeID := nodeID |}.

Definition with_positive (p : PNCounter) (m : gmap string Z) : PNCounter :=
  {| positive := m; negative := negative p; pn_nodeID := pn_nodeID p |}.

Definition with_negative (p : PNCounter) (m : gmap string Z) : PNCounter :=
  {| positive := positive p; negative := m; pn_nodeID := pn_nodeID p |}.

(** ** Keys *)

(** [name == "" || name == "default"] *)
Definition is_default (name : string) : bool :=
  String.eqb name "" || String.eqb name "default".

Definition counterKey (name nodeID : string) : string :=
  if is_default name then nodeID else name +:+ ":" +:+ nodeID.

Definition keyBelongsTo (name key : string) : bool :=
  if is_default name
  then negb (ContainsByte key colon) || HasPrefix key "default:"
  else HasPrefix key (name +:+ ":").

(** ** Operations *)

(** [m[k] += d] *)
Definition add_at (m : gmap string Z) (k : string) (d : Z) : gmap string Z :=
  <[k := wrap64 (m.[k] + d)]> m.

Definition Increment (p : PNCounter) (delta : Z) : PNCounter :=
  with_positive p (add_at (positive p) (pn_nodeID p) delta).

Definition Decrement (p : PNCounter) (delta : Z) : PNCounter :=
  with_negative p (add_at (negative p) (pn_nodeID p) delta).

Definition IncrementName (p : PNCounter) (name : string) (delta : Z) : PNCounter :=
  with_positive p (add_at (positive p) (counterKey name (pn_nodeID p)) delta).

Definition DecrementName (p : PNCounter) (name : string) (delta : Z) : PNCounter :=
  with_negative p (add_at (negative p) (counterKey name (pn_nodeID p)) delta).

Definition ValueName (p : PNCounter) (name : string) : Z :=
  let pos := sum_where (keyBelongsTo name) (positive p) in
  let neg := sum_where (keyBelongsTo name) (negative p) in
  wrap64 (pos - neg).

Definition ResetName (p : PNCounter) (name : string) : PNCounter :=
  if is_default name then
    let owned k := negb (ContainsByte k colon) || HasPrefix k "default:" in
    let p := with_positive p (delete_where owned (positive p)) in
    with_negative p (delete_where owned (negative p))
  else
    let prefix := name +:+ ":" in
    let owned k := HasPrefix k prefix in
    let p := with_positive p (delete_where owned (positive p)) in
    with_negative p (delete_where owned (negative p)).

(** [if i := strings.IndexByte(k, ':'); i > 0 { seen[k[:i]] = true }] *)
Definition names_step {V : Type} (k : string) (_ : V) (seen : gset string) : gset string :=
  let i := IndexByte k colon in
  if 0 <? i then {[ str_take (Z.to_nat i) k ]} ∪ seen else seen.

Definition Names (p : PNCounter) : list string :=
  let seen := range names_step (positive p) ∅ in
  let seen := range names_step (negative p) seen in
  sort_strings (elements seen).

Definition Reset (p : PNCounter) : PNCounter :=
  {| positive := ∅; negative := ∅; pn_nodeID := pn_nodeID p |}.

Definition Value (p : PNCounter) : Z :=
  let pos := sum_where (fun _ => true) (positive p) in
  let neg := sum_where (fun _ => true) (negative p) in
  wrap64 (pos - neg).

Definition Merge (p other : PNCounter) : PNCounter :=
  let p := with_positive p (max_into (positive other) (positive p)) in
  with_negative p (max_into (negative other) (negative p)).

Definition SetPositive (p : PNCounter) (state : gmap string Z) : PNCounter :=
  with_positive p (copy_map state).

Definition SetNegative (p : PNCounter) (state : gmap string Z) : PNCounter :=
  with_negative p (copy_map state).

Definition Positive (p : PNCounter) : gmap string Z := copy_map (positive p).

Definition Negative (p : PNCounter) : gmap string Z := copy_map (negative p).

(** [remote := crdt.NewPNCounter(id); remote.SetPositive(pos);
    remote.SetNegative(neg)], the way every receiver rebuilds a counter. *)
Definition remote_counter (id : string) (pos neg : gmap string Z) : PNCounter :=
  SetNegative (SetPositive (NewPNCounter id) pos) neg.

(** ** Equivalence, order and well-formedness

    A missing entry and a zero entry are the same count. *)

Definition pn_sim (p q : PNCounter) : Prop :=
  positive p ≈ positive q /\ negative p ≈ negative q.

Definition pn_le (p q : PNCounter) : Prop :=
  positive p ⊑ positive q /\ negative p ⊑ negative q.

Definition pn_wf (p : PNCounter) : Prop := nonneg (positive p) /\ nonneg (negative p).

#[export] Instance pn_sim_equivalence : Equivalence pn_sim.
Proof.
  split.
  - intros p. split; reflexivity.
  - intros p q [H1 H2]. by split; symmetry.
  - intros p q r [H1 H2] [H3 H4]. split; etrans; eauto.
Qed.

#[export] Instance pn_le_preorder : PreOrder pn_le.
Proof.
  split.
  - intros p. split; reflexivity.
  - intros p q r [H1 H2] [H3 H4]. split; etrans; eauto.
Qed.

#[export] Instance pn_wf_dec (p : PNCounter) : Decision (pn_wf p).
Proof. unfold pn_wf. apply _. Defined.

#[export] Instance pn_sim_dec (p q : PNCounter) : Decision (pn_sim p q).
Proof. unfold pn_sim. apply _. Defined.

#[export] Instance PNCounter_eq_dec : EqDecision PNCounter.
Proof. solve_decision. Defined.

Lemma remote_counter_eq (id : string) (pos neg : gmap string Z) :
  remote_counter id pos neg = {| positive := pos; negative := neg; pn_nodeID := id |}.
Proof.
  unfold remote_counter, SetNegative, SetPositive, with_negative, with_positive.
  simpl. by rewrite !copy_map_id.
Qed.

(** ** Values *)

Lemma ValueName_eq (p : PNCounter) (name : string) :
  ValueName p name =
  wrap64 (msum (keyBelongsTo name) (positive p) - msum (keyBelongsTo name) (negative p)).
Proof. unfold ValueName. by rewrite !sum_where_spec, wrap64_sub. Qed.

Lemma Value_eq (p : PNCounter) :
  Value p = wrap64 (msum (fun _ => true) (positive p) - msum (fun _ => true) (negative p)).
Proof. unfold Value. by rewrite !sum_where_spec, wrap64_sub. Qed.

#[export] Instance ValueName_proper : Proper (pn_sim ==> eq ==> eq) ValueName.
Proof. intros p q [H1 H2] n ? <-. by rewrite !ValueName_eq, H1, H2. Qed.

#[export] Instance Value_proper : Proper (pn_sim ==> eq) Value.
Proof. intros p q [H1 H2]. by rewrite !Value_eq, H1, H2. Qed.

(** ** Keys and namespaces *)

Definition colon_free (s : string) : Prop := ContainsByte s colon = false.

(** The two names denote the same counter. *)
Definition same_counter (n1 n2 : string) : bool :=
  (is_default n1 && is_default n2) || String.eqb n1 n2.

Lemma key_named_prefix (name key : string) :
  HasPrefix key (name +:+ ":") = true <-> exists r, key = name +:+ String colon r.
Proof.
  rewrite HasPrefix_spec. split; intros [r ->]; exists r; by rewrite str_app_assoc.
Qed.

Lemma ContainsByte_named (name r : string) : ContainsByte (name +:+ String colon r) colon = true.
Proof. rewrite ContainsByte_app. simpl. by rewrite orb_true_r. Qed.

Lemma HasPrefix_named (n1 n2 r : string) :
  colon_free n1 -> colon_free n2 -> n1 <> n2 ->
  HasPrefix (n1 +:+ String colon r) (n2 +:+ ":") = false.
Proof.
  intros H1 H2 Hne. apply not_true_iff_false. rewrite key_named_prefix. intros [s Hs].
  apply Hne. by apply (split_at_unique n1 n2 r s colon).
Qed.

Lemma HasPrefix_colon_free (n key : string) :
  colon_free key -> HasPrefix key (n +:+ ":") = false.
Proof.
  intros Hk. apply not_true_iff_false. rewrite key_named_prefix. intros [r ->].
  unfold colon_free in Hk. by rewrite ContainsByte_named in Hk.
Qed.

(** A replica's own key lies in the counter's namespace. *)
Lemma counterKey_belongs (name node : string) :
  colon_free node -> keyBelongsTo name (counterKey name node) = true.
Proof.
  intros Hn. unfold keyBelongsTo, counterKey. destruct (is_default name) eqn:Hd.
  - by rewrite Hn.
  - apply key_named_prefix. by exists node.
Qed.

(** Namespaces of distinct colon-free names are disjoint. *)
Lemma counterKey_foreign (n1 n2 node : string) :
  colon_free node -> colon_free n1 -> colon_free n2 -> same_counter n1 n2 = false ->
  keyBelongsTo n2 (counterKey n1 node) = false.
Proof.
  intros Hnode H1 H2 [Hd Hne]%orb_false_iff. apply String.eqb_neq in Hne.
  unfold keyBelongsTo, counterKey.
  destruct (is_default n1) eqn:Hd1, (is_default n2) eqn:Hd2; [done| | |].
  - by apply HasPrefix_colon_free.
  - change (n1 +:+ ":" +:+ node) with (n1 +:+ String colon node).
    rewrite ContainsByte_named. simpl.
    change "default:" with ("default" +:+ ":").
    apply HasPrefix_named; [done|done|]. intros ->. done.
  - by apply HasPrefix_named.
Qed.

(** The keys of "parent:sub" lie in the namespace of "parent". *)
Lemma counterKey_nested (parent sub node : string) :
  is_default parent = false -> keyBelongsTo parent (counterKey (parent +:+ ":" +:+ sub) node) = true.
Proof.
  intros Hd. unfold keyBelongsTo. rewrite Hd. apply key_named_prefix. unfold counterKey.
  destruct (is_default (parent +:+ ":" +:+ sub)) eqn:Hd2; [|eexists; by rewrite str_app_assoc].
  exfalso. apply orb_true_iff in Hd2 as [H|H]; apply String.eqb_eq in H; [by destruct parent|].
  apply (f_equal (fun s => ContainsByte s colon)) in H.
  change (parent +:+ ":" +:+ sub) with (parent +:+ String colon sub) in H. by rewrite ContainsByte_named in H.
Qed.

(** A key of the maps belongs to at most one colon-free counter name. *)
Lemma keyBelongsTo_disjoint (n1 n2 key : string) :
  colon_free n1 -> colon_free n2 -> same_counter n1 n2 = false ->
  keyBelongsTo n1 key = true -> keyBelongsTo n2 key = false.
Proof.
  intros H1 H2 [Hd Hne]%orb_false_iff. apply String.eqb_neq in Hne.
  assert (colon_free "default") as Hdef by done.
  assert (forall a b, colon_free a -> colon_free b -> is_default a = true ->
    is_default b = false -> keyBelongsTo a key = true -> keyBelongsTo b key = false) as Hone.
  { intros a b Ha Hb Hda Hdb. unfold keyBelongsTo. rewrite Hda, Hdb.
    intros [Hc|Hp]%orb_true_iff.
    - apply HasPrefix_colon_free. by apply negb_true_iff in Hc.
    - change "default:" with ("default" +:+ ":") in Hp.
      apply key_named_prefix in Hp as [r ->]. apply HasPrefix_named; [done|done|].
      intros <-. done. }
  destruct (is_default n1) eqn:Hd1, (is_default n2) eqn:Hd2; [done| | |].
  - by apply Hone.
  - intros Hk. apply not_true_iff_false. intros Hk2.
    pose proof (Hone n2 n1 H2 H1 Hd2 Hd1 Hk2). congruence.
  - unfold keyBelongsTo. rewrite Hd1, Hd2.
    intros [r ->]%key_named_prefix. by apply HasPrefix_named.
Qed.

(** The replica that writes a key: what follows its last colon. *)
Fixpoint key_owner (key : string) : string :=
  match key with
  | EmptyString => ""
  | String c rest =>
      if ContainsByte key colon then
        if ContainsByte rest colon then key_owner rest else
        if Ascii.eqb c colon then rest else key_owner rest
      else key
  end.

Lemma key_owner_free (s : string) : colon_free s -> key_owner s = s.
Proof. unfold colon_free. destruct s; [done|]. simpl. by intros ->. Qed.

Lemma key_owner_app (a s : string) : colon_free s -> key_owner (a +:+ String colon s) = s.
Proof.
  intros Hs. unfold colon_free in Hs. induction a as [|x a IH].
  - change (key_owner (String colon s) = s). simpl. by rewrite Hs.
  - change (key_owner (String x (a +:+ String colon s)) = s). simpl.
    rewrite !ContainsByte_named, orb_true_r. done.
Qed.

(** Colon-free replica ids write disjoint sets of keys, whatever the counter
    names are. *)
Lemma key_owner_counterKey (name node : string) :
  colon_free node -> key_owner (counterKey name node) = node.
Proof.
  intros Hn. unfold counterKey. destruct (is_default name).
  - by apply key_owner_free.
  - by apply key_owner_app.
Qed.

(** ** Well-formedness of the operations *)

Lemma pn_wf_new (n : string) : pn_wf (NewPNCounter n).
Proof. split; apply nonneg_empty. Qed.

Lemma pn_wf_merge (p q : PNCounter) : pn_wf p -> pn_wf (Merge p q).
Proof. intros [H1 H2]. split; simpl; auto with gomap. Qed.

Lemma add_at_get (m : gmap string Z) (k j : string) (d : Z) :
  (add_at m k d).[j] = if decide (k = j) then wrap64 (m.[k] + d) else m.[j].
Proof. unfold add_at. by rewrite get0_insert. Qed.

Lemma add_at_nonneg (m : gmap string Z) (k : string) (d : Z) :
  nonneg m -> 0 <= d -> m.[k] + d < 2 ^ 63 -> nonneg (add_at m k d).
Proof.
  intros Hm Hd Hb. apply nonneg_insert; [|done]. specialize (Hm k).
  rewrite wrap64_id; unfold in_int64; lia.
Qed.

Lemma add_at_le (m : gmap string Z) (k : string) (d : Z) :
  nonneg m -> 0 <= d -> m.[k] + d < 2 ^ 63 -> m ⊑ add_at m k d.
Proof.
  intros Hm Hd Hb j. rewrite add_at_get. case_decide; [subst|lia].
  specialize (Hm j). rewrite wrap64_id; unfold in_int64; lia.
Qed.

Lemma pn_wf_increment (p : PNCounter) (name : string) (d : Z) :
  pn_wf p -> 0 <= d -> (positive p).[counterKey name (pn_nodeID p)] + d < 2 ^ 63 ->
  pn_wf (IncrementName p name d).
Proof. intros [H1 H2] Hd Hb. split; [by apply add_at_nonneg|done]. Qed.

Lemma pn_wf_decrement (p : PNCounter) (name : string) (d : Z) :
  pn_wf p -> 0 <= d -> (negative p).[counterKey name (pn_nodeID p)] + d < 2 ^ 63 ->
  pn_wf (DecrementName p name d).
Proof. intros [H1 H2] Hd Hb. split; [done|by apply add_at_nonneg]. Qed.

Lemma pn_wf_reset (p : PNCounter) (name : string) : pn_wf p -> pn_wf (ResetName p name).
Proof.
  intros [H1 H2]. unfold ResetName. destruct (is_default name); split; simpl; auto with gomap.
Qed.

#[export] Hint Resolve pn_wf_new pn_wf_merge pn_wf_increment pn_wf_decrement pn_wf_reset : gomap.

(** The counter promises the join interface to the gossip protocol. *)
#[export, refine] Instance PNCounter_join : JoinState PNCounter :=
  {| js_le := pn_le; js_wf := pn_wf; js_join := Merge |}.
Proof.
  - auto with gomap.
  - intros s t [H1 H2]. split; simpl; auto with gomap.
  - intros s t [H1 H2]. split; simpl; auto with gomap.
  - intros s t u [H1 H2] [H3 H4]. split; simpl; auto with gomap.
Defined.

Lemma pn_sim_js (p q : PNCounter) : js_sim p q <-> pn_sim p q.
Proof.
  split.
  - intros [[H1 H2] [H3 H4]]. split; by apply map_le_antisym.
  - intros [H1 H2]. split; split; simpl; [rewrite H1|rewrite H2|rewrite H1|rewrite H2]; done.
Qed.

(** ** Reset *)

Lemma ResetName_positive (p : PNCounter) (name : string) :
  positive (ResetName p name) = delete_where (keyBelongsTo name) (positive p).
Proof. unfold ResetName, keyBelongsTo. by destruct (is_default name). Qed.

Lemma ResetName_negative (p : PNCounter) (name : string) :
  negative (ResetName p name) = delete_where (keyBelongsTo name) (negative p).
Proof. unfold ResetName, keyBelongsTo. by destruct (is_default name). Qed.

Lemma msum_delete_own (name : string) (m : gmap string Z) :
  msum (keyBelongsTo name) (delete_where (keyBelongsTo name) m) = 0.
Proof. apply msum_zero. intros k Hk. by rewrite delete_where_get, Hk. Qed.

Lemma msum_delete_other (n1 n2 : string) (m : gmap string Z) :
  colon_free n1 -> colon_free n2 -> same_counter n1 n2 = false ->
  msum (keyBelongsTo n2) (delete_where (keyBelongsTo n1) m) = msum (keyBelongsTo n2) m.
Proof.
  intros H1 H2 Hs. apply msum_ext. intros k Hk. rewrite delete_where_get.
  destruct (keyBelongsTo n1 k) eqn:Hk1; [|done].
  pose proof (keyBelongsTo_disjoint n1 n2 k H1 H2 Hs Hk1). congruence.
Qed.

(** ** Names *)

(** [n] is the text before the first colon of [k], and is not empty. *)
Definition names_key (n k : string) : Prop :=
  n <> "" /\ colon_free n /\ exists r, k = n +:+ String colon r.

Lemma names_step_elem {V : Type} (k : string) (v : V) (seen : gset string) (n : string) :
  n ∈ names_step k v seen <-> names_key n k \/ n ∈ seen.
Proof.
  unfold names_step. destruct (ContainsByte k colon) eqn:Hc.
  - destruct (ContainsByte_split k colon Hc) as (a & r & -> & Ha).
    rewrite IndexByte_app by done. rewrite Nat2Z.id, str_take_app.
    assert (names_key n (a +:+ String colon r) <-> n = a /\ a <> "") as ->.
    { split.
      - intros (Hn & Hf & s & Hs).
        destruct (split_at_unique a n r s colon Ha Hf Hs) as [-> _]. done.
      - intros [-> Hne]. split_and!; [done|done|by exists r]. }
    destruct a as [|x a]; simpl; case_bool; try lia; set_solver.
  - rewrite IndexByte_neg by done. simpl. split; [by right|].
    intros [(_ & _ & r & ->)|?]; [|done]. by rewrite ContainsByte_named in Hc.
Qed.

Lemma names_loop_elem {V : Type} (m : gmap string V) (seen : gset string) (n : string) :
  n ∈ range names_step m seen <-> (exists k, k ∈ dom m /\ names_key n k) \/ n ∈ seen.
Proof.
  revert n. apply (range_ind names_step
    (fun m b => forall n, n ∈ b <-> (exists k, k ∈ dom m /\ names_key n k) \/ n ∈ seen)).
  - intros n. split; [by right|]. intros [(k & Hk & _)|?]; [set_solver|done].
  - intros k v m' b _ IH n. rewrite names_step_elem, IH.
    setoid_rewrite dom_insert_L. setoid_rewrite elem_of_union.
    setoid_rewrite elem_of_singleton. naive_solver.
Qed.

(** *** Values after an update *)

(** The counters an update of [name] moves are those its key belongs to. *)
Lemma ValueName_incremented (p : PNCounter) (name other : string) (d : Z) :
  ValueName (IncrementName p name d) other =
  if keyBelongsTo other (counterKey name (pn_nodeID p)) then wrap64 (ValueName p other + d)
  else ValueName p other.
Proof.
  rewrite !ValueName_eq. unfold IncrementName, add_at. simpl. rewrite msum_update.
  destruct (keyBelongsTo other _); [|by rewrite Z.add_0_r]. rewrite wrap64_add_l. apply wrap64_eq.
  destruct (wrap64_decomp ((positive p).[counterKey name (pn_nodeID p)] + d)) as [n ->].
  exists n. lia.
Qed.

Lemma ValueName_decremented (p : PNCounter) (name other : string) (d : Z) :
  ValueName (DecrementName p name d) other =
  if keyBelongsTo other (counterKey name (pn_nodeID p)) then wrap64 (ValueName p other - d)
  else ValueName p other.
Proof.
  rewrite !ValueName_eq. unfold DecrementName, add_at. simpl. rewrite msum_update.
  destruct (keyBelongsTo other _); [|by rewrite Z.add_0_r].
  rewrite <- (Z.add_opp_r (wrap64 _) d), wrap64_add_l. apply wrap64_eq.
  destruct (wrap64_decomp ((negative p).[counterKey name (pn_nodeID p)] + d)) as [n ->].
  exists (- n). lia.
Qed.

Lemma ValueName_increment (p : PNCounter) (name : string) (d : Z) :
  colon_free (pn_nodeID p) ->
  ValueName (IncrementName p name d) name = wrap64 (ValueName p name + d).
Proof. intros Hn. by rewrite ValueName_incremented, counterKey_belongs. Qed.

Lemma ValueName_decrement (p : PNCounter) (name : string) (d : Z) :
  colon_free (pn_nodeID p) ->
  ValueName (DecrementName p name d) name = wrap64 (ValueName p name - d).
Proof. intros Hn. by rewrite ValueName_decremented, counterKey_belongs. Qed.

Lemma ValueName_update_other (p : PNCounter) (name other : string) (d : Z) :
  colon_free (pn_nodeID p) -> colon_free name -> colon_free other ->
  same_counter name other = false ->
  ValueName (IncrementName p name d) other = ValueName p other /\
  ValueName (DecrementName p name d) other = ValueName p other.
Proof.
  intros Hn H1 H2 Hs. by rewrite ValueName_incremented, ValueName_decremented, counterKey_foreign.
Qed.

Lemma ValueName_reset (p : PNCounter) (name : string) : ValueName (ResetName p name) name = 0.
Proof.
  by rewrite ValueName_eq, ResetName_positive, ResetName_negative, !msum_delete_own.
Qed.

Lemma ValueName_reset_other (p : PNCounter) (name other : string) :
  colon_free name -> colon_free other -> same_counter name other = false ->
  ValueName (ResetName p name) other = ValueName p other.
Proof.
  intros H1 H2 Hs. by rewrite !ValueName_eq, ResetName_positive, ResetName_negative,
    !msum_delete_other.
Qed.

Lemma Names_elem (p : PNCounter) (n : string) :
  n ∈ Names p <-> exists k, (k ∈ dom (positive p) \/ k ∈ dom (negative p)) /\ names_key n k.
Proof.
  unfold Names. rewrite sort_strings_perm, elem_of_elements, !names_loop_elem. set_solver.
Qed.

(** ** Properties *)

(** C15: Two replicas that start from the same well-formed counter and merge
    the same remote counters, in any order and with any repetition, report the
    same value for every named counter and the same total. *)
Theorem merge_delivery_order (p : PNCounter) (l1 l2 : list PNCounter) (name : string) :
  pn_wf p -> Forall pn_wf l1 -> Forall pn_wf l2 -> (forall q, q ∈ l1 <-> q ∈ l2) ->
  ValueName (foldl Merge p l1) name = ValueName (foldl Merge p l2) name /\
  Value (foldl Merge p l1) = Value (foldl Merge p l2).
Proof.
  intros Hp H1 H2 Heq.
  assert (pn_sim (foldl Merge p l1) (foldl Merge p l2)) as Hsim.
  { apply pn_sim_js. exact (deliver_sim p l1 l2 Hp H1 H2 Heq). }
  by rewrite Hsim.
Qed.

(** C16: [Merge] is the least upper bound of two well-formed counters: it keeps
    well-formedness, lies above both and below every common upper bound; it is
    commutative, associative and idempotent up to missing-entry-is-zero. *)
Theorem merge_is_join (p q r : PNCounter) :
  pn_wf p -> pn_wf q -> pn_wf r ->
  pn_wf (Merge p q) /\ pn_le p (Merge p q) /\ pn_le q (Merge p q) /\
  (pn_le p r -> pn_le q r -> pn_le (Merge p q) r) /\
  pn_sim (Merge p q) (Merge q p) /\
  pn_sim (Merge p (Merge q r)) (Merge (Merge p q) r) /\
  pn_sim (Merge p p) p.
Proof.
  intros Hp Hq Hr. split_and!.
  - auto with gomap.
  - exact (js_join_l p q Hp).
  - exact (js_join_r p q Hp).
  - exact (js_join_lub p q r).
  - apply pn_sim_js. exact (join_comm p q Hp Hq).
  - apply pn_sim_js. exact (join_assoc p q r Hp Hq Hr).
  - apply pn_sim_js. exact (join_idem p Hp).
Qed.

(** The value loops of [ValueName] compute the sum of the counter's
    positive entries minus the sum of its negative entries modulo 2^64,
    whatever iteration orders Go picks for the two maps. *)
Theorem ValueName_any_order (p : PNCounter) (name : string) (lp ln : list (string * Z)) :
  iteration_of lp (positive p) -> iteration_of ln (negative p) ->
  wrap64 (range_list (sum_step (keyBelongsTo name)) lp 0 -
          range_list (sum_step (keyBelongsTo name)) ln 0) = ValueName p name /\
  ValueName p name =
  wrap64 (msum (keyBelongsTo name) (positive p) - msum (keyBelongsTo name) (negative p)).
Proof.
  intros Hp Hn. rewrite (sum_loop_spec _ _ _ Hp), (sum_loop_spec _ _ _ Hn), wrap64_sub.
  by rewrite ValueName_eq.
Qed.

(** On a replica with a colon-free id, incrementing (decrementing) a named
    counter adds (subtracts) the delta modulo 2^64 to that counter's value, and
    leaves every other colon-free counter's value unchanged. *)
Theorem update_value_isolated (p : PNCounter) (name other : string) (d : Z) :
  colon_free (pn_nodeID p) ->
  ValueName (IncrementName p name d) name = wrap64 (ValueName p name + d) /\
  ValueName (DecrementName p name d) name = wrap64 (ValueName p name - d) /\
  (colon_free name -> colon_free other -> same_counter name other = false ->
   ValueName (IncrementName p name d) other = ValueName p other /\
   ValueName (DecrementName p name d) other = ValueName p other).
Proof.
  intros Hn. split; [by apply ValueName_increment|]. split; [by apply ValueName_decrement|].
  intros H1 H2 Hs. by apply ValueName_update_other.
Qed.

(** [ResetName] brings the named counter to zero, removes exactly the
    entries of its namespace, and leaves the value of every other colon-free
    counter unchanged. *)
Theorem ResetName_scoped (p : PNCounter) (name other : string) :
  ValueName (ResetName p name) name = 0 /\
  (forall k, positive (ResetName p name) !! k =
             if keyBelongsTo name k then None else positive p !! k) /\
  (forall k, negative (ResetName p name) !! k =
             if keyBelongsTo name k then None else negative p !! k) /\
  (colon_free name -> colon_free other -> same_counter name other = false ->
   ValueName (ResetName p name) other = ValueName p other).
Proof.
  split; [apply ValueName_reset|]. rewrite ResetName_positive, ResetName_negative. split_and!.
  - intros k. apply delete_where_lookup.
  - intros k. apply delete_where_lookup.
  - apply ValueName_reset_other.
Qed.

(** [Names] is the strictly increasing list of the non-empty texts before
    the first colon of the keys that hold state; the default counter's bare
    replica keys contribute nothing. *)
Theorem Names_spec (p : PNCounter) :
  StronglySorted String.le (Names p) /\ NoDup (Names p) /\
  forall n, n ∈ Names p <->
    exists k, (k ∈ dom (positive p) \/ k ∈ dom (negative p)) /\ names_key n k.
Proof.
  split_and!.
  - apply sort_strings_sorted.
  - unfold Names. rewrite sort_strings_perm. apply NoDup_elements.
  - apply Names_elem.
Qed.

(** A counter whose name extends another name with a colon leaks into it:
    incrementing "parent:sub" also changes the value of "parent". *)
Theorem colon_name_leaks (p : PNCounter) (parent sub : string) (d : Z) :
  is_default parent = false ->
  ValueName (IncrementName p (parent +:+ ":" +:+ sub) d) parent =
  wrap64 (ValueName p parent + d).
Proof.
  intros Hd. by rewrite ValueName_incremented, counterKey_nested.
Qed.

(** ** Witnesses *)

Definition ex_a : PNCounter := IncrementName (NewPNCounter "node-a") "likes" 3.

Definition ex_b : PNCounter :=
  DecrementName (IncrementName (NewPNCounter "node-b") "likes" 4) "likes" 1.

Lemma merge_delivery_order_witness :
  ValueName (foldl Merge ex_a [ex_b; ex_a; ex_b]) "likes" =
  ValueName (foldl Merge ex_a [ex_a; ex_b]) "likes" /\
  Value (foldl Merge ex_a [ex_b; ex_a; ex_b]) = Value (foldl Merge ex_a [ex_a; ex_b]).
Proof.
  apply merge_delivery_order.
  - by_eval.
  - repeat constructor; by_eval.
  - repeat constructor; by_eval.
  - set_solver.
Defined.

Lemma merge_is_join_witness : pn_sim (Merge ex_a ex_b) (Merge ex_b ex_a).
Proof. apply (merge_is_join ex_a ex_b ex_a); by_eval. Defined.

Lemma ValueName_any_order_witness :
  ValueName ex_b "likes" =
  wrap64 (msum (keyBelongsTo "likes") (positive ex_b) -
          msum (keyBelongsTo "likes") (negative ex_b)).
Proof.
  apply (ValueName_any_order ex_b "likes" [("likes:node-b", 4)] [("likes:node-b", 1)]);
    vm_compute; reflexivity.
Defined.

Lemma update_value_isolated_witness :
  ValueName (IncrementName ex_a "views" 5) "likes" = ValueName ex_a "likes".
Proof. apply (update_value_isolated ex_a "views" "likes" 5); reflexivity. Defined.

Lemma ResetName_scoped_witness :
  ValueName (ResetName ex_a "views") "likes" = ValueName ex_a "likes".
Proof. apply (ResetName_scoped ex_a "views" "likes"); reflexivity. Defined.

Lemma colon_name_leaks_witness :
  ValueName (IncrementName ex_a ("likes" +:+ ":" +:+ "today") 5) "likes" =
  wrap64 (ValueName ex_a "likes" + 5).
Proof. apply colon_name_leaks. reflexivity. Defined.
