(* ===== verification/VectorClock.v ===== *)
(** * Vector clocks (internal/crdt/vector_clock.go)

    The clock uses the key scheme of the counter: one version per replica and
    named counter. *)

From stdpp Require Import options.
From S2P Require Import Prelude Lattice PNCounter.

Record VectorClock := mkVectorClock {
  clock : gmap string Z;
  vc_nodeID : string;
}.

Definition NewVectorClock (nodeID : string) : VectorClock :=
  {| clock := ∅; vc_nodeID := nodeID |}.

Definition with_clock (v : VectorClock) (m : gmap string Z) : VectorClock :=
  {| clock := m; vc_nodeID := vc_nodeID v |}.

Definition MergeMap (v : VectorClock) (state : gmap string Z) : VectorClock :=
  with_clock v (max_into state (clock v)).

(** [v.clock[v.nodeID]++] *)
Definition Increment (v : VectorClock) : VectorClock :=
  with_clock v (add_at (clock v) (vc_nodeID v) 1).

Definition IncrementName (v : VectorClock) (name : string) : VectorClock :=
  with_clock v (add_at (clock v) (counterKey name (vc_nodeID v)) 1).

Definition ResetName (v : VectorClock) (name : string) : VectorClock :=
  if is_default name then
    let owned k := negb (ContainsByte k colon) || HasPrefix k "default:" in
    with_clock v (delete_where owned (clock v))
  else
    let prefix := name +:+ ":" in
    with_clock v (delete_where (fun k => HasPrefix k prefix) (clock v)).

Definition Names (v : VectorClock) : list string :=
  sort_strings (elements (range names_step (clock v) ∅)).

Definition Reset (v : VectorClock) : VectorClock := with_clock v ∅.

Definition Merge (v other : VectorClock) : VectorClock :=
  with_clock v (max_into (clock other) (clock v)).

Definition State (v : VectorClock) : gmap string Z := copy_map (clock v).

(** ** The clock as a join state *)

Definition vc_le (v w : VectorClock) : Prop := clock v ⊑ clock w.

Definition vc_wf (v : VectorClock) : Prop := nonneg (clock v).

#[export] Instance vc_wf_dec (v : VectorClock) : Decision (vc_wf v).
Proof. unfold vc_wf. apply _. Defined.

#[export] Instance VectorClock_eq_dec : EqDecision VectorClock.
Proof. solve_decision. Defined.

#[export] Instance vc_le_preorder : PreOrder vc_le.
Proof.
  split.
  - intros v. unfold vc_le. reflexivity.
  - intros u v w H1 H2. unfold vc_le. etrans; eauto.
Qed.

#[export, refine] Instance VectorClock_join : JoinState VectorClock :=
  {| js_le := vc_le; js_wf := vc_wf; js_join := Merge |}.
Proof.
  all: unfold vc_le, vc_wf; simpl; auto with gomap.
Defined.

Lemma vc_wf_new (n : string) : vc_wf (NewVectorClock n).
Proof. apply nonneg_empty. Qed.

Lemma vc_wf_merge_map (v : VectorClock) (m : gmap string Z) : vc_wf v -> vc_wf (MergeMap v m).
Proof. apply max_into_nonneg. Qed.

Lemma ResetName_clock (v : VectorClock) (name : string) :
  clock (ResetName v name) = delete_where (keyBelongsTo name) (clock v).
Proof. unfold ResetName, keyBelongsTo. by destruct (is_default name). Qed.

Lemma vc_wf_reset (v : VectorClock) (name : string) : vc_wf v -> vc_wf (ResetName v name).
Proof. unfold vc_wf. rewrite ResetName_clock. auto with gomap. Qed.

Lemma vc_wf_increment (v : VectorClock) (name : string) :
  vc_wf v -> (clock v).[counterKey name (vc_nodeID v)] + 1 < 2 ^ 63 ->
  vc_wf (IncrementName v name).
Proof. intros H Hb. by apply add_at_nonneg. Qed.

#[export] Hint Resolve vc_wf_new vc_wf_merge_map vc_wf_reset vc_wf_increment : gomap.
