(* ===== verification/Delta.v ===== *)
(** * Delta computation (internal/crdt/delta.go) *)

From stdpp Require Import options.
From S2P Require Import Prelude Lattice PNCounter VectorClock.

(** [for node, v := range clock { if v > base[node] { return true } }] *)
Definition newer_step (base : gmap string Z) (k : string) (v : Z) (found : bool) : bool :=
  found || (base.[k] <? v).

Definition ClockNewerThan (clock base : gmap string Z) : bool :=
  range (newer_step base) clock false.

(** [if val, ok := m[node]; ok { delta[node] = val }] *)
Definition carry (m : gmap string Z) (k : string) (delta : gmap string Z) : gmap string Z :=
  match m !! k with Some v => <[k:=v]> delta | None => delta end.

Record delta := mkDelta {
  deltaPos : gmap string Z;
  deltaNeg : gmap string Z;
  deltaClock : gmap string Z;
}.

Definition delta_step (positive negative base : gmap string Z) (node : string) (v : Z)
    (d : delta) : delta :=
  if base.[node] <? v then
    {| deltaPos := carry positive node (deltaPos d);
       deltaNeg := carry negative node (deltaNeg d);
       deltaClock := <[node:=v]> (deltaClock d) |}
  else d.

Definition DeltaFrom (positive negative clock base : gmap string Z) : delta :=
  range (delta_step positive negative base) clock
    {| deltaPos := ∅; deltaNeg := ∅; deltaClock := ∅ |}.

Definition MergeClock (a b : gmap string Z) : gmap string Z :=
  let out := range copy_step a ∅ in
  max_into b out.

(** [if v > max { max = v }] *)
Definition maxclock_step (_ : string) (v : Z) (max : Z) : Z := if max <? v then v else max.

Definition MaxClock (clock : gmap string Z) : Z := range maxclock_step clock 0.

(** ** Specifications *)

(** The entries of [m] whose version exceeds the baseline. *)
Definition restrict_newer (clock base m : gmap string Z) (k : string) : option Z :=
  match clock !! k with
  | Some v => if base.[k] <? v then m !! k else None
  | None => None
  end.

Lemma carry_lookup (m d : gmap string Z) (k j : string) :
  d !! k = None ->
  carry m k d !! j = if decide (k = j) then m !! j else d !! j.
Proof.
  intros Hd. unfold carry. destruct (m !! k) as [v|] eqn:Hm.
  - rewrite lookup_insert. case_decide; subst; by rewrite ?Hm.
  - case_decide; subst; by rewrite ?Hm, ?Hd.
Qed.

(** The three delta maps, for every iteration order. *)
Lemma delta_loop_lookup (pos neg clk base : gmap string Z) (l : list (string * Z)) (k : string) :
  iteration_of l clk ->
  let d := range_list (delta_step pos neg base) l (mkDelta ∅ ∅ ∅) in
  deltaPos d !! k = restrict_newer clk base pos k /\
  deltaNeg d !! k = restrict_newer clk base neg k /\
  deltaClock d !! k = restrict_newer clk base clk k.
Proof.
  intros Hl. simpl.
  enough (forall j,
    deltaPos (range_list (delta_step pos neg base) l (mkDelta ∅ ∅ ∅)) !! j
      = restrict_newer clk base pos j /\
    deltaNeg (range_list (delta_step pos neg base) l (mkDelta ∅ ∅ ∅)) !! j
      = restrict_newer clk base neg j /\
    deltaClock (range_list (delta_step pos neg base) l (mkDelta ∅ ∅ ∅)) !! j
      = restrict_newer clk base clk j) by done.
  apply (range_ind_any (delta_step pos neg base) (fun m d => forall j,
    deltaPos d !! j = restrict_newer m base pos j /\
    deltaNeg d !! j = restrict_newer m base neg j /\
    deltaClock d !! j = restrict_newer m base m j) (mkDelta ∅ ∅ ∅) clk l Hl).
  - intros j. unfold restrict_newer. simpl. by rewrite !lookup_empty.
  - intros i v m d Hi IH j.
    destruct (IH i) as (Hp & Hn & Hc). unfold restrict_newer in Hp, Hn, Hc.
    rewrite Hi in Hp, Hn, Hc. destruct (IH j) as (Hpj & Hnj & Hcj).
    unfold delta_step, restrict_newer in *. rewrite !lookup_insert.
    destruct (base.[i] <? v) eqn:Hv; simpl.
    + rewrite !carry_lookup by done. rewrite lookup_insert.
      case_decide; subst; [by rewrite Hv|done].
    + case_decide; subst; [by rewrite Hv, Hp, Hn, Hc|done].
Qed.

Lemma DeltaFrom_lookup (pos neg clk base : gmap string Z) (k : string) :
  deltaPos (DeltaFrom pos neg clk base) !! k = restrict_newer clk base pos k /\
  deltaNeg (DeltaFrom pos neg clk base) !! k = restrict_newer clk base neg k /\
  deltaClock (DeltaFrom pos neg clk base) !! k = restrict_newer clk base clk k.
Proof. apply delta_loop_lookup, iteration_of_self. Qed.

Lemma deltaClock_empty (pos neg clk base : gmap string Z) :
  nonneg base ->
  size (deltaClock (DeltaFrom pos neg clk base)) = 0%nat <-> clk ⊑ base.
Proof.
  intros Hb. rewrite map_size_empty_iff. split.
  - intros He k. destruct (DeltaFrom_lookup pos neg clk base k) as (_ & _ & Hc).
    rewrite He, lookup_empty in Hc. unfold restrict_newer in Hc. unfold get0 at 1.
    destruct (clk !! k) as [v|] eqn:Hk; simpl; [|apply Hb].
    destruct (Z.ltb_spec base.[k] v); [done|lia].
  - intros Hle. apply map_eq. intros k. rewrite lookup_empty.
    destruct (DeltaFrom_lookup pos neg clk base k) as (_ & _ & ->). unfold restrict_newer.
    destruct (clk !! k) as [v|] eqn:Hk; [|done].
    specialize (Hle k). rewrite (get0_Some clk k v Hk) in Hle. case_bool; [lia|done].
Qed.

Lemma MergeClock_eq (a b : gmap string Z) : MergeClock a b = max_into b a.
Proof. unfold MergeClock. f_equal. apply copy_map_id. Qed.

Lemma MergeClock_get (a b : gmap string Z) (k : string) :
  nonneg a -> (MergeClock a b).[k] = Z.max a.[k] b.[k].
Proof. intros Ha. rewrite MergeClock_eq. by apply max_into_get_nonneg. Qed.

Lemma MergeClock_nonneg (a b : gmap string Z) : nonneg a -> nonneg (MergeClock a b).
Proof. rewrite MergeClock_eq. apply max_into_nonneg. Qed.

#[export] Hint Resolve MergeClock_nonneg : gomap.

Lemma ClockNewerThan_exists (clk base : gmap string Z) :
  ClockNewerThan clk base = true <-> exists k v, clk !! k = Some v /\ base.[k] < v.
Proof.
  apply (range_ind (newer_step base)
    (fun m b => b = true <-> exists k v, m !! k = Some v /\ base.[k] < v)).
  - split; [done|]. intros (k & v & Hk & _). by rewrite lookup_empty in Hk.
  - intros k v m b Hk IH. unfold newer_step. rewrite orb_true_iff, IH, Z.ltb_lt. split.
    + intros [(j & w & Hj & Hw)|Hv].
      * exists j, w. split; [|done]. rewrite lookup_insert_ne; [done|]. intros ->. congruence.
      * exists k, v. by rewrite lookup_insert_eq.
    + intros (j & w & Hj & Hw). rewrite lookup_insert in Hj. case_decide; simplify_eq; eauto.
Qed.

Lemma ClockNewerThan_le (clk base : gmap string Z) :
  nonneg base -> ClockNewerThan clk base = false <-> clk ⊑ base.
Proof.
  intros Hb. rewrite <- not_true_iff_false, ClockNewerThan_exists. split.
  - intros Hn k. unfold get0 at 1. destruct (clk !! k) as [v|] eqn:Hk; simpl; [|apply Hb].
    destruct (Z_le_gt_dec v base.[k]); [done|]. exfalso. apply Hn. exists k, v.
    split; [done|lia].
  - intros Hle (k & v & Hk & Hv). specialize (Hle k). rewrite (get0_Some clk k v Hk) in Hle. lia.
Qed.

Lemma MaxClock_bound (clk : gmap string Z) :
  (forall k, clk.[k] <= MaxClock clk) /\ 0 <= MaxClock clk /\
  (MaxClock clk = 0 \/ exists k, clk !! k = Some (MaxClock clk)).
Proof.
  unfold MaxClock. apply (range_ind maxclock_step (fun m b =>
    (forall k, m.[k] <= b) /\ 0 <= b /\ (b = 0 \/ exists k, m !! k = Some b))).
  - split_and!; [|done|by left]. intros k. by rewrite get0_empty.
  - intros k v m b Hk (Hle & Hpos & Hex). unfold maxclock_step.
    assert (forall c, b <= c -> v <= c -> forall j, (<[k:=v]> m).[j] <= c) as Hb.
    { intros c Hbc Hvc j. rewrite get0_insert. specialize (Hle j). case_decide; lia. }
    destruct (Z.ltb_spec b v).
    + split_and!; [apply Hb; lia|lia|]. right. exists k. apply lookup_insert_eq.
    + split_and!; [apply Hb; lia|lia|]. destruct Hex as [|[j Hj]]; [by left|].
      right. exists j. rewrite lookup_insert_ne; [done|]. intros ->. congruence.
Qed.

(** Merging only the newer entries of [m] into [q] reaches the same counts as
    merging all of [m], when [q] already holds what the baseline covers. *)
Lemma restrict_merge_sim (clk base m d q : gmap string Z) :
  nonneg q -> (forall k, d !! k = restrict_newer clk base m k) ->
  (forall k, clk.[k] <= base.[k] -> m.[k] <= q.[k]) -> nonneg base ->
  max_into d q ≈ max_into m q.
Proof.
  intros Hq Hd Hcov Hbase k. rewrite !max_into_get_nonneg by done.
  assert (d.[k] = m.[k] \/ (d.[k] = 0 /\ m.[k] <= q.[k])) as [->|[-> Hle]].
  { unfold get0 at 1 3. rewrite Hd. unfold restrict_newer.
    destruct (clk !! k) as [v|] eqn:Hk.
    - destruct (Z.ltb_spec base.[k] v); [by left|]. right. split; [done|].
      apply Hcov. rewrite (get0_Some clk k v Hk). lia.
    - right. split; [done|]. apply Hcov. rewrite (get0_None clk k Hk). apply Hbase. }
  - done.
  - specialize (Hq k). lia.
Qed.

(** ** Properties *)

(** [DeltaFrom] selects, for every iteration order of the clock, exactly
    the entries whose version exceeds the baseline: the positive and negative
    counts present under those keys, and their versions. *)
Theorem DeltaFrom_any_order (pos neg clk base : gmap string Z) (l : list (string * Z)) :
  iteration_of l clk ->
  range_list (delta_step pos neg base) l (mkDelta ∅ ∅ ∅) = DeltaFrom pos neg clk base /\
  forall k,
    deltaPos (DeltaFrom pos neg clk base) !! k = restrict_newer clk base pos k /\
    deltaNeg (DeltaFrom pos neg clk base) !! k = restrict_newer clk base neg k /\
    deltaClock (DeltaFrom pos neg clk base) !! k = restrict_newer clk base clk k.
Proof.
  intros Hl. split; [|apply DeltaFrom_lookup].
  pose proof (fun k => delta_loop_lookup pos neg clk base l k Hl) as H1.
  pose proof (DeltaFrom_lookup pos neg clk base) as H2. simpl in H1.
  destruct (range_list _ l _) as [a b c], (DeltaFrom _ _ _ _) as [a' b' c']. simpl in *.
  f_equal; apply map_eq; intros k; specialize (H1 k); specialize (H2 k); naive_solver congruence.
Qed.

(** C17: Delta gossip loses nothing: when the receiver already holds every count
    whose version the baseline covers, merging the delta gives it the same
    counts as merging the sender's full state. *)
Theorem delta_merge_equals_full (pos neg clk base : gmap string Z) (q : PNCounter) :
  pn_wf q -> nonneg base ->
  (forall k, clk.[k] <= base.[k] ->
     pos.[k] <= (positive q).[k] /\ neg.[k] <= (negative q).[k]) ->
  let d := DeltaFrom pos neg clk base in
  pn_sim (PNCounter.Merge q (remote_counter "" (deltaPos d) (deltaNeg d)))
         (PNCounter.Merge q (remote_counter "" pos neg)).
Proof.
  intros [Hp Hn] Hb Hcov. simpl. rewrite !remote_counter_eq. split; simpl.
  - apply (restrict_merge_sim clk base); [done| |naive_solver|done].
    intros k. apply DeltaFrom_lookup.
  - apply (restrict_merge_sim clk base); [done| |naive_solver|done].
    intros k. apply DeltaFrom_lookup.
Qed.

(** ** Witnesses *)

Lemma DeltaFrom_any_order_witness :
  deltaPos (DeltaFrom {["a" := 10; "b" := 5]} {["b" := 2]} {["a" := 3; "b" := 4]}
    {["a" := 3; "b" := 1]}) !! "a" = None.
Proof.
  destruct (DeltaFrom_any_order {["a" := 10; "b" := 5]} {["b" := 2]} {["a" := 3; "b" := 4]}
    {["a" := 3; "b" := 1]} [("b", 4); ("a", 3)]) as [_ H].
  - vm_compute. apply perm_swap || reflexivity.
  - destruct (H "a") as [-> _]. reflexivity.
Defined.

Lemma delta_merge_equals_full_witness :
  let d := DeltaFrom {["a" := 10; "b" := 5]} {["b" := 2]} {["a" := 3; "b" := 4]}
    {["a" := 3; "b" := 1]} in
  let q := remote_counter "" {["a" := 10; "b" := 1]} ∅ in
  pn_sim (PNCounter.Merge q (remote_counter "" (deltaPos d) (deltaNeg d)))
         (PNCounter.Merge q (remote_counter "" {["a" := 10; "b" := 5]} {["b" := 2]})).
Proof.
  apply delta_merge_equals_full.
  - by_eval.
  - by_eval.
  - intros k. destruct (decide (k = "a")) as [->|Ha]; [by vm_compute|].
    destruct (decide (k = "b")) as [->|Hb]; [by vm_compute|].
    rewrite !get0_insert_ne, remote_counter_eq by done. simpl.
    rewrite !get0_insert_ne by done. unfold get0.
    rewrite !lookup_singleton_ne by done. by rewrite !lookup_empty.
Defined.
