(* ===== verification/Breaker.v ===== *)
(** * The per-peer circuit breaker (internal/gossip/circuit.go)

    [time.Now()] is an argument of the operations that read the clock. *)

From stdpp Require Import options.
From S2P Require Import Prelude.

Record CircuitBreaker := mkCircuitBreaker {
  failures : Z;
  openUntil : Z;
  maxFailures : Z;
  cooldown : Z;
}.

Definition newCircuitBreaker (maxFailures cooldown : Z) : CircuitBreaker :=
  let maxFailures := if maxFailures <=? 0 then 3 else maxFailures in
  let cooldown := if cooldown <=? 0 then 30 * Second else cooldown in
  {| failures := 0; openUntil := zeroTime; maxFailures := maxFailures; cooldown := cooldown |}.

Definition Allow (c : CircuitBreaker) (now : Z) : bool :=
  if time_Before now (openUntil c) then false else true.

Definition Success (c : CircuitBreaker) : CircuitBreaker :=
  {| failures := 0; openUntil := zeroTime;
     maxFailures := maxFailures c; cooldown := cooldown c |}.

Definition Failure (c : CircuitBreaker) (now : Z) : CircuitBreaker :=
  let failures' := wrap64 (failures c + 1) in
  {| failures := failures';
     openUntil := if maxFailures c <=? failures' then time_Add now (cooldown c) else openUntil c;
     maxFailures := maxFailures c; cooldown := cooldown c |}.

Definition BreakerState (c : CircuitBreaker) (now : Z) : Z * bool :=
  (failures c, time_Before now (openUntil c)).

#[export] Instance CircuitBreaker_eq_dec : EqDecision CircuitBreaker.
Proof. solve_decision. Defined.

(** ** Runs of the breaker *)

Inductive event :=
| EvSuccess
| EvFailure (now : Z).

Definition react (c : CircuitBreaker) (e : event) : CircuitBreaker :=
  match e with EvSuccess => Success c | EvFailure now => Failure c now end.

Definition run (c : CircuitBreaker) (es : list event) : CircuitBreaker := foldl react c es.

(** The times of the failures since the last success, the latest first. *)
Definition streak_step (ts : list Z) (e : event) : list Z :=
  match e with EvSuccess => [] | EvFailure now => now :: ts end.

Definition streak (es : list event) : list Z := foldl streak_step [] es.

(** What the breaker's contract says of a run: it is open exactly while the
    latest of at least [mf] consecutive failures is less than [cd] old. *)
Definition spec_allow (mf cd : Z) (ts : list Z) (now : Z) : bool :=
  match ts with
  | [] => true
  | t :: _ => negb ((mf <=? Z.of_nat (length ts)) && (now <? t + cd))
  end.

Lemma streak_length (es : list event) : (length (streak es) <= length es)%nat.
Proof.
  induction es as [|e es IH] using rev_ind; [done|].
  unfold streak. rewrite foldl_app, length_app. simpl. fold (streak es).
  destruct e; simpl; lia.
Qed.

Lemma run_inv (mf cd : Z) (es : list event) :
  0 < mf -> 0 < cd -> Z.of_nat (length es) < 2 ^ 63 ->
  let c := run (newCircuitBreaker mf cd) es in
  maxFailures c = mf /\ cooldown c = cd /\ failures c = Z.of_nat (length (streak es)) /\
  openUntil c = match streak es with
                | [] => zeroTime
                | t :: _ => if mf <=? Z.of_nat (length (streak es)) then t + cd else zeroTime
                end.
Proof.
  intros Hmf Hcd. simpl. induction es as [|e es IH] using rev_ind; intros Hlen.
  - unfold newCircuitBreaker. case_bool; simpl; lia.
  - rewrite length_app in Hlen. simpl in Hlen. pose proof (streak_length es) as Hst.
    destruct IH as (H1 & H2 & H3 & H4); [lia|].
    unfold run, streak in *. rewrite !foldl_app. simpl.
    set (c := foldl react _ es) in *. set (ts := foldl streak_step [] es) in *.
    destruct e as [|now]; simpl; [done|].
    rewrite H3, wrap64_id, H1, H2 by (unfold in_int64; lia).
    replace (Z.of_nat (S (length ts))) with (Z.of_nat (length ts) + 1) by lia.
    split_and!; [done..|]. unfold time_Add.
    destruct (Z.leb_spec mf (Z.of_nat (length ts) + 1)); [done|].
    rewrite H4. destruct ts; [done|]. case_bool; [lia|done].
Qed.

(** ** Properties *)

(** C18: Over any run of successes and failures, the breaker admits a gossip
    attempt exactly when fewer than [maxFailures] failures have been recorded
    since the last success, or the cooldown since the latest one has elapsed;
    in particular one more failure after the cooldown opens it again. *)
Theorem breaker_contract (mf cd : Z) (es : list event) (now : Z) :
  0 < mf -> 0 < cd -> Z.of_nat (length es) < 2 ^ 63 -> 0 <= now ->
  Allow (run (newCircuitBreaker mf cd) es) now = spec_allow mf cd (streak es) now.
Proof.
  intros Hmf Hcd Hlen Hnow. unfold Allow, spec_allow.
  destruct (run_inv mf cd es Hmf Hcd Hlen) as (_ & _ & _ & ->).
  unfold time_Before, zeroTime. destruct (streak es) as [|t ts].
  - case_bool; [lia|done].
  - destruct (mf <=? Z.of_nat (length (t :: ts))); simpl.
    + by destruct (now <? t + cd).
    + case_bool; [lia|done].
Qed.

Lemma breaker_contract_witness :
  Allow (run (newCircuitBreaker 3 60) [EvSuccess; EvFailure 100; EvFailure 110; EvFailure 120]) 179
  = false.
Proof.
  rewrite (breaker_contract 3 60
    [EvSuccess; EvFailure 100; EvFailure 110; EvFailure 120] 179); [reflexivity|done..].
Defined.
