(* ===== verification/Membership.v ===== *)
(** * Cluster membership (internal/cluster/membership.go, discovery.go)

    The member table maps ids to members; [time.Now()] is an argument.  The
    getters return copies, so that values stand for the pointers of the code. *)

From stdpp Require Import options.
From S2P Require Import Prelude.

(** ** Data *)

Inductive Status := StatusAlive | StatusSuspect | StatusDead | StatusLeft.

#[export] Instance Status_eq_dec : EqDecision Status.
Proof. solve_decision. Defined.

Definition Status_String (s : Status) : string :=
  match s with
  | StatusAlive => "Alive"
  | StatusSuspect => "Suspect"
  | StatusDead => "Dead"
  | StatusLeft => "Left"
  end.

(** The protobuf enum is an open [int32]. *)
Definition MEMBER_ALIVE : Z := 0.

Definition MEMBER_SUSPECT : Z := 1.

Definition MEMBER_DEAD : Z := 2.

Definition MEMBER_LEFT : Z := 3.

Definition ToProto (s : Status) : Z :=
  match s with
  | StatusSuspect => MEMBER_SUSPECT
  | StatusDead => MEMBER_DEAD
  | StatusLeft => MEMBER_LEFT
  | StatusAlive => MEMBER_ALIVE
  end.

Definition StatusFromProto (s : Z) : Status :=
  if s =? MEMBER_SUSPECT then StatusSuspect
  else if s =? MEMBER_DEAD then StatusDead
  else if s =? MEMBER_LEFT then StatusLeft
  else StatusAlive.

Record Member := mkMember {
  ID : string;
  Address : string;
  mStatus : Status;
  IsActive : bool;
  CounterValue : Z;
  LastHeartbeat : Z;
  SuspectCount : Z;
  Priority : Z;
}.

#[export] Instance Member_eq_dec : EqDecision Member.
Proof. solve_decision. Defined.

Definition setStatus (m : Member) (s : Status) : Member :=
  {| ID := ID m; Address := Address m; mStatus := s;
     IsActive := bool_decide (s = StatusAlive); CounterValue := CounterValue m;
     LastHeartbeat := LastHeartbeat m; SuspectCount := SuspectCount m; Priority := Priority m |}.

(** [member.SuspectCount = n] *)
Definition set_suspect (m : Member) (n : Z) : Member :=
  {| ID := ID m; Address := Address m; mStatus := mStatus m; IsActive := IsActive m;
     CounterValue := CounterValue m; LastHeartbeat := LastHeartbeat m;
     SuspectCount := n; Priority := Priority m |}.

(** [member.Address = a; member.LastHeartbeat = t] *)
Definition set_contact (m : Member) (a : string) (t : Z) : Member :=
  {| ID := ID m; Address := a; mStatus := mStatus m; IsActive := IsActive m;
     CounterValue := CounterValue m; LastHeartbeat := t;
     SuspectCount := SuspectCount m; Priority := Priority m |}.

Definition set_priority (m : Member) (p : Z) : Member :=
  {| ID := ID m; Address := Address m; mStatus := mStatus m; IsActive := IsActive m;
     CounterValue := CounterValue m; LastHeartbeat := LastHeartbeat m;
     SuspectCount := SuspectCount m; Priority := p |}.

Record Membership := mkMembership {
  m_nodeID : string;
  members : gmap string Member;
  recovering : bool;
}.

Definition NewMembership (nodeID : string) : Membership :=
  {| m_nodeID := nodeID; members := ∅; recovering := false |}.

Definition with_members (m : Membership) (ms : gmap string Member) : Membership :=
  {| m_nodeID := m_nodeID m; members := ms; recovering := recovering m |}.

(** [if member, exists := m.members[id]; exists { ... }] *)
Definition on_member (m : Membership) (id : string) (f : Member -> Member) : Membership :=
  match members m !! id with
  | Some member => with_members m (<[id := f member]> (members m))
  | None => m
  end.

(** ** Operations *)

Definition AddOrUpdateMemberStatus (m : Membership) (id address : string)
    (status : Status) (lastHeartbeat : Z) : Membership :=
  match members m !! id with
  | Some member =>
      let member := set_contact member address lastHeartbeat in
      let member :=
        if decide (status = StatusAlive)
        then set_suspect (setStatus member StatusAlive) 0
        else member in
      with_members m (<[id := member]> (members m))
  | None =>
      let member := {| ID := id; Address := address; mStatus := StatusAlive; IsActive := false;
        CounterValue := 0; LastHeartbeat := lastHeartbeat; SuspectCount := 0; Priority := 0 |} in
      with_members m (<[id := setStatus member status]> (members m))
  end.

Definition AddOrUpdateMember (m : Membership) (id address : string) (isActive : bool)
    (lastHeartbeat : Z) : Membership :=
  let status := if isActive then StatusAlive else StatusDead in
  AddOrUpdateMemberStatus m id address status lastHeartbeat.

Definition AddMember (m : Membership) (id address : string) (now : Z) : Membership :=
  AddOrUpdateMember m id address true now.

Definition UpdateHeartbeat (m : Membership) (id : string) (now : Z) : Membership :=
  on_member m id (fun member =>
    let member := set_contact member (Address member) now in
    set_suspect (setStatus member StatusAlive) 0).

Definition SetPriority (m : Membership) (id : string) (priority : Z) : Membership :=
  on_member m id (fun member => set_priority member priority).

(** [member.setStatus(StatusSuspect); member.SuspectCount++] *)
Definition suspect (member : Member) : Member :=
  let member := setStatus member StatusSuspect in
  set_suspect member (wrap64 (SuspectCount member + 1)).

Definition MarkSuspect (m : Membership) (id : string) : Membership :=
  on_member m id (fun member =>
    match mStatus member with
    | StatusDead | StatusLeft => member
    | _ => suspect member
    end).

Definition MarkDead (m : Membership) (id : string) : Membership :=
  on_member m id (fun member => setStatus member StatusDead).

Definition MarkLeft (m : Membership) (id : string) : Membership :=
  on_member m id (fun member => setStatus member StatusLeft).

Definition MarkInactive (m : Membership) (id : string) : Membership := MarkSuspect m id.

(** The body of the loop of [MarkStale], on the table and the changed ids. *)
Definition stale_step (nodeID : string) (threshold now : Z) (id : string) (member : Member)
    (acc : gmap string Member * list string) : gmap string Member * list string :=
  let '(ms, changed) := acc in
  if String.eqb id nodeID then acc
  else if negb (threshold <? time_Sub now (LastHeartbeat member)) then acc
  else match mStatus member with
  | StatusAlive => (<[id := suspect member]> ms, changed ++ [id])
  | StatusSuspect => (<[id := setStatus member StatusDead]> ms, changed ++ [id])
  | _ => acc
  end.

Definition MarkStale (m : Membership) (threshold now : Z) : Membership * list string :=
  let '(ms, changed) :=
    range (stale_step (m_nodeID m) threshold now) (members m) (members m, []) in
  (with_members m ms, changed).

Definition SetRecovering (m : Membership) (b : bool) : Membership :=
  {| m_nodeID := m_nodeID m; members := members m; recovering := b |}.

Definition IsRecovering (m : Membership) : bool := recovering m.

(** [members = append(members, &copy)] *)
Definition append_step (p : Member -> bool) (_ : string) (member : Member)
    (acc : list Member) : list Member :=
  if p member then acc ++ [member] else acc.

Definition GetMembers (m : Membership) : list Member :=
  range (append_step (fun _ => true)) (members m) [].

Definition GetMember (m : Membership) (id : string) : option Member := members m !! id.

(** [member.ID != m.nodeID && member.Status == StatusAlive] *)
Definition alive_peer (nodeID : string) (member : Member) : bool :=
  negb (String.eqb (ID member) nodeID) && bool_decide (mStatus member = StatusAlive).

Definition GetAlivePeers (m : Membership) : list Member :=
  range (append_step (alive_peer (m_nodeID m))) (members m) [].

(** [math/rand] is an oracle: [shuffle] is the permutation it applies. *)
Definition GetRandomPeers (shuffle : list Member -> list Member) (m : Membership)
    (count : Z) : list Member :=
  let peers := range (append_step (alive_peer (m_nodeID m))) (members m) [] in
  let peers := shuffle peers in
  if count <? Z.of_nat (length peers) then take (Z.to_nat count) peers else peers.

Definition GetRandomPeer (shuffle : list Member -> list Member) (m : Membership) :
    option Member :=
  match GetRandomPeers shuffle m 1 with
  | [] => None
  | peer :: _ => Some peer
  end.

Definition probe_candidate (nodeID : string) (member : Member) : bool :=
  if String.eqb (ID member) nodeID then false
  else bool_decide (mStatus member = StatusAlive) || bool_decide (mStatus member = StatusSuspect).

Definition GetRandomProbeTarget (shuffle : list Member -> list Member) (m : Membership) :
    option Member :=
  let candidates := range (append_step (probe_candidate (m_nodeID m))) (members m) [] in
  if Z.of_nat (length candidates) =? 0 then None else head (shuffle candidates).

Definition AddDiscoveredNodes (m : Membership) (nodes : gmap string string) (now : Z) :
    Membership :=
  range (fun id addr m => if String.eqb id (m_nodeID m) then m else AddMember m id addr now)
    nodes m.

Definition GossipMembership (m : Membership) : gmap string Z :=
  range (fun id member out =>
    if String.eqb id (m_nodeID m) then out else <[id := ToProto (mStatus member)]> out)
    (members m) ∅.

(** What a reported status does to a known member. *)
Definition apply_status (member : Member) (status : Status) : Member :=
  match status with
  | StatusDead =>
      if decide (mStatus member = StatusAlive) then suspect member
      else if 1 <=? SuspectCount member then setStatus member StatusDead else member
  | StatusSuspect => if decide (mStatus member = StatusAlive) then suspect member else member
  | StatusLeft => setStatus member StatusLeft
  | StatusAlive => member
  end.

Definition ApplyMembership (m : Membership) (statuses : gmap string Z) : Membership :=
  range (fun id status m =>
    if String.eqb id (m_nodeID m) then m
    else on_member m id (fun member => apply_status member (StatusFromProto status)))
    statuses m.

(** ** Node discovery (discovery.go) *)

Record Discovery := mkDiscovery {
  nodes : gmap string string;
  seedNodes : list string;
}.

Definition NewDiscovery (seeds : list string) : Discovery :=
  {| nodes := ∅; seedNodes := seeds |}.

Definition GetNodeAddress (d : Discovery) (nodeID : string) : option string := nodes d !! nodeID.

Definition GetAllNodes (d : Discovery) : gmap string string := copy_map (nodes d).

Definition AddNode (d : Discovery) (nodeID address : string) : Discovery :=
  {| nodes := <[nodeID := address]> (nodes d); seedNodes := seedNodes d |}.

Definition SeedNodes (d : Discovery) : list string := seedNodes d.

(** ** The effect of the operations on each entry *)

Lemma on_member_lookup (m : Membership) (id j : string) (f : Member -> Member) :
  members (on_member m id f) !! j = if decide (id = j) then f <$> members m !! j else members m !! j.
Proof.
  unfold on_member. destruct (members m !! id) as [mem|] eqn:Hid; simpl.
  - rewrite lookup_insert. case_decide; subst; by rewrite ?Hid.
  - case_decide; subst; by rewrite ?Hid.
Qed.

Lemma on_member_nodeID (m : Membership) (id : string) (f : Member -> Member) :
  m_nodeID (on_member m id f) = m_nodeID m.
Proof. unfold on_member. by destruct (members m !! id). Qed.

(** The status reported for [id] applied to its member, self excluded. *)
Definition gossip_member (nodeID : string) (statuses : gmap string Z) (id : string)
    (member : Member) : Member :=
  match statuses !! id with
  | Some s => if String.eqb id nodeID then member else apply_status member (StatusFromProto s)
  | None => member
  end.

Lemma ApplyMembership_lookup (m : Membership) (statuses : gmap string Z) (id : string) :
  members (ApplyMembership m statuses) !! id =
  gossip_member (m_nodeID m) statuses id <$> members m !! id.
Proof.
  revert id. unfold ApplyMembership.
  match goal with |- context [range ?f statuses m] =>
    apply (range_ind f (fun sts m' => m_nodeID m' = m_nodeID m /\ forall id,
      members m' !! id = gossip_member (m_nodeID m) sts id <$> members m !! id)) end.
  - split; [done|]. intros id. unfold gossip_member. rewrite lookup_empty.
    by destruct (members m !! id).
  - intros k s sts m' Hk [Hn IH]. rewrite Hn.
    destruct (String.eqb k (m_nodeID m)) eqn:Hself.
    + split; [done|]. intros id. rewrite IH. unfold gossip_member.
      rewrite lookup_insert. case_decide; [subst|done]. by rewrite Hk, Hself.
    + rewrite on_member_nodeID. split; [done|]. intros id.
      rewrite on_member_lookup, IH. unfold gossip_member. rewrite lookup_insert.
      case_decide; [subst|done]. rewrite Hk, Hself. by destruct (members m !! id).
Qed.

(** The next status of a member that the failure detector finds stale. *)
Definition stale_member (nodeID : string) (threshold now : Z) (id : string) (member : Member) :
    Member :=
  if String.eqb id nodeID then member
  else if negb (threshold <? time_Sub now (LastHeartbeat member)) then member
  else match mStatus member with
  | StatusAlive => suspect member
  | StatusSuspect => setStatus member StatusDead
  | _ => member
  end.

Lemma stale_member_status (nodeID : string) (threshold now : Z) (id : string) (mem : Member) :
  mStatus (stale_member nodeID threshold now id mem) = mStatus mem <->
  stale_member nodeID threshold now id mem = mem.
Proof.
  unfold stale_member. destruct (String.eqb id nodeID); [done|].
  destruct (negb _); [done|]. destruct (mStatus mem) eqn:Hs; simpl; split; try done;
    intros Heq; apply (f_equal mStatus) in Heq; simpl in Heq; congruence.
Qed.

(** The loop of [MarkStale] so far: the processed members are escalated. *)
Definition stale_inv (m : Membership) (threshold now : Z) (done : gmap string Member)
    (acc : gmap string Member * list string) : Prop :=
  let g := stale_member (m_nodeID m) threshold now in
  (forall id, acc.1 !! id = match done !! id with Some mem => Some (g id mem)
                            | None => members m !! id end) /\
  NoDup acc.2 /\
  (forall id, id ∈ acc.2 <-> exists mem, done !! id = Some mem /\
     mStatus (g id mem) <> mStatus mem).

Lemma stale_step_eq (nodeID : string) (threshold now : Z) (id : string) (mem : Member)
    (ms : gmap string Member) (changed : list string) :
  ms !! id = Some mem ->
  stale_step nodeID threshold now id mem (ms, changed) =
  let mem' := stale_member nodeID threshold now id mem in
  (<[id := mem']> ms, if decide (mStatus mem' = mStatus mem) then changed else changed ++ [id]).
Proof.
  intros Hid. unfold stale_step, stale_member. simpl.
  destruct (String.eqb id nodeID); simpl; [by rewrite insert_id, decide_True|].
  destruct (negb _); simpl; [by rewrite insert_id, decide_True|].
  destruct (mStatus mem) eqn:Hs; simpl; rewrite ?Hs; try done; by rewrite insert_id.
Qed.

Lemma stale_inv_step (m : Membership) (threshold now : Z) (k : string) (v : Member)
    (done : gmap string Member) (acc : gmap string Member * list string) :
  members m !! k = Some v -> done !! k = None -> stale_inv m threshold now done acc ->
  stale_inv m threshold now (<[k:=v]> done) (stale_step (m_nodeID m) threshold now k v acc).
Proof.
  intros Hm Hk (H1 & H2 & H3). destruct acc as [ms changed]. simpl in H1, H2, H3.
  rewrite stale_step_eq by (by rewrite H1, Hk). unfold stale_inv. simpl.
  assert (k ∉ changed) as Hnew by (rewrite H3; naive_solver congruence).
  split_and!.
  - intros id. rewrite !lookup_insert. case_decide; [by subst|apply H1].
  - case_decide; [done|]. apply NoDup_app. split_and!; [done|set_solver|apply NoDup_singleton].
  - intros id. transitivity (id ∈ changed \/ (id = k /\
      mStatus (stale_member (m_nodeID m) threshold now k v) <> mStatus v)).
    + case_decide; [naive_solver|]. rewrite elem_of_app, list_elem_of_singleton. naive_solver.
    + rewrite H3. setoid_rewrite lookup_insert. case_decide; naive_solver congruence.
Qed.

Lemma MarkStale_spec (m : Membership) (threshold now : Z) :
  let '(m', changed) := MarkStale m threshold now in
  m_nodeID m' = m_nodeID m /\
  (forall id, members m' !! id =
     stale_member (m_nodeID m) threshold now id <$> members m !! id) /\
  NoDup changed /\
  (forall id, id ∈ changed <-> exists mem, members m !! id = Some mem /\
     mStatus (stale_member (m_nodeID m) threshold now id mem) <> mStatus mem).
Proof.
  unfold MarkStale.
  assert (stale_inv m threshold now (members m)
    (range (stale_step (m_nodeID m) threshold now) (members m) (members m, []))) as H.
  { apply (range_ind_in _ (stale_inv m threshold now) _ _ (map_to_list (members m)));
      [apply iteration_of_self| |intros; by apply stale_inv_step].
    split_and!; simpl; [done|apply NoDup_nil_2|]. intros id. split.
    - intros Hin. by apply not_elem_of_nil in Hin.
    - intros (mem & Hmem & _). by rewrite lookup_empty in Hmem. }
  destruct (range _ _ _) as [ms changed]. destruct H as (H1 & H2 & H3). simpl in *.
  split_and!; [done| |done|done]. intros id. rewrite H1. by destruct (members m !! id).
Qed.

(** ** Peer selection *)

Lemma append_loop (p : Member -> bool) (l : list (string * Member)) (acc : list Member) :
  range_list (append_step p) l acc = acc ++ filter (fun m => p m = true) l.*2.
Proof.
  unfold range_list. revert acc. induction l as [|[k m] l IH]; intros acc; simpl.
  - by rewrite app_nil_r.
  - rewrite IH. unfold append_step. simpl. rewrite filter_cons.
    destruct (p m) eqn:Hp; case_decide; try congruence; [|done]. by rewrite <- app_assoc.
Qed.

Lemma append_range (p : Member -> bool) (ms : gmap string Member) :
  range (append_step p) ms [] = filter (fun m => p m = true) (map_to_list ms).*2.
Proof. unfold range. by rewrite append_loop. Qed.

Lemma append_range_elem (p : Member -> bool) (ms : gmap string Member) (mem : Member) :
  mem ∈ range (append_step p) ms [] <-> p mem = true /\ exists id, ms !! id = Some mem.
Proof.
  rewrite append_range, list_elem_of_filter, list_elem_of_fmap. split.
  - intros [Hp ([id m] & -> & Hin)]. split; [done|]. exists id. by apply elem_of_map_to_list.
  - intros [Hp [id Hid]]. split; [done|]. exists (id, mem). split; [done|].
    by apply elem_of_map_to_list.
Qed.

(** ** The table invariant *)

(** A member is stored under its id, is active exactly when it is Alive, and
    an Alive member carries no suspicion. *)
Definition member_ok (id : string) (mem : Member) : Prop :=
  ID mem = id /\ IsActive mem = bool_decide (mStatus mem = StatusAlive) /\
  (mStatus mem = StatusAlive -> SuspectCount mem = 0).

Definition membership_ok (m : Membership) : Prop :=
  forall id mem, members m !! id = Some mem -> member_ok id mem.

#[export] Instance membership_ok_dec (m : Membership) : Decision (membership_ok m).
Proof.
  assert (Decision (map_Forall member_ok (members m))) as H.
  { apply map_Forall_dec. intros id mem. unfold member_ok. apply _. }
  exact H.
Defined.

(** The calls the rest of the program makes on a membership table. *)
Inductive mop :=
| OpAddStatus (id address : string) (status : Status) (t : Z)
| OpAdd (id address : string) (isActive : bool) (t : Z)
| OpHeartbeat (id : string) (now : Z)
| OpPriority (id : string) (priority : Z)
| OpSuspect (id : string)
| OpInactive (id : string)
| OpDead (id : string)
| OpLeft (id : string)
| OpStale (threshold now : Z)
| OpApply (statuses : gmap string Z)
| OpDiscovered (found : gmap string string) (now : Z)
| OpRecovering (b : bool).

Definition exec (m : Membership) (op : mop) : Membership :=
  match op with
  | OpAddStatus id address status t => AddOrUpdateMemberStatus m id address status t
  | OpAdd id address isActive t => AddOrUpdateMember m id address isActive t
  | OpHeartbeat id now => UpdateHeartbeat m id now
  | OpPriority id priority => SetPriority m id priority
  | OpSuspect id => MarkSuspect m id
  | OpInactive id => MarkInactive m id
  | OpDead id => MarkDead m id
  | OpLeft id => MarkLeft m id
  | OpStale threshold now => (MarkStale m threshold now).1
  | OpApply statuses => ApplyMembership m statuses
  | OpDiscovered found now => AddDiscoveredNodes m found now
  | OpRecovering b => SetRecovering m b
  end.

Lemma membership_ok_insert (m : Membership) (id : string) (mem : Member) :
  membership_ok m -> member_ok id mem -> membership_ok (with_members m (<[id:=mem]> (members m))).
Proof.
  intros Hm Hmem j x. simpl. rewrite lookup_insert. case_decide; [|apply Hm].
  intros Heq. by simplify_eq.
Qed.

Lemma membership_ok_on (m : Membership) (id : string) (f : Member -> Member) :
  membership_ok m -> (forall mem, member_ok id mem -> member_ok id (f mem)) ->
  membership_ok (on_member m id f).
Proof.
  intros Hm Hf. unfold on_member. destruct (members m !! id) as [mem|] eqn:Hid; [|done].
  apply membership_ok_insert; [done|]. apply Hf. by apply Hm.
Qed.

Lemma member_ok_suspect (id : string) (mem : Member) :
  member_ok id mem -> member_ok id (suspect mem).
Proof. intros (H1 & H2 & H3). by split_and!. Qed.

Lemma member_ok_status (id : string) (mem : Member) (s : Status) :
  s <> StatusAlive -> member_ok id mem -> member_ok id (setStatus mem s).
Proof. intros Hs (H1 & H2 & H3). by split_and!. Qed.

Lemma member_ok_alive (id : string) (mem : Member) :
  member_ok id mem -> member_ok id (set_suspect (setStatus mem StatusAlive) 0).
Proof. intros (H1 & H2 & H3). by split_and!. Qed.

Lemma member_ok_contact (id : string) (mem : Member) (a : string) (t : Z) :
  member_ok id mem -> member_ok id (set_contact mem a t).
Proof. intros (H1 & H2 & H3). by split_and!. Qed.

#[export] Hint Resolve member_ok_suspect member_ok_status member_ok_alive member_ok_contact : gomap.

Lemma membership_ok_add (m : Membership) (id address : string) (status : Status) (t : Z) :
  membership_ok m -> membership_ok (AddOrUpdateMemberStatus m id address status t).
Proof.
  intros Hm. unfold AddOrUpdateMemberStatus. destruct (members m !! id) as [mem|] eqn:Hid.
  - apply membership_ok_insert; [done|]. pose proof (Hm id mem Hid).
    case_decide; auto with gomap.
  - apply membership_ok_insert; [done|]. by split_and!.
Qed.

Lemma membership_ok_pointwise (m m' : Membership) (g : string -> Member -> Member) :
  membership_ok m -> (forall id, members m' !! id = g id <$> members m !! id) ->
  (forall id mem, member_ok id mem -> member_ok id (g id mem)) -> membership_ok m'.
Proof.
  intros Hm Hg Hok id mem. rewrite Hg. intros (x & Hx & ->)%fmap_Some. by apply Hok, Hm.
Qed.

Lemma member_ok_apply (id : string) (mem : Member) (s : Status) :
  member_ok id mem -> member_ok id (apply_status mem s).
Proof.
  intros Hok. unfold apply_status. destruct s; repeat case_match; auto with gomap.
Qed.

Lemma member_ok_stale (nodeID : string) (threshold now : Z) (id : string) (mem : Member) :
  member_ok id mem -> member_ok id (stale_member nodeID threshold now id mem).
Proof. intros Hok. unfold stale_member. repeat case_match; auto with gomap. Qed.

Lemma exec_ok (m : Membership) (op : mop) : membership_ok m -> membership_ok (exec m op).
Proof.
  intros Hm. destruct op; simpl; try (by apply membership_ok_add);
    try (apply membership_ok_on; [done|]; auto with gomap).
  - intros mem Hok. destruct (mStatus mem); auto with gomap.
  - intros mem Hok. destruct (mStatus mem); auto with gomap.
  - pose proof (MarkStale_spec m threshold now) as H. destruct (MarkStale _ _ _) as [m' ch].
    destruct H as (_ & H & _). eapply membership_ok_pointwise; [done|apply H|].
    intros; by apply member_ok_stale.
  - eapply membership_ok_pointwise; [done|apply ApplyMembership_lookup|].
    intros id mem Hok. unfold gossip_member. repeat case_match; auto using member_ok_apply.
  - unfold AddDiscoveredNodes. apply (range_ind _ (fun _ m' => membership_ok m')); [done|].
    intros k v _ m' _ Hm'. case_match; [done|]. by apply membership_ok_add.
  - exact Hm.
Qed.

Lemma members_IDs (m : Membership) :
  membership_ok m -> ID <$> (map_to_list (members m)).*2 = (map_to_list (members m)).*1.
Proof.
  intros Hm. rewrite <- list_fmap_compose. apply list_fmap_ext. intros i [id mem] Hi. simpl.
  apply Hm. apply elem_of_map_to_list. by eapply list_elem_of_lookup_2.
Qed.

Lemma members_NoDup (m : Membership) :
  membership_ok m -> NoDup ((map_to_list (members m)).*2).
Proof.
  intros Hm. apply (NoDup_fmap_1 ID). rewrite (members_IDs m Hm). apply NoDup_fst_map_to_list.
Qed.

Lemma GetMembers_NoDup (m : Membership) : membership_ok m -> NoDup (ID <$> GetMembers m).
Proof.
  intros Hm. unfold GetMembers. rewrite append_range.
  assert (forall l : list Member, filter (fun _ => true = true) l = l) as ->.
  { intros l. induction l as [|x l IH]; [done|]. by rewrite filter_cons_True, IH. }
  rewrite (members_IDs m Hm). apply NoDup_fst_map_to_list.
Qed.

(** ** Properties *)

(** In every membership table reached from a new one by any sequence of the
    table's operations, each member is stored under its own id, is active
    exactly when its status is Alive, and an Alive member has suspicion zero. *)
Theorem membership_invariant (nodeID : string) (ops : list mop) :
  membership_ok (foldl exec (NewMembership nodeID) ops).
Proof.
  assert (membership_ok (NewMembership nodeID)) as H0.
  { intros id mem. simpl. by rewrite lookup_empty. }
  revert H0. generalize (NewMembership nodeID).
  induction ops as [|op ops IH]; intros m Hm; [done|]. simpl. by apply IH, exec_ok.
Qed.

(** [MarkStale] escalates a member by one step, Alive to Suspect and
    Suspect to Dead, exactly when it is not the local node and its heartbeat is
    older than the threshold; it reports exactly the escalated ids, once each. *)
Theorem MarkStale_escalates (m m' : Membership) (changed : list string) (threshold now : Z)
    (id : string) (mem : Member) :
  MarkStale m threshold now = (m', changed) -> members m !! id = Some mem ->
  exists mem', members m' !! id = Some mem' /\
    mStatus mem' =
      (if bool_decide (id <> m_nodeID m /\ threshold < time_Sub now (LastHeartbeat mem)) then
         match mStatus mem with
         | StatusAlive => StatusSuspect
         | StatusSuspect => StatusDead
         | s => s
         end
       else mStatus mem) /\
    (id ∈ changed <-> mStatus mem' <> mStatus mem) /\ NoDup changed.
Proof.
  intros Hrun Hid. pose proof (MarkStale_spec m threshold now) as H. rewrite Hrun in H.
  destruct H as (_ & Hl & Hnd & Hch). eexists. rewrite Hl, Hid. split; [done|]. split_and!.
  - unfold stale_member. destruct (String.eqb_spec id (m_nodeID m)) as [->|Hne].
    { rewrite bool_decide_eq_false_2; naive_solver. }
    destruct (Z.ltb_spec threshold (time_Sub now (LastHeartbeat mem))); simpl.
    + rewrite bool_decide_eq_true_2 by done. by destruct (mStatus mem) eqn:Hs.
    + rewrite bool_decide_eq_false_2; [done|]. lia.
  - rewrite Hch. split; [intros (x & Hx & Hne); by simplify_eq|eauto].
  - done.
Qed.

(** C19: Gossiped statuses are applied with caution: the local node and unknown
    ids are untouched, no status is ever moved back to Alive, an Alive member
    reported Dead only becomes Suspect, and a member reported Left is Left. *)
Theorem ApplyMembership_cautious (m : Membership) (statuses : gmap string Z) (id : string) :
  match members m !! id with
  | None => members (ApplyMembership m statuses) !! id = None
  | Some mem => exists mem', members (ApplyMembership m statuses) !! id = Some mem' /\
      (id = m_nodeID m \/ statuses !! id = None -> mem' = mem) /\
      (mStatus mem' = StatusAlive -> mStatus mem = StatusAlive) /\
      (mStatus mem = StatusAlive -> mStatus mem' <> StatusDead) /\
      (id <> m_nodeID m -> statuses !! id = Some MEMBER_LEFT -> mStatus mem' = StatusLeft)
  end.
Proof.
  rewrite ApplyMembership_lookup. destruct (members m !! id) as [mem|]; [|done]. simpl.
  eexists. split; [done|]. unfold gossip_member.
  destruct (statuses !! id) as [s|]; [|split_and!; congruence].
  destruct (String.eqb_spec id (m_nodeID m)) as [|Hne]; [split_and!; congruence|].
  split_and!; [naive_solver| | |].
  - unfold apply_status. destruct (StatusFromProto s); repeat case_match; simpl; done.
  - unfold apply_status. destruct (StatusFromProto s); repeat case_match; simpl; congruence.
  - intros _ [= ->]. done.
Qed.

(** Random gossip peers: for every shuffle, [GetRandomPeers] returns
    distinct members of the table that are Alive and not the local node, as many
    as asked for or all of them when there are fewer. *)
Theorem GetRandomPeers_spec (shuffle : list Member -> list Member) (m : Membership) (count : Z) :
  (forall l, shuffle l ≡ₚ l) -> membership_ok m -> 0 <= count ->
  let peers := GetRandomPeers shuffle m count in
  NoDup peers /\
  (forall p, p ∈ peers -> members m !! ID p = Some p /\ ID p <> m_nodeID m /\
                          mStatus p = StatusAlive) /\
  Z.of_nat (length peers) = Z.min count (Z.of_nat (length (GetAlivePeers m))).
Proof.
  intros Hsh Hm Hc. simpl. set (alive := GetAlivePeers m).
  assert (forall p, p ∈ alive -> members m !! ID p = Some p /\ ID p <> m_nodeID m /\
            mStatus p = StatusAlive) as Halive.
  { intros p [Hp [id Hid]]%append_range_elem. destruct (Hm id p Hid) as [Hpid _].
    unfold alive_peer in Hp. apply andb_true_iff in Hp as [Hn Hs].
    apply negb_true_iff, String.eqb_neq in Hn. apply bool_decide_eq_true in Hs.
    rewrite Hpid in *. done. }
  assert (NoDup alive) as Hnd.
  { unfold alive, GetAlivePeers. rewrite append_range. by apply NoDup_filter, members_NoDup. }
  unfold GetRandomPeers. change (range _ _ _) with alive.
  assert (length (shuffle alive) = length alive) as Hlen by (by rewrite Hsh).
  rewrite Hlen. destruct (Z.ltb_spec count (Z.of_nat (length alive))).
  - split_and!.
    + apply (sublist_NoDup _ (shuffle alive)); [by rewrite Hsh|apply sublist_take].
    + intros p Hp. apply Halive. rewrite <- (Hsh alive).
      by apply (subseteq_take (Z.to_nat count)).
    + rewrite length_take, Hlen. lia.
  - split_and!; [by rewrite Hsh| |rewrite Hlen; lia]. intros p. rewrite Hsh. apply Halive.
Qed.

(** ** Witnesses *)

Definition ex_members : Membership :=
  foldl exec (NewMembership "node-a")
    [OpAdd "node-a" "a:1" true 100; OpAdd "node-b" "b:1" true 100; OpAdd "node-c" "c:1" true 150;
     OpSuspect "node-c"].

Lemma MarkStale_escalates_witness :
  "node-b" ∈ (MarkStale ex_members 10 200).2.
Proof.
  destruct (MarkStale_escalates ex_members (MarkStale ex_members 10 200).1
    (MarkStale ex_members 10 200).2 10 200 "node-b"
    {| ID := "node-b"; Address := "b:1"; mStatus := StatusAlive; IsActive := true;
       CounterValue := 0; LastHeartbeat := 100; SuspectCount := 0; Priority := 0 |})
    as (mem' & _ & Hs & Hch & _).
  - by destruct (MarkStale ex_members 10 200).
  - vm_compute. reflexivity.
  - apply Hch. rewrite Hs. vm_compute. discriminate.
Defined.

Lemma GetRandomPeers_spec_witness :
  Z.of_nat (length (GetRandomPeers reverse ex_members 3)) = 1.
Proof.
  destruct (GetRandomPeers_spec reverse ex_members 3) as (_ & _ & ->).
  - intros l. apply reverse_Permutation.
  - by_eval.
  - done.
  - vm_compute. reflexivity.
Defined.
