(* ===== verification/Json.v ===== *)
(** * JSON (the part of encoding/json the program uses)

    Texts and values: how [json.Marshal] writes strings, integers, maps and
    structs, and the grammar [json.Unmarshal] accepts, with its escapes, its
    treatment of malformed UTF-8 and its limit on the nesting.  A string is a
    sequence of bytes.  What the entries of the log and the snapshots look like is
    in [Codec]. *)

From Stdlib Require Import DecimalString DecimalZ DecimalFacts.
From S2P Require Import Prelude.

(** ** Bytes and runes *)

Definition code (c : ascii) : N := N_of_ascii c.

Definition between (lo x hi : N) : bool := (lo <=? x)%N && (x <=? hi)%N.

Definition chr (n : N) : ascii := ascii_of_N n.

Definition quotation : ascii := "034"%char.

Definition backslash : ascii := "092"%char.

(** [utf8.RuneError] *)
Definition RuneError : N := 65533.

(** A continuation byte. *)
Definition continues (c : ascii) : bool := between 128 (code c) 191.

Definition low6 (c : ascii) : N := N.land (code c) 63.

(** [utf8.DecodeRuneInString]: the rune at the start of the string and its width,
    [(RuneError, 1)] when the encoding is invalid. *)
Definition DecodeRune (s : string) : N * nat :=
  match s with
  | EmptyString => (RuneError, 0%nat)
  | String a s =>
      let x := code a in
      if (x <? 128)%N then (x, 1%nat)
      else if between 194 x 223 then
        match s with
        | String b _ =>
            if continues b then (N.lor (N.shiftl (N.land x 31) 6) (low6 b), 2%nat) else (RuneError, 1%nat)
        | _ => (RuneError, 1%nat)
        end
      else if between 224 x 239 then
        match s with
        | String b (String c _) =>
            let lo := if (x =? 224)%N then 160%N else 128%N in
            let hi := if (x =? 237)%N then 159%N else 191%N in
            if between lo (code b) hi && continues c
            then (N.lor (N.shiftl (N.land x 15) 12) (N.lor (N.shiftl (low6 b) 6) (low6 c)), 3%nat)
            else (RuneError, 1%nat)
        | _ => (RuneError, 1%nat)
        end
      else if between 240 x 244 then
        match s with
        | String b (String c (String d _)) =>
            let lo := if (x =? 240)%N then 144%N else 128%N in
            let hi := if (x =? 244)%N then 143%N else 191%N in
            if between lo (code b) hi && continues c && continues d
            then (N.lor (N.shiftl (N.land x 7) 18)
                    (N.lor (N.shiftl (low6 b) 12) (N.lor (N.shiftl (low6 c) 6) (low6 d))), 4%nat)
            else (RuneError, 1%nat)
        | _ => (RuneError, 1%nat)
        end
      else (RuneError, 1%nat)
  end.

(** [utf8.EncodeRune] *)
Definition EncodeRune (r : N) : string :=
  let r := if between 55296 r 57343 || (1114111 <? r)%N then RuneError else r in
  let tail sh := chr (N.lor 128 (N.land (N.shiftr r sh) 63)) in
  if (r <? 128)%N then String (chr r) ""
  else if (r <? 2048)%N then String (chr (N.lor 192 (N.shiftr r 6))) (String (tail 0%N) "")
  else if (r <? 65536)%N then
    String (chr (N.lor 224 (N.shiftr r 12))) (String (tail 6%N) (String (tail 0%N) ""))
  else
    String (chr (N.lor 240 (N.shiftr r 18)))
      (String (tail 12%N) (String (tail 6%N) (String (tail 0%N) ""))).

Definition hex_digit (n : N) : ascii := if (n <? 10)%N then chr (48 + n) else chr (87 + n).

Definition hex_value (c : ascii) : option N :=
  let x := code c in
  if between 48 x 57 then Some (x - 48)%N
  else if between 97 x 102 then Some (x - 87)%N
  else if between 65 x 70 then Some (x - 55)%N
  else None.

(** ** Writing *)

(** The byte as it appears in a string literal, for a byte below 0x80: the quotes,
    the backslash, the control characters and the characters HTML cares about
    are escaped. *)
Definition escape (c : ascii) : string :=
  let x := code c in
  if (x =? 34)%N || (x =? 92)%N then String backslash (String c "")
  else if (x =? 8)%N then String backslash "b"
  else if (x =? 12)%N then String backslash "f"
  else if (x =? 10)%N then String backslash "n"
  else if (x =? 13)%N then String backslash "r"
  else if (x =? 9)%N then String backslash "t"
  else if (x <? 32)%N || (x =? 60)%N || (x =? 62)%N || (x =? 38)%N
  then String backslash (String "u" (String "0" (String "0"
         (String (hex_digit (N.shiftr x 4)) (String (hex_digit (N.land x 15)) "")))))
  else String c "".

(** What to do with the next bytes: they belong to a rune that is copied or that
    was written in another way. *)
Inductive pending := Copy (n : nat) | Drop (n : nat).

(** The body of a string literal. *)
Fixpoint literal_body (p : pending) (s : string) : string :=
  match s with
  | EmptyString => ""
  | String c s' =>
      match p with
      | Copy (S n) => String c (literal_body (Copy n) s')
      | Drop (S n) => literal_body (Drop n) s'
      | _ =>
          if (code c <? 128)%N then escape c +:+ literal_body (Copy 0) s'
          else
            let '(r, size) := DecodeRune s in
            if (size =? 1)%nat then String backslash "ufffd" +:+ literal_body (Copy 0) s'
            else if (r =? 8232)%N || (r =? 8233)%N
            then (String backslash "u202" +:+ String (hex_digit (N.land r 15)) "") +:+
                 literal_body (Drop (size - 1)) s'
            else String c (literal_body (Copy (size - 1)) s')
      end
  end.

Definition write_string (s : string) : string :=
  String quotation (literal_body (Copy 0) s +:+ String quotation "").

(** [strconv.AppendInt(n, 10)] *)
Definition write_int (z : Z) : string := NilZero.string_of_int (Z.to_int z).

#[local] Unset Elimination Schemes.

(** JSON values; a number keeps its text. *)
Inductive json :=
| JNull
| JBool (b : bool)
| JNum (text : string)
| JStr (s : string)
| JArr (l : list json)
| JObj (kvs : list (string * json)).

#[local] Set Elimination Schemes.

(** Induction with the hypothesis for every element and every member. *)
Lemma json_ind (P : json -> Prop) :
  P JNull -> (forall b, P (JBool b)) -> (forall t, P (JNum t)) -> (forall s, P (JStr s)) ->
  (forall l, Forall P l -> P (JArr l)) ->
  (forall kvs, Forall (fun kv => P kv.2) kvs -> P (JObj kvs)) -> forall j, P j.
Proof.
  intros Hn Hb Ht Hs Ha Ho. fix IH 1. intros [|b|t|s|l|kvs]; [done|done|done|done| |].
  - apply Ha. induction l as [|x l IHl]; constructor; [apply IH|apply IHl].
  - apply Ho. induction kvs as [|[k x] l IHl]; constructor; [apply IH|apply IHl].
Qed.

(** Texts separated by commas. *)
Fixpoint commas (l : list string) : string :=
  match l with
  | [] => ""
  | [x] => x
  | x :: l => x +:+ String "," (commas l)
  end.

Fixpoint json_text (j : json) : string :=
  match j with
  | JNull => "null"
  | JBool b => if b then "true" else "false"
  | JNum text => text
  | JStr s => write_string s
  | JArr l => String "[" (commas (json_text <$> l) +:+ "]")
  | JObj kvs =>
      String "{" (commas ((fun kv => write_string kv.1 +:+ String ":" (json_text kv.2)) <$> kvs) +:+ "}")
  end.

(** ** Reading *)

Definition is_space (c : ascii) : bool :=
  let x := code c in (x =? 32)%N || (x =? 9)%N || (x =? 10)%N || (x =? 13)%N.

Fixpoint skip_space (s : string) : string :=
  match s with
  | String c s' => if is_space c then skip_space s' else s
  | EmptyString => ""
  end.

Definition is_digit (c : ascii) : bool := between 48 (code c) 57.

Fixpoint take_digits (s : string) : string * string :=
  match s with
  | String c s' => if is_digit c then let '(a, r) := take_digits s' in (String c a, r) else ("", s)
  | EmptyString => ("", "")
  end.

Definition scan_sign (s : string) : string * string :=
  match s with
  | String c s' => if Ascii.eqb c "-" then ("-", s') else ("", s)
  | EmptyString => ("", "")
  end.

(** [0], or digits that do not start with a zero. *)
Definition scan_int (s : string) : option (string * string) :=
  match s with
  | String c s' =>
      if Ascii.eqb c "0" then Some ("0", s') else if is_digit c then Some (take_digits s) else None
  | EmptyString => None
  end.

Definition scan_frac (s : string) : option (string * string) :=
  match s with
  | String c s' =>
      if Ascii.eqb c "." then
        let '(d, r) := take_digits s' in if String.eqb d "" then None else Some (String c d, r)
      else Some ("", s)
  | EmptyString => Some ("", "")
  end.

Definition scan_exp (s : string) : option (string * string) :=
  match s with
  | String c s' =>
      if Ascii.eqb c "e" || Ascii.eqb c "E" then
        let '(sign, s1) := match s' with
          | String d s1 => if Ascii.eqb d "+" || Ascii.eqb d "-" then (String d "", s1) else ("", s')
          | EmptyString => ("", "")
          end in
        let '(d, r) := take_digits s1 in
        if String.eqb d "" then None else Some (String c (sign +:+ d), r)
      else Some ("", s)
  | EmptyString => Some ("", "")
  end.

Definition scan_number (s : string) : option (string * string) :=
  let '(sign, s1) := scan_sign s in
  '(i, s2) ← scan_int s1; '(f, s3) ← scan_frac s2; '(e, r) ← scan_exp s3;
  Some (sign +:+ i +:+ f +:+ e, r).

(** Four hexadecimal digits. *)
Definition hex4 (a b c d : ascii) : option N :=
  x ← hex_value a; y ← hex_value b; z ← hex_value c; w ← hex_value d;
  Some (x * 4096 + y * 256 + z * 16 + w)%N.

(** A surrogate pair, if the two form one. *)
Definition surrogates (hi lo : N) : option N :=
  if between 55296 hi 56319 && between 56320 lo 57343
  then Some ((hi - 55296) * 1024 + (lo - 56320) + 65536)%N else None.

(** The rune of the surrogate [hi] and the escape of another one that follows. *)
Definition pair_at (hi : N) (s : string) : option N :=
  match s with
  | String b (String u (String k1 (String k2 (String k3 (String k4 _))))) =>
      if Ascii.eqb b backslash && Ascii.eqb u "u" then lo ← hex4 k1 k2 k3 k4; surrogates hi lo else None
  | _ => None
  end.

Definition prepend (x : string) (r : option (string * string)) : option (string * string) :=
  '(y, rest) ← r; Some (x +:+ y, rest).

(** The rest of a string literal after its opening quote: the decoded string and
    what follows the closing quote.  [copy] bytes belong to a rune already
    recognised. *)
Fixpoint scan_string (copy : nat) (s : string) : option (string * string) :=
  match s with
  | EmptyString => None
  | String c s1 =>
      match copy with
      | S n => prepend (String c "") (scan_string n s1)
      | O =>
          let x := code c in
          if (x =? 34)%N then Some ("", s1)
          else if (x <? 32)%N then None
          else if (x =? 92)%N then
            match s1 with
            | EmptyString => None
            | String e s2 =>
                let y := code e in
                if (y =? 34)%N || (y =? 92)%N || (y =? 47)%N then prepend (String e "") (scan_string 0 s2)
                else if (y =? 98)%N then prepend (String (chr 8) "") (scan_string 0 s2)
                else if (y =? 102)%N then prepend (String (chr 12) "") (scan_string 0 s2)
                else if (y =? 110)%N then prepend (String (chr 10) "") (scan_string 0 s2)
                else if (y =? 114)%N then prepend (String (chr 13) "") (scan_string 0 s2)
                else if (y =? 116)%N then prepend (String (chr 9) "") (scan_string 0 s2)
                else if (y =? 117)%N then
                  match s2 with
                  | String h1 (String h2 (String h3 (String h4 s3))) =>
                      match hex4 h1 h2 h3 h4 with
                      | None => None
                      | Some r =>
                          if between 55296 r 57343 then
                            match pair_at r s3, s3 with
                            | Some rune, String _ (String _ (String _ (String _ (String _ (String _ s4))))) =>
                                prepend (EncodeRune rune) (scan_string 0 s4)
                            | _, _ => prepend (EncodeRune RuneError) (scan_string 0 s3)
                            end
                          else prepend (EncodeRune r) (scan_string 0 s3)
                      end
                  | _ => None
                  end
                else None
            end
          else if (x <? 128)%N then prepend (String c "") (scan_string 0 s1)
          else
            let '(_, size) := DecodeRune s in
            if (size =? 1)%nat then prepend (EncodeRune RuneError) (scan_string 0 s1)
            else prepend (String c "") (scan_string (size - 1) s1)
      end
  end.

Fixpoint scan_word (w s : string) : option string :=
  match w, s with
  | EmptyString, _ => Some s
  | String a w, String b s => if Ascii.eqb a b then scan_word w s else None
  | _, EmptyString => None
  end.

(** Values, the members of an object after its brace and the elements of an array
    after its bracket.  [depth] is how much deeper the nesting may get. *)
Fixpoint read_value (fuel : nat) (depth : N) (s : string) : option (json * string) :=
  match fuel with
  | O => None
  | S fuel =>
      match skip_space s with
      | EmptyString => None
      | String c s1 =>
          if Ascii.eqb c "{" then
            if (depth =? 0)%N then None
            else match skip_space s1 with
            | String d s2 =>
                if Ascii.eqb d "}" then Some (JObj [], s2)
                else '(kvs, r) ← read_members fuel (depth - 1) s1; Some (JObj kvs, r)
            | EmptyString => None
            end
          else if Ascii.eqb c "[" then
            if (depth =? 0)%N then None
            else match skip_space s1 with
            | String d s2 =>
                if Ascii.eqb d "]" then Some (JArr [], s2)
                else '(l, r) ← read_elements fuel (depth - 1) s1; Some (JArr l, r)
            | EmptyString => None
            end
          else if Ascii.eqb c quotation then '(x, r) ← scan_string 0 s1; Some (JStr x, r)
          else if Ascii.eqb c "t" then r ← scan_word "rue" s1; Some (JBool true, r)
          else if Ascii.eqb c "f" then r ← scan_word "alse" s1; Some (JBool false, r)
          else if Ascii.eqb c "n" then r ← scan_word "ull" s1; Some (JNull, r)
          else '(text, r) ← scan_number (String c s1); Some (JNum text, r)
      end
  end
with read_members (fuel : nat) (depth : N) (s : string) : option (list (string * json) * string) :=
  match fuel with
  | O => None
  | S fuel =>
      match skip_space s with
      | EmptyString => None
      | String q s1 =>
          if Ascii.eqb q quotation then
            '(k, s2) ← scan_string 0 s1;
            match skip_space s2 with
            | EmptyString => None
            | String c s3 =>
                if Ascii.eqb c ":" then
                  '(v, s4) ← read_value fuel depth s3;
                  match skip_space s4 with
                  | EmptyString => None
                  | String e s5 =>
                      if Ascii.eqb e "," then
                        '(kvs, r) ← read_members fuel depth s5; Some ((k, v) :: kvs, r)
                      else if Ascii.eqb e "}" then Some ([(k, v)], s5)
                      else None
                  end
                else None
            end
          else None
      end
  end
with read_elements (fuel : nat) (depth : N) (s : string) : option (list json * string) :=
  match fuel with
  | O => None
  | S fuel =>
      '(v, s1) ← read_value fuel depth s;
      match skip_space s1 with
      | EmptyString => None
      | String e s2 =>
          if Ascii.eqb e "," then '(l, r) ← read_elements fuel depth s2; Some (v :: l, r)
          else if Ascii.eqb e "]" then Some ([v], s2)
          else None
      end
  end.

(** The limit of the scanner on the nesting. *)
Definition maxNestingDepth : N := 10000.

(** A whole text: one value, with space around it. *)
Definition parse (s : string) : option json :=
  '(v, r) ← read_value (S (2 * String.length s)) maxNestingDepth s;
  if String.eqb (skip_space r) "" then Some v else None.

(** ** Strings *)

Lemma scan_escape (c : ascii) (k : string) :
  (code c < 128)%N -> scan_string 0 (escape c +:+ k) = prepend (String c "") (scan_string 0 k).
Proof. destruct c as [[] [] [] [] [] [] [] []]; intros H; try reflexivity; by vm_compute in H. Qed.

(** [utf8.ValidString], after [skip] bytes of a rune already recognised. *)
Fixpoint valid_utf8 (skip : nat) (s : string) : bool :=
  match s with
  | EmptyString => (skip =? 0)%nat
  | String c s' =>
      match skip with
      | S n => valid_utf8 n s'
      | O =>
          if (code c <? 128)%N then valid_utf8 0 s'
          else let size := (DecodeRune s).2 in negb (size =? 1)%nat && valid_utf8 (size - 1) s'
      end
  end.

(** The strings JSON carries unchanged. *)
Definition utf8_string (s : string) : Prop := valid_utf8 0 s = true.

#[export] Instance utf8_string_dec (s : string) : Decision (utf8_string s).
Proof. unfold utf8_string. apply _. Defined.

Lemma valid_utf8_split (n : nat) (s : string) :
  valid_utf8 n s = true -> exists a b, s = a +:+ b /\ String.length a = n /\ utf8_string b.
Proof.
  revert n. induction s as [|c s IH]; intros [|n] Hs.
  - by exists "", "".
  - done.
  - by exists "", (String c s).
  - destruct (IH n Hs) as (a & b & -> & <- & Hb). by exists (String c a), b.
Qed.

Lemma literal_copy (a b : string) :
  literal_body (Copy (String.length a)) (a +:+ b) = a +:+ literal_body (Copy 0) b.
Proof.
  induction a as [|c a IH]; [done|].
  change (String c (literal_body (Copy (String.length a)) (a +:+ b)) = String c (a +:+ literal_body (Copy 0) b)).
  by rewrite IH.
Qed.

Lemma literal_drop (a b : string) :
  literal_body (Drop (String.length a)) (a +:+ b) = literal_body (Copy 0) b.
Proof. induction a as [|c a IH]; [by destruct b|done]. Qed.

Lemma scan_copy (a s : string) :
  scan_string (String.length a) (a +:+ s) = prepend a (scan_string 0 s).
Proof.
  induction a as [|c a IH].
  { change (scan_string 0 s = prepend "" (scan_string 0 s)). by destruct (scan_string 0 s) as [[]|]. }
  change (String c a +:+ s) with (String c (a +:+ s)). cbn [String.length scan_string]. rewrite IH.
  by destruct (scan_string 0 s) as [[]|].
Qed.

(** A rune of several bytes is recognised by them alone. *)
Lemma DecodeRune_bytes (c : ascii) (a x y : string) :
  (DecodeRune (String c (a +:+ x))).2 <> 1%nat ->
  String.length a = ((DecodeRune (String c (a +:+ x))).2 - 1)%nat -> (128 <= code c)%N ->
  DecodeRune (String c (a +:+ y)) = DecodeRune (String c (a +:+ x)).
Proof.
  intros H1 H2 Hc. unfold DecodeRune in *. destruct (N.ltb_spec (code c) 128); [lia|].
  destruct a as [|a1 [|a2 [|a3 [|a4 a]]]]; simpl in *;
    repeat match goal with
    | H : context [match ?x with _ => _ end] |- _ => destruct x; simpl in *; try done; try lia
    end.
Qed.

(** The separators of lines and paragraphs; their bytes are found by trying all. *)
Definition separator (r : N) : bool := (r =? 8232)%N || (r =? 8233)%N.

Definition all_bytes : list ascii := ascii_of_nat <$> seq 0 256.

Lemma all_bytes_spec (P : ascii -> bool) (c : ascii) : forallb P all_bytes = true -> P c = true.
Proof.
  rewrite forallb_forall. intros H. apply H, list_elem_of_In.
  apply list_elem_of_fmap. exists (nat_of_ascii c). split; [by rewrite ascii_nat_embedding|].
  apply elem_of_seq. pose proof (nat_ascii_bounded c). lia.
Qed.

Lemma separator_two (c a : ascii) :
  between 194 (code c) 223 = true -> continues a = true ->
  separator (N.lor (N.shiftl (N.land (code c) 31) 6) (low6 a)) = false.
Proof.
  intros Hc Ha. pose (P c a := if between 194 (code c) 223 then if continues a
    then negb (separator (N.lor (N.shiftl (N.land (code c) 31) 6) (low6 a))) else true else true).
  assert (P c a = true) as H.
  { apply (all_bytes_spec (P c)), (all_bytes_spec (fun c => forallb (P c) all_bytes)). by vm_compute. }
  unfold P in H. rewrite Hc, Ha in H. by apply negb_true_iff.
Qed.

Definition three_bytes (c a1 a2 : ascii) : N :=
  N.lor (N.shiftl (N.land (code c) 15) 12) (N.lor (N.shiftl (low6 a1) 6) (low6 a2)).

Lemma separator_three (c a1 a2 : ascii) :
  between 224 (code c) 239 = true -> continues a1 = true -> continues a2 = true ->
  separator (three_bytes c a1 a2) = true ->
  EncodeRune (three_bytes c a1 a2) = String c (String a1 (String a2 "")).
Proof.
  intros Hc H1 H2 Hs. pose (P c a1 a2 := if continues a2 then if separator (three_bytes c a1 a2)
    then String.eqb (EncodeRune (three_bytes c a1 a2)) (String c (String a1 (String a2 ""))) else true else true).
  pose (Q c a1 := if continues a1 then forallb (P c a1) all_bytes else true).
  pose (R c := if between 224 (code c) 239 then forallb (Q c) all_bytes else true).
  assert (R c = true) as H by (apply all_bytes_spec; by vm_compute).
  unfold R in H. rewrite Hc in H. apply (all_bytes_spec _ a1) in H. unfold Q in H.
  rewrite H1 in H. apply (all_bytes_spec _ a2) in H. unfold P in H. rewrite H2, Hs in H. by apply String.eqb_eq.
Qed.

Lemma separator_four (c a1 : ascii) (r : N) :
  between 240 (code c) 244 = true ->
  between (if (code c =? 240)%N then 144 else 128) (code a1) (if (code c =? 244)%N then 143 else 191) = true ->
  separator (N.lor (N.shiftl (N.land (code c) 7) 18) (N.lor (N.shiftl (low6 a1) 12) r)) = false.
Proof.
  intros Hc Ha. apply not_true_iff_false. intros Hs.
  assert (N.shiftr (N.lor (N.shiftl (N.land (code c) 7) 18) (N.lor (N.shiftl (low6 a1) 12) r)) 16 = 0)%N as H0.
  { apply orb_true_iff in Hs as [->%N.eqb_eq | ->%N.eqb_eq]; done. }
  rewrite !N.shiftr_lor in H0. apply N.lor_eq_0_iff in H0 as [H1 H2]. apply N.lor_eq_0_iff in H2 as [H2 _].
  pose (P c a := if between 240 (code c) 244 then
    if between (if (code c =? 240)%N then 144 else 128) (code a) (if (code c =? 244)%N then 143 else 191)
    then negb ((N.shiftr (N.shiftl (N.land (code c) 7) 18) 16 =? 0)%N &&
               (N.shiftr (N.shiftl (low6 a) 12) 16 =? 0)%N) else true else true).
  assert (P c a1 = true) as H.
  { apply (all_bytes_spec (P c)), (all_bytes_spec (fun c => forallb (P c) all_bytes)). by vm_compute. }
  unfold P in H. by rewrite Hc, Ha, H1, H2 in H.
Qed.

Lemma DecodeRune_separator (c : ascii) (s : string) :
  (128 <= code c)%N -> separator (DecodeRune (String c s)).1 = true ->
  exists a1 a2 b, s = String a1 (String a2 b) /\ (DecodeRune (String c s)).2 = 3%nat /\
    EncodeRune (DecodeRune (String c s)).1 = String c (String a1 (String a2 "")).
Proof.
  intros Hc. unfold DecodeRune. destruct (N.ltb_spec (code c) 128); [lia|].
  destruct (between 194 (code c) 223) eqn:E2.
  { destruct s as [|a s]; [done|]. destruct (continues a) eqn:Ha; [|done]. cbn [fst snd].
    by rewrite separator_two. }
  destruct (between 224 (code c) 239) eqn:E3.
  { destruct s as [|a1 [|a2 s]]; [done..|]. cbn zeta. case_match eqn:Hb; [|done]. cbn [fst snd].
    apply andb_true_iff in Hb as [H1 H2]. intros Hs. exists a1, a2, s. split_and!; [done..|].
    apply separator_three; try done. unfold between, continues in *. unfold between.
    rewrite andb_true_iff, !N.leb_le in *. repeat case_match; lia. }
  destruct (between 240 (code c) 244) eqn:E4; [|done].
  destruct s as [|a1 [|a2 [|a3 s]]]; [done..|]. cbn zeta. case_match eqn:Hb; [|done]. cbn [fst snd].
  apply andb_true_iff in Hb as [[H1 _]%andb_true_iff _]. by rewrite separator_four.
Qed.

(** A valid string is read back from its literal. *)
Lemma scan_literal (s rest : string) :
  utf8_string s -> scan_string 0 (literal_body (Copy 0) s +:+ String quotation rest) = Some (s, rest).
Proof.
  remember (String.length s) as n eqn:Hn. revert s Hn. induction n as [n IH] using lt_wf_ind.
  intros s -> Hs. destruct s as [|c s]; [done|]. unfold utf8_string in Hs. cbn [literal_body valid_utf8] in *.
  destruct (N.ltb_spec (code c) 128) as [Hc|Hc].
  { rewrite str_app_assoc, scan_escape by done. by rewrite (IH (String.length s)); [|simpl; lia|..]. }
  destruct (DecodeRune (String c s)) as [r size] eqn:HD. cbn [snd] in Hs.
  destruct (size =? 1)%nat eqn:H1; [done|]. simpl in Hs.
  destruct (valid_utf8_split _ _ Hs) as (a & b & -> & Ha & Hb).
  assert (scan_string 0 (literal_body (Copy 0) b +:+ String quotation rest) = Some (b, rest)) as IHb.
  { apply (IH (String.length b)); [simpl; rewrite str_app_length; lia|done..]. }
  fold (separator r). destruct (separator r) eqn:Hr.
  - assert (separator (DecodeRune (String c (a +:+ b))).1 = true) as Hsep by (by rewrite HD).
    destruct (DecodeRune_separator _ _ Hc Hsep) as (a1 & a2 & b' & E & E3 & EE).
    rewrite HD in E3, EE. cbn [fst snd] in E3, EE. subst size.
    destruct a as [|x1 [|x2 [|x3 a]]]; simpl in Ha; try lia.
    injection E as -> -> E. change ("" +:+ b) with b in E. subst b'.
    change (3 - 1)%nat with (String.length (String a1 (String a2 ""))). rewrite literal_drop, str_app_assoc.
    change (String c (String a1 (String a2 "") +:+ b)) with (String c (String a1 (String a2 "")) +:+ b).
    rewrite <- EE. apply orb_true_iff in Hr as [->%N.eqb_eq | ->%N.eqb_eq];
      match goal with |- scan_string 0 (_ +:+ ?k) = _ =>
        etransitivity; [|exact (f_equal (prepend _) IHb)]; reflexivity end.
  - rewrite <- Ha, literal_copy.
    change (String c (a +:+ literal_body (Copy 0) b) +:+ String quotation rest) with
      (String c ((a +:+ literal_body (Copy 0) b) +:+ String quotation rest)). rewrite str_app_assoc.
    set (k := literal_body (Copy 0) b +:+ String quotation rest) in *.
    assert (DecodeRune (String c (a +:+ k)) = (r, size)) as HD'.
    { rewrite (DecodeRune_bytes c a b k), HD; rewrite ?HD; cbn [snd]; try done. by apply Nat.eqb_neq. }
    cbn [scan_string]. rewrite HD', H1. rewrite <- Ha, scan_copy, IHb.
    repeat match goal with |- context [N.eqb (code c) ?x] => destruct (N.eqb_spec (code c) x); [lia|] end.
    repeat match goal with |- context [N.ltb (code c) ?x] => destruct (N.ltb_spec (code c) x); [lia|] end.
    done.
Qed.

(** ** Integers *)

Lemma decimal_shape (z : Z) :
  exists u, (Z.to_int z = Decimal.Pos u \/ Z.to_int z = Decimal.Neg u) /\
    (u = Decimal.D0 Decimal.Nil \/ (u <> Decimal.Nil /\ forall v, u <> Decimal.D0 v)).
Proof.
  pose proof (DecimalZ.to_of (Z.to_int z)) as H. rewrite DecimalZ.of_to in H. rewrite H.
  pose proof (fun d v => nzhead_nonzero d v) as Hnz.
  destruct (Z.to_int z) as [d|d]; simpl; unfold Decimal.unorm; specialize (Hnz d);
    destruct (Decimal.nzhead d); eexists; (split; [eauto|]); first [by left | by right].
Qed.

(** What may follow a number. *)
Definition ends_number (rest : string) : Prop :=
  match rest with
  | EmptyString => True
  | String c _ => is_digit c = false /\ c <> "."%char /\ c <> "e"%char /\ c <> "E"%char
  end.

Lemma take_digits_cons (c : ascii) (a rest : string) :
  is_digit c = true -> take_digits (a +:+ rest) = (a, rest) ->
  take_digits (String c a +:+ rest) = (String c a, rest).
Proof.
  intros Hc Ha. change (String c a +:+ rest) with (String c (a +:+ rest)). cbn [take_digits].
  by rewrite Hc, Ha.
Qed.

Lemma take_digits_uint (u : Decimal.uint) (rest : string) :
  ends_number rest ->
  take_digits (NilEmpty.string_of_uint u +:+ rest) = (NilEmpty.string_of_uint u, rest).
Proof.
  intros Hr. assert (take_digits rest = ("", rest)) as H0.
  { destruct rest as [|c rest]; [done|]. simpl. by destruct Hr as [-> _]. }
  induction u as [|u IH|u IH|u IH|u IH|u IH|u IH|u IH|u IH|u IH|u IH]; [exact H0|..];
    by apply take_digits_cons.
Qed.

Lemma scan_tail (rest : string) :
  ends_number rest -> scan_frac rest = Some ("", rest) /\ scan_exp rest = Some ("", rest).
Proof.
  destruct rest as [|c rest]; [done|]. intros (_ & H1 & H2 & H3). simpl.
  apply Ascii.eqb_neq in H1 as ->. apply Ascii.eqb_neq in H2 as ->. by apply Ascii.eqb_neq in H3 as ->.
Qed.

(** A byte that starts neither another kind of value nor a space. *)
Definition starts_number (c : ascii) : bool := is_digit c || Ascii.eqb c "-".

Lemma scan_int_digits (c : ascii) (a rest : string) :
  is_digit c = true -> c <> "0"%char ->
  scan_int (String c a +:+ rest) = Some (take_digits (String c a +:+ rest)).
Proof.
  intros Hc Hz. change (String c a +:+ rest) with (String c (a +:+ rest)). unfold scan_int.
  apply Ascii.eqb_neq in Hz as ->. by rewrite Hc.
Qed.

Lemma scan_int_uint (u : Decimal.uint) (rest : string) :
  u = Decimal.D0 Decimal.Nil \/ (u <> Decimal.Nil /\ forall v, u <> Decimal.D0 v) -> ends_number rest ->
  scan_int (NilZero.string_of_uint u +:+ rest) = Some (NilZero.string_of_uint u, rest) /\
  exists c s, NilZero.string_of_uint u = String c s /\ is_digit c = true.
Proof.
  intros [->|[Hn Hz]] Hr; [by split; [|eexists _, _]|].
  pose proof (take_digits_uint u rest Hr) as Ht.
  destruct u; try done; [by edestruct Hz|..];
    (split; [etransitivity; [by apply scan_int_digits|by f_equal]|by eexists _, _]).
Qed.

Lemma write_int_reads (z : Z) (rest : string) :
  ends_number rest ->
  scan_number (write_int z +:+ rest) = Some (write_int z, rest) /\
  exists c s, write_int z = String c s /\ starts_number c = true.
Proof.
  intros Hr. destruct (decimal_shape z) as (u & Hz & Hu).
  destruct (scan_int_uint u rest Hu Hr) as (Hi & c & s & Hc & Hd).
  destruct (scan_tail rest Hr) as [Hf He]. unfold write_int, scan_number.
  destruct Hz as [-> | ->]; simpl NilZero.string_of_int.
  - rewrite Hc in *. split; [|exists c, s; unfold starts_number; by rewrite Hd].
    change (String c s +:+ rest) with (String c (s +:+ rest)). cbn [scan_sign].
    replace (Ascii.eqb c "-") with false by (symmetry; apply Ascii.eqb_neq; by intros ->).
    change (String c (s +:+ rest)) with (String c s +:+ rest). rewrite Hi. simpl. rewrite Hf. simpl.
    rewrite He. simpl. by rewrite !str_app_nil_r.
  - split; [|by eexists _, _].
    change (String "-" (NilZero.string_of_uint u) +:+ rest) with
      (String "-" (NilZero.string_of_uint u +:+ rest)). cbn [scan_sign Ascii.eqb Bool.eqb].
    simpl. rewrite Hi. simpl. rewrite Hf. simpl. rewrite He. simpl. by rewrite !str_app_nil_r.
Qed.

(** [strconv.ParseInt(t, 10, 64)] and [strconv.ParseUint(t, 10, 64)] on the text of
    a JSON number. *)
Definition ParseInt (t : string) : option Z :=
  d ← NilZero.int_of_string t;
  let z := Z.of_int d in if (- 2 ^ 63 <=? z) && (z <? 2 ^ 63) then Some z else None.

Definition ParseUint (t : string) : option Z :=
  d ← NilZero.uint_of_string t;
  let z := Z.of_uint d in if z <? 2 ^ 64 then Some z else None.

Lemma write_int_decimal (z : Z) : NilZero.int_of_string (write_int z) = Some (Z.to_int z).
Proof.
  unfold write_int. destruct (decimal_shape z) as (u & Hz & Hu). apply NilZero.isi;
    destruct Hz as [-> | ->]; intros [= ->]; by destruct Hu as [?|[? _]].
Qed.

Lemma ParseInt_write (z : Z) : in_int64 z -> ParseInt (write_int z) = Some z.
Proof.
  intros [H1 H2]. unfold ParseInt. rewrite write_int_decimal. simpl. rewrite DecimalZ.of_to.
  destruct (Z.leb_spec (- 2 ^ 63) z), (Z.ltb_spec z (2 ^ 63)); [done|lia..].
Qed.

Lemma ParseUint_write (z : Z) : 0 <= z < 2 ^ 64 -> ParseUint (write_int z) = Some z.
Proof.
  intros Hz. unfold ParseUint, write_int. destruct (decimal_shape z) as (u & Hs & Hu).
  pose proof (DecimalZ.of_to z) as Ho. destruct Hs as [Hs|Hs]; rewrite Hs in *; simpl in *.
  - rewrite NilZero.usu by (by destruct Hu as [->|[? _]]). simpl. rewrite Ho.
    destruct (Z.ltb_spec z (2 ^ 64)); [done|lia].
  - exfalso. destruct z as [|p|p]; [done|done|lia].
Qed.

(** ** The fuel suffices *)

Abbreviation len := String.length.

Lemma skip_space_len (s : string) : (len (skip_space s) <= len s)%nat.
Proof. induction s as [|c s IH]; [done|]. simpl. case_match; simpl; lia. Qed.

Lemma skip_space_cons (s s1 : string) (c : ascii) : skip_space s = String c s1 -> (len s1 < len s)%nat.
Proof. intros H. pose proof (skip_space_len s) as Hl. rewrite H in Hl. simpl in Hl. lia. Qed.

Lemma prepend_some (x y r : string) (o : option (string * string)) :
  prepend x o = Some (y, r) -> exists z, o = Some (z, r).
Proof. unfold prepend. destruct o as [[z r']|]; simpl; [|done]. intros [= _ ->]. by exists z. Qed.

Lemma scan_string_len (s : string) :
  forall n x r, scan_string n s = Some (x, r) -> (len r < len s)%nat.
Proof.
  induction s as [s IH] using (induction_ltof1 _ len). unfold ltof in IH. intros n x r H.
  destruct s as [|c s1]; [done|]. cbn [scan_string] in H.
  repeat match type of H with context [match ?b with _ => _ end] => destruct b; try discriminate H end;
    first [ injection H as <- <-; simpl; lia
          | apply prepend_some in H as [z Hz]; apply IH in Hz; simpl in *; lia ].
Qed.

Lemma take_digits_len (s : string) : (len (take_digits s).2 <= len s)%nat.
Proof.
  induction s as [|c s IH]; [done|]. simpl. case_match; [|done]. destruct (take_digits s). simpl in *. lia.
Qed.

Lemma scan_frac_len (s a r : string) : scan_frac s = Some (a, r) -> (len r <= len s)%nat.
Proof.
  destruct s as [|c s]; simpl; [by intros [= <- <-]|]. destruct (Ascii.eqb c "."); [|by intros [= <- <-]].
  pose proof (take_digits_len s). destruct (take_digits s) as [d r']. case_match; [done|].
  intros [= <- <-]. simpl in *. lia.
Qed.

Lemma scan_exp_len (s a r : string) : scan_exp s = Some (a, r) -> (len r <= len s)%nat.
Proof.
  destruct s as [|c s]; simpl; [by intros [= <- <-]|].
  destruct (Ascii.eqb c "e" || Ascii.eqb c "E"); [|by intros [= <- <-]].
  destruct (match s with String d s1 => _ | EmptyString => _ end) as [sg s1] eqn:H1.
  assert (len s1 <= len s)%nat by (destruct s; [by simplify_eq|]; case_match; simplify_eq/=; lia).
  clear H1. pose proof (take_digits_len s1). destruct (take_digits s1) as [d r']. case_match; [done|].
  intros [= <- <-]. simpl in *. lia.
Qed.

Lemma scan_number_len (s t r : string) : scan_number s = Some (t, r) -> (len r < len s)%nat.
Proof.
  unfold scan_number. destruct (scan_sign s) as [sg s1] eqn:Hsg.
  assert (len s1 <= len s)%nat as L1.
  { destruct s; simpl in *; [by simplify_eq|]. case_match; simplify_eq/=; lia. }
  destruct (scan_int s1) as [[i s2]|] eqn:Hi; [|done]. simpl.
  assert (len s2 < len s1)%nat as L2.
  { destruct s1 as [|c s1]; [done|]. simpl in Hi. case_match; simplify_eq/=; [lia|].
    case_match; simplify_eq/=. pose proof (take_digits_len s1) as Hl.
    destruct (take_digits s1); simplify_eq/=; lia. }
  destruct (scan_frac s2) as [[f s3]|] eqn:Hf; [|done]. simpl.
  destruct (scan_exp s3) as [[e s4]|] eqn:He; [|done]. simpl. intros [= _ <-].
  apply scan_frac_len in Hf. apply scan_exp_len in He. lia.
Qed.

Lemma scan_word_len (w s r : string) : scan_word w s = Some r -> (len r <= len s)%nat.
Proof.
  revert s. induction w as [|a w IH]; intros [|b s]; simpl; try (by intros [= <-]).
  case_match; [|done]. intros Hw. apply IH in Hw. lia.
Qed.

(** Follows a successful reading [H] along its tests, keeping what was read. *)
Ltac follow H :=
  unfold mbind, option_bind in H;
  repeat match type of H with
  | context [match ?x with _ => _ end] => destruct x eqn:?; try discriminate H
  end.

(** Every reading consumes its text. *)
Ltac consumed :=
  repeat match goal with
  | H : skip_space _ = String _ _ |- _ => apply skip_space_cons in H
  | H : scan_string _ _ = Some _ |- _ => apply scan_string_len in H
  | H : scan_word _ _ = Some _ |- _ => apply scan_word_len in H
  | H : scan_number _ = Some _ |- _ => apply scan_number_len in H; simpl in H
  | IH : forall d s v r, ?f d s = Some (v, r) -> _, H : ?f _ _ = Some _ |- _ => apply IH in H
  end; simplify_eq; lia.

Lemma read_len (f : nat) :
  (forall d s v r, read_value f d s = Some (v, r) -> (len r < len s)%nat) /\
  (forall d s l r, read_members f d s = Some (l, r) -> (len r < len s)%nat) /\
  (forall d s l r, read_elements f d s = Some (l, r) -> (len r < len s)%nat).
Proof.
  induction f as [|f (IHv & IHm & IHe)]; [done|]. split_and!.
  - intros d s v r H. cbn [read_value] in H. follow H; consumed.
  - intros d s l r H. cbn [read_members] in H. follow H; consumed.
  - intros d s l r H. cbn [read_elements] in H. follow H; consumed.
Qed.

(** Beyond the length of the text the fuel does not matter. *)
Lemma fuel_enough (f : nat) :
  forall f',
  (forall d s, 2 * len s < f -> 2 * len s < f' -> read_value f d s = read_value f' d s)%nat /\
  (forall d s, 2 * len s + 1 < f -> 2 * len s + 1 < f' -> read_members f d s = read_members f' d s)%nat /\
  (forall d s, 2 * len s + 1 < f -> 2 * len s + 1 < f' -> read_elements f d s = read_elements f' d s)%nat.
Proof.
  induction f as [|f IH]; intros f'; [split_and!; intros; lia|].
  destruct f' as [|f']; [split_and!; intros; lia|]. destruct (IH f') as (IHv & IHm & IHe). split_and!.
  - intros d s L L'. cbn [read_value]. destruct (skip_space s) as [|c s1] eqn:Hs; [done|].
    apply skip_space_cons in Hs. rewrite IHm, IHe by lia. done.
  - intros d s L L'. cbn [read_members]. destruct (skip_space s) as [|q s1] eqn:Hs; [done|].
    apply skip_space_cons in Hs. destruct (scan_string 0 s1) as [[k s2]|] eqn:E1; simpl; [|done].
    apply scan_string_len in E1. destruct (skip_space s2) as [|c s3] eqn:Hs2; [done|].
    apply skip_space_cons in Hs2. rewrite IHv by lia.
    destruct (read_value f' d s3) as [[v s4]|] eqn:E2; simpl; [|done]. apply read_len in E2.
    destruct (skip_space s4) as [|e s5] eqn:Hs4; [done|]. apply skip_space_cons in Hs4. by rewrite IHm by lia.
  - intros d s L L'. cbn [read_elements]. rewrite IHv by lia.
    destruct (read_value f' d s) as [[v s1]|] eqn:E1; simpl; [|done]. apply read_len in E1.
    destruct (skip_space s1) as [|e s2] eqn:Hs; [done|]. apply skip_space_cons in Hs. by rewrite IHe by lia.
Qed.

(** ** What is written is read back *)

(** The values the program writes: strings that satisfy [P], integers, and no
    deeper than [d]. *)
Fixpoint written (P : string -> Prop) (d : nat) (j : json) {struct d} : Prop :=
  match j with
  | JNull | JBool _ => True
  | JNum t => exists z, t = write_int z
  | JStr s => P s
  | JArr l => match d with O => False | S d => Forall (written P d) l end
  | JObj kvs => match d with O => False | S d => Forall (fun kv => P kv.1 /\ written P d kv.2) kvs end
  end.

Abbreviation writable := (written utf8_string).

Lemma json_text_head (d : nat) (j : json) :
  writable d j -> exists c s, json_text j = String c s /\ is_space c = false /\ Ascii.eqb c "]" = false.
Proof.
  destruct j as [|b|t|s|l|kvs]; intros Hw; try (by eexists _, _); [by destruct b; eexists _, _|].
  assert (exists z, t = write_int z) as [z ->] by (by destruct d).
  destruct (write_int_reads z "" I) as (_ & c & s & Hz & Hc). exists c, s. split; [done|].
  unfold starts_number in Hc. by destruct c as [[] [] [] [] [] [] [] []].
Qed.


(** The value [j] is read back wherever its text stands. *)
Definition reads (D : N) (j : json) : Prop :=
  exists F, forall f rest, (F <= f)%nat -> ends_number rest ->
  read_value f D (json_text j +:+ rest) = Some (j, rest).

Lemma read_number (D : N) (z : Z) : reads D (JNum (write_int z)).
Proof.
  exists 1%nat. intros [|f] rest Hf Hr; [lia|]. destruct (write_int_reads z rest Hr) as (Hn & c & s & Hc & Hd).
  cbn [json_text read_value]. rewrite Hc in *. change (String c s +:+ rest) with (String c (s +:+ rest)) in *.
  assert (forall x, starts_number x = false -> Ascii.eqb c x = false) as Hx.
  { intros x H. apply Ascii.eqb_neq. intros ->. congruence. }
  assert (is_space c = false) as Hsp.
  { clear -Hd. unfold starts_number in Hd. by destruct c as [[] [] [] [] [] [] [] []]. }
  cbn [skip_space]. rewrite Hsp. rewrite !Hx by done. by rewrite Hn.
Qed.

Lemma read_list (D : N) (l : list json) (d : nat) :
  Forall (fun j => writable d j /\ reads D j) l -> l <> [] ->
  exists F, forall f rest, (F <= f)%nat ->
  read_elements f D (commas (json_text <$> l) +:+ String "]" rest) = Some (l, rest).
Proof.
  induction l as [|j l IH]; intros Hl Hne; [done|]. apply Forall_cons in Hl as [[Hw [F HF]] Hl].
  destruct l as [|j' l].
  - exists (S F). intros [|f] rest Hf; [lia|]. cbn [read_elements fmap list_fmap commas].
    rewrite HF; [done|lia|done].
  - destruct (IH Hl) as [F' HF']; [done|]. exists (S (F + F')). intros [|f] rest Hf; [lia|].
    cbn [read_elements fmap list_fmap].
    change (commas (json_text j :: json_text j' :: (json_text <$> l))) with
      (json_text j +:+ String "," (commas (json_text <$> j' :: l))).
    rewrite str_app_assoc. rewrite HF; [|lia|done]. simpl.
    change (commas (json_text j' :: (json_text <$> l))) with (commas (json_text <$> j' :: l)).
    by rewrite HF' by lia.
Qed.

(** A member of an object. *)
Definition member (kv : string * json) : string := write_string kv.1 +:+ String ":" (json_text kv.2).

Lemma read_object (D : N) (kvs : list (string * json)) :
  Forall (fun kv => utf8_string kv.1 /\ reads D kv.2) kvs -> kvs <> [] ->
  exists F, forall f rest, (F <= f)%nat ->
  read_members f D (commas (member <$> kvs) +:+ String "}" rest) = Some (kvs, rest).
Proof.
  assert (forall k v F f rest, utf8_string k -> (forall f rest, (F <= f)%nat -> ends_number rest ->
    read_value f D (json_text v +:+ rest) = Some (v, rest)) -> (F <= f)%nat -> ends_number rest ->
    read_members (S f) D (member (k, v) +:+ rest) =
    match skip_space rest with
    | EmptyString => None
    | String e s5 =>
        if Ascii.eqb e "," then '(kvs, r) ← read_members f D s5; Some ((k, v) :: kvs, r)
        else if Ascii.eqb e "}" then Some ([(k, v)], s5) else None
    end) as Hone.
  { intros k v F f rest Hk Hv Hf Hr. unfold member, write_string. cbn [fst snd].
    rewrite str_app_assoc. change (String quotation ?x +:+ ?y) with (String quotation (x +:+ y)).
    rewrite str_app_assoc. change (String quotation "" +:+ ?x) with (String quotation x).
    cbn [read_members skip_space is_space]. change (is_space quotation) with false. cbn iota.
    rewrite Ascii.eqb_refl, scan_literal by done. simpl. by rewrite Hv. }
  induction kvs as [|[k v] kvs IH]; intros Hl Hne; [done|]. apply Forall_cons in Hl as [[Hk [F HF]] Hl].
  destruct kvs as [|kv' kvs].
  - exists (S F). intros [|f] rest Hf; [lia|]. cbn [fmap list_fmap commas].
    rewrite (Hone k v F); [done|done|done|lia|done].
  - destruct (IH Hl) as [F' HF']; [done|]. exists (S (F + F')). intros [|f] rest Hf; [lia|].
    change (commas (member <$> (k, v) :: kv' :: kvs)) with
      (member (k, v) +:+ String "," (commas (member <$> kv' :: kvs))).
    rewrite str_app_assoc. rewrite (Hone k v F); [|done|done|lia|done].
    change (String "," ?x +:+ ?y) with (String "," (x +:+ y)). cbn [skip_space is_space].
    change (is_space ",") with false. cbn iota. simpl Ascii.eqb. cbn iota. rewrite HF' by lia. done.
Qed.

Lemma commas_head (l : list string) (rest : string) (c : ascii) (s : string) :
  head l = Some (String c s) -> exists s', commas l +:+ rest = String c s'.
Proof. destruct l as [|x [|y l]]; simpl; intros [= ->]; by eexists. Qed.

Lemma read_brackets (D : N) (l : list json) :
  (D <> 0)%N ->
  (l <> [] -> exists F c s, head (json_text <$> l) = Some (String c s) /\ is_space c = false /\
    Ascii.eqb c "]" = false /\ forall f rest, (F <= f)%nat ->
    read_elements f (D - 1) (commas (json_text <$> l) +:+ String "]" rest) = Some (l, rest)) ->
  reads D (JArr l).
Proof.
  intros HD Hl. apply N.eqb_neq in HD. destruct l as [|j l].
  { exists 1%nat. intros [|f] rest Hf _; [lia|]. cbn. by rewrite HD. }
  destruct (Hl ltac:(done)) as (F & c & s & Hh & Hsp & Hb & HF). exists (S F).
  intros [|f] rest Hf _; [lia|]. cbn [json_text].
  change (String "[" ?x +:+ rest) with (String "[" (x +:+ rest)). rewrite str_app_assoc.
  change ("]" +:+ rest) with (String "]" rest). cbn [read_value skip_space].
  change (is_space "[") with false. cbn iota. change (Ascii.eqb "[" "{") with false.
  change (Ascii.eqb "[" "[") with true. cbn iota. rewrite HD.
  destruct (commas_head _ (String "]" rest) c s Hh) as [s' Hs'].
  rewrite HF by lia. rewrite Hs'. cbn [skip_space]. by rewrite Hsp, Hb.
Qed.

Lemma read_braces (D : N) (kvs : list (string * json)) :
  (D <> 0)%N ->
  (kvs <> [] -> exists F, forall f rest, (F <= f)%nat ->
    read_members f (D - 1) (commas (member <$> kvs) +:+ String "}" rest) = Some (kvs, rest)) ->
  reads D (JObj kvs).
Proof.
  intros HD Hl. apply N.eqb_neq in HD. destruct kvs as [|kv kvs].
  { exists 1%nat. intros [|f] rest Hf _; [lia|]. cbn. by rewrite HD. }
  destruct (Hl ltac:(done)) as (F & HF). exists (S F).
  intros [|f] rest Hf _; [lia|]. cbn [json_text]. fold member.
  change (String "{" ?x +:+ rest) with (String "{" (x +:+ rest)). rewrite str_app_assoc.
  change ("}" +:+ rest) with (String "}" rest). cbn [read_value skip_space].
  change (is_space "{") with false. cbn iota. change (Ascii.eqb "{" "{") with true. cbn iota. rewrite HD.
  assert (exists s', commas (member <$> kv :: kvs) +:+ String "}" rest = String quotation s') as [s' Hs']
    by (eapply commas_head; reflexivity).
  rewrite HF by lia. rewrite Hs'. done.
Qed.

Lemma read_json_text (j : json) :
  forall d D, writable d j -> (N.of_nat d <= D)%N -> reads D j.
Proof.
  induction j as [|b|t|s|l IH|kvs IH] using json_ind; intros d D Hw HD.
  - exists 1%nat. intros [|f] rest Hf _; [lia|]. done.
  - exists 1%nat. intros [|f] rest Hf _; [lia|]. by destruct b.
  - assert (exists z, t = write_int z) as [z ->] by (by destruct d). apply read_number.
  - assert (utf8_string s) as Hs by (by destruct d). exists 1%nat. intros [|f] rest Hf _; [lia|].
    cbn [json_text]. unfold write_string. change (String quotation ?x +:+ ?y) with (String quotation (x +:+ y)).
    rewrite str_app_assoc. change (String quotation "" +:+ ?x) with (String quotation x).
    cbn [read_value skip_space]. change (is_space quotation) with false. cbn iota.
    change (Ascii.eqb quotation "{") with false. change (Ascii.eqb quotation "[") with false. cbn iota.
    rewrite Ascii.eqb_refl, scan_literal by done. done.
  - destruct d as [|d]; [done|]. simpl in Hw. apply read_brackets; [lia|].
    intros Hne. destruct (read_list (D - 1) l d) as [F HF]; [|done|].
    { rewrite Forall_forall in *. intros j Hj. split; [by apply Hw|]. apply (IH j Hj d); [by apply Hw|lia]. }
    destruct l as [|j l]; [done|]. apply Forall_cons in Hw as [Hj _].
    destruct (json_text_head d j Hj) as (c & s & Hc & Hsp & Hb).
    exists F, c, s. split; [simpl; by rewrite Hc|]. by split_and!.
  - destruct d as [|d]; [done|]. simpl in Hw. apply read_braces; [lia|].
    intros Hne. apply read_object; [|done].
    rewrite Forall_forall in *. intros kv Hkv. split; [by apply Hw|]. apply (IH kv Hkv d); [by apply Hw|lia].
Qed.

(** [json.Unmarshal] accepts what [json.Marshal] wrote, with any space after it, and
    sees the same value. *)
Lemma parse_json_text (d : nat) (j : json) (space : string) :
  writable d j -> (N.of_nat d <= maxNestingDepth)%N -> ends_number space -> skip_space space = "" ->
  parse (json_text j +:+ space) = Some j.
Proof.
  intros Hw Hd Hs Hsp. destruct (read_json_text j d maxNestingDepth Hw Hd) as [F HF]. unfold parse.
  set (n := S (2 * len (json_text j +:+ space))). destruct (fuel_enough n (F + n)) as (H & _).
  rewrite H by lia. rewrite HF by (done || lia). simpl. by rewrite Hsp.
Qed.

Lemma parse_marshalled (d : nat) (j : json) :
  writable d j -> (N.of_nat d <= maxNestingDepth)%N -> parse (json_text j) = Some j.
Proof. intros Hw Hd. rewrite <- (str_app_nil_r (json_text j)). by eapply parse_json_text. Qed.

(** ** A text is one line *)

(** No byte of the text is a newline. *)
Definition line_feed : ascii := "010"%char.

Abbreviation one_line s := (ContainsByte s line_feed = false).

Lemma one_line_app (a b : string) : one_line a -> one_line b -> one_line (a +:+ b).
Proof. intros Ha Hb. by rewrite ContainsByte_app, Ha, Hb. Qed.

Lemma one_line_cons (c : ascii) (s : string) : c <> line_feed -> one_line s -> one_line (String c s).
Proof. intros Hc Hs. cbn [ContainsByte]. apply Ascii.eqb_neq in Hc as ->. done. Qed.

Lemma escape_one_line (c : ascii) : one_line (escape c).
Proof. by destruct c as [[] [] [] [] [] [] [] []]. Qed.

(** A byte of a rune that is not ASCII is no newline. *)
Lemma high_byte (c : ascii) : (128 <= code c)%N -> c <> line_feed.
Proof. intros H ->. by vm_compute in H. Qed.

Fixpoint high (n : nat) (s : string) : Prop :=
  match n, s with
  | S n, String c s => (128 <= code c)%N /\ high n s
  | _, _ => True
  end.

Lemma between_high (lo hi : N) (c : ascii) :
  between lo (code c) hi = true -> (128 <= lo)%N -> (128 <= code c)%N.
Proof. unfold between. rewrite andb_true_iff, !N.leb_le. lia. Qed.

Lemma DecodeRune_high (c : ascii) (s : string) (r : N) (size : nat) :
  (128 <= code c)%N -> DecodeRune (String c s) = (r, size) -> high (size - 1) s.
Proof.
  intros Hc. unfold DecodeRune. destruct (N.ltb_spec (code c) 128); [lia|].
  assert (forall lo hi b, between lo (code b) hi = true -> (128 <= lo)%N -> (128 <= code b)%N) as Hb
    by (intros; by eapply between_high).
  repeat match goal with |- context [match ?x with _ => _ end] => destruct x eqn:?; try (by intros [= <- <-]) end;
    intros [= <- <-]; simpl; rewrite ?andb_true_iff in *; destruct_and?; unfold continues in *;
    split_and!; try done; eapply Hb; try eassumption; try lia; by case_match.
Qed.

Lemma literal_one_line (s : string) :
  forall p, (if p is Copy n then high n s else True) -> one_line (literal_body p s).
Proof.
  induction s as [|c s IH]; intros p Hp; [done|]. cbn [literal_body].
  assert (one_line (if (code c <? 128)%N then escape c +:+ literal_body (Copy 0) s
    else let '(r, size) := DecodeRune (String c s) in
      if (size =? 1)%nat then String backslash "ufffd" +:+ literal_body (Copy 0) s
      else if (r =? 8232)%N || (r =? 8233)%N
      then (String backslash "u202" +:+ String (hex_digit (N.land r 15)) "") +:+ literal_body (Drop (size - 1)) s
      else String c (literal_body (Copy (size - 1)) s))) as Hfresh.
  { destruct (N.ltb_spec (code c) 128) as [Hc|Hc].
    { apply one_line_app; [apply escape_one_line|by apply IH]. }
    destruct (DecodeRune (String c s)) as [r size] eqn:Hr. destruct (size =? 1)%nat.
    { apply one_line_app; [done|by apply IH]. }
    destruct (N.eqb_spec r 8232) as [->|]; [apply one_line_app; [done|by apply IH]|].
    destruct (N.eqb_spec r 8233) as [->|]; [apply one_line_app; [done|by apply IH]|]. simpl orb. cbn iota.
    apply one_line_cons; [by apply high_byte|]. apply IH. by eapply DecodeRune_high. }
  destruct p as [[|n]|[|n]]; [exact Hfresh| |exact Hfresh|by apply IH].
  destruct Hp as [Hc Hp]. apply one_line_cons; [by apply high_byte|by apply IH].
Qed.

Lemma string_one_line (s : string) : one_line (write_string s).
Proof.
  unfold write_string. apply one_line_cons; [done|]. apply one_line_app; [by apply literal_one_line|done].
Qed.

Lemma uint_one_line (u : Decimal.uint) : one_line (NilEmpty.string_of_uint u).
Proof. induction u; [done|..]; by apply one_line_cons. Qed.

Lemma int_one_line (z : Z) : one_line (write_int z).
Proof.
  unfold write_int. assert (forall u, one_line (NilZero.string_of_uint u)) as Hu
    by (intros u; destruct u; [done|apply (uint_one_line (_ _))..]).
  destruct (Z.to_int z) as [u|u]; [apply Hu|]. by apply one_line_cons.
Qed.

Lemma commas_one_line (l : list string) : Forall (fun s => one_line s) l -> one_line (commas l).
Proof.
  induction l as [|x l IH]; intros Hl; [done|]. apply Forall_cons in Hl as [Hx Hl].
  destruct l as [|y l]; [done|]. apply one_line_app; [done|]. apply one_line_cons; [done|by apply IH].
Qed.

Lemma json_text_one_line (P : string -> Prop) (j : json) : forall d, written P d j -> one_line (json_text j).
Proof.
  induction j as [|b|t|s|l IH|kvs IH] using json_ind; intros d Hw.
  - done.
  - by destruct b.
  - assert (exists z, t = write_int z) as [z ->] by (by destruct d). apply int_one_line.
  - apply string_one_line.
  - destruct d as [|d]; [done|]. apply one_line_cons; [done|]. apply one_line_app; [|done].
    apply commas_one_line, Forall_fmap. simpl in Hw. rewrite Forall_forall in *. intros j Hj.
    by apply (IH j Hj d), Hw.
  - destruct d as [|d]; [done|]. apply one_line_cons; [done|]. apply one_line_app; [|done].
    apply commas_one_line, Forall_fmap. simpl in Hw. rewrite Forall_forall in *. intros kv Hkv. simpl.
    apply one_line_app; [apply string_one_line|]. apply one_line_cons; [done|]. by apply (IH kv Hkv d), Hw.
Qed.

(** ** A text cut short is not read

    A value that was read up to its end is read from every longer text. *)

Lemma skip_space_app (s s1 x : string) (c : ascii) :
  skip_space s = String c s1 -> skip_space (s +:+ x) = String c (s1 +:+ x).
Proof.
  induction s as [|a s IH]; [done|]. change (String a s +:+ x) with (String a (s +:+ x)). cbn [skip_space].
  destruct (is_space a); [done|]. by intros [= -> ->].
Qed.

Lemma take_digits_app (s a r x : string) :
  take_digits s = (a, r) -> r <> "" -> take_digits (s +:+ x) = (a, r +:+ x).
Proof.
  revert a. induction s as [|c s IH]; intros a H Hr; [by injection H as <- <-|].
  change (String c s +:+ x) with (String c (s +:+ x)). cbn [take_digits] in *.
  destruct (is_digit c); [|by injection H as <- <-]. destruct (take_digits s) as [b r'] eqn:E.
  injection H as <- <-. by rewrite (IH b eq_refl Hr).
Qed.

Lemma nonempty_len (s : string) : s <> "" <-> (0 < len s)%nat.
Proof. destruct s; simpl; split; (done || lia). Qed.

Lemma scan_int_app (s a r x : string) :
  scan_int s = Some (a, r) -> r <> "" -> scan_int (s +:+ x) = Some (a, r +:+ x).
Proof.
  destruct s as [|c s]; [done|]. change (String c s +:+ x) with (String c (s +:+ x)). unfold scan_int.
  destruct (Ascii.eqb c "0"); [by intros [= <- <-]|]. destruct (is_digit c); [|done].
  intros [= H] Hr. f_equal. by apply (take_digits_app (String c s)).
Qed.

Lemma scan_frac_app (s a r x : string) :
  scan_frac s = Some (a, r) -> r <> "" -> scan_frac (s +:+ x) = Some (a, r +:+ x).
Proof.
  destruct s as [|c s]; [by intros [= <- <-]|]. change (String c s +:+ x) with (String c (s +:+ x)).
  unfold scan_frac. destruct (Ascii.eqb c "."); [|by intros [= <- <-]].
  destruct (take_digits s) as [d r'] eqn:E. destruct (String.eqb d "") eqn:Ed; [done|].
  intros [= <- <-] Hr. by rewrite (take_digits_app _ _ _ x E Hr), Ed.
Qed.

Lemma scan_exp_app (s a r x : string) :
  scan_exp s = Some (a, r) -> r <> "" -> scan_exp (s +:+ x) = Some (a, r +:+ x).
Proof.
  destruct s as [|c s]; [by intros [= <- <-]|]. change (String c s +:+ x) with (String c (s +:+ x)).
  unfold scan_exp. destruct (Ascii.eqb c "e" || Ascii.eqb c "E"); [|by intros [= <- <-]].
  destruct s as [|d s]; [done|]. change (String d s +:+ x) with (String d (s +:+ x)).
  cbn iota. destruct (Ascii.eqb d "+" || Ascii.eqb d "-").
  - destruct (take_digits s) as [e r'] eqn:E. destruct (String.eqb e "") eqn:Ee; [done|].
    intros [= <- <-] Hr. by rewrite (take_digits_app _ _ _ x E Hr), Ee.
  - destruct (take_digits (String d s)) as [e r'] eqn:E. destruct (String.eqb e "") eqn:Ee; [done|].
    intros [= <- <-] Hr. change (String d (s +:+ x)) with (String d s +:+ x).
    by rewrite (take_digits_app _ _ _ x E Hr), Ee.
Qed.

Lemma scan_number_app (s a r x : string) :
  scan_number s = Some (a, r) -> r <> "" -> scan_number (s +:+ x) = Some (a, r +:+ x).
Proof.
  unfold scan_number. intros H Hr. destruct (scan_sign s) as [sg s1] eqn:Hsg.
  destruct (scan_int s1) as [[i s2]|] eqn:Hi; [|done]. simpl in H.
  destruct (scan_frac s2) as [[f s3]|] eqn:Hf; [|done]. simpl in H.
  destruct (scan_exp s3) as [[e s4]|] eqn:He; [|done]. simpl in H. injection H as <- <-.
  pose proof (scan_frac_len _ _ _ Hf). pose proof (scan_exp_len _ _ _ He). rewrite nonempty_len in Hr.
  assert (scan_sign (s +:+ x) = (sg, s1 +:+ x)) as ->.
  { destruct s as [|c s]; [by injection Hsg as <- <-|]. change (String c s +:+ x) with (String c (s +:+ x)).
    unfold scan_sign in *. destruct (Ascii.eqb c "-"); by injection Hsg as <- <-. }
  rewrite (scan_int_app _ _ _ x Hi) by (apply nonempty_len; lia). simpl.
  rewrite (scan_frac_app _ _ _ x Hf) by (apply nonempty_len; lia). simpl.
  by rewrite (scan_exp_app _ _ _ x He) by (apply nonempty_len; lia).
Qed.

Lemma scan_word_app (w s r x : string) : scan_word w s = Some r -> scan_word w (s +:+ x) = Some (r +:+ x).
Proof.
  revert s. induction w as [|a w IH]; intros [|b s]; simpl; try (by intros [= <-]); [done..|].
  change (String b s +:+ x) with (String b (s +:+ x)). simpl. case_match; [|done]. apply IH.
Qed.

Abbreviation quoted s := (ContainsByte s quotation = true).

Lemma quoted_cons (c : ascii) (s : string) : quoted s -> quoted (String c s).
Proof. intros Hs. simpl. by rewrite Hs, orb_true_r. Qed.

#[local] Hint Resolve quoted_cons : core.

Lemma scan_string_quoted (s : string) : forall n x r, scan_string n s = Some (x, r) -> quoted s.
Proof.
  induction s as [s IH] using (induction_ltof1 _ len). unfold ltof in IH. intros n x r H.
  destruct s as [|c s1]; [done|]. cbn [scan_string] in H.
  assert ((code c =? 34)%N = true -> quoted (String c s1)) as Hc.
  { intros E. simpl. by destruct c as [[] [] [] [] [] [] [] []]. }
  destruct (code c =? 34)%N; [destruct n; [by apply Hc|]|clear Hc].
  all: repeat match type of H with context [match ?b with _ => _ end] => destruct b; try discriminate H end;
    (apply prepend_some in H as [z Hz]; apply IH in Hz; [by auto 20|simpl; lia]).
Qed.

(** A rune before a quote is decoded alike in every longer text. *)
Lemma DecodeRune_app (c : ascii) (s x : string) :
  quoted s -> DecodeRune (String c (s +:+ x)) = DecodeRune (String c s).
Proof.
  intros Hq.
  assert (continues quotation = false /\ forall lo hi, (128 <= lo)%N -> between lo (code quotation) hi = false)
    as [Hno Hlo].
  { split; [done|]. intros lo hi Hlo. unfold between. change (code quotation) with 34%N.
    destruct (N.leb_spec lo 34); [lia|done]. }
  assert (forall b : bool, (128 <= if b then 160 else 128)%N /\ (128 <= if b then 144 else 128)%N) as Hif
    by (intros []; lia).
  destruct s as [|a1 [|a2 [|a3 s]]]; [done| | |done]; simpl in Hq; rewrite ?orb_false_r in Hq.
  - apply Ascii.eqb_eq in Hq as ->. change (String quotation "" +:+ x) with (String quotation x).
    unfold DecodeRune. rewrite !Hno. cbn zeta. rewrite !Hlo by apply Hif. by repeat case_match.
  - change (String a1 (String a2 "") +:+ x) with (String a1 (String a2 x)).
    apply orb_true_iff in Hq as [->%Ascii.eqb_eq | ->%Ascii.eqb_eq]; unfold DecodeRune; cbn zeta.
    + rewrite !Hno, !Hlo by apply Hif. by repeat case_match.
    + rewrite !Hno, !andb_false_r. by repeat case_match.
Qed.

Lemma hex4_quote (a b c d : ascii) :
  a = quotation \/ b = quotation \/ c = quotation \/ d = quotation -> hex4 a b c d = None.
Proof.
  unfold hex4. assert (hex_value quotation = None) as Hq by done. intros [-> | [-> | [-> | ->]]]; rewrite Hq;
    repeat match goal with |- context [hex_value ?x] => destruct (hex_value x) end; done.
Qed.

Lemma pair_at_quote (r : N) (b u k1 k2 k3 k4 : ascii) (s : string) :
  b = quotation \/ u = quotation \/ k1 = quotation \/ k2 = quotation \/ k3 = quotation \/ k4 = quotation ->
  pair_at r (String b (String u (String k1 (String k2 (String k3 (String k4 s)))))) = None.
Proof.
  intros Hq. unfold pair_at.
  destruct (Ascii.eqb_spec b backslash) as [->|]; [|done]. destruct (Ascii.eqb_spec u "u") as [->|]; [|done].
  simpl. rewrite hex4_quote; [done|]. by destruct Hq as [?|[?|?]].
Qed.

Lemma pair_at_app (r : N) (s x : string) : quoted s -> pair_at r (s +:+ x) = pair_at r s.
Proof.
  intros Hq.
  destruct s as [|b [|u [|k1 [|k2 [|k3 [|k4 s]]]]]]; [done|..|done]; simpl in Hq;
    rewrite ?orb_false_r, ?orb_true_iff, ?Ascii.eqb_eq in Hq;
    destruct x as [|x1 [|x2 [|x3 [|x4 [|x5 x]]]]]; try reflexivity;
    (transitivity (@None N); [|reflexivity]); apply pair_at_quote; tauto.
Qed.

Lemma prepend_app (p y r x : string) (o o' : option (string * string)) :
  prepend p o = Some (y, r) -> (forall z, o = Some (z, r) -> o' = Some (z, r +:+ x)) ->
  prepend p o' = Some (y, r +:+ x).
Proof.
  unfold prepend. destruct o as [[z r']|]; simpl; [|done]. intros [= <- ->] H. by rewrite (H z eq_refl).
Qed.

Lemma scan_string_app (s x : string) :
  forall n y r, scan_string n s = Some (y, r) -> scan_string n (s +:+ x) = Some (y, r +:+ x).
Proof.
  induction s as [s IH] using (induction_ltof1 _ len). unfold ltof in IH. intros n y r H.
  pose proof (scan_string_quoted _ _ _ _ H) as Hq.
  destruct s as [|c s1]; [done|]. change (String c s1 +:+ x) with (String c (s1 +:+ x)).
  assert (forall p m s', (len s' < len (String c s1))%nat -> prepend p (scan_string m s') = Some (y, r) ->
    prepend p (scan_string m (s' +:+ x)) = Some (y, r +:+ x)) as Hgo.
  { intros p m s' Hs' Hp. eapply prepend_app; [exact Hp|]. intros z Hz. by apply IH. }
  cbn [scan_string] in *. destruct n as [|n]; [|apply Hgo; [simpl; lia|done]].
  destruct (N.eqb_spec (code c) 34) as [|Hc]; [by injection H as <- <-|]. destruct (code c <? 32)%N; [done|].
  destruct (code c =? 92)%N.
  - destruct s1 as [|e s2]; [done|]. change (String e s2 +:+ x) with (String e (s2 +:+ x)). cbv beta iota.
    assert (len s2 < len (String c (String e s2)))%nat as L2 by (simpl; lia).
    repeat (match type of H with (if ?b then prepend _ _ else _) = _ =>
      destruct b; [by apply (Hgo _ 0%nat s2)|] end).
    destruct (code e =? 117)%N; [|done].
    destruct s2 as [|h1 [|h2 [|h3 [|h4 s3]]]]; [done..|].
    change (String h1 (String h2 (String h3 (String h4 s3))) +:+ x) with
      (String h1 (String h2 (String h3 (String h4 (s3 +:+ x))))). cbv beta iota.
    destruct (hex4 h1 h2 h3 h4) as [hi|]; [|done].
    assert (len s3 < len (String c (String e (String h1 (String h2 (String h3 (String h4 s3)))))))%nat as L3
      by (simpl; lia).
    destruct (between 55296 hi 57343); [|by apply (Hgo _ 0%nat s3)].
    destruct (pair_at hi s3) as [rune|] eqn:Hp.
    + assert (quoted s3) as Hq3.
      { destruct s3 as [|b [|u [|k1 [|k2 [|k3 [|k4 s4]]]]]]; try done.
        destruct (prepend_some _ _ _ _ H) as [z Hz]. apply scan_string_quoted in Hz. by auto 10. }
      rewrite pair_at_app, Hp by done.
      destruct s3 as [|b [|u [|k1 [|k2 [|k3 [|k4 s4]]]]]]; try done. apply (Hgo _ 0%nat s4); [simpl; lia|done].
    + destruct (prepend_some _ _ _ _ H) as [z Hz]. apply scan_string_quoted in Hz.
      rewrite pair_at_app, Hp by done. by apply (Hgo _ 0%nat s3).
  - destruct (code c <? 128)%N; [apply Hgo; [simpl; lia|done]|].
    assert (quoted s1) as Hq1.
    { simpl in Hq. apply orb_true_iff in Hq as [->%Ascii.eqb_eq|]; [by destruct Hc|done]. }
    rewrite DecodeRune_app by done. destruct (DecodeRune (String c s1)) as [rune size].
    destruct (size =? 1)%nat; apply Hgo; (simpl; lia) || done.
Qed.

(** Only a number may go on after its last byte. *)
Definition closed (j : json) (r : string) : Prop := match j with JNum _ => r <> "" | _ => True end.

Lemma read_app (f : nat) :
  (forall d s v r x, read_value f d s = Some (v, r) -> closed v r ->
    read_value f d (s +:+ x) = Some (v, r +:+ x)) /\
  (forall d s l r x, read_members f d s = Some (l, r) -> read_members f d (s +:+ x) = Some (l, r +:+ x)) /\
  (forall d s l r x, read_elements f d s = Some (l, r) -> read_elements f d (s +:+ x) = Some (l, r +:+ x)).
Proof.
  induction f as [|f (IHv & IHm & IHe)]; [done|].
  assert (forall d s v s1 c s2 x, read_value f d s = Some (v, s1) -> skip_space s1 = String c s2 ->
    read_value f d (s +:+ x) = Some (v, s1 +:+ x)) as IHv'.
  { intros d s v s1 c s2 x H Hs. apply IHv; [done|]. destruct v; try done. by intros ->. }
  split_and!.
  - intros d s v r x H Hcl. cbn [read_value] in *. destruct (skip_space s) as [|c s1] eqn:Hs; [done|].
    rewrite (skip_space_app _ _ x _ Hs).
    destruct (Ascii.eqb c "{"); [|destruct (Ascii.eqb c "[")].
    + destruct (d =? 0)%N; [done|]. destruct (skip_space s1) as [|e s2] eqn:Hs1; [done|].
      rewrite (skip_space_app _ _ x _ Hs1). destruct (Ascii.eqb e "}"); [by injection H as <- <-|].
      destruct (read_members f (d - 1) s1) as [[l r']|] eqn:E; [|done]. injection H as <- <-.
      by rewrite (IHm _ _ _ _ x E).
    + destruct (d =? 0)%N; [done|]. destruct (skip_space s1) as [|e s2] eqn:Hs1; [done|].
      rewrite (skip_space_app _ _ x _ Hs1). destruct (Ascii.eqb e "]"); [by injection H as <- <-|].
      destruct (read_elements f (d - 1) s1) as [[l r']|] eqn:E; [|done]. injection H as <- <-.
      by rewrite (IHe _ _ _ _ x E).
    + destruct (Ascii.eqb c quotation).
      { destruct (scan_string 0 s1) as [[y r']|] eqn:E; [|done]. injection H as <- <-.
        by rewrite (scan_string_app _ x _ _ _ E). }
      repeat match type of H with (if ?b then mbind _ (scan_word ?w s1) else _) = _ => destruct b;
        [destruct (scan_word w s1) as [r'|] eqn:E; [|done]; injection H as <- <-;
         by rewrite (scan_word_app _ _ _ x E)|] end.
      destruct (scan_number (String c s1)) as [[t r']|] eqn:E; [|done]. injection H as <- <-.
      change (String c (s1 +:+ x)) with (String c s1 +:+ x). by rewrite (scan_number_app _ _ _ x E Hcl).
  - intros d s l r x H. cbn [read_members] in *. destruct (skip_space s) as [|q s1] eqn:Hs; [done|].
    rewrite (skip_space_app _ _ x _ Hs). destruct (Ascii.eqb q quotation); [|done].
    destruct (scan_string 0 s1) as [[k s2]|] eqn:E1; [|done]. rewrite (scan_string_app _ x _ _ _ E1).
    simpl in *. destruct (skip_space s2) as [|c s3] eqn:Hs2; [done|]. rewrite (skip_space_app _ _ x _ Hs2).
    destruct (Ascii.eqb c ":"); [|done].
    destruct (read_value f d s3) as [[v s4]|] eqn:E2; [|done]. simpl in H.
    destruct (skip_space s4) as [|e s5] eqn:Hs4; [done|]. rewrite (IHv' _ _ _ _ _ _ x E2 Hs4). simpl.
    rewrite (skip_space_app _ _ x _ Hs4). destruct (Ascii.eqb e ",").
    { destruct (read_members f d s5) as [[l' r']|] eqn:E3; [|done]. injection H as <- <-.
      by rewrite (IHm _ _ _ _ x E3). }
    destruct (Ascii.eqb e "}"); [by injection H as <- <-|done].
  - intros d s l r x H. cbn [read_elements] in *.
    destruct (read_value f d s) as [[v s1]|] eqn:E1; [|done]. simpl in H.
    destruct (skip_space s1) as [|e s2] eqn:Hs; [done|]. rewrite (IHv' _ _ _ _ _ _ x E1 Hs). simpl.
    rewrite (skip_space_app _ _ x _ Hs). destruct (Ascii.eqb e ",").
    { destruct (read_elements f d s2) as [[l' r']|] eqn:E3; [|done]. injection H as <- <-.
      by rewrite (IHe _ _ _ _ x E3). }
    destruct (Ascii.eqb e "]"); [by injection H as <- <-|done].
Qed.

(** A proper prefix of the text of an object is not a text. *)
Lemma parse_prefix (d : nat) (kvs : list (string * json)) (t x : string) :
  writable d (JObj kvs) -> (N.of_nat d <= maxNestingDepth)%N -> json_text (JObj kvs) = t +:+ x -> x <> "" ->
  parse t = None.
Proof.
  intros Hw Hd Ht Hx. destruct (parse t) as [j|] eqn:Hp; [exfalso|done]. unfold parse in Hp.
  destruct (read_value (S (2 * len t)) maxNestingDepth t) as [[v r]|] eqn:Hr; [|done]. simpl in Hp.
  destruct (String.eqb_spec (skip_space r) "") as [Hsp|]; [|done].
  assert (exists s1, t = String "{" s1) as [s1 Et].
  { destruct t as [|c t]; [done|]. exists t. simpl in Ht. by injection Ht as <- _. }
  assert (closed v r) as Hcl.
  { rewrite Et in Hr. cbn [read_value skip_space] in Hr. change (is_space "{") with false in Hr.
    cbn iota in Hr. change (Ascii.eqb "{" "{") with true in Hr. cbn iota in Hr.
    destruct (maxNestingDepth =? 0)%N; [done|]. destruct (skip_space s1) as [|e s2]; [done|].
    destruct (Ascii.eqb e "}"); [by injection Hr as <- <-|].
    destruct (read_members _ _ _) as [[l r']|]; [|done]. by injection Hr as <- <-. }
  destruct (read_json_text (JObj kvs) d maxNestingDepth Hw Hd) as [F HF].
  rewrite (proj1 (fuel_enough (S (2 * len t)) (F + S (2 * len t)))) in Hr by lia.
  pose proof (proj1 (read_app (F + S (2 * len t))) _ _ _ _ x Hr Hcl) as Hr'.
  rewrite <- Ht, <- (str_app_nil_r (json_text _)), HF in Hr' by (done || lia). injection Hr' as _ Hn.
  destruct r; [by destruct x|done].
Qed.
