(* ===== verification/Codec.v ===== *)
(** * The formats of the log and of the snapshots

    What [json.Marshal] makes of a [WALEntry], a [CounterState], a counter and a
    vector clock (internal/persistence/wal.go, store.go, internal/crdt/), and what
    [json.Unmarshal] makes of a text for them: fields by their tags in any
    spelling of case, unknown ones ignored, the last one of a name wins, [null]
    keeps a number or a string and empties a map, a value of another type is an
    error.  The functions satisfy the laws the log and the store rely on. *)

From S2P Require Import Prelude PNCounter Json.

(** ** Data *)

Record WALEntry := mkWALEntry {
  Seq : Z;
  Op : string;
  Node : string;
  Counter : string;
  Delta : Z;
  ePositive : gmap string Z;
  eNegative : gmap string Z;
  eClock : gmap string Z;
  Ts : Z;
}.

#[export] Instance WALEntry_eq_dec : EqDecision WALEntry.
Proof. solve_decision. Defined.


Record CounterState := mkCounterState {
  st_Positive : gmap string Z;
  st_Negative : gmap string Z;
  st_Clock : gmap string Z;
  st_Tags : gmap string (list string);
}.

#[export] Instance CounterState_eq_dec : EqDecision CounterState.
Proof. solve_decision. Defined.


(** The strings are valid UTF-8, as those of protobuf messages are, and the numbers
    fit their Go types. *)
Definition map_ok (m : gmap string Z) : Prop :=
  map_Forall (fun k v => utf8_string k /\ in_int64 v) m.

Definition entry_ok (e : WALEntry) : Prop :=
  0 <= Seq e < 2 ^ 64 /\ utf8_string (Op e) /\ utf8_string (Node e) /\
  utf8_string (Counter e) /\ in_int64 (Delta e) /\
  map_ok (ePositive e) /\ map_ok (eNegative e) /\ map_ok (eClock e) /\ in_int64 (Ts e).

Definition tags_ok (tags : gmap string (list string)) : Prop :=
  map_Forall (fun k v => utf8_string k /\ Forall utf8_string v) tags.

Definition state_ok (s : CounterState) : Prop :=
  map_ok (st_Positive s) /\ map_ok (st_Negative s) /\ map_ok (st_Clock s) /\ tags_ok (st_Tags s).

#[export] Instance in_int64_dec (z : Z) : Decision (in_int64 z).
Proof. unfold in_int64. apply _. Defined.

#[export] Instance map_ok_dec (m : gmap string Z) : Decision (map_ok m).
Proof. unfold map_ok. apply map_Forall_dec. intros k v. apply _. Defined.

#[export] Instance entry_ok_dec (e : WALEntry) : Decision (entry_ok e).
Proof. unfold entry_ok. apply _. Defined.

#[export] Instance state_ok_dec (s : CounterState) : Decision (state_ok s).
Proof. unfold state_ok, tags_ok. apply _. Defined.

(** What the log relies on: decoding inverts encoding on such entries, and an
    entry is an object on a single line. *)
Class EntryCodec (marshal : WALEntry -> string) (unmarshal : string -> option WALEntry) : Prop := {
  codec_roundtrip e : entry_ok e -> unmarshal (marshal e) = Some e;
  codec_one_line e : ContainsByte (marshal e) line_feed = false;
  codec_object e : exists body, marshal e = body +:+ "}";
}.

(** ** Writing *)

(** The entries of a map in the order of their keys. *)
Definition sorted_entries {V : Type} (m : gmap string V) : list (string * V) :=
  omap (fun k => pair k <$> m !! k) (sort_strings (map_to_list m).*1).

Definition map_json (m : gmap string Z) : json :=
  JObj ((fun kv => (kv.1, JNum (write_int kv.2))) <$> sorted_entries m).

(** A slice without elements is nil. *)
Definition slice_json (l : list string) : json := if l is [] then JNull else JArr (JStr <$> l).

Definition tags_json (m : gmap string (list string)) : json :=
  JObj ((fun kv => (kv.1, slice_json kv.2)) <$> sorted_entries m).

(** [omitempty] *)
Definition unless (empty : bool) (name : string) (j : json) : list (string * json) :=
  if empty then [] else [(name, j)].

Definition no_entries {V : Type} (m : gmap string V) : bool := Z.of_nat (size m) =? 0.

Definition entry_json (e : WALEntry) : json :=
  JObj ([("seq", JNum (write_int (Seq e))); ("op", JStr (Op e))] ++
    unless (String.eqb (Node e) "") "node" (JStr (Node e)) ++
    unless (String.eqb (Counter e) "") "counter" (JStr (Counter e)) ++
    unless (Delta e =? 0) "delta" (JNum (write_int (Delta e))) ++
    unless (no_entries (ePositive e)) "positive" (map_json (ePositive e)) ++
    unless (no_entries (eNegative e)) "negative" (map_json (eNegative e)) ++
    unless (no_entries (eClock e)) "clock" (map_json (eClock e)) ++
    [("ts", JNum (write_int (Ts e)))]).

Definition state_json (s : CounterState) : json :=
  JObj ([("positive", map_json (st_Positive s)); ("negative", map_json (st_Negative s));
         ("clock", map_json (st_Clock s))] ++
    unless (no_entries (st_Tags s)) "tags" (tags_json (st_Tags s))).

Definition marshal_entry (e : WALEntry) : string := json_text (entry_json e).

Definition marshal_state (s : CounterState) : string := json_text (state_json s).

(** [VectorClock.String] *)
Definition clock_String (m : gmap string Z) : string := json_text (map_json m).

(** The map the method builds, whose keys are written in order. *)
Definition counter_json (p : PNCounter) : json :=
  JObj [("negative", map_json (negative p)); ("node_id", JStr (pn_nodeID p));
        ("positive", map_json (positive p)); ("value", JNum (write_int (Value p)))].

(** [PNCounter.MarshalJSON] *)
Definition MarshalJSON (p : PNCounter) : string := json_text (counter_json p).

(** ** Reading *)

Definition lower (c : ascii) : ascii := if between 65 (code c) 90 then chr (code c + 32) else c.

(** The folding of field names: letters lose their case; the long s and the
    Kelvin sign are the only other runes that fold to an ASCII one. *)
Fixpoint fold_name (s : string) : string :=
  match s with
  | EmptyString => ""
  | String a s1 =>
      match s1 with
      | EmptyString => String (lower a) ""
      | String b s2 =>
          if (code a =? 197)%N && (code b =? 191)%N then String "s" (fold_name s2)
          else match s2 with
          | String c s3 =>
              if (code a =? 226)%N && (code b =? 132)%N && (code c =? 170)%N
              then String "k" (fold_name s3) else String (lower a) (fold_name s1)
          | EmptyString => String (lower a) (fold_name s1)
          end
      end
  end.

Definition decode_int (old : Z) (j : json) : option Z :=
  match j with JNull => Some old | JNum t => ParseInt t | _ => None end.

Definition decode_uint (old : Z) (j : json) : option Z :=
  match j with JNull => Some old | JNum t => ParseUint t | _ => None end.

Definition decode_string (old : string) (j : json) : option string :=
  match j with JNull => Some old | JStr s => Some s | _ => None end.

Definition decode_slice (j : json) : option (list string) :=
  match j with JNull => Some [] | JArr l => mapM (decode_string "") l | _ => None end.

(** An object into a map: new entries are added to those it has. *)
Definition decode_into {V : Type} (elem : json -> option V) (old : gmap string V) (j : json) :
    option (gmap string V) :=
  match j with
  | JNull => Some ∅
  | JObj kvs =>
      foldl (fun acc kv => m ← acc; v ← elem kv.2; Some (<[kv.1 := v]> m)) (Some old) kvs
  | _ => None
  end.

Definition decode_map : gmap string Z -> json -> option (gmap string Z) := decode_into (decode_int 0).

Definition decode_tags : gmap string (list string) -> json -> option (gmap string (list string)) :=
  decode_into decode_slice.

Definition entry_field (e : WALEntry) (kv : string * json) : option WALEntry :=
  let '(mkWALEntry seq op node counter delta pos neg clk ts) := e in
  let name := fold_name kv.1 in
  let j := kv.2 in
  if String.eqb name "seq" then
    x ← decode_uint seq j; Some (mkWALEntry x op node counter delta pos neg clk ts)
  else if String.eqb name "op" then
    x ← decode_string op j; Some (mkWALEntry seq x node counter delta pos neg clk ts)
  else if String.eqb name "node" then
    x ← decode_string node j; Some (mkWALEntry seq op x counter delta pos neg clk ts)
  else if String.eqb name "counter" then
    x ← decode_string counter j; Some (mkWALEntry seq op node x delta pos neg clk ts)
  else if String.eqb name "delta" then
    x ← decode_int delta j; Some (mkWALEntry seq op node counter x pos neg clk ts)
  else if String.eqb name "positive" then
    x ← decode_map pos j; Some (mkWALEntry seq op node counter delta x neg clk ts)
  else if String.eqb name "negative" then
    x ← decode_map neg j; Some (mkWALEntry seq op node counter delta pos x clk ts)
  else if String.eqb name "clock" then
    x ← decode_map clk j; Some (mkWALEntry seq op node counter delta pos neg x ts)
  else if String.eqb name "ts" then
    x ← decode_int ts j; Some (mkWALEntry seq op node counter delta pos neg clk x)
  else Some e.

Definition state_field (s : CounterState) (kv : string * json) : option CounterState :=
  let '(mkCounterState pos neg clk tags) := s in
  let name := fold_name kv.1 in
  let j := kv.2 in
  if String.eqb name "positive" then x ← decode_map pos j; Some (mkCounterState x neg clk tags)
  else if String.eqb name "negative" then x ← decode_map neg j; Some (mkCounterState pos x clk tags)
  else if String.eqb name "clock" then x ← decode_map clk j; Some (mkCounterState pos neg x tags)
  else if String.eqb name "tags" then x ← decode_tags tags j; Some (mkCounterState pos neg clk x)
  else Some s.

(** An object into a struct. *)
Definition decode_struct {A : Type} (field : A -> string * json -> option A) (zero : A) (j : json) : option A :=
  match j with
  | JNull => Some zero
  | JObj kvs => foldl (fun acc kv => a ← acc; field a kv) (Some zero) kvs
  | _ => None
  end.

Definition unmarshal_entry (text : string) : option WALEntry :=
  j ← parse text; decode_struct entry_field (mkWALEntry 0 "" "" "" 0 ∅ ∅ ∅ 0) j.

Definition unmarshal_state (text : string) : option CounterState :=
  j ← parse text; decode_struct state_field (mkCounterState ∅ ∅ ∅ ∅) j.

(** ** Maps *)

Lemma sorted_entries_perm {V : Type} (m : gmap string V) : sorted_entries m ≡ₚ map_to_list m.
Proof.
  unfold sorted_entries. rewrite sort_strings_perm.
  assert (forall l, (forall kv, kv ∈ l -> m !! kv.1 = Some kv.2) ->
    omap (fun k => pair k <$> m !! k) l.*1 = l) as H.
  { induction l as [|[k v] l IH]; intros Hl; [done|].
    pose proof (Hl (k, v) ltac:(by left)) as Hv. simpl in Hv. cbn [fmap list_fmap omap list_omap fst].
    rewrite Hv. simpl. f_equal. apply IH. intros kv Hkv. apply Hl. by right. }
  rewrite H; [done|]. intros [k v]. by rewrite elem_of_map_to_list.
Qed.

Lemma foldl_insert {V : Type} (l : list (string * V)) :
  forall m : gmap string V, NoDup l.*1 ->
  foldl (fun m kv => <[kv.1 := kv.2]> m) m l = list_to_map l ∪ m.
Proof.
  induction l as [|[k v] l IH]; intros m Hl; simpl; [by rewrite left_id_L by apply _|].
  apply NoDup_cons in Hl as [Hk Hl]. rewrite IH by done.
  by rewrite <- insert_union_l, insert_union_r by (by apply not_elem_of_list_to_map_1).
Qed.

Lemma decode_into_json {V : Type} (elem : json -> option V) (enc : V -> json) (m : gmap string V) :
  map_Forall (fun _ v => elem (enc v) = Some v) m ->
  decode_into elem ∅ (JObj ((fun kv => (kv.1, enc kv.2)) <$> sorted_entries m)) = Some m.
Proof.
  intros Hm. cbn [decode_into].
  assert (forall (l : list (string * V)) (m0 : gmap string V),
    (forall kv, kv ∈ l -> elem (enc kv.2) = Some kv.2) ->
    foldl (fun acc kv => m ← acc; v ← elem kv.2; Some (<[kv.1 := v]> m)) (Some m0)
      ((fun kv => (kv.1, enc kv.2)) <$> l) = Some (foldl (fun m kv => <[kv.1 := kv.2]> m) m0 l)) as H.
  { induction l as [|[k v] l IH]; intros m0 Hl; [done|]. simpl.
    pose proof (Hl (k, v) ltac:(by left)) as Hv. simpl in Hv. rewrite Hv. simpl.
    apply IH. intros kv Hkv. apply Hl. by right. }
  rewrite H.
  - rewrite foldl_insert, right_id_L
      by (rewrite ?sorted_entries_perm; first [apply NoDup_fst_map_to_list | apply _]).
    f_equal. rewrite <- (list_to_map_to_list m) at 2. apply list_to_map_proper; [|apply sorted_entries_perm].
    rewrite sorted_entries_perm. apply NoDup_fst_map_to_list.
  - intros [k v]. rewrite sorted_entries_perm, elem_of_map_to_list. by apply Hm.
Qed.

Lemma decode_map_json (m : gmap string Z) : map_ok m -> decode_map ∅ (map_json m) = Some m.
Proof.
  intros Hm. apply (decode_into_json (decode_int 0) (fun v => JNum (write_int v))).
  intros k v Hv. apply ParseInt_write. by apply (Hm k v).
Qed.

Lemma decode_slice_json (l : list string) : decode_slice (slice_json l) = Some l.
Proof.
  destruct l as [|x l]; [done|]. change (mapM (decode_string "") (JStr <$> x :: l) = Some (x :: l)).
  apply mapM_Some, Forall2_fmap_l. by apply Forall_Forall2_diag, Forall_true.
Qed.

Lemma decode_tags_json (m : gmap string (list string)) : decode_tags ∅ (tags_json m) = Some m.
Proof. apply (decode_into_json decode_slice slice_json). intros k v _. apply decode_slice_json. Qed.

Lemma no_entries_spec {V : Type} (m : gmap string V) : no_entries m = true -> m = ∅.
Proof. unfold no_entries. rewrite Z.eqb_eq. intros H. apply map_size_empty_inv. lia. Qed.

Lemma written_object {V : Type} (P : string -> Prop) (d : nat) (enc : V -> json) (m : gmap string V) :
  map_Forall (fun k v => P k /\ written P d (enc v)) m ->
  written P (S d) (JObj ((fun kv => (kv.1, enc kv.2)) <$> sorted_entries m)).
Proof.
  intros Hm. simpl. apply Forall_fmap, Forall_forall. intros [k v].
  rewrite sorted_entries_perm, elem_of_map_to_list. apply Hm.
Qed.

Lemma written_map (P : string -> Prop) (m : gmap string Z) :
  map_Forall (fun k _ => P k) m -> written P 1 (map_json m).
Proof.
  intros Hm. apply (written_object P 0 (fun v => JNum (write_int v))). intros k v Hv.
  split; [by apply (Hm k v)|by exists v].
Qed.

Lemma written_tags (P : string -> Prop) (m : gmap string (list string)) :
  map_Forall (fun k v => P k /\ Forall P v) m -> written P 2 (tags_json m).
Proof.
  intros Hm. apply (written_object P 1 slice_json). intros k v Hv. destruct (Hm k v Hv) as [Hk Hl].
  split; [done|]. destruct v as [|x v]; [done|]. simpl. by apply (Forall_fmap _ _ (x :: v)).
Qed.

Lemma written_unless (P : string -> Prop) (d : nat) (b : bool) (name : string) (j : json) :
  P name -> written P d j -> Forall (fun kv => P kv.1 /\ written P d kv.2) (unless b name j).
Proof. intros Hn Hj. destruct b; [done|]. by repeat constructor. Qed.

(** ** Entries and states *)

Lemma written_fields (P : string -> Prop) (d : nat) (kvs : list (string * json)) :
  Forall (fun kv => P kv.1 /\ written P d kv.2) kvs -> written P (S d) (JObj kvs).
Proof. done. Qed.

(** Splits the list of fields; their names are valid. *)
Ltac fields HP :=
  apply written_fields; repeat first
    [ apply Forall_app; split | apply written_unless
    | apply Forall_cons; split | apply Forall_nil_2
    | split; cbn [fst snd]
    | apply HP; by apply (bool_decide_unpack _) ].

Lemma entry_written (P : string -> Prop) (e : WALEntry) :
  (forall k, utf8_string k -> P k) -> P (Op e) -> P (Node e) -> P (Counter e) ->
  map_Forall (fun k _ => P k) (ePositive e) -> map_Forall (fun k _ => P k) (eNegative e) ->
  map_Forall (fun k _ => P k) (eClock e) -> written P 2 (entry_json e).
Proof.
  intros HP H1 H2 H3 H4 H5 H6. fields HP; try done; try (by apply written_map); by eexists.
Qed.

Lemma written_deeper (P : string -> Prop) (j : json) :
  forall d d', written P d j -> (d <= d')%nat -> written P d' j.
Proof.
  induction j as [|b|t|s|l IH|kvs IH] using json_ind; intros d d' Hw Hd; try (by destruct d, d').
  - destruct d as [|d], d' as [|d']; [done|done|lia|]. simpl in *. rewrite Forall_forall in *.
    intros j Hj. apply (IH j Hj d); [by apply Hw|lia].
  - destruct d as [|d], d' as [|d']; [done|done|lia|]. simpl in *. rewrite Forall_forall in *.
    intros kv Hkv. split; [by apply Hw|]. apply (IH kv Hkv d); [by apply Hw|lia].
Qed.

Lemma state_written (P : string -> Prop) (s : CounterState) :
  (forall k, utf8_string k -> P k) -> map_Forall (fun k _ => P k) (st_Positive s) ->
  map_Forall (fun k _ => P k) (st_Negative s) -> map_Forall (fun k _ => P k) (st_Clock s) ->
  map_Forall (fun k v => P k /\ Forall P v) (st_Tags s) -> written P 3 (state_json s).
Proof.
  intros HP H1 H2 H3 H4. fields HP; try (by apply written_tags);
    (apply (written_deeper _ _ 1); [by apply written_map|lia]).
Qed.

(** One optional field. *)
Lemma foldl_unless {A : Type} (field : A -> string * json -> option A) (b : bool) (name : string) (j : json)
    (a a' : A) (rest : list (string * json)) :
  (b = true -> a = a') -> (b = false -> field a (name, j) = Some a') ->
  foldl (fun acc kv => a ← acc; field a kv) (Some a) (unless b name j ++ rest) =
  foldl (fun acc kv => a ← acc; field a kv) (Some a') rest.
Proof. intros H1 H2. destruct b; simpl; [by rewrite H1|by rewrite H2]. Qed.

(** The field of a known name. *)
Ltac known_field :=
  intros _; cbn [entry_field state_field fst snd];
  match goal with |- context [fold_name ?n] => change (fold_name n) with n end;
  cbn [String.eqb Ascii.eqb Bool.eqb];
  cbn [decode_uint decode_int decode_string];
  rewrite ?ParseUint_write, ?ParseInt_write, ?decode_map_json, ?decode_tags_json by done; done.

Lemma decode_entry_json (e : WALEntry) :
  entry_ok e -> decode_struct entry_field (mkWALEntry 0 "" "" "" 0 ∅ ∅ ∅ 0) (entry_json e) = Some e.
Proof.
  destruct e as [seq op node counter delta pos neg clk ts]. intros (H1 & _ & _ & _ & H5 & H6 & H7 & H8 & H9).
  cbn [Seq Delta ePositive eNegative eClock Ts] in *. unfold entry_json. cbn [decode_struct Seq Op Node Counter
    Delta ePositive eNegative eClock Ts].
  change ([("seq", ?x); ("op", ?y)] ++ ?l) with (unless false "seq" x ++ unless false "op" y ++ l).
  change [("ts", ?x)] with (unless false "ts" x ++ []).
  rewrite (foldl_unless _ _ _ _ _ (mkWALEntry seq "" "" "" 0 ∅ ∅ ∅ 0)); [|done|known_field].
  rewrite (foldl_unless _ _ _ _ _ (mkWALEntry seq op "" "" 0 ∅ ∅ ∅ 0)); [|done|known_field].
  rewrite (foldl_unless _ _ _ _ _ (mkWALEntry seq op node "" 0 ∅ ∅ ∅ 0));
    [|by intros ->%String.eqb_eq|known_field].
  rewrite (foldl_unless _ _ _ _ _ (mkWALEntry seq op node counter 0 ∅ ∅ ∅ 0));
    [|by intros ->%String.eqb_eq|known_field].
  rewrite (foldl_unless _ _ _ _ _ (mkWALEntry seq op node counter delta ∅ ∅ ∅ 0));
    [|by intros ->%Z.eqb_eq|known_field].
  rewrite (foldl_unless _ _ _ _ _ (mkWALEntry seq op node counter delta pos ∅ ∅ 0));
    [|by intros ->%no_entries_spec|known_field].
  rewrite (foldl_unless _ _ _ _ _ (mkWALEntry seq op node counter delta pos neg ∅ 0));
    [|by intros ->%no_entries_spec|known_field].
  rewrite (foldl_unless _ _ _ _ _ (mkWALEntry seq op node counter delta pos neg clk 0));
    [|by intros ->%no_entries_spec|known_field].
  by rewrite (foldl_unless _ _ _ _ _ (mkWALEntry seq op node counter delta pos neg clk ts));
    [|done|known_field].
Qed.

Lemma decode_state_json (s : CounterState) :
  state_ok s -> decode_struct state_field (mkCounterState ∅ ∅ ∅ ∅) (state_json s) = Some s.
Proof.
  destruct s as [pos neg clk tags]. intros (H1 & H2 & H3 & _).
  cbn [st_Positive st_Negative st_Clock st_Tags] in *. unfold state_json.
  cbn [decode_struct st_Positive st_Negative st_Clock st_Tags].
  change ([("positive", ?x); ("negative", ?y); ("clock", ?z)] ++ ?l) with
    (unless false "positive" x ++ unless false "negative" y ++ unless false "clock" z ++ l).
  rewrite <- (app_nil_r (unless (no_entries tags) _ _)).
  rewrite (foldl_unless _ _ _ _ _ (mkCounterState pos ∅ ∅ ∅)); [|done|known_field].
  rewrite (foldl_unless _ _ _ _ _ (mkCounterState pos neg ∅ ∅)); [|done|known_field].
  rewrite (foldl_unless _ _ _ _ _ (mkCounterState pos neg clk ∅)); [|done|known_field].
  by rewrite (foldl_unless _ _ _ _ _ (mkCounterState pos neg clk tags));
    [|by intros ->%no_entries_spec|known_field].
Qed.

(** ** The laws the log and the store rely on *)

Lemma map_ok_keys (m : gmap string Z) : map_ok m -> map_Forall (fun k _ => utf8_string k) m.
Proof. intros Hm k v Hv. by apply (Hm k v). Qed.

(** The text of a struct is an object. *)
Lemma object_text (kvs : list (string * json)) : exists body, json_text (JObj kvs) = body +:+ "}".
Proof. eexists (String "{" _). reflexivity. Qed.

(** JSON meets the interface of the log. *)
#[export] Instance json_entries : EntryCodec marshal_entry unmarshal_entry.
Proof.
  split; intros e.
  - intros He. unfold unmarshal_entry, marshal_entry. rewrite (parse_marshalled 2); [|..|done].
    + by apply decode_entry_json.
    + destruct He as (_ & H1 & H2 & H3 & _ & H4 & H5 & H6 & _). apply entry_written; auto using map_ok_keys.
  - apply (json_text_one_line (fun _ => True) _ 2). apply entry_written; try done; intros k v _; done.
  - apply object_text.
Qed.

Lemma state_roundtrip (s : CounterState) : state_ok s -> unmarshal_state (marshal_state s) = Some s.
Proof.
  intros Hs. unfold unmarshal_state, marshal_state. rewrite (parse_marshalled 3); [|..|done].
  - by apply decode_state_json.
  - destruct Hs as (H1 & H2 & H3 & H4). apply state_written; auto using map_ok_keys.
Qed.

(** An entry cut short is not an entry. *)
Lemma entry_prefix (e : WALEntry) (t x : string) :
  entry_ok e -> marshal_entry e = t +:+ x -> x <> "" -> unmarshal_entry t = None.
Proof.
  intros He Ht Hx. unfold unmarshal_entry. enough (parse t = None) as -> by done.
  eapply (parse_prefix 2 _ t x); [|done|exact Ht|done].
  destruct He as (_ & H1 & H2 & H3 & _ & H4 & H5 & H6 & _). apply entry_written; auto using map_ok_keys.
Qed.

Lemma marshal_entry_head (e : WALEntry) : exists s, marshal_entry e = String "{" s.
Proof. eexists. reflexivity. Qed.

Lemma counter_written (p : PNCounter) :
  utf8_string (pn_nodeID p) -> map_ok (positive p) -> map_ok (negative p) ->
  writable 2 (counter_json p).
Proof.
  intros H1 H2 H3. assert (forall k, utf8_string k -> utf8_string k) as HP by done.
  fields HP; try done; try (by apply written_map, map_ok_keys); by eexists.
Qed.

(** C21: The formats of the log and of the snapshots lose nothing: an entry whose
    strings are valid UTF-8 and whose numbers fit their types is read back as it
    was written, its empty fields left out of the text; so are a snapshot with
    its tags, the text of a vector clock and that of a counter.  An entry takes
    one line, and no proper beginning of its text reads as an entry. *)
Theorem formats_roundtrip (e : WALEntry) (s : CounterState) (m : gmap string Z) (p : PNCounter) :
  entry_ok e -> state_ok s -> map_ok m ->
  utf8_string (pn_nodeID p) -> map_ok (positive p) -> map_ok (negative p) ->
  unmarshal_entry (marshal_entry e) = Some e /\
  unmarshal_state (marshal_state s) = Some s /\
  parse (clock_String m) ≫= decode_map ∅ = Some m /\
  parse (MarshalJSON p) = Some (counter_json p) /\
  ContainsByte (marshal_entry e) line_feed = false /\
  (forall t x, marshal_entry e = t +:+ x -> x <> "" -> unmarshal_entry t = None).
Proof.
  intros He Hs Hm Hid Hp Hn. split_and!.
  - by apply codec_roundtrip.
  - by apply state_roundtrip.
  - unfold clock_String. rewrite (parse_marshalled 1); [|by apply written_map, map_ok_keys|done].
    by apply decode_map_json.
  - by apply (parse_marshalled 2); [apply counter_written|].
  - apply codec_one_line.
  - intros t x. by apply entry_prefix.
Qed.

Definition ex_entry : WALEntry :=
  mkWALEntry 3 "merge" "node-a" "café <1>" 0 {["node-b" := 2; "node-a" := 7]} ∅ {["node-b" := 1]} 1700000000.

Definition ex_state : CounterState :=
  mkCounterState {["node-a" := 9223372036854775807]} ∅ {["node-a" := -1]} {["default" := ["x"; "y z"]]}.

Lemma formats_roundtrip_witness :
  unmarshal_entry (marshal_entry ex_entry) = Some ex_entry /\
  unmarshal_state (marshal_state ex_state) = Some ex_state /\
  parse (clock_String {["a" := 1; "b" := 2]}) ≫= decode_map ∅ = Some {["a" := 1; "b" := 2]} /\
  parse (MarshalJSON (NewPNCounter "node-a")) = Some (counter_json (NewPNCounter "node-a")) /\
  ContainsByte (marshal_entry ex_entry) line_feed = false /\
  (forall t x, marshal_entry ex_entry = t +:+ x -> x <> "" -> unmarshal_entry t = None).
Proof.
  apply (formats_roundtrip ex_entry ex_state {["a" := 1; "b" := 2]} (NewPNCounter "node-a")); by_eval.
Defined.
