(* ===== verification/Wal.v ===== *)
(** * The write-ahead log (internal/persistence/wal.go)

    A log file is a byte string of the disk; the operating system's outcome of
    each call is an argument.  The lemmas hold of every format that meets
    [EntryCodec]; the theorems are about the JSON of [Codec]. *)

From S2P Require Import Prelude Json Codec.

(** ** Data *)

(** The store: the directory, the open handle (the path it was opened on) and
    the last sequence number. *)
Record WALStore := mkWALStore {
  dir : string;
  file : option string;
  seq : Z;
}.

(** The disk: the content of each file. *)
Abbreviation disk := (gmap string string).

Inductive walError :=
| ErrMkdir | ErrOpen | ErrWrite | ErrSync | ErrDecode | ErrTooLong | ErrRemove | ErrClose.

#[export] Instance walError_eq_dec : EqDecision walError.
Proof. solve_decision. Defined.

(** What the operating system does with an append: it can fail to open the
    file, stop after some bytes of the write, or fail to flush. *)
Inductive append_io :=
| AppendOk
| AppendOpenErr
| AppendWriteErr (written : nat)
| AppendSyncErr.

Definition NewWALStore (d : string) (mkdir_ok : bool) : WALStore + walError :=
  if mkdir_ok then inl {| dir := d; file := None; seq := 0 |} else inr ErrMkdir.

(** [filepath.Join(w.dir, fmt.Sprintf("counter-%s.wal", nodeID))] for a
    directory without trailing separator. *)
Definition walPath (w : WALStore) (nodeID : string) : string :=
  dir w +:+ "/counter-" +:+ nodeID +:+ ".wal".

Definition newline : ascii := "010"%char.

Definition carriage_return : ascii := "013"%char.

(** [scanner.Buffer(make([]byte, 1024*1024), 4*1024*1024)]: a line and its
    newline must fit the buffer. *)
Definition maxLine : Z := 4 * 1024 * 1024.

(** [bufio.ScanLines]: the newline-separated tokens; a last token without
    newline counts when it is not empty. *)
Fixpoint split_lines (s : string) (cur : string) : list string :=
  match s with
  | EmptyString => if String.eqb cur "" then [] else [cur]
  | String c s' =>
      if Ascii.eqb c newline then cur :: split_lines s' ""
      else split_lines s' (cur +:+ String c "")
  end.

(** One trailing carriage return of a token is dropped. *)
Fixpoint dropCR (s : string) : string :=
  match s with
  | EmptyString => ""
  | String c EmptyString => if Ascii.eqb c carriage_return then "" else s
  | String c s' => String c (dropCR s')
  end.

(** ** Operations *)

Section wal.
Variable marshal : WALEntry -> string.
Variable unmarshal : string -> option WALEntry.

Definition openLocked (w : WALStore) (nodeID : string) (io : append_io) (d : disk) :
    (string * WALStore * disk) + walError :=
  match file w with
  | Some path => inl (path, w, d)
  | None =>
      match io with
      | AppendOpenErr => inr ErrOpen
      | _ =>
          let path := walPath w nodeID in
          let d := match d !! path with Some _ => d | None => <[path := ""]> d end in
          inl (path, {| dir := dir w; file := Some path; seq := seq w |}, d)
      end
  end.

(** [file.Write(b)] on a handle opened with [O_APPEND]. *)
Definition append_bytes (d : disk) (path b : string) : disk :=
  <[path := default "" (d !! path) +:+ b]> d.

Definition AppendCounter (w : WALStore) (d : disk) (nodeID counter op : string) (delta : Z)
    (positive negative clock : gmap string Z) (now : Z) (io : append_io) :
    WALStore * disk * option walError :=
  match openLocked w nodeID io d with
  | inr e => (w, d, Some e)
  | inl (path, w, d) =>
      let w := {| dir := dir w; file := file w; seq := wrapu64 (seq w + 1) |} in
      let entry := {| Seq := seq w; Op := op; Node := ""; Counter := counter; Delta := delta;
        ePositive := positive; eNegative := negative; eClock := clock; Ts := time_Unix now |} in
      let data := marshal entry +:+ String newline "" in
      match io with
      | AppendWriteErr n => (w, append_bytes d path (str_take n data), Some ErrWrite)
      | AppendSyncErr => (w, append_bytes d path data, Some ErrSync)
      | _ => (w, append_bytes d path data, None)
      end
  end.

Definition Append (w : WALStore) (d : disk) (nodeID op : string) (delta : Z)
    (positive negative clock : gmap string Z) (now : Z) (io : append_io) :
    WALStore * disk * option walError :=
  AppendCounter w d nodeID "" op delta positive negative clock now io.

(** The scanning loop of [Replay], with the sequence number and the entries
    read so far. *)
Fixpoint replay_loop (lines : list string) (sq : Z) (entries : list WALEntry) :
    Z * list WALEntry * option walError :=
  match lines with
  | [] => (sq, entries, None)
  | raw :: rest =>
      if maxLine <=? Z.of_nat (String.length raw) then (sq, entries, Some ErrTooLong)
      else
        let line := dropCR raw in
        if String.eqb line "" then replay_loop rest sq entries
        else match unmarshal line with
        | None => (sq, [], Some ErrDecode)
        | Some entry =>
            let sq := if sq <? Seq entry then Seq entry else sq in
            replay_loop rest sq (entries ++ [entry])
        end
  end.

Definition Replay (w : WALStore) (d : disk) (nodeID : string) (open_ok : bool) :
    WALStore * list WALEntry * option walError :=
  match d !! walPath w nodeID with
  | None => (w, [], None)
  | Some content =>
      if open_ok then
        let '(sq, entries, err) := replay_loop (split_lines content "") (seq w) [] in
        ({| dir := dir w; file := file w; seq := sq |}, entries, err)
      else (w, [], Some ErrOpen)
  end.

Definition Truncate (w : WALStore) (d : disk) (nodeID : string) (remove_ok : bool) :
    WALStore * disk * option walError :=
  let w := {| dir := dir w; file := None; seq := seq w |} in
  let path := walPath w nodeID in
  match d !! path with
  | Some _ =>
      if remove_ok then ({| dir := dir w; file := None; seq := 0 |}, delete path d, None)
      else (w, d, Some ErrRemove)
  | None => ({| dir := dir w; file := None; seq := 0 |}, d, None)
  end.

Definition Close (w : WALStore) (close_ok : bool) : WALStore * option walError :=
  match file w with
  | Some _ => ({| dir := dir w; file := None; seq := seq w |},
               if close_ok then None else Some ErrClose)
  | None => (w, None)
  end.

(** ** The log a file stands for *)

(** The bytes that the entries leave in the file. *)
Fixpoint render (es : list WALEntry) : string :=
  match es with
  | [] => ""
  | e :: es' => marshal e +:+ String newline (render es')
  end.

(** The entry fits the line limit of the reader. *)
Definition fits (e : WALEntry) : Prop := Z.of_nat (String.length (marshal e)) < maxLine.

Context `{EC : !EntryCodec marshal unmarshal}.

Lemma split_lines_app (a s cur : string) :
  ContainsByte a newline = false ->
  split_lines (a +:+ String newline s) cur = (cur +:+ a) :: split_lines s "".
Proof.
  revert cur. induction a as [|x a IH]; intros cur Ha.
  - change (split_lines (String newline s) cur = (cur +:+ "") :: split_lines s "").
    simpl. by rewrite str_app_nil_r.
  - simpl in Ha. apply orb_false_iff in Ha as [Hx Ha].
    change (split_lines (String x (a +:+ String newline s)) cur =
      (cur +:+ String x a) :: split_lines s ""). simpl. rewrite Hx, IH by done.
    f_equal. by rewrite str_app_assoc.
Qed.

Lemma split_lines_tail (a cur : string) :
  ContainsByte a newline = false -> a <> "" -> split_lines a cur = [cur +:+ a].
Proof.
  revert cur. induction a as [|x a IH]; intros cur Ha Hne; [done|].
  simpl in Ha. apply orb_false_iff in Ha as [Hx Ha]. simpl. rewrite Hx.
  destruct a as [|y a].
  - simpl. destruct (String.eqb_spec (cur +:+ String x "") "") as [He|]; [|done].
    by destruct cur.
  - rewrite IH by done. by rewrite str_app_assoc.
Qed.

Lemma split_render (es : list WALEntry) (tail : string) :
  split_lines (render es +:+ tail) "" = (marshal <$> es) ++ split_lines tail "".
Proof.
  induction es as [|e es IH]; [done|]. simpl.
  rewrite str_app_assoc. change (String newline (render es) +:+ tail) with
    (String newline (render es +:+ tail)).
  rewrite split_lines_app by apply codec_one_line. by rewrite IH.
Qed.

Lemma dropCR_object (body : string) : dropCR (body +:+ "}") = body +:+ "}".
Proof.
  induction body as [|c body IH]; [done|].
  change (dropCR (String c (body +:+ "}")) = String c (body +:+ "}")). simpl.
  rewrite IH. destruct body; done.
Qed.

Lemma marshal_line (e : WALEntry) :
  dropCR (marshal e) = marshal e /\ String.eqb (marshal e) "" = false.
Proof.
  destruct (codec_object e) as [body ->]. split; [apply dropCR_object|].
  apply String.eqb_neq. by destruct body.
Qed.

Lemma render_snoc (es : list WALEntry) (e : WALEntry) :
  render (es ++ [e]) = render es +:+ marshal e +:+ String newline "".
Proof. induction es as [|x es IH]; [done|]. simpl. rewrite IH, !str_app_assoc. done. Qed.

(** The largest sequence number of a log, above [sq]. *)
Definition max_seq (sq : Z) (es : list WALEntry) : Z :=
  foldl (fun s e => if s <? Seq e then Seq e else s) sq es.

Lemma replay_loop_entries (es acc : list WALEntry) (rest : list string) (sq : Z) :
  Forall entry_ok es -> Forall fits es ->
  replay_loop ((marshal <$> es) ++ rest) sq acc =
  replay_loop rest (max_seq sq es) (acc ++ es).
Proof.
  intros Hok Hfit. revert acc sq. induction es as [|e es IH]; intros acc sq; simpl.
  - by rewrite app_nil_r.
  - apply Forall_cons in Hok as [He Hok], Hfit as [Hf Hfit].
    unfold fits in Hf. destruct (Z.leb_spec maxLine (Z.of_nat (String.length (marshal e)))); [lia|].
    destruct (marshal_line e) as [-> ->]. rewrite codec_roundtrip by done.
    rewrite IH by done. by rewrite <- app_assoc.
Qed.

(** [Replay] of an intact log returns its entries and the largest number. *)
Lemma Replay_render (w : WALStore) (d : disk) (nodeID : string) (es : list WALEntry) :
  d !! walPath w nodeID = Some (render es) -> Forall entry_ok es -> Forall fits es ->
  Replay w d nodeID true =
  ({| dir := dir w; file := file w; seq := max_seq (seq w) es |}, es, None).
Proof.
  intros Hd Hok Hfit. unfold Replay. rewrite Hd.
  rewrite <- (str_app_nil_r (render es)), split_render. simpl.
  by rewrite replay_loop_entries.
Qed.

End wal.

(** ** The refinement: a store on an intact file implements a list of entries *)

Section contract.
Variable marshal : WALEntry -> string.
Variable unmarshal : string -> option WALEntry.
Context `{EC : !EntryCodec marshal unmarshal}.

(** The file of [nodeID] holds exactly the entries [es], the handle, when open,
    is on that file, and the store numbers past every entry. *)
Record wal_repr (w : WALStore) (d : disk) (nodeID : string) (es : list WALEntry) : Prop := {
  repr_file : default "" (d !! walPath w nodeID) = render marshal es;
  repr_handle : forall path, file w = Some path -> path = walPath w nodeID;
  repr_seq : forall e, e ∈ es -> Seq e <= seq w;
  repr_nonneg : 0 <= seq w;
}.

(** The entry an append writes. *)
Definition appended (w : WALStore) (counter op : string) (delta : Z)
    (positive negative clock : gmap string Z) (now : Z) : WALEntry :=
  {| Seq := seq w + 1; Op := op; Node := ""; Counter := counter; Delta := delta;
     ePositive := positive; eNegative := negative; eClock := clock; Ts := time_Unix now |}.

Lemma wal_repr_new (dr nodeID : string) (d : disk) (w : WALStore) :
  NewWALStore dr true = inl w -> d !! walPath w nodeID = None -> wal_repr w d nodeID [].
Proof.
  intros Hw Hd. injection Hw as <-. split; simpl.
  - by rewrite Hd.
  - done.
  - intros e He. by apply not_elem_of_nil in He.
  - done.
Qed.

(** A successful append adds one entry, numbered after all the others. *)
Lemma AppendCounter_repr (w : WALStore) (d : disk) (nodeID counter op : string) (delta : Z)
    (positive negative clock : gmap string Z) (now : Z) (es : list WALEntry) :
  wal_repr w d nodeID es -> seq w + 1 < 2 ^ 64 ->
  let '(w', d', err) :=
    AppendCounter marshal w d nodeID counter op delta positive negative clock now AppendOk in
  err = None /\ dir w' = dir w /\ seq w' = seq w + 1 /\
  (forall p, p <> walPath w nodeID -> d' !! p = d !! p) /\
  wal_repr w' d' nodeID (es ++ [appended w counter op delta positive negative clock now]).
Proof.
  intros [Hfile Hhandle Hseq Hnn] Hlim. unfold AppendCounter.
  assert (exists d1, openLocked w nodeID AppendOk d =
    inl (walPath w nodeID, {| dir := dir w; file := Some (walPath w nodeID); seq := seq w |}, d1) /\
    default "" (d1 !! walPath w nodeID) = render marshal es /\
    (forall p, p <> walPath w nodeID -> d1 !! p = d !! p)) as (d1 & -> & Hd1 & Hother).
  { unfold openLocked. destruct w as [dr [path|] sq]; simpl in *.
    - rewrite (Hhandle path eq_refl) in *. by exists d.
    - eexists. split; [done|]. destruct (d !! walPath _ nodeID) as [c|] eqn:Hc; simpl.
      + by rewrite Hc.
      + rewrite lookup_insert_eq. split; [done|]. intros p Hp. by rewrite lookup_insert_ne. }
  unfold wrapu64. simpl. rewrite Z.mod_small by lia. unfold append_bytes.
  split_and!; [done..| |].
  - intros p Hp. rewrite lookup_insert_ne by done. by apply Hother.
  - split; simpl.
    + change (walPath {| dir := dir w; file := Some (walPath w nodeID); seq := seq w + 1 |} nodeID)
        with (walPath w nodeID).
      rewrite lookup_insert_eq. simpl. by rewrite Hd1, render_snoc.
    + intros path Hp. by injection Hp as <-.
    + intros e [He|He]%elem_of_app.
      * specialize (Hseq e He). lia.
      * apply list_elem_of_singleton in He as ->. simpl. lia.
    + lia.
Qed.

Lemma max_seq_ge (sq : Z) (es : list WALEntry) :
  sq <= max_seq sq es /\ forall e, e ∈ es -> Seq e <= max_seq sq es.
Proof.
  unfold max_seq. revert sq. induction es as [|x es IH]; intros sq; simpl.
  - split; [lia|]. intros e He. by apply not_elem_of_nil in He.
  - destruct (IH (if sq <? Seq x then Seq x else sq)) as [H1 H2].
    destruct (Z.ltb_spec sq (Seq x)); (split; [lia|]);
      intros e [->|He]%elem_of_cons; auto; lia.
Qed.

Lemma max_seq_id (sq : Z) (es : list WALEntry) :
  (forall e, e ∈ es -> Seq e <= sq) -> max_seq sq es = sq.
Proof.
  unfold max_seq. induction es as [|x es IH]; intros H; simpl; [done|].
  destruct (Z.ltb_spec sq (Seq x)).
  - specialize (H x ltac:(set_solver)). lia.
  - apply IH. set_solver.
Qed.

(** Replaying returns the represented entries, and a store that replayed a
    file represents it, whatever it knew before. *)
Lemma Replay_repr (w : WALStore) (d : disk) (nodeID : string) (es : list WALEntry) :
  default "" (d !! walPath w nodeID) = render marshal es ->
  (forall path, file w = Some path -> path = walPath w nodeID) -> 0 <= seq w ->
  Forall entry_ok es -> Forall (fits marshal) es ->
  exists w', Replay unmarshal w d nodeID true = (w', es, None) /\
    dir w' = dir w /\ file w' = file w /\ seq w' = max_seq (seq w) es /\
    wal_repr w' d nodeID es.
Proof.
  intros Hfile Hhandle Hnn Hok Hfit.
  destruct (max_seq_ge (seq w) es) as [H1 H2].
  destruct (d !! walPath w nodeID) as [content|] eqn:Hd; simpl in Hfile.
  - subst content.
    rewrite (Replay_render marshal unmarshal
      w d nodeID es Hd Hok Hfit).
    eexists. split; [done|]. split_and!; [done..|]. split; simpl; auto; [|lia].
    change (walPath {| dir := dir w; file := file w; seq := max_seq (seq w) es |} nodeID)
      with (walPath w nodeID). by rewrite Hd.
  - assert (es = []) as ->.
    { destruct es as [|e es]; [done|]. simpl in Hfile.
      destruct (codec_object e) as [body Hb]. rewrite Hb in Hfile. by destruct body. }
    unfold Replay. rewrite Hd. exists w. split_and!; try done. split; auto.
    by rewrite Hd.
Qed.

Lemma Truncate_repr (w : WALStore) (d : disk) (nodeID : string) :
  let '(w', d', err) := Truncate w d nodeID true in
  err = None /\ dir w' = dir w /\ seq w' = 0 /\ file w' = None /\
  d' !! walPath w nodeID = None /\
  (forall p, p <> walPath w nodeID -> d' !! p = d !! p).
Proof.
  unfold Truncate. change (walPath {| dir := dir w; file := None; seq := seq w |} nodeID)
    with (walPath w nodeID).
  destruct (d !! walPath w nodeID) eqn:Hd; simpl.
  - split_and!; [done..|apply lookup_delete_eq|]. intros p Hp. by rewrite lookup_delete_ne.
  - by split_and!.
Qed.

End contract.

(** ** Runs of appends *)

Record request := mkRequest {
  r_counter : string;
  r_op : string;
  r_delta : Z;
  r_positive : gmap string Z;
  r_negative : gmap string Z;
  r_clock : gmap string Z;
  r_now : Z;
}.

(** The appends of a session, none failing. *)
Definition append_all (marshal : WALEntry -> string) (nodeID : string)
    (wd : WALStore * disk) (reqs : list request) : WALStore * disk :=
  foldl (fun wd r =>
    (AppendCounter marshal wd.1 wd.2 nodeID (r_counter r) (r_op r) (r_delta r)
       (r_positive r) (r_negative r) (r_clock r) (r_now r) AppendOk).1) wd reqs.

(** The entries they stand for, numbered from [n + 1]. *)
Fixpoint numbered (n : Z) (reqs : list request) : list WALEntry :=
  match reqs with
  | [] => []
  | r :: rest =>
      {| Seq := n + 1; Op := r_op r; Node := ""; Counter := r_counter r; Delta := r_delta r;
         ePositive := r_positive r; eNegative := r_negative r; eClock := r_clock r;
         Ts := time_Unix (r_now r) |} :: numbered (n + 1) rest
  end.

Lemma append_all_repr (marshal : WALEntry -> string) (nodeID : string) (w : WALStore) (d : disk)
    (es : list WALEntry) (reqs : list request) :
  wal_repr marshal w d nodeID es -> seq w + Z.of_nat (length reqs) < 2 ^ 64 ->
  let '(w', d') := append_all marshal nodeID (w, d) reqs in
  wal_repr marshal w' d' nodeID (es ++ numbered (seq w) reqs) /\ dir w' = dir w.
Proof.
  revert w d es. induction reqs as [|r reqs IH]; intros w d es Hrepr Hlen.
  - simpl. by rewrite app_nil_r.
  - simpl in Hlen. unfold append_all. simpl.
    pose proof (AppendCounter_repr marshal w d nodeID (r_counter r) (r_op r) (r_delta r)
      (r_positive r) (r_negative r) (r_clock r) (r_now r) es Hrepr ltac:(lia)) as H.
    destruct (AppendCounter _ _ _ _ _ _ _ _ _ _ _ _) as [[w1 d1] err].
    destruct H as (_ & Hdir & Hseq & _ & Hrepr'). simpl.
    specialize (IH w1 d1 _ Hrepr' ltac:(lia)). unfold append_all in IH.
    destruct (foldl _ _ reqs) as [w' d']. destruct IH as [IH Hd]. split; [|congruence].
    by rewrite <- app_assoc, Hseq in IH.
Qed.

Lemma max_seq_numbered (n : Z) (reqs : list request) :
  max_seq n (numbered n reqs) = n + Z.of_nat (length reqs).
Proof.
  unfold max_seq. revert n. induction reqs as [|r reqs IH]; intros n; simpl; [lia|].
  destruct (Z.ltb_spec n (n + 1)); [|lia]. rewrite IH. lia.
Qed.

(** ** Properties *)

(** C20: What a session appends is what a restart reads back: after any sequence
    of successful appends to a fresh log, a new store on the same disk replays
    exactly those entries in order, numbered 1, 2, ..., n, and continues from n. *)
Theorem wal_survives_restart (dr nodeID : string) (d : disk) (reqs : list request) :
  d !! walPath (mkWALStore dr None 0) nodeID = None ->
  Z.of_nat (length reqs) < 2 ^ 64 ->
  Forall entry_ok (numbered 0 reqs) -> Forall (fits marshal_entry) (numbered 0 reqs) ->
  let d' := (append_all marshal_entry nodeID (mkWALStore dr None 0, d) reqs).2 in
  exists w, NewWALStore dr true = inl w /\
    Replay unmarshal_entry w d' nodeID true =
      (mkWALStore dr None (Z.of_nat (length reqs)), numbered 0 reqs, None).
Proof.
  intros Hd Hlen Hok Hfit. simpl. exists (mkWALStore dr None 0). split; [done|].
  assert (wal_repr marshal_entry (mkWALStore dr None 0) d nodeID []) as Hrepr
    by (by apply (wal_repr_new marshal_entry dr)).
  pose proof (append_all_repr marshal_entry nodeID _ d [] reqs Hrepr Hlen) as H.
  destruct (append_all _ _ _ reqs) as [w' d']. destruct H as [[Hfile _ _ _] Hdir]. simpl in *.
  destruct (Replay_repr marshal_entry unmarshal_entry (mkWALStore dr None 0) d' nodeID
    (numbered 0 reqs)) as (w2 & -> & Hd2 & Hf2 & Hs2 & _); try done.
  - rewrite <- Hfile. unfold walPath. by rewrite Hdir.
  - rewrite max_seq_numbered in Hs2. destruct w2; simpl in *; subst. done.
Qed.

Lemma dropCR_prefix (s : string) : exists x, s = dropCR s +:+ x.
Proof.
  induction s as [|c s [x IH]]; [by exists ""|]. destruct s as [|c' s].
  - simpl. destruct (Ascii.eqb c carriage_return); [by eexists (String c "")|by exists ""].
  - exists x. change (String c (String c' s) = String c (dropCR (String c' s) +:+ x)). by f_equal.
Qed.

(** What is left of an entry on its line still does not decode. *)
Lemma torn_entry (e : WALEntry) (torn rest : string) :
  entry_ok e -> marshal_entry e = torn +:+ rest -> torn <> "" -> rest <> "" ->
  ContainsByte torn newline = false /\ dropCR torn <> "" /\ unmarshal_entry (dropCR torn) = None /\
  (String.length torn <= String.length (marshal_entry e))%nat.
Proof.
  intros He Ht Hne Hr. destruct (dropCR_prefix torn) as [x Hx]. split_and!.
  - pose proof (codec_one_line (EntryCodec := json_entries) e) as Hl.
    rewrite Ht, ContainsByte_app in Hl. by apply orb_false_iff in Hl as [Hl _].
  - destruct (marshal_entry_head e) as [s Hs]. rewrite Hs in Ht. destruct torn as [|c torn]; [done|].
    injection Ht as <- _. by destruct torn.
  - apply (entry_prefix e _ (x +:+ rest)); [done|..].
    + by rewrite <- str_app_assoc, <- Hx.
    + by destruct x.
  - rewrite Ht, str_app_length. lia.
Qed.

(** C22: A record torn by a crash in the middle of an append hides the whole log:
    replaying intact entries followed by the first bytes of one more, however
    many of them, returns no entry at all and a decode error. *)
Theorem torn_tail_hides_log (w : WALStore) (d : disk) (nodeID : string) (es : list WALEntry)
    (e : WALEntry) (torn rest : string) :
  Forall entry_ok (es ++ [e]) -> Forall (fits marshal_entry) (es ++ [e]) ->
  marshal_entry e = torn +:+ rest -> torn <> "" -> rest <> "" ->
  d !! walPath w nodeID = Some (render marshal_entry es +:+ torn) ->
  Replay unmarshal_entry w d nodeID true =
  ({| dir := dir w; file := file w; seq := max_seq (seq w) es |}, [], Some ErrDecode).
Proof.
  intros [Hok [He _]%Forall_cons]%Forall_app [Hfit [Hfe _]%Forall_cons]%Forall_app Ht Hne Hr Hd.
  destruct (torn_entry e torn rest He Ht Hne Hr) as (Hnl & Hcr & Hbad & Hlen). unfold Replay.
  rewrite Hd, (split_render marshal_entry unmarshal_entry), (split_lines_tail torn "" Hnl) by done.
  rewrite (replay_loop_entries marshal_entry unmarshal_entry) by done. simpl.
  change ("" +:+ torn) with torn. unfold fits in Hfe.
  destruct (Z.leb_spec maxLine (Z.of_nat (String.length torn))); [lia|].
  apply String.eqb_neq in Hcr. by rewrite Hcr, Hbad.
Qed.

#[export] Instance fits_dec (marshal : WALEntry -> string) (e : WALEntry) :
  Decision (fits marshal e).
Proof. unfold fits. apply _. Defined.

Definition ex_requests : list request :=
  [mkRequest "default" "increment" 5 ∅ ∅ ∅ 0;
   mkRequest "" "merge" 0 {["node-b" := 2]} ∅ {["node-b" := 1]} 0].

Lemma wal_survives_restart_witness :
  exists w, NewWALStore "data" true = inl w /\
    Replay unmarshal_entry w
      (append_all marshal_entry "node-a" (mkWALStore "data" None 0, ∅) ex_requests).2 "node-a" true =
    (mkWALStore "data" None 2, numbered 0 ex_requests, None).
Proof.
  apply (wal_survives_restart "data" "node-a" ∅ ex_requests).
  - reflexivity.
  - reflexivity.
  - by_eval.
  - by_eval.
Defined.

(** The first thirty bytes of a third entry reach the disk. *)
Definition ex_torn : string := String.substring 0 30 (marshal_entry ex_entry).

Definition ex_torn_disk : disk :=
  {["data/counter-node-a.wal" := render marshal_entry (numbered 0 ex_requests) +:+ ex_torn]}.

Lemma torn_tail_hides_log_witness :
  Replay unmarshal_entry (mkWALStore "data" None 0) ex_torn_disk "node-a" true =
  (mkWALStore "data" None (max_seq 0 (numbered 0 ex_requests)), [], Some ErrDecode).
Proof.
  apply (torn_tail_hides_log (mkWALStore "data" None 0) ex_torn_disk "node-a" (numbered 0 ex_requests)
    ex_entry ex_torn (String.substring 30 200 (marshal_entry ex_entry)));
    first [by_eval | discriminate | vm_compute; reflexivity].
Defined.
