(* ===== verification/Bully.v ===== *)
(** * Leader election (internal/election/bully.go)

    The Bully instance shares the node's membership table, which its operations
    take as an argument; [time.Now()] is an argument; the remote calls are
    oracles, and the announcements an operation sends are its output. *)

From stdpp Require Import options.
From S2P Require Import Prelude Membership.

(** ** Data *)

Record ElectionRequest := mkElectionRequest { erq_NodeId : string; erq_Priority : Z }.

Record ElectionResponse := mkElectionResponse {
  ers_NodeId : string;
  ers_Ok : bool;
  ers_Priority : Z;
}.

Record CoordinatorRequest := mkCoordinatorRequest {
  crq_NodeId : string;
  crq_Priority : Z;
  crq_Term : Z;
}.

Record BullyConfig := mkBullyConfig {
  cfg_NodeID : string;
  cfg_Priority : Z;
  cfg_Interval : Z;
  cfg_LeaderTimeout : Z;
}.

Record Bully := mkBully {
  b_nodeID : string;
  b_priority : Z;
  b_interval : Z;
  b_timeout : Z;
  b_dialTimeout : Z;
  maxProbes : Z;
  leaderID : string;
  leaderPriority : Z;
  leaderTerm : Z;
  lastLeaderSeen : Z;
  electionRunning : bool;
}.

#[export] Instance CoordinatorRequest_eq_dec : EqDecision CoordinatorRequest.
Proof. solve_decision. Defined.

#[export] Instance Bully_eq_dec : EqDecision Bully.
Proof. solve_decision. Defined.

Definition New (cfg : BullyConfig) : Bully :=
  let interval := if cfg_Interval cfg <=? 0 then 2 * Second else cfg_Interval cfg in
  let timeout := if cfg_LeaderTimeout cfg <=? 0 then 10 * Second else cfg_LeaderTimeout cfg in
  {| b_nodeID := cfg_NodeID cfg; b_priority := cfg_Priority cfg; b_interval := interval;
     b_timeout := timeout; b_dialTimeout := 2 * Second; maxProbes := 3;
     leaderID := ""; leaderPriority := 0; leaderTerm := 0; lastLeaderSeen := zeroTime;
     electionRunning := false |}.

Definition with_leader (b : Bully) (id : string) (priority term seen : Z) : Bully :=
  {| b_nodeID := b_nodeID b; b_priority := b_priority b; b_interval := b_interval b;
     b_timeout := b_timeout b; b_dialTimeout := b_dialTimeout b; maxProbes := maxProbes b;
     leaderID := id; leaderPriority := priority; leaderTerm := term; lastLeaderSeen := seen;
     electionRunning := electionRunning b |}.

Definition with_running (b : Bully) (r : bool) : Bully :=
  {| b_nodeID := b_nodeID b; b_priority := b_priority b; b_interval := b_interval b;
     b_timeout := b_timeout b; b_dialTimeout := b_dialTimeout b; maxProbes := maxProbes b;
     leaderID := leaderID b; leaderPriority := leaderPriority b; leaderTerm := leaderTerm b;
     lastLeaderSeen := lastLeaderSeen b; electionRunning := r |}.

(** ** Operations *)

Definition LeaderID (b : Bully) : string := leaderID b.

Definition IsLeader (b : Bully) : bool := String.eqb (leaderID b) (b_nodeID b).

Definition LeaderTerm (b : Bully) : Z := leaderTerm b.

(** The message of [sendCoordinator] to each of the peers; whether it arrives
    is up to the network, and the sender ignores the answer. *)
Definition coordinator_message (b : Bully) (term : Z) : CoordinatorRequest :=
  {| crq_NodeId := b_nodeID b; crq_Priority := b_priority b; crq_Term := term |}.

Definition sendCoordinator (b : Bully) (peer : Member) (term : Z) : string * CoordinatorRequest :=
  (Address peer, coordinator_message b term).

Definition broadcast (b : Bully) (m : Membership) (term : Z) : list (string * CoordinatorRequest) :=
  omap (fun p => if String.eqb (ID p) (b_nodeID b) then None else Some (sendCoordinator b p term))
    (GetAlivePeers m).

Definition announceLeader (b : Bully) (m : Membership) : list (string * CoordinatorRequest) :=
  broadcast b m (leaderTerm b).

Definition higherPriorityLivePeers (b : Bully) (m : Membership) : list Member :=
  omap (fun p =>
    if String.eqb (ID p) (b_nodeID b) then None
    else if b_priority b <? Priority p then Some p else None) (GetAlivePeers m).

(** The outcome of one probe: the peer's [Ok] flag, a failed dial or call, or a
    failure with the context cancelled before the next attempt. *)
Inductive probe :=
| Answer (ok : bool)
| Unreachable
| Cancelled.

(** [rpc peer n] is the outcome of the [n]-th attempt. *)
Fixpoint probe_loop (rpc : nat -> probe) (attempt fuel : nat) : bool :=
  match fuel with
  | O => false
  | S fuel =>
      match rpc attempt with
      | Answer ok => ok
      | Unreachable => probe_loop rpc (S attempt) fuel
      | Cancelled => false
      end
  end.

Definition sendElection (b : Bully) (rpc : Member -> nat -> probe) (peer : Member) : bool :=
  probe_loop (rpc peer) 0 (Z.to_nat (maxProbes b)).

Definition BecomeLeader (b : Bully) (m : Membership) (now : Z) :
    Bully * list (string * CoordinatorRequest) :=
  let b := with_leader b (b_nodeID b) (b_priority b) (wrap64 (leaderTerm b + 1)) now in
  (b, broadcast b m (leaderTerm b)).

(** The response, and whether a new election is started in the background,
    under the context of the call ([background_election]). *)
Definition HandleElection (b : Bully) (req : ElectionRequest) : ElectionResponse * bool :=
  ({| ers_NodeId := b_nodeID b; ers_Ok := true; ers_Priority := b_priority b |},
   erq_Priority req <? b_priority b).

Definition fresh (b : Bully) (now : Z) : bool :=
  negb (String.eqb (leaderID b) "") && (time_Sub now (lastLeaderSeen b) <=? b_timeout b).

Definition accept (b : Bully) (req : CoordinatorRequest) (now : Z) : bool :=
  (leaderPriority b <? crq_Priority req)
  || ((crq_Priority req =? leaderPriority b) && (leaderTerm b <=? crq_Term req))
  || (negb (fresh b now) && (leaderTerm b <? crq_Term req)).

Definition HandleCoordinator (b : Bully) (req : CoordinatorRequest) (now : Z) : Bully * bool :=
  (if accept b req now
   then with_leader b (crq_NodeId req) (crq_Priority req) (crq_Term req) now else b, true).

(** One iteration of the waiting loop: the announcements handled since the
    previous one, the time and whether the context is cancelled. *)
Record poll := mkPoll {
  p_messages : list (CoordinatorRequest * Z);
  p_now : Z;
  p_cancelled : bool;
}.

Definition handle_all (b : Bully) (msgs : list (CoordinatorRequest * Z)) : Bully :=
  foldl (fun b rq => (HandleCoordinator b rq.1 rq.2).1) b msgs.

(** The waiting loop ends at the deadline, on cancellation or when a leader is
    known; [polls] are the iterations the scheduler grants before that. *)
Fixpoint await (b : Bully) (deadline : Z) (polls : list poll) : Bully :=
  match polls with
  | [] => b
  | p :: rest =>
      let b := handle_all b (p_messages p) in
      if negb (time_Before (p_now p) deadline) then b
      else if p_cancelled p then b
      else if negb (String.eqb (leaderID b) "") then b
      else await b deadline rest
  end.

(** One election.  No lock is held while the peers are probed: [during] are the
    announcements handled meanwhile. *)
Definition StartElection (b : Bully) (m : Membership) (rpc : Member -> nat -> probe)
    (during : list (CoordinatorRequest * Z)) (now : Z) (polls : list poll) :
    Bully * list (string * CoordinatorRequest) :=
  if electionRunning b then (b, [])
  else
    let b := with_running b true in
    let ack := foldl (fun ack peer => if sendElection b rpc peer then true else ack) false
                 (higherPriorityLivePeers b m) in
    let b := handle_all b during in
    let '(b, out) :=
      if negb ack then BecomeLeader b m now
      else (await b (time_Add now (b_timeout b)) polls, []) in
    (with_running b false, out).

(** The election of [HandleElection] when the handler has returned before a peer
    reacted: the server cancels the context of the call, so that every probe and
    every announcement fails. *)
Definition background_election (b : Bully) (m : Membership) (during : list (CoordinatorRequest * Z))
    (now : Z) : Bully * list (string * CoordinatorRequest) :=
  ((StartElection b m (fun _ _ => Cancelled) during now []).1, []).

(** The body of the ticker loop of [Run]. *)
Definition tick (b : Bully) (m : Membership) (rpc : Member -> nat -> probe)
    (during : list (CoordinatorRequest * Z)) (now : Z) (polls : list poll) :
    Bully * list (string * CoordinatorRequest) :=
  let isLeader := String.eqb (leaderID b) (b_nodeID b) in
  let leaderKnown := negb (String.eqb (leaderID b) "") in
  let leaderStale := leaderKnown && (b_timeout b <? time_Sub now (lastLeaderSeen b)) in
  if isLeader then (b, announceLeader b m)
  else if negb leaderKnown || leaderStale then StartElection b m rpc during now polls
  else (b, []).

(** ** A cluster of electing nodes

    Announcements stay in the network, may be lost, duplicated, reordered and
    delivered to any node; the membership tables and the answers to the probes
    are arbitrary.  An election is not one step: it begins, announcements are
    handled while it probes and waits, and it ends with the node as leader or
    with nothing. *)

Record cluster_state := mkClusterState {
  cb : gmap string Bully;
  cnet : list CoordinatorRequest;
}.

Definition genuine_polls (net : list CoordinatorRequest) (polls : list poll) : Prop :=
  Forall (fun p => Forall (fun rq => rq.1 ∈ net) (p_messages p)) polls.

(** The condition under which the ticker loop starts an election. *)
Definition election_due (b : Bully) (now : Z) : bool :=
  negb (IsLeader b) &&
  (String.eqb (leaderID b) "" || (b_timeout b <? time_Sub now (lastLeaderSeen b))).

Inductive label :=
| LDeliver (id : string)
| LTick (id : string)
| LElect (id : string)
| LLead (id : string)
| LQuit (id : string).

(** [c_elect] is an election begun for another reason than a tick: the first one
    of [Run], or that of [HandleElection]. *)
Inductive cstep (now : Z) (c : cluster_state) : label -> cluster_state -> Prop :=
| c_deliver id b req :
    cb c !! id = Some b -> req ∈ cnet c ->
    cstep now c (LDeliver id) (mkClusterState (<[id := (HandleCoordinator b req now).1]> (cb c)) (cnet c))
| c_tick id b m :
    cb c !! id = Some b ->
    cstep now c (LTick id)
      (mkClusterState (<[id := if election_due b now then with_running b true else b]> (cb c))
         (cnet c ++ (if IsLeader b then announceLeader b m else []).*2))
| c_elect id b :
    cb c !! id = Some b ->
    cstep now c (LElect id) (mkClusterState (<[id := with_running b true]> (cb c)) (cnet c))
| c_lead id b m :
    cb c !! id = Some b -> electionRunning b = true ->
    cstep now c (LLead id)
      (mkClusterState (<[id := with_running (BecomeLeader b m now).1 false]> (cb c))
         (cnet c ++ (BecomeLeader b m now).2.*2))
| c_quit id b :
    cb c !! id = Some b -> electionRunning b = true ->
    cstep now c (LQuit id) (mkClusterState (<[id := with_running b false]> (cb c)) (cnet c)).

(** The nodes at start-up: each with its configuration, none knowing a leader. *)
Definition boot (cfgs : gmap string BullyConfig) : cluster_state :=
  {| cb := New <$> cfgs; cnet := [] |}.

Inductive reachable (cfgs : gmap string BullyConfig) : cluster_state -> Prop :=
| r_boot : reachable cfgs (boot cfgs)
| r_step now l c c' : reachable cfgs c -> cstep now c l c' -> reachable cfgs c'.

(** Every configuration is filed under its node id, which is not empty. *)
Definition configured (cfgs : gmap string BullyConfig) : Prop :=
  forall id cfg, cfgs !! id = Some cfg -> cfg_NodeID cfg = id /\ id <> "".

(** An announcement names a node of the cluster and its configured priority. *)
Definition genuine (cfgs : gmap string BullyConfig) (req : CoordinatorRequest) : Prop :=
  exists cfg, cfgs !! crq_NodeId req = Some cfg /\ cfg_Priority cfg = crq_Priority req.

(** What a node knows of its leader. *)
Definition leader_known (cfgs : gmap string BullyConfig) (b : Bully) : Prop :=
  (leaderID b = "" /\ leaderPriority b = 0) \/
  exists cfg, cfgs !! leaderID b = Some cfg /\ cfg_Priority cfg = leaderPriority b.

Definition bully_ok (cfgs : gmap string BullyConfig) (b : Bully) : Prop :=
  (exists cfg, cfgs !! b_nodeID b = Some cfg /\ cfg_Priority cfg = b_priority b) /\
  leader_known cfgs b.

Lemma broadcast_messages (b : Bully) (m : Membership) (term : Z) :
  Forall (fun om => om.2 = coordinator_message b term) (broadcast b m term).
Proof.
  apply Forall_forall. intros om Hom. apply list_elem_of_omap in Hom as (p & _ & Hp).
  destruct (String.eqb _ _); [done|]. by injection Hp as <-.
Qed.

(** What no operation of the instance changes. *)
Definition identity (b : Bully) : string * Z * Z := (b_nodeID b, b_priority b, b_interval b).

Lemma HandleCoordinator_identity (b : Bully) (req : CoordinatorRequest) (now : Z) :
  identity (HandleCoordinator b req now).1 = identity b.
Proof. unfold HandleCoordinator. simpl. by destruct (accept b req now). Qed.

(** Handling announcements changes neither the node nor its running flag. *)
Lemma handle_all_frame (b : Bully) (msgs : list (CoordinatorRequest * Z)) :
  identity (handle_all b msgs) = identity b /\
  electionRunning (handle_all b msgs) = electionRunning b /\ b_timeout (handle_all b msgs) = b_timeout b.
Proof.
  unfold handle_all. revert b. induction msgs as [|rq msgs IH]; intros b; [done|]. cbn [foldl].
  destruct (IH (HandleCoordinator b rq.1 rq.2).1) as (-> & -> & ->).
  unfold HandleCoordinator. simpl. by destruct (accept b rq.1 rq.2).
Qed.

Lemma handle_all_running (b : Bully) (x : bool) (msgs : list (CoordinatorRequest * Z)) :
  handle_all (with_running b x) msgs = with_running (handle_all b msgs) x.
Proof.
  unfold handle_all. revert b. induction msgs as [|rq msgs IH]; intros b; [done|]. cbn [foldl].
  rewrite <- IH. f_equal. unfold HandleCoordinator. simpl. change (accept (with_running b x)) with (accept b).
  by destruct (accept b rq.1 rq.2).
Qed.

Lemma await_identity (polls : list poll) :
  forall b deadline, identity (await b deadline polls) = identity b.
Proof.
  induction polls as [|p ps IH]; intros b dl; [done|]. simpl.
  destruct (handle_all_frame b (p_messages p)) as (Hh & _). repeat case_match; try done. by rewrite IH.
Qed.

Lemma tick_identity (b : Bully) (m : Membership) (rpc : Member -> nat -> probe)
    (during : list (CoordinatorRequest * Z)) (now : Z) (polls : list poll) :
  identity (tick b m rpc during now polls).1 = identity b /\
  identity (StartElection b m rpc during now polls).1 = identity b.
Proof.
  assert (identity (StartElection b m rpc during now polls).1 = identity b) as Hse.
  { unfold StartElection. destruct (electionRunning b); [done|].
    destruct (handle_all_frame (with_running b true) during) as (Hh & _).
    set (b1 := handle_all _ _) in *. transitivity (identity b1); [|exact Hh].
    destruct (negb _); [done|]. exact (await_identity polls b1 _). }
  split; [|done]. unfold tick. repeat case_match; done.
Qed.

Section cluster.
Variable cfgs : gmap string BullyConfig.

Lemma HandleCoordinator_ok (b : Bully) (req : CoordinatorRequest) (now : Z) :
  bully_ok cfgs b -> genuine cfgs req -> bully_ok cfgs (HandleCoordinator b req now).1.
Proof.
  intros [Hb Hl] Hg. unfold HandleCoordinator. simpl.
  destruct (accept b req now); [|done]. split; [done|]. by right.
Qed.

Lemma BecomeLeader_ok (b : Bully) (m : Membership) (now : Z) (b' : Bully)
    (out : list (string * CoordinatorRequest)) :
  bully_ok cfgs b -> BecomeLeader b m now = (b', out) ->
  bully_ok cfgs b' /\ Forall (fun om => genuine cfgs om.2) out.
Proof.
  intros [Hb _] [= <- <-]. split.
  - split; [done|]. by right.
  - eapply Forall_impl; [apply broadcast_messages|]. by intros om ->.
Qed.

(** The invariant of the cluster. *)
Definition cluster_ok (c : cluster_state) : Prop :=
  (forall id b, cb c !! id = Some b -> bully_ok cfgs b /\ b_nodeID b = id) /\
  Forall (genuine cfgs) (cnet c).

Lemma cluster_ok_update (c : cluster_state) (id : string) (b b' : Bully)
    (out : list (string * CoordinatorRequest)) :
  cluster_ok c -> cb c !! id = Some b -> bully_ok cfgs b' -> b_nodeID b' = b_nodeID b ->
  Forall (fun om => genuine cfgs om.2) out ->
  cluster_ok (mkClusterState (<[id := b']> (cb c)) (cnet c ++ out.*2)).
Proof.
  intros [H1 H2] Hb Hb' Hid Hout. split; simpl.
  - intros j bj Hj. destruct (decide (id = j)) as [<-|].
    + rewrite lookup_insert_eq in Hj. injection Hj as <-. split; [done|].
      rewrite Hid. by apply H1.
    + rewrite lookup_insert_ne in Hj by done. by apply H1.
  - apply Forall_app. split; [done|]. by apply Forall_fmap.
Qed.

Lemma reachable_ok (c : cluster_state) :
  configured cfgs -> reachable cfgs c -> cluster_ok c.
Proof.
  intros Hcfgs. induction 1 as [|now l c c' _ IH Hstep].
  - split; [|constructor]. intros id b Hb. unfold boot in Hb. simpl in Hb.
    rewrite lookup_fmap in Hb. destruct (cfgs !! id) as [cfg|] eqn:Hcfg; [|done].
    injection Hb as <-. destruct (Hcfgs id cfg Hcfg) as [Hid _]. split; [|done].
    split; [|by left]. exists cfg. split; [simpl; congruence|done].
  - pose proof IH as [H1 H2].
    destruct Hstep as [id b req Hb Hreq|id b m Hb|id b Hb|id b m Hb _|id b Hb _].
    + rewrite <- (app_nil_r (cnet c)). apply (cluster_ok_update c id b _ []); [done..| | |done].
      * apply HandleCoordinator_ok; [by eapply H1|]. rewrite Forall_forall in H2. by apply H2.
      * by injection (HandleCoordinator_identity b req now).
    + apply (cluster_ok_update c id b); try done.
      * destruct (H1 id b Hb) as [Hok _]. by destruct (election_due b now).
      * by destruct (election_due b now).
      * destruct (IsLeader b) eqn:Hl; [|done]. unfold announceLeader.
        eapply Forall_impl; [apply broadcast_messages|]. intros om ->. apply (H1 id b Hb).
    + rewrite <- (app_nil_r (cnet c)). apply (cluster_ok_update c id b _ []); try done.
      exact (proj1 (H1 id b Hb)).
    + destruct (BecomeLeader_ok b m now _ _ (proj1 (H1 id b Hb)) (surjective_pairing _)) as [Hok Hout].
      by apply (cluster_ok_update c id b).
    + rewrite <- (app_nil_r (cnet c)). apply (cluster_ok_update c id b _ []); try done.
      exact (proj1 (H1 id b Hb)).
Qed.

End cluster.

(** [top] has a positive priority, strictly above that of every other node. *)
Definition highest (cfgs : gmap string BullyConfig) (top : string) (P : Z) : Prop :=
  (exists cfg, cfgs !! top = Some cfg /\ cfg_Priority cfg = P) /\ 0 < P /\
  forall id cfg, cfgs !! id = Some cfg -> id <> top -> cfg_Priority cfg < P.

Lemma leader_known_highest (cfgs : gmap string BullyConfig) (top : string) (P : Z) (b : Bully) :
  highest cfgs top P -> leader_known cfgs b ->
  leaderPriority b <= P /\ (leaderPriority b = P <-> leaderID b = top) \/ top = "".
Proof.
  intros ((cfg & Ht & HP) & Hpos & Hmax) [[Hl Hp]|(cfg' & Hl & Hp)].
  - destruct (decide (top = "")); [by right|]. left. split; [lia|]. split; [lia|congruence].
  - left. destruct (decide (leaderID b = top)) as [Heq|Hne].
    + assert (cfg' = cfg) as -> by congruence. split; [lia|]. split; [done|congruence].
    + specialize (Hmax _ _ Hl Hne). split; [lia|]. split; [lia|done].
Qed.

Lemma accept_fresh_lower (b : Bully) (req : CoordinatorRequest) (now : Z) :
  fresh b now = true -> crq_Priority req < leaderPriority b -> accept b req now = false.
Proof.
  intros Hf Hlt. unfold accept. rewrite Hf. simpl.
  destruct (Z.ltb_spec (leaderPriority b) (crq_Priority req)); [lia|].
  destruct (Z.eqb_spec (crq_Priority req) (leaderPriority b)); [lia|done].
Qed.

Lemma due_fresh (b : Bully) (now : Z) : fresh b now = true -> election_due b now = false.
Proof.
  unfold fresh, election_due. intros [Hk%negb_true_iff Ht%Z.leb_le]%andb_true_iff. rewrite Hk. simpl.
  destruct (Z.ltb_spec (b_timeout b) (time_Sub now (lastLeaderSeen b))); [lia|]. by rewrite andb_false_r.
Qed.

(** Steps between two instants in which [n] is not asked to start an election. *)
Inductive crun (lo hi : Z) (n : string) : cluster_state -> cluster_state -> Prop :=
| crun_nil c : crun lo hi n c c
| crun_step now l c c' c'' :
    lo <= now <= hi -> l <> LElect n -> cstep now c l c' -> crun lo hi n c' c'' ->
    crun lo hi n c c''.

(** [b] follows [top], which it heard of between [lo] and [hi], and runs no
    election. *)
Definition follows (top : string) (P lo hi : Z) (b : Bully) : Prop :=
  leaderID b = top /\ leaderPriority b = P /\ lo <= lastLeaderSeen b /\ hi - lo <= b_timeout b /\
  electionRunning b = false.

Lemma follows_fresh (top : string) (P lo hi now : Z) (b : Bully) :
  top <> "" -> 0 <= hi - lo < 2 ^ 63 -> follows top P lo hi b -> lo <= now <= hi ->
  fresh b now = true.
Proof.
  intros Hne Hd (Hl & _ & Hlo & Ht & _) Hnow. unfold fresh, time_Sub, minDuration, maxDuration.
  rewrite Hl. apply andb_true_iff. split; [by apply negb_true_iff, String.eqb_neq|].
  apply Z.leb_le. lia.
Qed.

Lemma follows_step (cfgs : gmap string BullyConfig) (top : string) (P lo hi now : Z)
    (n : string) (l : label) (c c' : cluster_state) (b : Bully) :
  cluster_ok cfgs c -> highest cfgs top P -> top <> "" -> 0 <= hi - lo < 2 ^ 63 ->
  cb c !! n = Some b -> follows top P lo hi b -> lo <= now <= hi -> l <> LElect n ->
  cstep now c l c' -> exists b', cb c' !! n = Some b' /\ follows top P lo hi b'.
Proof.
  intros [Hok Hnet] Htop Hne Hd Hb Hfo Hnow Hlab Hstep.
  pose proof (follows_fresh top P lo hi now b Hne Hd Hfo Hnow) as Hf.
  destruct Hstep as [id b1 req Hb1 Hreq|id b1 m Hb1|id b1 Hb1|id b1 m Hb1 Hr|id b1 Hb1 Hr]; simpl;
    (destruct (decide (id = n)) as [->|Hid];
     [rewrite lookup_insert_eq|rewrite lookup_insert_ne by done; by exists b]);
    assert (b1 = b) as -> by congruence; [| |done|destruct Hfo as (_ & _ & _ & _ & ?); congruence..].
  - eexists. split; [done|]. unfold HandleCoordinator. simpl.
    destruct (accept b req now) eqn:Ha; [|done].
    rewrite Forall_forall in Hnet. destruct (Hnet req Hreq) as (cfg & Hcfg & Hpr).
    destruct Hfo as (Hl & HP & Hlo & Ht & Hru).
    destruct (decide (crq_NodeId req = top)) as [Heq|Hnt].
    + destruct Htop as ((cfg' & Ht' & HP') & _). unfold follows. simpl.
      split_and!; [done|congruence|lia|done..].
    + destruct Htop as (_ & _ & Hmax). specialize (Hmax _ _ Hcfg Hnt).
      by rewrite accept_fresh_lower in Ha by (done || lia).
  - rewrite (due_fresh b now Hf). by exists b.
Qed.

(** The election asks each higher peer and takes any answer. *)
Lemma foldl_ack (A : Type) (f : A -> bool) (l : list A) (a : bool) :
  foldl (fun ack x => if f x then true else ack) a l = a || existsb f l.
Proof.
  revert a. induction l as [|x l IH]; intros a; simpl; [by rewrite orb_false_r|].
  rewrite IH. destruct (f x), a; done.
Qed.

(** *** The functions are runs of these steps *)

Definition csteps : relation cluster_state := rtc (fun c c' => exists now l, cstep now c l c').

(** Node [id] moves to [b] and [out] is sent. *)
Definition moved (c : cluster_state) (id : string) (b : Bully)
    (out : list (string * CoordinatorRequest)) : cluster_state :=
  mkClusterState (<[id := b]> (cb c)) (cnet c ++ out.*2).

Lemma moved_same (c : cluster_state) (id : string) (b : Bully) :
  cb c !! id = Some b -> moved c id b [] = c.
Proof. intros Hb. unfold moved. destruct c. simpl in *. by rewrite insert_id, app_nil_r. Qed.

Lemma moved_moved (c : cluster_state) (id : string) (b b' : Bully)
    (out : list (string * CoordinatorRequest)) : moved (moved c id b []) id b' out = moved c id b' out.
Proof. unfold moved. simpl. by rewrite insert_insert_eq, app_nil_r. Qed.

Lemma moved_lookup (c : cluster_state) (id : string) (b : Bully)
    (out : list (string * CoordinatorRequest)) : cb (moved c id b out) !! id = Some b.
Proof. apply lookup_insert_eq. Qed.

Lemma handle_all_run (c : cluster_state) (id : string) (msgs : list (CoordinatorRequest * Z)) :
  forall b, Forall (fun rq => rq.1 ∈ cnet c) msgs ->
  csteps (moved c id b []) (moved c id (handle_all b msgs) []).
Proof.
  induction msgs as [|rq msgs IH]; intros b Hm; [done|]. apply Forall_cons in Hm as [H1 H2].
  apply rtc_l with (moved c id (HandleCoordinator b rq.1 rq.2).1 []); [|by apply IH].
  exists rq.2, (LDeliver id).
  pose proof (c_deliver rq.2 (moved c id b []) id b rq.1 (moved_lookup c id b [])) as Hd.
  unfold moved in *. simpl in *. rewrite insert_insert_eq in Hd. apply Hd. by rewrite app_nil_r.
Qed.

Lemma quit_run (c : cluster_state) (id : string) (b : Bully) :
  electionRunning b = true -> csteps (moved c id b []) (moved c id (with_running b false) []).
Proof.
  intros Hr. apply rtc_once. exists 0, (LQuit id).
  pose proof (c_quit 0 (moved c id b []) id b (moved_lookup c id b []) Hr) as Hq.
  unfold moved in *. simpl in *. by rewrite insert_insert_eq in Hq.
Qed.

Lemma await_run (c : cluster_state) (id : string) (deadline : Z) (polls : list poll) :
  forall b, electionRunning b = true -> genuine_polls (cnet c) polls ->
  csteps (moved c id b []) (moved c id (with_running (await b deadline polls) false) []).
Proof.
  induction polls as [|p polls IH]; intros b Hr Hg; [by apply quit_run|].
  apply Forall_cons in Hg as [H1 H2]. cbn [await].
  destruct (handle_all_frame b (p_messages p)) as (_ & Hrun & _). rewrite Hr in Hrun.
  etransitivity; [by apply handle_all_run|]. repeat case_match; by apply quit_run || by apply IH.
Qed.

(** An election in progress, from its probes to its end. *)
Lemma running_run (c : cluster_state) (id : string) (b : Bully) (m : Membership)
    (during : list (CoordinatorRequest * Z)) (now : Z) (polls : list poll) (ack : bool) :
  electionRunning b = true -> Forall (fun rq => rq.1 ∈ cnet c) during -> genuine_polls (cnet c) polls ->
  let b1 := handle_all b during in
  let '(b', out) := if negb ack then BecomeLeader b1 m now
                    else (await b1 (time_Add now (b_timeout b1)) polls, []) in
  csteps (moved c id b []) (moved c id (with_running b' false) out).
Proof.
  intros Hr Hd Hg b1. destruct (handle_all_frame b during) as (_ & Hrun & _). rewrite Hr in Hrun. fold b1 in Hrun.
  destruct ack; simpl.
  - etransitivity; [by apply handle_all_run|]. by apply await_run.
  - etransitivity; [by apply (handle_all_run c id during)|]. apply rtc_once. exists now, (LLead id).
    rewrite <- (moved_moved c id b1 (with_running (BecomeLeader b1 m now).1 false)).
    exact (c_lead now (moved c id b1 []) id b1 m (moved_lookup c id b1 []) Hrun).
Qed.

Lemma StartElection_run (c : cluster_state) (id : string) (b : Bully) (m : Membership)
    (rpc : Member -> nat -> probe) (during : list (CoordinatorRequest * Z)) (now : Z) (polls : list poll) :
  cb c !! id = Some b -> Forall (fun rq => rq.1 ∈ cnet c) during -> genuine_polls (cnet c) polls ->
  let '(b', out) := StartElection b m rpc during now polls in csteps c (moved c id b' out).
Proof.
  intros Hb Hd Hg. unfold StartElection. destruct (electionRunning b); [by rewrite moved_same|].
  set (ack := foldl _ _ _). clearbody ack.
  pose proof (running_run c id (with_running b true) m during now polls ack eq_refl Hd Hg) as H.
  cbv zeta in H. destruct (if negb ack then _ else _) as [b' out].
  apply rtc_l with (moved c id (with_running b true) []); [|exact H]. exists now, (LElect id).
  unfold moved. simpl. rewrite app_nil_r. by apply c_elect.
Qed.

(** The ticker loop too: what [tick] does, the steps can do. *)
Lemma tick_run (c : cluster_state) (id : string) (b : Bully) (m : Membership)
    (rpc : Member -> nat -> probe) (during : list (CoordinatorRequest * Z)) (now : Z) (polls : list poll) :
  cb c !! id = Some b -> Forall (fun rq => rq.1 ∈ cnet c) during -> genuine_polls (cnet c) polls ->
  let '(b', out) := tick b m rpc during now polls in csteps c (moved c id b' out).
Proof.
  intros Hb Hd Hg. unfold tick. destruct (String.eqb (leaderID b) (b_nodeID b)) eqn:Hl.
  - apply rtc_once. exists now, (LTick id). pose proof (c_tick now c id b m Hb) as Ht.
    unfold election_due, IsLeader in Ht. by rewrite Hl in Ht.
  - destruct (_ || _); [by apply StartElection_run|by rewrite moved_same].
Qed.

(** ** One round comes to an end *)

(** The pause of the waiting loop. *)
Definition pollInterval : Z := 50 * Millisecond.

(** The iterations of the loop, each a pause after the one before. *)
Fixpoint paced (t : Z) (polls : list poll) : Prop :=
  match polls with
  | [] => True
  | p :: polls => t <= p_now p /\ paced (p_now p + pollInterval) polls
  end.

Lemma await_ends (deadline : Z) (rest : list poll) (polls : list poll) :
  forall (b : Bully) (t : Z), paced t polls -> (1 <= length polls)%nat ->
  deadline <= t + (Z.of_nat (length polls) - 1) * pollInterval ->
  await b deadline (polls ++ rest) = await b deadline polls.
Proof.
  induction polls as [|p polls IH]; intros b t Hp Hl Hd; [simpl in Hl; lia|].
  destruct Hp as [Ht Hp]. simpl. destruct (negb (time_Before (p_now p) deadline)) eqn:Hb; [done|].
  destruct (p_cancelled p), (negb (String.eqb (leaderID (handle_all b (p_messages p))) "")); try done.
  unfold time_Before in Hb. apply negb_false_iff, Z.ltb_lt in Hb.
  destruct polls as [|q polls]; [simpl in Hd; lia|].
  apply (IH _ (p_now p + pollInterval)); [done|simpl; lia|]. cbn [length] in Hd |- *. lia.
Qed.

Lemma probe_loop_ext (rpc rpc' : nat -> probe) (fuel : nat) :
  forall attempt, (forall n, (attempt <= n < attempt + fuel)%nat -> rpc n = rpc' n) ->
  probe_loop rpc attempt fuel = probe_loop rpc' attempt fuel.
Proof.
  induction fuel as [|fuel IH]; intros attempt H; [done|]. simpl. rewrite <- H by lia.
  rewrite IH; [done|]. intros n Hn. apply H. lia.
Qed.

(** ** Properties *)

(** However announcements are lost, duplicated, reordered and misdelivered,
    and however probes fail, a node of the cluster only ever records as leader a
    configured node together with that node's own priority, so that no recorded
    priority exceeds the highest one and the highest one means the top node. *)
Theorem leader_is_genuine (cfgs : gmap string BullyConfig) (c : cluster_state) (top : string)
    (P : Z) (n : string) (b : Bully) :
  configured cfgs -> highest cfgs top P -> reachable cfgs c -> cb c !! n = Some b ->
  (leaderID b = "" \/ leaderID b ∈ dom cfgs) /\ leaderPriority b <= P /\
  (leaderPriority b = P <-> leaderID b = top).
Proof.
  intros Hc Htop Hr Hb. destruct (reachable_ok cfgs c Hc Hr) as [Hok _].
  destruct (Hok n b Hb) as [[_ Hl] _]. split.
  - destruct Hl as [[? _]|(cfg & Hl & _)]; [by left|right]. by apply elem_of_dom_2 in Hl.
  - destruct (leader_known_highest cfgs top P b Htop Hl) as [H| ->]; [done|].
    destruct Htop as ((cfg & Ht & _) & _). by destruct (Hc _ _ Ht).
Qed.

(** C29: A healthy leader is stable, up to elections its followers run.  Let a node
    follow the highest-priority node, let it not be running an election, and let
    nobody ask it to start one.  Then it keeps following that node through any
    steps of the cluster within the leader timeout, elections of other nodes and
    announcements in any order included.  The two conditions are needed: a node
    that has an election in progress when it accepts the leader, and a node that
    answers the probe of a lower-priority one, may call itself leader next.  The
    latter does so, and announces nothing, whenever the call it has answered ends
    before a peer reacts, because the election it starts runs under the context of
    that call. *)
Theorem healthy_leader_stable (cfgs : gmap string BullyConfig) (c c' : cluster_state)
    (hi : Z) (top : string) (P : Z) (n : string) (b : Bully) :
  configured cfgs -> highest cfgs top P -> reachable cfgs c -> cb c !! n = Some b ->
  leaderID b = top -> 0 <= hi - lastLeaderSeen b < 2 ^ 63 ->
  hi - lastLeaderSeen b <= b_timeout b ->
  (electionRunning b = false -> crun (lastLeaderSeen b) hi n c c' ->
   exists b', cb c' !! n = Some b' /\ leaderID b' = top /\ leaderPriority b' = P) /\
  (electionRunning b = true -> forall now, exists c1 b1,
     cstep now c (LLead n) c1 /\ cb c1 !! n = Some b1 /\ leaderID b1 = n) /\
  (electionRunning b = false -> forall req m during now, erq_Priority req < b_priority b ->
   let '(b1, out) := background_election b m during now in
   (HandleElection b req).2 = true /\ leaderID b1 = n /\ out = []).
Proof.
  intros Hc Htop Hr Hb Hl Hd Ht. destruct (reachable_ok cfgs c Hc Hr) as [Hok _].
  destruct (Hok n b Hb) as [[_ Hlk] Hid]. split_and!.
  - intros Hrun0 Hrun. assert (top <> "") as Hne.
    { destruct Htop as ((cfg & Hcfg & _) & _). by apply (Hc _ _ Hcfg). }
    assert (follows top P (lastLeaderSeen b) hi b) as Hfo.
    { destruct (leader_known_highest cfgs top P b Htop Hlk) as [[_ Hp]|]; [|done].
      unfold follows. split_and!; [done|by apply Hp|lia|done..]. }
    clear Hok Hlk Hid Hrun0. revert Hb Hfo. generalize b at 1 3. revert Hr.
    induction Hrun as [c|now l c c' c'' Hnow Hlab Hstep Hrun IH]; intros Hr b1 Hb1 Hfo.
    + exists b1. split; [done|]. by destruct Hfo as (? & ? & _).
    + destruct (follows_step cfgs top P (lastLeaderSeen b) hi now n l c c' b1) as (b' & Hb' & Hfo');
        try done; [by apply reachable_ok|].
      apply (IH (r_step cfgs now l c c' Hr Hstep) b'); done.
  - intros Hrun now. eexists _, _. split; [by apply (c_lead now c n b (NewMembership n))|].
    split; [apply lookup_insert_eq|]. done.
  - intros Hrun req m during now Hlow. unfold background_election. split; [by apply Z.ltb_lt|].
    split; [|done]. unfold StartElection. rewrite Hrun, foldl_ack.
    assert (forall peers, existsb (sendElection (with_running b true) (fun _ _ => Cancelled)) peers = false)
      as ->.
    { intros peers. induction peers as [|x peers IH]; [done|]. cbn [existsb]. rewrite IH.
      unfold sendElection. by destruct (Z.to_nat _). }
    destruct (handle_all_frame (with_running b true) during) as (Hi & _). unfold identity in Hi.
    simplify_eq Hi. intros. simpl. congruence.
Qed.

(** C30: An election round terminates: it looks at the first [maxProbes] answers of
    each higher peer only, and once the pauses of its waiting loop add up to the
    leader timeout it is over, so that nothing that happens later, answers or
    announcements, changes its outcome. *)
Theorem election_terminates (b : Bully) (m : Membership) (rpc rpc' : Member -> nat -> probe)
    (during : list (CoordinatorRequest * Z)) (now : Z) (polls rest : list poll) :
  (forall peer n, Z.of_nat n < maxProbes b -> rpc peer n = rpc' peer n) ->
  paced now polls -> (1 <= length polls)%nat ->
  b_timeout b <= (Z.of_nat (length polls) - 1) * pollInterval ->
  StartElection b m rpc during now (polls ++ rest) = StartElection b m rpc' during now polls.
Proof.
  intros Hrpc Hp Hl Ht. unfold StartElection. destruct (electionRunning b); [done|].
  assert (forall peer, sendElection (with_running b true) rpc peer =
    sendElection (with_running b true) rpc' peer) as Hsend.
  { intros peer. unfold sendElection. apply probe_loop_ext. intros n Hn. apply Hrpc. simpl in Hn. lia. }
  assert (forall peers ack, foldl (fun ack peer => if sendElection (with_running b true) rpc peer
      then true else ack) ack peers =
    foldl (fun ack peer => if sendElection (with_running b true) rpc' peer then true else ack) ack peers)
    as Hfold.
  { intros peers. induction peers as [|x peers IH]; intros ack; [done|]. simpl. by rewrite Hsend, IH. }
  rewrite Hfold. destruct (negb _); [done|].
  destruct (handle_all_frame (with_running b true) during) as (_ & _ & Hto). set (b1 := handle_all _ _) in *.
  rewrite (await_ends _ rest polls b1 now Hp Hl); [done|]. unfold time_Add. rewrite Hto. simpl. lia.
Qed.

(** One election round: it never leaves the running flag set, a node whose
    higher-priority live peers all fail to answer becomes leader, whatever it was
    told meanwhile, with the next term and announces itself to every other live
    member, and a node that got an answer announces nothing. *)
Theorem StartElection_outcome (b : Bully) (m : Membership) (rpc : Member -> nat -> probe)
    (during : list (CoordinatorRequest * Z)) (now : Z) (polls : list poll) :
  electionRunning b = false ->
  let '(b', out) := StartElection b m rpc during now polls in
  electionRunning b' = false /\
  if existsb (sendElection b rpc) (higherPriorityLivePeers b m) then out = []
  else IsLeader b' = true /\ leaderPriority b' = b_priority b /\
       leaderTerm b' = wrap64 (leaderTerm (handle_all b during) + 1) /\
       forall p, members m !! ID p = Some p -> ID p <> b_nodeID b -> ID p <> m_nodeID m ->
         mStatus p = StatusAlive ->
         (Address p, mkCoordinatorRequest (b_nodeID b) (b_priority b) (leaderTerm b')) ∈ out.
Proof.
  intros Hrun. unfold StartElection. rewrite Hrun, foldl_ack. simpl.
  change (higherPriorityLivePeers (with_running b true) m) with (higherPriorityLivePeers b m).
  change (sendElection (with_running b true) rpc) with (sendElection b rpc).
  destruct (existsb _ _); simpl; [done|]. split; [done|]. rewrite (handle_all_running b true during).
  destruct (handle_all_frame b during) as (Hi & _). unfold identity in Hi. simplify_eq Hi. intros Hn0 Hpr _.
  split_and!; [|simpl; congruence|done|].
  - unfold IsLeader. simpl. apply String.eqb_refl.
  - intros p Hp Hid Hn Hs. rewrite <- Hn0, <- Hpr. rewrite <- Hn0 in Hid.
    unfold broadcast. apply list_elem_of_omap. exists p. split.
    + unfold GetAlivePeers. apply append_range_elem. split; [|by exists (ID p)].
      unfold alive_peer. apply andb_true_iff. split; [by apply negb_true_iff, String.eqb_neq|].
      by apply bool_decide_eq_true_2.
    + simpl. by apply String.eqb_neq in Hid as ->.
Qed.

(** C34: A leader that only announces itself is not a fresh leader to itself:
    its own ticks never refresh the time it was last seen, so after the timeout
    it accepts the announcement of any node, of whatever priority, whose term is
    newer, although announcements to the followers kept arriving. *)
Theorem leader_displaced_after_timeout (b : Bully) (m : Membership) (now now' : Z)
    (ticks : list Z) (rpc : Member -> nat -> probe) (req : CoordinatorRequest) :
  let b1 := (BecomeLeader b m now).1 in
  let b2 := foldl (fun b t => (tick b m rpc [] t []).1) b1 ticks in
  b_timeout b < time_Sub now' now -> leaderTerm b1 < crq_Term req ->
  leaderID (HandleCoordinator b2 req now').1 = crq_NodeId req.
Proof.
  intros b1 b2 Ht Hterm. assert (b2 = b1) as ->.
  { unfold b2. induction ticks as [|t ts IH]; [done|]. simpl in *.
    assert ((tick b1 m rpc [] t []).1 = b1) as ->; [|done].
    unfold tick. simpl. by rewrite String.eqb_refl. }
  unfold HandleCoordinator, accept. simpl. unfold fresh. simpl.
  destruct (Z.leb_spec (time_Sub now' now) (b_timeout b)); [lia|].
  change (leaderTerm b1) with (wrap64 (leaderTerm b + 1)) in Hterm.
  apply Z.ltb_lt in Hterm. by rewrite Hterm, andb_false_r, !orb_true_r.
Qed.

(** ** Witnesses *)

Definition ex_cfgs : gmap string BullyConfig :=
  {["a" := mkBullyConfig "a" 1 0 0; "b" := mkBullyConfig "b" 7 0 0]}.

(** Node b elects itself and its announcement reaches node a. *)
Definition ex_leader : Bully := (StartElection (New (mkBullyConfig "b" 7 0 0)) (NewMembership "b")
  (fun _ _ => Unreachable) [] 100 []).1.

Definition ex_net : list CoordinatorRequest := [mkCoordinatorRequest "b" 7 1].

Definition ex_peers : Membership := AddMember (NewMembership "b") "a" "host-a:50051" 0.

Definition ex_follower : Bully :=
  (HandleCoordinator (New (mkBullyConfig "a" 1 0 0)) (mkCoordinatorRequest "b" 7 1) 100).1.

Lemma ex_configured : configured ex_cfgs.
Proof.
  intros id cfg. unfold ex_cfgs. rewrite lookup_insert. case_decide; [subst; by intros [= <-]|].
  rewrite lookup_singleton. case_decide; [subst; by intros [= <-]|done].
Qed.

Lemma ex_highest : highest ex_cfgs "b" 7.
Proof.
  split; [by exists (mkBullyConfig "b" 7 0 0)|]. split; [lia|].
  intros id cfg. unfold ex_cfgs. rewrite lookup_insert. case_decide; [subst; by intros [= <-]|].
  rewrite lookup_singleton. case_decide; [by subst|done].
Qed.

Lemma ex_reachable :
  reachable ex_cfgs (mkClusterState {["a" := ex_follower; "b" := ex_leader]} ex_net).
Proof.
  pose proof (r_step ex_cfgs 100 _ _ _ (r_boot ex_cfgs)
    (c_elect 100 (boot ex_cfgs) "b" (New (mkBullyConfig "b" 7 0 0)) eq_refl)) as H1.
  match type of H1 with reachable _ ?c =>
    pose proof (r_step ex_cfgs 100 _ _ _ H1
      (c_lead 100 c "b" (with_running (New (mkBullyConfig "b" 7 0 0)) true) ex_peers eq_refl eq_refl)) as H2
  end.
  match type of H2 with reachable _ ?c =>
    exact (r_step ex_cfgs 100 _ _ _ H2
      (c_deliver 100 c "a" (New (mkBullyConfig "a" 1 0 0)) (mkCoordinatorRequest "b" 7 1)
        eq_refl ltac:(by left))) end.
Qed.

Definition ex_cluster : cluster_state :=
  mkClusterState {["a" := ex_follower; "b" := ex_leader]} ex_net.

Lemma leader_is_genuine_witness :
  leaderPriority ex_follower <= 7 /\ leaderID ex_follower = "b".
Proof.
  destruct (leader_is_genuine ex_cfgs ex_cluster "b" 7 "a" ex_follower ex_configured ex_highest
    ex_reachable eq_refl) as (_ & H & H').
  split; [exact H|]. apply H'. reflexivity.
Defined.

(** A tick of the follower changes nothing; asked by a node of priority 0 it calls
    itself leader, at a time when the leader is fresh. *)
Lemma healthy_leader_stable_witness :
  let c' := mkClusterState (<["a" := ex_follower]> (cb ex_cluster)) (cnet ex_cluster ++ []) in
  (exists b', cb c' !! "a" = Some b' /\ leaderID b' = "b" /\ leaderPriority b' = 7) /\
  leaderID (background_election ex_follower ex_peers [] 150).1 = "a".
Proof.
  intros c'.
  destruct (healthy_leader_stable ex_cfgs ex_cluster c' 200 "b" 7 "a" ex_follower
    ex_configured ex_highest ex_reachable eq_refl eq_refl) as (H1 & _ & H3).
  - split; vm_compute; congruence.
  - vm_compute. congruence.
  - split.
    + apply H1; [reflexivity|].
      eapply (crun_step _ _ _ 150 (LTick "a")); [split; vm_compute; congruence|done| |constructor].
      exact (c_tick 150 ex_cluster "a" ex_follower (NewMembership "a") eq_refl).
    + apply (H3 eq_refl (mkElectionRequest "z" 0) ex_peers [] 150). reflexivity.
Defined.

Lemma StartElection_outcome_witness :
  ("host-a:50051", mkCoordinatorRequest "b" 7 1)
  ∈ (StartElection (New (mkBullyConfig "b" 7 0 0)) ex_peers (fun _ _ => Unreachable) [] 100 []).2.
Proof.
  pose proof (StartElection_outcome (New (mkBullyConfig "b" 7 0 0)) ex_peers
    (fun _ _ => Unreachable) [] 100 [] eq_refl) as H.
  destruct (StartElection _ _ _ _ _ _) as [b' out]. destruct H as [_ H].
  change (existsb _ _) with false in H. destruct H as (_ & _ & Ht & H).
  specialize (H (mkMember "a" "host-a:50051" StatusAlive true 0 0 0 0)
    eq_refl ltac:(done) ltac:(done) eq_refl). rewrite Ht in H. exact H.
Defined.

Lemma leader_displaced_after_timeout_witness :
  leaderID (HandleCoordinator ex_leader (mkCoordinatorRequest "a" 1 2) (100 + 11 * Second)).1 = "a".
Proof.
  exact (leader_displaced_after_timeout (New (mkBullyConfig "b" 7 0 0)) (NewMembership "b") 100
    (100 + 11 * Second) [100 + 2 * Second; 100 + 4 * Second] (fun _ _ => Unreachable)
    (mkCoordinatorRequest "a" 1 2) eq_refl eq_refl).
Defined.

(** A higher peer answers and never announces itself: with a timeout of 100 ms
    the wait is over after three polls. *)
Definition ex_polls (t : Z) : list poll :=
  [mkPoll [] t false; mkPoll [] (t + pollInterval) false; mkPoll [] (t + 2 * pollInterval) false].

Lemma election_terminates_witness :
  StartElection (New (mkBullyConfig "b" 7 0 (2 * pollInterval))) ex_peers (fun _ _ => Answer true) [] 100
    (ex_polls 100 ++ [mkPoll [(mkCoordinatorRequest "z" 9 1, 200)] 200 false]) =
  StartElection (New (mkBullyConfig "b" 7 0 (2 * pollInterval))) ex_peers (fun _ _ => Answer true) [] 100
    (ex_polls 100).
Proof.
  apply (election_terminates (New (mkBullyConfig "b" 7 0 (2 * pollInterval))) ex_peers
    (fun _ _ => Answer true) (fun _ _ => Answer true) [] 100 (ex_polls 100)).
  - reflexivity.
  - vm_compute. repeat split; discriminate.
  - vm_compute. repeat constructor.
  - vm_compute. discriminate.
Defined.
