(* ===== verification/Swim.v ===== *)
(** * Failure detection (internal/cluster/swim.go, cmd/server/main.go)

    The SWIM detector, the heartbeat sender and the staleness check of the
    runtime loops.  Remote calls are oracles; the membership operations other
    goroutines perform while a call is in flight are an argument. *)

From stdpp Require Import options.
From S2P Require Import Prelude Membership.

(** ** Data *)

Record SWIMConfig := mkSWIMConfig {
  NodeID : string;
  ProtocolPeriod : Z;
  ProbeTimeout : Z;
  SuspectToDeadThreshold : Z;
}.

Definition NewSWIMDetector (cfg : SWIMConfig) : SWIMConfig :=
  {| NodeID := NodeID cfg;
     ProtocolPeriod := if ProtocolPeriod cfg <=? 0 then Second else ProtocolPeriod cfg;
     ProbeTimeout := if ProbeTimeout cfg <=? 0 then 2 * Second else ProbeTimeout cfg;
     SuspectToDeadThreshold :=
       if SuspectToDeadThreshold cfg <=? 0 then 3 else SuspectToDeadThreshold cfg |}.

(** A remote call: the [Alive] flag of the reply, or a failed dial or call. *)
Abbreviation reply := (option bool).

(** ** The probes *)

(** [ping address] is the outcome of dialing the address and pinging it. *)
Definition probe (ping : string -> reply) (member : Member) : bool :=
  match ping (Address member) with
  | None => false
  | Some alive => alive
  end.

(** [ping_req address target] asks the member at the address to ping [target]. *)
Definition indirectProbe (shuffle : list Member -> list Member)
    (ping_req : string -> string -> reply) (m : Membership) (target : Member) : bool :=
  match GetRandomPeer shuffle m with
  | None => false
  | Some proxy =>
      if String.eqb (ID proxy) (ID target) then false
      else match ping_req (Address proxy) (ID target) with
      | None => false
      | Some alive => alive
      end
  end.

(** What the environment does during a round: the shuffles, the answers, the
    membership operations of other goroutines during the two probes, the time. *)
Record round_env := mkRoundEnv {
  re_target : list Member -> list Member;
  re_proxy : list Member -> list Member;
  re_ping : string -> reply;
  re_ping_req : string -> string -> reply;
  re_direct : list mop;
  re_indirect : list mop;
  re_now : Z;
}.

Definition round (cfg : SWIMConfig) (m : Membership) (env : round_env) : Membership :=
  match GetRandomProbeTarget (re_target env) m with
  | None => m
  | Some target =>
      let m := foldl exec m (re_direct env) in
      if probe (re_ping env) target then UpdateHeartbeat m (ID target) (re_now env)
      else
        let alive := indirectProbe (re_proxy env) (re_ping_req env) m target in
        let m := foldl exec m (re_indirect env) in
        if alive then UpdateHeartbeat m (ID target) (re_now env)
        else match GetMember m (ID target) with
        | None => m
        | Some member =>
            match mStatus member with
            | StatusAlive => MarkSuspect m (ID target)
            | StatusSuspect =>
                if SuspectToDeadThreshold cfg <=? wrap64 (SuspectCount member + 1)
                then MarkDead m (ID target) else MarkSuspect m (ID target)
            | _ => m
            end
        end
  end.

(** ** Heartbeats and staleness (cmd/server/main.go) *)

(** [pingHeartbeat]: whether the member at the address acknowledged. *)
Definition heartbeat_step (heartbeat : string -> bool) (nodeID localAddress : string) (now : Z)
    (m : Membership) (member : Member) : Membership :=
  if String.eqb (ID member) nodeID || String.eqb (Address member) localAddress then m
  else if heartbeat (Address member) then UpdateHeartbeat m (ID member) now
  else MarkInactive m (ID member).

Definition sendHeartbeats (heartbeat : string -> bool) (nodeID localAddress : string) (now : Z)
    (m : Membership) : Membership :=
  foldl (heartbeat_step heartbeat nodeID localAddress now) m (GetMembers m).

(** One tick of [runFailureDetectionLoop]. *)
Definition failureDetection (threshold now : Z) (m : Membership) : Membership :=
  (MarkStale m threshold now).1.

(** ** The effect of a round on each member *)

Lemma probe_target_candidate (shuffle : list Member -> list Member) (m : Membership)
    (target : Member) :
  (forall l, shuffle l ≡ₚ l) -> membership_ok m -> GetRandomProbeTarget shuffle m = Some target ->
  members m !! ID target = Some target /\ ID target <> m_nodeID m.
Proof.
  intros Hsh Hm. unfold GetRandomProbeTarget. set (l := range _ _ _).
  destruct (Z.of_nat (length l) =? 0); [done|]. intros Hh.
  assert (target ∈ l) as Hin.
  { rewrite <- (Hsh l). destruct (shuffle l); [done|]. injection Hh as ->. by left. }
  apply append_range_elem in Hin as [Hc [id Hid]]. destruct (Hm id target Hid) as [Heq _].
  unfold probe_candidate in Hc. destruct (String.eqb_spec (ID target) (m_nodeID m)); [done|].
  by rewrite Heq in *.
Qed.

(** What a failed round makes of its target. *)
Definition fail_member (threshold : Z) (mem : Member) : Member :=
  match mStatus mem with
  | StatusAlive => suspect mem
  | StatusSuspect =>
      if threshold <=? wrap64 (SuspectCount mem + 1) then setStatus mem StatusDead
      else suspect mem
  | _ => mem
  end.

(** Nothing answers, nobody interferes, and the shuffle puts [id] first. *)
Definition fails_on (id : string) (env : round_env) : Prop :=
  re_direct env = [] /\ re_indirect env = [] /\
  (forall a, probe (re_ping env) a = false) /\
  (forall a t, re_ping_req env a t <> Some true) /\
  (forall l mem, mem ∈ l -> ID mem = id ->
     exists t, head (re_target env l) = Some t /\ ID t = id).

Lemma indirectProbe_silent (shuffle : list Member -> list Member)
    (ping_req : string -> string -> reply) (m : Membership) (target : Member) :
  (forall a t, ping_req a t <> Some true) -> indirectProbe shuffle ping_req m target = false.
Proof.
  intros H. unfold indirectProbe. destruct (GetRandomPeer shuffle m) as [p|]; [|done].
  destruct (String.eqb _ _); [done|]. specialize (H (Address p) (ID target)).
  by destruct (ping_req _ _) as [[]|].
Qed.

Lemma candidate_probed (m : Membership) (id : string) (mem : Member) (env : round_env) :
  fails_on id env -> membership_ok m -> members m !! id = Some mem -> id <> m_nodeID m ->
  mStatus mem = StatusAlive \/ mStatus mem = StatusSuspect ->
  exists t, GetRandomProbeTarget (re_target env) m = Some t /\ ID t = id.
Proof.
  intros (_ & _ & _ & _ & Hpick) Hm Hid Hne Hs. unfold GetRandomProbeTarget. set (l := range _ _ _).
  destruct (Hm id mem Hid) as [Heq _].
  assert (mem ∈ l) as Hin.
  { apply append_range_elem. split; [|by exists id]. unfold probe_candidate.
    destruct (String.eqb_spec (ID mem) (m_nodeID m)); [congruence|].
    destruct Hs as [-> | ->]; done. }
  destruct (Hpick l mem Hin Heq) as (t & Ht & Hid'). exists t. split; [|done].
  destruct l as [|x l']; [by apply not_elem_of_nil in Hin|]. exact Ht.
Qed.

Lemma round_fails (cfg : SWIMConfig) (m : Membership) (id : string) (mem : Member)
    (env : round_env) :
  fails_on id env -> membership_ok m -> members m !! id = Some mem -> id <> m_nodeID m ->
  mStatus mem = StatusAlive \/ mStatus mem = StatusSuspect ->
  round cfg m env =
  with_members m (<[id := fail_member (SuspectToDeadThreshold cfg) mem]> (members m)).
Proof.
  intros Hf Hm Hid Hne Hs. destruct (candidate_probed m id mem env Hf Hm Hid Hne Hs) as (t & Ht & Hti).
  destruct Hf as (Hd & Hi & Hp & Hpr & _). unfold round. rewrite Ht, Hd, Hi, Hp. simpl.
  rewrite (indirectProbe_silent _ _ _ _ Hpr), Hti. unfold GetMember. rewrite Hid.
  unfold fail_member, MarkSuspect, MarkDead, on_member.
  rewrite Hid. destruct Hs as [-> | ->]; [done|]. by destruct (_ <=? _).
Qed.

(** [mem] after [k] consecutive failed probes of a member found alive. *)
Definition failed_state (threshold : Z) (k : nat) (mem : Member) : Prop :=
  mStatus mem =
    (if decide (k = 0%nat) then StatusAlive
     else if decide (Z.of_nat k < Z.max 2 threshold) then StatusSuspect else StatusDead) /\
  (Z.of_nat k < Z.max 2 threshold -> SuspectCount mem = Z.of_nat k).

Lemma fail_member_step (threshold : Z) (k : nat) (mem : Member) :
  0 < threshold < 2 ^ 63 -> Z.of_nat k < Z.max 2 threshold -> failed_state threshold k mem ->
  failed_state threshold (S k) (fail_member threshold mem).
Proof.
  intros Ht Hk [Hs Hc]. specialize (Hc Hk). unfold failed_state, fail_member.
  destruct (decide (k = 0%nat)) as [->|Hk0].
  - rewrite Hs. simpl. split; [by repeat case_decide; try lia|].
    intros _. unfold suspect. simpl. by rewrite Hc.
  - rewrite decide_True in Hs by done. rewrite Hs, Hc.
    rewrite wrap64_id by (unfold in_int64; lia).
    destruct (Z.leb_spec threshold (Z.of_nat k + 1)); simpl; (split; [|intros; try lia]).
    + by repeat case_decide; try lia.
    + by repeat case_decide; try lia.
    + rewrite Hc, wrap64_id by (unfold in_int64; lia). lia.
Qed.

Lemma membership_ok_fail (m : Membership) (id : string) (mem : Member) (threshold : Z) :
  membership_ok m -> members m !! id = Some mem ->
  membership_ok (with_members m (<[id := fail_member threshold mem]> (members m))).
Proof.
  intros Hm Hid. apply membership_ok_insert; [done|]. pose proof (Hm id mem Hid) as Hok.
  unfold fail_member. destruct (mStatus mem); try done; repeat case_match; by destruct Hok.
Qed.

Lemma rounds_fail (cfg : SWIMConfig) (m : Membership) (id : string) (mem : Member)
    (envs : list round_env) :
  let T := SuspectToDeadThreshold cfg in
  membership_ok m -> members m !! id = Some mem -> id <> m_nodeID m ->
  mStatus mem = StatusAlive -> 0 < T < 2 ^ 63 -> Forall (fails_on id) envs ->
  Z.of_nat (length envs) <= Z.max 2 T ->
  let m' := foldl (round cfg) m envs in
  membership_ok m' /\ m_nodeID m' = m_nodeID m /\
  (forall j, j <> id -> members m' !! j = members m !! j) /\
  exists mem', members m' !! id = Some mem' /\ failed_state T (length envs) mem'.
Proof.
  intros T Hm Hid Hne Hs HT. induction envs as [|env envs IH] using rev_ind; intros Hf Hlen.
  - split_and!; try done. exists mem. split; [done|]. split; [done|].
    intros _. by apply (Hm id mem Hid).
  - rewrite length_app in *. simpl in Hlen.
    apply Forall_app in Hf as [Hf1 Hf2]. apply Forall_cons in Hf2 as [Hf2 _].
    destruct IH as (Hok & Hn & Hother & mem' & Hmem' & Hst); [done|lia|].
    simpl. rewrite foldl_snoc. simpl.
    assert (mStatus mem' = StatusAlive \/ mStatus mem' = StatusSuspect) as Hs'.
    { destruct Hst as [-> _]. repeat case_decide; auto; lia. }
    rewrite (round_fails cfg _ id mem' env Hf2 Hok Hmem') by (done || congruence).
    split_and!.
    + by apply membership_ok_fail.
    + done.
    + intros j Hj. simpl. rewrite lookup_insert_ne by done. by apply Hother.
    + eexists. simpl. rewrite lookup_insert_eq. split; [done|].
      replace (length envs + 1)%nat with (S (length envs)) by lia.
      apply fail_member_step; [done|lia|done].
Qed.

(** ** Heartbeats *)

Lemma heartbeat_step_other (heartbeat : string -> bool) (nodeID la : string) (now : Z)
    (m : Membership) (p : Member) (id : string) :
  id <> ID p -> members (heartbeat_step heartbeat nodeID la now m p) !! id = members m !! id.
Proof.
  intros Hne. unfold heartbeat_step, UpdateHeartbeat, MarkInactive, MarkSuspect.
  repeat case_match; try done; rewrite on_member_lookup; by case_decide.
Qed.

(** What one round of heartbeats makes of a member. *)
Definition heartbeat_member (heartbeat : string -> bool) (nodeID la : string) (now : Z)
    (mem : Member) : Member :=
  if String.eqb (ID mem) nodeID || String.eqb (Address mem) la then mem
  else if heartbeat (Address mem)
  then set_suspect (setStatus (set_contact mem (Address mem) now) StatusAlive) 0
  else match mStatus mem with
  | StatusDead | StatusLeft => mem
  | _ => suspect mem
  end.

Lemma heartbeat_step_same (heartbeat : string -> bool) (nodeID la : string) (now : Z)
    (m : Membership) (p : Member) :
  members m !! ID p = Some p ->
  members (heartbeat_step heartbeat nodeID la now m p) !! ID p =
  Some (heartbeat_member heartbeat nodeID la now p).
Proof.
  intros Hp. unfold heartbeat_step, heartbeat_member, UpdateHeartbeat, MarkInactive, MarkSuspect.
  repeat case_match; try done; rewrite on_member_lookup, decide_True, Hp by done; simpl; by
    repeat case_match.
Qed.

Lemma heartbeats_other (heartbeat : string -> bool) (nodeID la : string) (now : Z)
    (l : list Member) (m : Membership) (id : string) :
  id ∉ ID <$> l ->
  members (foldl (heartbeat_step heartbeat nodeID la now) m l) !! id = members m !! id.
Proof.
  revert m. induction l as [|p l IH]; intros m Hid; [done|].
  rewrite fmap_cons in Hid. apply not_elem_of_cons in Hid as [Hp Hid].
  cbn [foldl]. rewrite IH by done. by apply heartbeat_step_other.
Qed.

Lemma heartbeats_same (heartbeat : string -> bool) (nodeID la : string) (now : Z)
    (l : list Member) (m : Membership) (mem : Member) :
  NoDup (ID <$> l) -> members m !! ID mem = Some mem -> mem ∈ l ->
  members (foldl (heartbeat_step heartbeat nodeID la now) m l) !! ID mem =
  Some (heartbeat_member heartbeat nodeID la now mem).
Proof.
  revert m. induction l as [|p l IH]; intros m Hnd Hmem Hin; [by apply not_elem_of_nil in Hin|].
  rewrite fmap_cons in Hnd. apply NoDup_cons in Hnd as [Hp Hnd]. cbn [foldl].
  apply elem_of_cons in Hin as [->|Hin].
  - rewrite heartbeats_other by done. by apply heartbeat_step_same.
  - apply IH; [done| |done]. rewrite heartbeat_step_other; [done|].
    intros Heq. apply Hp. rewrite <- Heq. by apply list_elem_of_fmap_2.
Qed.

(** ** Properties *)

(** C35: The detector needs exactly [max 2 T] consecutive failed probes to
    declare a live member dead, [T] being the configured threshold: after fewer
    it is a suspect, after that many it is dead, and no other member changes. *)
Theorem swim_escalation (cfg : SWIMConfig) (m : Membership) (id : string) (mem : Member)
    (envs : list round_env) :
  let T := SuspectToDeadThreshold (NewSWIMDetector cfg) in
  membership_ok m -> members m !! id = Some mem -> id <> m_nodeID m ->
  mStatus mem = StatusAlive -> T < 2 ^ 63 -> Forall (fails_on id) envs ->
  0 < Z.of_nat (length envs) <= Z.max 2 T ->
  let m' := foldl (round (NewSWIMDetector cfg)) m envs in
  (forall j, j <> id -> members m' !! j = members m !! j) /\
  exists mem', members m' !! id = Some mem' /\
    mStatus mem' =
      if bool_decide (Z.of_nat (length envs) < Z.max 2 T) then StatusSuspect else StatusDead.
Proof.
  intros T Hm Hid Hne Hs HT Hf Hlen m'.
  assert (0 < T) by (unfold T; simpl; case_bool; lia).
  destruct (rounds_fail (NewSWIMDetector cfg) m id mem envs) as (_ & _ & Ho & mem' & Hm' & Hst & _);
    try done; [lia|]. split; [done|]. exists mem'. split; [done|]. rewrite Hst.
  destruct (decide (length envs = 0%nat)); [lia|]. fold T. clear Hst Hm'.
  destruct (decide (Z.of_nat (length envs) < Z.max 2 T));
    [by rewrite bool_decide_eq_true_2|by rewrite bool_decide_eq_false_2].
Qed.

(** A probe that is answered, directly or through a proxy, clears every
    suspicion: whatever other goroutines did to the table meanwhile, the target
    is Alive with suspicion zero and a heartbeat of now, if still present. *)
Theorem round_answered (cfg : SWIMConfig) (m : Membership) (env : round_env) (target mem : Member) :
  GetRandomProbeTarget (re_target env) m = Some target ->
  let m1 := foldl exec m (re_direct env) in
  (probe (re_ping env) target = true /\ members m1 !! ID target = Some mem) \/
  (probe (re_ping env) target = false /\
   indirectProbe (re_proxy env) (re_ping_req env) m1 target = true /\
   members (foldl exec m1 (re_indirect env)) !! ID target = Some mem) ->
  exists mem', members (round cfg m env) !! ID target = Some mem' /\
    mStatus mem' = StatusAlive /\ SuspectCount mem' = 0 /\ LastHeartbeat mem' = re_now env /\
    Address mem' = Address mem /\ Priority mem' = Priority mem.
Proof.
  intros Ht m1 H. unfold round. rewrite Ht. fold m1. unfold UpdateHeartbeat.
  destruct H as [[-> Hm]|(-> & -> & Hm)]; rewrite on_member_lookup, decide_True, Hm by done;
    by eexists.
Qed.

(** A round of heartbeats revives every remote member that acknowledges,
    whatever its status was (Dead and Left included), and adds one suspicion to
    every other one that was Alive or Suspect. *)
Theorem sendHeartbeats_spec (heartbeat : string -> bool) (nodeID la : string) (now : Z)
    (m : Membership) (id : string) (mem : Member) :
  membership_ok m -> members m !! id = Some mem -> id <> nodeID -> Address mem <> la ->
  exists mem', members (sendHeartbeats heartbeat nodeID la now m) !! id = Some mem' /\
    mStatus mem' =
      (if heartbeat (Address mem) then StatusAlive else
       match mStatus mem with StatusAlive => StatusSuspect | s => s end) /\
    (heartbeat (Address mem) = true -> LastHeartbeat mem' = now /\ SuspectCount mem' = 0) /\
    (heartbeat (Address mem) = false -> LastHeartbeat mem' = LastHeartbeat mem).
Proof.
  intros Hm Hid Hne Hla. destruct (Hm id mem Hid) as [Heq _]. subst id.
  assert (GetMembers m = (map_to_list (members m)).*2) as Hall.
  { unfold GetMembers. rewrite append_range. induction ((map_to_list (members m)).*2) as [|x l IH];
      [done|]. by rewrite filter_cons_True, IH. }
  assert (mem ∈ GetMembers m) as Hin.
  { rewrite Hall. apply list_elem_of_fmap. exists (ID mem, mem). split; [done|].
    by apply elem_of_map_to_list. }
  assert (NoDup (ID <$> GetMembers m)) as Hnd.
  { rewrite Hall, <- list_fmap_compose. erewrite list_fmap_ext; [apply (NoDup_fst_map_to_list (members m))|].
    intros i [k x] Hi. simpl. apply list_elem_of_lookup_2, elem_of_map_to_list in Hi.
    by apply (Hm k x). }
  unfold sendHeartbeats.
  rewrite (heartbeats_same heartbeat nodeID la now (GetMembers m) m mem Hnd Hid Hin).
  eexists. split; [done|]. unfold heartbeat_member.
  apply String.eqb_neq in Hne as ->. apply String.eqb_neq in Hla as ->. simpl.
  destruct (heartbeat (Address mem)); [done|].
  destruct (mStatus mem) eqn:Hs; split_and!; try done; by rewrite Hs.
Qed.

(** ** Witnesses *)

(** Three rounds in which member b is probed and nobody answers. *)
Definition ex_silent : round_env :=
  mkRoundEnv (fun l => filter (fun p => ID p = "b") l) id (fun _ => None) (fun _ _ => None) [] [] 50.

Definition ex_table : Membership :=
  AddMember (AddMember (NewMembership "a") "b" "host-b:1" 10) "c" "host-c:1" 10.

Lemma ex_silent_fails : fails_on "b" ex_silent.
Proof.
  split_and!; try done. intros l mem Hin Hid. simpl.
  destruct (filter (fun p => ID p = "b") l) as [|t l'] eqn:Hl.
  - assert (mem ∈ filter (fun p => ID p = "b") l) as H by (by apply list_elem_of_filter).
    rewrite Hl in H. by apply not_elem_of_nil in H.
  - exists t. split; [done|]. assert (t ∈ filter (fun p => ID p = "b") l) as H by (rewrite Hl; by left).
    apply list_elem_of_filter in H as [H _]. exact H.
Qed.

Lemma swim_escalation_witness :
  exists mem', members (foldl (round (NewSWIMDetector (mkSWIMConfig "a" 0 0 0))) ex_table
    [ex_silent; ex_silent; ex_silent]) !! "b" = Some mem' /\ mStatus mem' = StatusDead.
Proof.
  destruct (swim_escalation (mkSWIMConfig "a" 0 0 0) ex_table "b"
    (mkMember "b" "host-b:1" StatusAlive true 0 10 0 0) [ex_silent; ex_silent; ex_silent])
    as [_ H].
  - by_eval.
  - reflexivity.
  - discriminate.
  - reflexivity.
  - reflexivity.
  - repeat constructor; apply ex_silent_fails.
  - split; [reflexivity|discriminate].
  - exact H.
Defined.

Lemma round_answered_witness :
  exists mem', members (round (mkSWIMConfig "a" 0 0 3) ex_table
    (mkRoundEnv (fun l => filter (fun p => ID p = "b") l) id (fun _ => Some true) (fun _ _ => None)
       [OpSuspect "b"] [] 77)) !! "b" = Some mem' /\ mStatus mem' = StatusAlive /\
    LastHeartbeat mem' = 77.
Proof.
  destruct (round_answered (mkSWIMConfig "a" 0 0 3) ex_table
    (mkRoundEnv (fun l => filter (fun p => ID p = "b") l) id (fun _ => Some true) (fun _ _ => None)
       [OpSuspect "b"] [] 77) (mkMember "b" "host-b:1" StatusAlive true 0 10 0 0)
    (mkMember "b" "host-b:1" StatusSuspect false 0 10 1 0)) as (mem' & H1 & H2 & _ & H3 & _).
  - vm_compute. reflexivity.
  - left. split; vm_compute; reflexivity.
  - exists mem'. split; [exact H1|]. split; [exact H2|exact H3].
Defined.

(** A member removed from the cluster is back after one acknowledged heartbeat. *)
Lemma sendHeartbeats_spec_witness :
  exists mem', members (sendHeartbeats (fun _ => true) "a" "host-a:1" 99 (MarkLeft ex_table "b"))
    !! "b" = Some mem' /\ mStatus mem' = StatusAlive.
Proof.
  destruct (sendHeartbeats_spec (fun _ => true) "a" "host-a:1" 99 (MarkLeft ex_table "b") "b"
    (mkMember "b" "host-b:1" StatusLeft false 0 10 0 0)) as (mem' & H1 & H2 & _).
  - by_eval.
  - reflexivity.
  - discriminate.
  - discriminate.
  - exists mem'. split; [exact H1|exact H2].
Defined.
