(* ===== verification/Store.v ===== *)
(** * Snapshot stores (internal/persistence/store.go, redis.go)

    [StoreOps] is the Go interface; [Store] states what the rest of the program
    relies on.  The Redis store is an instance, with the key space of the
    server as its state; its values are the JSON texts of [Codec]. *)

From S2P Require Import Prelude Codec.

(** ** Data *)

(** The outcome of a call to the server: it can fail before or after the write
    took effect. *)
Inductive store_io :=
| StoreOk
| StoreErr (written : bool).

(** ** The interface *)

(** The results carry an error flag; [Load] gives [None] when nothing has been
    stored yet. *)
Class StoreOps (D : Type) := {
  Save : D -> string -> CounterState -> store_io -> D * bool;
  Load : D -> string -> bool -> option CounterState + unit;
}.

Class Store (D : Type) `{StoreOps D} := {
  save_load (d : D) (n : string) (s : CounterState) :
    state_ok s -> let '(d', failed) := Save d n s StoreOk in
    failed = false /\ Load d' n true = inl (Some s);
  save_reports (d : D) (n : string) (s : CounterState) (w : bool) :
    (Save d n s (StoreErr w)).2 = true;
  save_failed (d : D) (n : string) (s : CounterState) :
    (Save d n s (StoreErr false)).1 = d;
  save_frame (d : D) (n n' : string) (s : CounterState) (io : store_io) (ok : bool) :
    n <> n' -> Load (Save d n s io).1 n' ok = Load d n' ok;
  load_failed (d : D) (n : string) : Load d n false = inr tt;
}.

(** ** Redis *)

(** The server's key space, as the client sees it. *)
Record RedisStore := mkRedisStore { keys : gmap string string }.

Definition NewRedisStore (keyspace : gmap string string) (ping_ok : bool) : option RedisStore :=
  if ping_ok then Some {| keys := keyspace |} else None.

Definition stateKey (nodeID : string) : string := "counter:" +:+ nodeID +:+ ":state".

(** [json.Marshal] cannot fail on a [CounterState]. *)
Definition redis_Save (r : RedisStore) (nodeID : string) (state : CounterState) (io : store_io) :
    RedisStore * bool :=
  let data := marshal_state state in
  let r' := {| keys := <[stateKey nodeID := data]> (keys r) |} in
  match io with
  | StoreOk => (r', false)
  | StoreErr true => (r', true)
  | StoreErr false => (r, true)
  end.

Definition redis_Load (r : RedisStore) (nodeID : string) (get_ok : bool) :
    option CounterState + unit :=
  if get_ok then
    match keys r !! stateKey nodeID with
    | None => inl None
    | Some data =>
        match unmarshal_state data with
        | None => inr tt
        | Some state => inl (Some state)
        end
    end
  else inr tt.

Definition redis_ops : StoreOps RedisStore := {| Save := redis_Save; Load := redis_Load |}.

Lemma stateKey_inj (n n' : string) : stateKey n = stateKey n' -> n = n'.
Proof.
  unfold stateKey. intros H. injection H as H. by apply (str_app_inj_r n n' ":state").
Qed.

Lemma redis_store : @Store RedisStore redis_ops.
Proof.
  split; simpl.
  - intros d n s Hs. split; [done|]. unfold redis_Load. simpl.
    by rewrite lookup_insert_eq, state_roundtrip.
  - by intros d n s [].
  - done.
  - intros d n n' s io ok Hne. unfold redis_Load. destruct ok; [|done].
    destruct io as [|[]]; simpl; try done;
      rewrite lookup_insert_ne; try done; intros H; by apply stateKey_inj in H.
  - done.
Qed.

(** ** Properties *)

(** The Redis store keeps the last snapshot of each node: after a
    successful [Save], [Load] of that node returns exactly the saved state and
    every other node's state is unchanged; a failed [Save] is reported. *)
Theorem redis_keeps_snapshots (r : RedisStore) (n n' : string) (s : CounterState) (w : bool) :
  state_ok s -> n <> n' ->
  let '(r', failed) := redis_Save r n s StoreOk in
  failed = false /\ redis_Load r' n true = inl (Some s) /\
  redis_Load r' n' true = redis_Load r n' true /\
  (redis_Save r n s (StoreErr w)).2 = true.
Proof.
  intros Hs Hne. pose proof redis_store as [H1 H2 _ H4 _].
  specialize (H1 r n s Hs) as [_ H1]. split; [done|]. split; [done|]. split; [|apply H2].
  apply (H4 r n n' s StoreOk true Hne).
Qed.

(** ** Witnesses *)

Lemma redis_keeps_snapshots_witness :
  let s := mkCounterState {["node-a" := 4]} ∅ {["node-a" := 1]} {["likes" := ["web"]]} in
  redis_Load (redis_Save (mkRedisStore ∅) "node-a" s StoreOk).1 "node-a" true = inl (Some s).
Proof.
  intros s.
  pose proof (redis_keeps_snapshots (mkRedisStore ∅) "node-a" "node-b" s true ltac:(by_eval)
    ltac:(discriminate)) as H.
  destruct (redis_Save _ _ _ _) as [r' failed]. apply H.
Defined.
