(* ===== verification/Messages.v ===== *)
(** * Messages of the counter service (api/proto/counter.proto)

    The protobuf messages the handlers read or write, with every field of the
    schema; [int32] and [int64] fields are [Z], repeated fields are lists, and a
    nil map and an empty map are the same message. *)

From stdpp Require Import options.
From S2P Require Import Prelude Membership.

(** [IncrementRequest] and [DecrementRequest], which have the same fields. *)
Record UpdateRequest := mkUpdateRequest {
  rq_Delta : Z;
  rq_ClientId : string;
  rq_Timestamp : Z;
  rq_CounterName : string;
}.

Record NodeInfo := mkNodeInfo {
  ni_NodeId : string;
  ni_Address : string;
  ni_CounterValue : Z;
  ni_Version : string;
  ni_IsLeader : bool;
  ni_LastSeen : Z;
  ni_LeaderId : string;
  ni_Priority : Z;
}.

Record CounterResponse := mkCounterResponse {
  cr_NodeId : string;
  cr_CounterName : string;
  cr_CurrentValue : Z;
  cr_Version : string;
  cr_LastUpdated : Z;
  cr_ClusterNodes : list NodeInfo;
}.

Record CounterInfo := mkCounterInfo {
  ci_Name : string;
  ci_CurrentValue : Z;
  ci_Shard : Z;
  ci_Tags : list string;
}.

#[export] Instance CounterInfo_eq_dec : EqDecision CounterInfo.
Proof. solve_decision. Defined.

(** The protobuf enum [StateUpdate.UpdateType] is an open [int32]. *)
Definition FULL_STATE : Z := 0.

Definition DELTA_UPDATE : Z := 1.

Definition HEARTBEAT : Z := 2.

Record StateUpdate := mkStateUpdate {
  su_FromNodeId : string;
  su_PositiveState : gmap string Z;
  su_NegativeState : gmap string Z;
  su_VectorClock : gmap string Z;
  su_Timestamp : Z;
  su_Type : Z;
  su_LastSyncVersion : Z;
  su_Membership : gmap string Z;
}.

#[export] Instance StateUpdate_eq_dec : EqDecision StateUpdate.
Proof. solve_decision. Defined.

Record pbMember := mkPbMember {
  pm_NodeId : string;
  pm_Address : string;
  pm_IsActive : bool;
  pm_LastHeartbeat : Z;
  pm_CounterValue : Z;
  pm_Status : Z;
  pm_Priority : Z;
}.

#[export] Instance pbMember_eq_dec : EqDecision pbMember.
Proof. solve_decision. Defined.

(** The conversion every handler that lists members repeats. *)
Definition to_pb (member : Member) : pbMember :=
  {| pm_NodeId := ID member; pm_Address := Address member; pm_IsActive := IsActive member;
     pm_LastHeartbeat := time_Unix (LastHeartbeat member); pm_CounterValue := CounterValue member;
     pm_Status := ToProto (mStatus member); pm_Priority := Priority member |}.

Record JoinRequest := mkJoinRequest {
  jr_NodeId : string;
  jr_Address : string;
  jr_StartupTime : Z;
}.

Record MemberList := mkMemberList { ml_Members : list pbMember; ml_Version : Z }.

Record HeartbeatRequest := mkHeartbeatRequest {
  hb_NodeId : string;
  hb_CurrentValue : Z;
  hb_Timestamp : Z;
  hb_Address : string;
  hb_Priority : Z;
  hb_LeaderId : string;
}.

Record HeartbeatResponse := mkHeartbeatResponse {
  hr_Success : bool;
  hr_Message : string;
  hr_ClusterSize : Z;
  hr_ActiveMembers : list pbMember;
}.

(** [SwimPingResponse] and [SwimPingReqResponse], which have the same fields. *)
Record SwimResponse := mkSwimResponse {
  sr_NodeId : string;
  sr_Alive : bool;
  sr_MessageId : Z;
}.
