(* ===== verification/Service.v ===== *)
(** * The counter service (internal/service/counter_service.go)

    The state of a node: the counter, the clock, the membership table and the
    log are shared with the other components of the process, so the record
    holds their current values; [files] is the disk behind the log and the
    store's value is what the database holds.  A handler runs at one instant.
    The metrics, spans and log lines it also emits carry no state. *)

From stdpp Require Import pretty.
From S2P Require Import Prelude PNCounter VectorClock Delta Membership Bully Codec Wal Store Messages.

Definition defaultCounter : string := "default".

(** What the environment answers during a handler. *)
Record env := mkEnv {
  e_now : Z;
  e_append : append_io;
  e_save : store_io;
  e_remove : bool;
}.

(** A failure-free environment at a given time. *)
Definition calm (now : Z) : env := mkEnv now AppendOk StoreOk true.

Record CounterService (D : Type) := mkCounterService {
  s_nodeID : string;
  s_port : Z;
  s_counter : PNCounter;
  s_clock : VectorClock;
  s_cluster : option Membership;
  s_store : option D;
  s_wal : option WALStore;
  s_onReset : bool;
  lastSyncClock : gmap string (gmap string Z);
  s_tags : gmap string (list string);
  counterShards : Z;
  s_bully : option Bully;
  s_priority : Z;
  s_apiKey : string;
  s_compression : bool;
  files : disk;
}.

Arguments mkCounterService {D}.
Arguments s_nodeID {D}.
Arguments s_port {D}.
Arguments s_counter {D}.
Arguments s_clock {D}.
Arguments s_cluster {D}.
Arguments s_store {D}.
Arguments s_wal {D}.
Arguments s_onReset {D}.
Arguments lastSyncClock {D}.
Arguments s_tags {D}.
Arguments counterShards {D}.
Arguments s_bully {D}.
Arguments s_priority {D}.
Arguments s_apiKey {D}.
Arguments s_compression {D}.
Arguments files {D}.

Section setters.
Context {D : Type}.
Implicit Types s : CounterService D.

Definition set_counter s (c : PNCounter) : CounterService D :=
  let '(mkCounterService a b _ d e f g h i j k l m n o p) := s in
  mkCounterService a b c d e f g h i j k l m n o p.

Definition set_clock s (c : VectorClock) : CounterService D :=
  let '(mkCounterService a b x _ e f g h i j k l m n o p) := s in
  mkCounterService a b x c e f g h i j k l m n o p.

Definition SetCluster s (c : option Membership) : CounterService D :=
  let '(mkCounterService a b x d _ f g h i j k l m n o p) := s in
  mkCounterService a b x d c f g h i j k l m n o p.

Definition SetStore s (c : option D) : CounterService D :=
  let '(mkCounterService a b x d e _ g h i j k l m n o p) := s in
  mkCounterService a b x d e c g h i j k l m n o p.

Definition SetWAL s (c : option WALStore) : CounterService D :=
  let '(mkCounterService a b x d e f _ h i j k l m n o p) := s in
  mkCounterService a b x d e f c h i j k l m n o p.

Definition SetOnReset s (c : bool) : CounterService D :=
  let '(mkCounterService a b x d e f g _ i j k l m n o p) := s in
  mkCounterService a b x d e f g c i j k l m n o p.

Definition set_lastSync s (c : gmap string (gmap string Z)) : CounterService D :=
  let '(mkCounterService a b x d e f g h _ j k l m n o p) := s in
  mkCounterService a b x d e f g h c j k l m n o p.

Definition set_tags s (c : gmap string (list string)) : CounterService D :=
  let '(mkCounterService a b x d e f g h i _ k l m n o p) := s in
  mkCounterService a b x d e f g h i c k l m n o p.

Definition set_shards s (c : Z) : CounterService D :=
  let '(mkCounterService a b x d e f g h i j _ l m n o p) := s in
  mkCounterService a b x d e f g h i j c l m n o p.

Definition SetBully s (c : option Bully) : CounterService D :=
  let '(mkCounterService a b x d e f g h i j k _ m n o p) := s in
  mkCounterService a b x d e f g h i j k c m n o p.

Definition SetPriority s (c : Z) : CounterService D :=
  let '(mkCounterService a b x d e f g h i j k l _ n o p) := s in
  mkCounterService a b x d e f g h i j k l c n o p.

Definition SetClientConfig s (key : string) (compression : bool) : CounterService D :=
  let '(mkCounterService a b x d e f g h i j k l m _ _ p) := s in
  mkCounterService a b x d e f g h i j k l m key compression p.

Definition set_log s (w : WALStore) (d' : disk) : CounterService D :=
  let '(mkCounterService a b x d e f _ h i j k l m n o _) := s in
  mkCounterService a b x d e f (Some w) h i j k l m n o d'.

End setters.

Definition NewCounterService {D : Type} (nodeID : string) (port : Z) (fs : disk) :
    CounterService D :=
  {| s_nodeID := nodeID; s_port := port; s_counter := NewPNCounter nodeID;
     s_clock := NewVectorClock nodeID; s_cluster := None; s_store := None; s_wal := None;
     s_onReset := false; lastSyncClock := ∅; s_tags := ∅; counterShards := 1; s_bully := None;
     s_priority := 0; s_apiKey := ""; s_compression := false; files := fs |}.

Definition normalizeName (name : string) : string :=
  if String.eqb name "" then defaultCounter else name.

Definition containsTag (tags : list string) (tag : string) : bool :=
  existsb (fun t => String.eqb t tag) tags.

(** ** Sharding *)

(** [hash/fnv]'s 32-bit FNV-1a: xor with the byte, then multiply by the prime. *)
Fixpoint fnv32a (h : Z) (name : string) : Z :=
  match name with
  | EmptyString => h
  | String c rest => fnv32a (wrapu32 (Z.lxor h (Z.of_N (N_of_ascii c)) * 16777619)) rest
  end.

Definition offset32 : Z := 2166136261.

(** [None] is the division by zero the conversion to [uint32] can cause. *)
Definition Shard {D : Type} (s : CounterService D) (name : string) : option Z :=
  let n := counterShards s in
  if n <=? 1 then Some 0
  else
    let h := fnv32a offset32 name in
    let d := wrapu32 n in
    if d =? 0 then None else Some (h mod d).

Definition SetShardCount {D : Type} (s : CounterService D) (n : Z) : CounterService D :=
  let n := if n <? 1 then 1 else n in
  set_shards s n.

(** ** Handlers *)

Section handlers.
Context {D : Type} `{StoreOps D}.
(** [encoding/json] on log entries and on the clock. *)
Variable marshal : WALEntry -> string.
Variable unmarshal : string -> option WALEntry.
Implicit Types s : CounterService D.
Implicit Types io : env.

(** *** Persistence *)

(** The snapshot both [persist] and [Snapshot] take. *)
Definition snapshot_state s : CounterState :=
  {| st_Positive := Positive (s_counter s); st_Negative := Negative (s_counter s);
     st_Clock := State (s_clock s); st_Tags := copy_map (s_tags s) |}.

Definition persist io s : CounterService D :=
  match s_wal s with
  | Some _ => s
  | None =>
      match s_store s with
      | None => s
      | Some d => SetStore s (Some (Save d (s_nodeID s) (snapshot_state s) (e_save io)).1)
      end
  end.

Definition walAppend io s (op counter : string) (delta : Z)
    (positive negative clock : gmap string Z) : CounterService D :=
  match s_wal s with
  | None => s
  | Some w =>
      let '(w, d, _) := AppendCounter marshal w (files s) (s_nodeID s) counter op delta
                          positive negative clock (e_now io) (e_append io) in
      set_log s w d
  end.

(** [remote := crdt.NewPNCounter(id); ...; s.counter.Merge(remote);
    s.clock.MergeMap(clock)], which every receiver of a state performs. *)
Definition absorb s (id : string) (pos neg clk : gmap string Z) : CounterService D :=
  let s := set_counter s (PNCounter.Merge (s_counter s) (remote_counter id pos neg)) in
  set_clock s (MergeMap (s_clock s) clk).

Definition Restore s (state : option CounterState) : CounterService D :=
  match state with
  | None => s
  | Some state =>
      let s := absorb s "" (st_Positive state) (st_Negative state) (st_Clock state) in
      if 0 <? Z.of_nat (size (st_Tags state))
      then set_tags s (range (fun k v tags => <[k := v]> tags) (st_Tags state) (s_tags s))
      else s
  end.

(** The body of the replay loop. *)
Definition replay_entry s (entry : WALEntry) : CounterService D :=
  if String.eqb (Op entry) "increment" then
    let s := set_counter s
      (PNCounter.IncrementName (s_counter s) (Counter entry) (Codec.Delta entry)) in
    set_clock s (VectorClock.IncrementName (s_clock s) (Counter entry))
  else if String.eqb (Op entry) "decrement" then
    let s := set_counter s
      (PNCounter.DecrementName (s_counter s) (Counter entry) (Codec.Delta entry)) in
    set_clock s (VectorClock.IncrementName (s_clock s) (Counter entry))
  else if String.eqb (Op entry) "reset" then
    let s := set_counter s (PNCounter.ResetName (s_counter s) (Counter entry)) in
    set_clock s (VectorClock.ResetName (s_clock s) (Counter entry))
  else if String.eqb (Op entry) "merge" then
    absorb s "" (ePositive entry) (eNegative entry) (eClock entry)
  else s.

Definition ReplayWAL s (open_ok : bool) : CounterService D * option walError :=
  match s_wal s with
  | None => (s, None)
  | Some w =>
      let '(w, entries, err) := Replay unmarshal w (files s) (s_nodeID s) open_ok in
      let s := SetWAL s (Some w) in
      match err with
      | Some e => (s, Some e)
      | None => (foldl replay_entry s entries, None)
      end
  end.

(** [Snapshot] in the pieces its calls let others run between: the state it read
    is saved, then the log is removed. *)
Definition save_state io s (state : CounterState) : CounterService D * bool :=
  match s_store s with
  | None => (s, true)
  | Some d =>
      let '(d, failed) := Save d (s_nodeID s) state (e_save io) in
      (SetStore s (Some d), failed)
  end.

Definition truncate_log io s : CounterService D :=
  match s_wal s with
  | None => s
  | Some w =>
      let '(w, fs, _) := Truncate w (files s) (s_nodeID s) (e_remove io) in
      set_log s w fs
  end.

Definition Snapshot io s : CounterService D :=
  match s_store s with
  | None => s
  | Some _ =>
      let '(s, failed) := save_state io s (snapshot_state s) in
      if (failed : bool) then s else truncate_log io s
  end.

(** *** Counter operations *)

Definition buildResponse io s (name : string) : CounterResponse :=
  let nodes := match s_cluster s with
    | None => []
    | Some m => (fun member =>
        {| ni_NodeId := ID member; ni_Address := Address member;
           ni_CounterValue := CounterValue member; ni_Version := ""; ni_IsLeader := false;
           ni_LastSeen := time_Unix (LastHeartbeat member); ni_LeaderId := "";
           ni_Priority := Priority member |}) <$> GetMembers m
    end in
  {| cr_NodeId := s_nodeID s; cr_CounterName := name;
     cr_CurrentValue := ValueName (s_counter s) name;
     cr_Version := clock_String (State (s_clock s)); cr_LastUpdated := time_Unix (e_now io);
     cr_ClusterNodes := nodes |}.

Definition Increment io s (req : UpdateRequest) : CounterService D * CounterResponse :=
  let name := normalizeName (rq_CounterName req) in
  let delta := if rq_Delta req =? 0 then 1 else rq_Delta req in
  let s := set_counter s (PNCounter.IncrementName (s_counter s) name delta) in
  let s := set_clock s (VectorClock.IncrementName (s_clock s) name) in
  let s := walAppend io s "increment" name delta ∅ ∅ ∅ in
  let s := persist io s in
  (s, buildResponse io s name).

Definition Decrement io s (req : UpdateRequest) : CounterService D * CounterResponse :=
  let name := normalizeName (rq_CounterName req) in
  let delta := if rq_Delta req =? 0 then 1 else rq_Delta req in
  let s := set_counter s (PNCounter.DecrementName (s_counter s) name delta) in
  let s := set_clock s (VectorClock.IncrementName (s_clock s) name) in
  let s := walAppend io s "decrement" name delta ∅ ∅ ∅ in
  let s := persist io s in
  (s, buildResponse io s name).

(** The last component says whether the [onReset] callback was invoked. *)
Definition Reset io s (counterName : string) : CounterService D * CounterResponse * bool :=
  let name := normalizeName counterName in
  let s := set_counter s (PNCounter.ResetName (s_counter s) name) in
  let s := set_clock s (VectorClock.ResetName (s_clock s) name) in
  let s := set_lastSync s ∅ in
  let called := s_onReset s in
  let s := walAppend io s "reset" name 0 ∅ ∅ ∅ in
  let s := persist io s in
  (s, buildResponse io s name, called).

Definition GetValue io s (counterName : string) : CounterResponse :=
  buildResponse io s (normalizeName counterName).

(** *** Counter metadata *)

Definition buildCounterInfo s (name : string) : option CounterInfo :=
  shard ← Shard s name;
  Some {| ci_Name := name; ci_CurrentValue := ValueName (s_counter s) name;
          ci_Shard := shard; ci_Tags := default [] (s_tags s !! name) |}.

Definition CreateCounter s (reqName : string) (reqTags : list string) :
    CounterService D * option CounterInfo :=
  let name := normalizeName reqName in
  let s := if 0 <? Z.of_nat (length reqTags)
           then set_tags s (<[name := reqTags]> (s_tags s)) else s in
  (s, buildCounterInfo s name).

(** The set of counter names [ListCounters] enumerates. *)
Definition listed_names s : gset string :=
  let names := foldl (fun acc n => {[n]} ∪ acc) ∅ (PNCounter.Names (s_counter s)) in
  let names := range (fun n _ acc => {[n]} ∪ acc) (s_tags s) names in
  let names :=
    if negb (ValueName (s_counter s) defaultCounter =? 0)
       || (0 <? Z.of_nat (length (default [] (s_tags s !! defaultCounter))))
    then {[defaultCounter]} ∪ names else names in
  if Z.of_nat (size names) =? 0 then {[defaultCounter]} ∪ names else names.

Definition name_le (a b : CounterInfo) : Prop := String.le (ci_Name a) (ci_Name b).

#[local] Instance name_le_dec : RelDecision name_le := fun a b => decide (String.le _ _).

Definition ListCounters s (tag : string) : option (list CounterInfo) :=
  let tags := copy_map (s_tags s) in
  let wanted n := String.eqb tag "" || containsTag (default [] (tags !! n)) tag in
  res ← mapM (buildCounterInfo s) (List.filter wanted (elements (listed_names s)));
  Some (merge_sort name_le res).

Definition GetNodeInfo io s : NodeInfo :=
  let '(leader, isLeader) := match s_bully s with
    | Some b => (LeaderID b, IsLeader b)
    | None => ("", false)
    end in
  {| ni_NodeId := s_nodeID s; ni_Address := "localhost:" +:+ pretty (s_port s);
     ni_CounterValue := ValueName (s_counter s) defaultCounter;
     ni_Version := clock_String (State (s_clock s)); ni_IsLeader := isLeader;
     ni_LastSeen := time_Unix (e_now io); ni_LeaderId := leader; ni_Priority := s_priority s |}.

(** *** Election and membership *)

(** The boolean says whether the election instance starts a round. *)
Definition Election s (req : ElectionRequest) : ElectionResponse * bool :=
  match s_bully s with
  | Some b => HandleElection b req
  | None => ({| ers_NodeId := s_nodeID s; ers_Ok := true; ers_Priority := s_priority s |}, false)
  end.

Definition Coordinator io s (req : CoordinatorRequest) : CounterService D * bool :=
  match s_bully s with
  | Some b => let '(b, ok) := HandleCoordinator b req (e_now io) in (SetBully s (Some b), ok)
  | None => (s, true)
  end.

Definition JoinCluster io s (req : JoinRequest) : CounterService D * MemberList :=
  let s := match s_cluster s with
    | Some m => SetCluster s (Some (AddMember m (jr_NodeId req) (jr_Address req) (e_now io)))
    | None => s
    end in
  let members := match s_cluster s with
    | Some m => to_pb <$> GetMembers m
    | None => []
    end in
  let members :=
    if (Z.of_nat (length members) =? 0) && negb (String.eqb (jr_NodeId req) "")
    then [{| pm_NodeId := jr_NodeId req; pm_Address := jr_Address req; pm_IsActive := true;
             pm_LastHeartbeat := time_Unix (e_now io); pm_CounterValue := 0;
             pm_Status := MEMBER_ALIVE; pm_Priority := 0 |}]
    else members in
  (s, {| ml_Members := members; ml_Version := time_Unix (e_now io) |}).

(** [peer] is the transport address of the caller, when known. *)
Definition Heartbeat s (req : HeartbeatRequest) (peer : option string) :
    CounterService D * HeartbeatResponse :=
  match s_cluster s with
  | None =>
      (s, {| hr_Success := true; hr_Message := "heartbeat acknowledged"; hr_ClusterSize := 0;
             hr_ActiveMembers := [] |})
  | Some m =>
      let remoteAddress :=
        if String.eqb (hb_Address req) "" then default (hb_Address req) peer
        else hb_Address req in
      let m := AddOrUpdateMember m (hb_NodeId req) remoteAddress true
                 (unix_Time (hb_Timestamp req)) in
      let m := if 0 <? hb_Priority req
               then Membership.SetPriority m (hb_NodeId req) (hb_Priority req) else m in
      let active := to_pb <$> List.filter IsActive (GetMembers m) in
      (SetCluster s (Some m),
       {| hr_Success := true; hr_Message := "heartbeat acknowledged";
          hr_ClusterSize := Z.of_nat (length active); hr_ActiveMembers := active |})
  end.

Definition SwimPing s (messageId : Z) : SwimResponse :=
  {| sr_NodeId := s_nodeID s; sr_Alive := true; sr_MessageId := messageId |}.

(** [ping] is the outcome of dialing an address and pinging it. *)
Definition pingTarget (ping : string -> option bool) (address : string) : bool :=
  match ping address with
  | None => false
  | Some alive => alive
  end.

Definition SwimPingReq s (ping : string -> option bool) (targetId : string) (messageId : Z) :
    SwimResponse :=
  let alive := match s_cluster s with
    | None => false
    | Some m =>
        match GetMember m targetId with
        | Some target =>
            if decide (mStatus target = StatusAlive) then pingTarget ping (Address target)
            else false
        | None => false
        end
    end in
  {| sr_NodeId := s_nodeID s; sr_Alive := alive; sr_MessageId := messageId |}.

(** *** State synchronisation *)

Definition membershipGossip s : gmap string Z :=
  match s_cluster s with
  | None => ∅
  | Some m => GossipMembership m
  end.

Definition buildDeltaReply io s (update : StateUpdate) : CounterService D * StateUpdate :=
  let myClock := State (s_clock s) in
  let from := su_FromNodeId update in
  let base := MergeClock (su_VectorClock update) (default ∅ (lastSyncClock s !! from)) in
  let s := set_lastSync s
    (<[from := MergeClock myClock (su_VectorClock update)]> (lastSyncClock s)) in
  let d := DeltaFrom (Positive (s_counter s)) (Negative (s_counter s)) myClock base in
  (s, {| su_FromNodeId := s_nodeID s; su_PositiveState := deltaPos d;
         su_NegativeState := deltaNeg d; su_VectorClock := myClock;
         su_Timestamp := time_Unix (e_now io); su_Type := DELTA_UPDATE;
         su_LastSyncVersion := MaxClock base; su_Membership := membershipGossip s |}).

Definition buildFullReply io s : StateUpdate :=
  let myClock := State (s_clock s) in
  {| su_FromNodeId := s_nodeID s; su_PositiveState := Positive (s_counter s);
     su_NegativeState := Negative (s_counter s); su_VectorClock := myClock;
     su_Timestamp := time_Unix (e_now io); su_Type := FULL_STATE;
     su_LastSyncVersion := MaxClock myClock; su_Membership := membershipGossip s |}.

(** The body of the receive loop for one message: the new state and the reply,
    if one is sent. *)
Definition sync_update io s (update : StateUpdate) : CounterService D * option StateUpdate :=
  if su_Type update =? HEARTBEAT then (s, None)
  else
    let s := absorb s "" (su_PositiveState update) (su_NegativeState update)
               (su_VectorClock update) in
    let s := match s_cluster s with
      | Some m => if 0 <? Z.of_nat (size (su_Membership update))
                  then SetCluster s (Some (ApplyMembership m (su_Membership update))) else s
      | None => s
      end in
    let s := walAppend io s "merge" "" 0 (su_PositiveState update) (su_NegativeState update)
               (su_VectorClock update) in
    let s := persist io s in
    if su_Type update =? DELTA_UPDATE then
      let '(s, ack) := buildDeltaReply io s update in (s, Some ack)
    else (s, Some (buildFullReply io s)).

(** What the stream delivers: the context is cancelled, the peer closed it, the
    transport failed, or a message, with whether the reply could be sent. *)
Inductive recv :=
| RDone
| REof
| RErr
| RUpdate (io : env) (update : StateUpdate) (send_ok : bool).

(** The loop: the final state, the replies sent and whether it ended in error. *)
Fixpoint SyncState s (events : list recv) : CounterService D * list StateUpdate * bool :=
  match events with
  | [] | RDone :: _ | REof :: _ => (s, [], false)
  | RErr :: _ => (s, [], true)
  | RUpdate io update send_ok :: rest =>
      let '(s, ack) := sync_update io s update in
      match ack with
      | None => SyncState s rest
      | Some ack =>
          if send_ok then
            let '(s, acks, err) := SyncState s rest in (s, ack :: acks, err)
          else (s, [], true)
      end
  end.

End handlers.
