(* ===== verification/ServiceSpec.v ===== *)
(** * What the service's handlers do (internal/service/counter_service.go)

    The functional behaviour of the client-facing handlers, for every answer
    of the log and of the store. *)

From S2P Require Import Prelude PNCounter VectorClock Delta Membership Bully Codec Wal Store Messages.
From S2P Require Import Service.

Section frame.
Context {D : Type} `{StoreOps D}.
Variable marshal : WALEntry -> string.
Implicit Types s : CounterService D.

(** Everything but the log and the store is the same. *)
Record same_data s s' : Prop := {
  sd_nodeID : s_nodeID s' = s_nodeID s;
  sd_counter : s_counter s' = s_counter s;
  sd_clock : s_clock s' = s_clock s;
  sd_cluster : s_cluster s' = s_cluster s;
  sd_onReset : s_onReset s' = s_onReset s;
  sd_sync : lastSyncClock s' = lastSyncClock s;
  sd_tags : s_tags s' = s_tags s;
  sd_shards : counterShards s' = counterShards s;
  sd_bully : s_bully s' = s_bully s;
}.

#[export] Instance same_data_preorder : PreOrder same_data.
Proof.
  split.
  - by intros s.
  - intros s1 s2 s3 [] []. split; congruence.
Qed.

Lemma walAppend_same io s (op counter : string) (delta : Z) (pos neg clk : gmap string Z) :
  same_data s (walAppend marshal io s op counter delta pos neg clk).
Proof.
  unfold walAppend. destruct (s_wal s); [|done].
  destruct (AppendCounter _ _ _ _ _ _ _ _ _ _ _ _) as [[w1 d1] err]. by destruct s.
Qed.

Lemma persist_same io s : same_data s (persist io s).
Proof. unfold persist. destruct (s_wal s), (s_store s); [done..| |done]. by destruct s. Qed.

Lemma log_same io s (op counter : string) (delta : Z) (pos neg clk : gmap string Z) :
  same_data s (persist io (walAppend marshal io s op counter delta pos neg clk)).
Proof. etransitivity; [apply walAppend_same|apply persist_same]. Qed.

End frame.

Create HintDb service.

#[export] Hint Resolve walAppend_same persist_same log_same : service.

(** ** Counter updates *)

(** The delta a request asks for. *)
Definition asked (req : UpdateRequest) : Z := if rq_Delta req =? 0 then 1 else rq_Delta req.

(** What an update does to the counter and to the clock, and what it answers. *)
Lemma Increment_result {D : Type} `{StoreOps D} (marshal : WALEntry -> string) (io : env)
    (s : CounterService D) (req : UpdateRequest) :
  let name := normalizeName (rq_CounterName req) in
  let '(s', resp) := Increment marshal io s req in
  s_counter s' = PNCounter.IncrementName (s_counter s) name (asked req) /\
  s_clock s' = VectorClock.IncrementName (s_clock s) name /\
  cr_CounterName resp = name /\ cr_CurrentValue resp = ValueName (s_counter s') name /\
  cr_Version resp = clock_String (State (s_clock s')).
Proof.
  intros name. unfold Increment. fold name. fold (asked req). set (si := set_clock _ _).
  pose proof (log_same marshal io si "increment" name (asked req) ∅ ∅ ∅) as [_ Hi Hc _ _ _ _ _ _].
  simpl. rewrite Hi, Hc. by destruct s.
Qed.

Lemma Decrement_result {D : Type} `{StoreOps D} (marshal : WALEntry -> string) (io : env)
    (s : CounterService D) (req : UpdateRequest) :
  let name := normalizeName (rq_CounterName req) in
  let '(s', resp) := Decrement marshal io s req in
  s_counter s' = PNCounter.DecrementName (s_counter s) name (asked req) /\
  s_clock s' = VectorClock.IncrementName (s_clock s) name /\
  cr_CounterName resp = name /\ cr_CurrentValue resp = ValueName (s_counter s') name /\
  cr_Version resp = clock_String (State (s_clock s')).
Proof.
  intros name. unfold Decrement. fold name. fold (asked req). set (si := set_clock _ _).
  pose proof (log_same marshal io si "decrement" name (asked req) ∅ ∅ ∅) as [_ Hi Hc _ _ _ _ _ _].
  simpl. rewrite Hi, Hc. by destruct s.
Qed.

(** C27: The increment and decrement handlers of a node whose id has no colon,
    whatever the log and the store answer: the response carries the counter's new
    value, which is the old one plus or minus the requested delta (1 when absent)
    modulo 2^64 and which a read afterwards returns; the counter's own version
    advances by one, modulo 2^64.  Any other counter moves by the same delta if the
    updated key belongs to it, and keeps its value otherwise.  The key belongs to
    no other counter when both names are free of colons; names are not checked, and
    an update of [a:b] moves [a] too. *)
Theorem update_handlers {D : Type} `{StoreOps D} (marshal : WALEntry -> string)
    (io io' : env) (s : CounterService D) (req : UpdateRequest) :
  let name := normalizeName (rq_CounterName req) in
  let key := counterKey name (s_nodeID s) in
  colon_free (s_nodeID s) -> pn_nodeID (s_counter s) = s_nodeID s -> vc_nodeID (s_clock s) = s_nodeID s ->
  forall s' resp,
  (Increment marshal io s req = (s', resp) ->
   cr_CurrentValue resp = wrap64 (ValueName (s_counter s) name + asked req) /\
   forall other, ValueName (s_counter s') other =
     if keyBelongsTo other key then wrap64 (ValueName (s_counter s) other + asked req)
     else ValueName (s_counter s) other) /\
  (Decrement marshal io s req = (s', resp) ->
   cr_CurrentValue resp = wrap64 (ValueName (s_counter s) name - asked req) /\
   forall other, ValueName (s_counter s') other =
     if keyBelongsTo other key then wrap64 (ValueName (s_counter s) other - asked req)
     else ValueName (s_counter s) other) /\
  (Increment marshal io s req = (s', resp) \/
   Decrement marshal io s req = (s', resp) ->
   cr_CounterName resp = name /\
   cr_CurrentValue (GetValue io' s' (rq_CounterName req)) = cr_CurrentValue resp /\
   (clock (s_clock s')).[key] = wrap64 ((clock (s_clock s)).[key] + 1)) /\
  (forall other, colon_free name -> colon_free other -> same_counter name other = false ->
   keyBelongsTo other key = false) /\
  (forall parent sub, is_default parent = false -> name = parent +:+ ":" +:+ sub ->
   keyBelongsTo parent key = true).
Proof.
  intros name key Hn Hpn Hvc s' resp.
  pose proof (Increment_result marshal io s req) as Hi. pose proof (Decrement_result marshal io s req) as Hd.
  cbv zeta in Hi, Hd. fold name in Hi, Hd.
  assert ((clock (VectorClock.IncrementName (s_clock s) name)).[key] = wrap64 ((clock (s_clock s)).[key] + 1)) as Hck
    by (simpl; by rewrite Hvc, add_at_get, decide_True by done).
  split_and!.
  - intros E. rewrite E in Hi. destruct Hi as (Ec & _ & _ & -> & _). rewrite Ec. split.
    + apply ValueName_increment. by rewrite Hpn.
    + intros other. by rewrite ValueName_incremented, Hpn.
  - intros E. rewrite E in Hd. destruct Hd as (Ec & _ & _ & -> & _). rewrite Ec. split.
    + apply ValueName_decrement. by rewrite Hpn.
    + intros other. by rewrite ValueName_decremented, Hpn.
  - intros [E|E]; rewrite E in *; [destruct Hi as (Ec & Ek & En & -> & _)|destruct Hd as (Ec & Ek & En & -> & _)];
      (split_and!; [done|done|by rewrite Ek]).
  - intros other H1 H2. by apply counterKey_foreign.
  - intros parent sub H1 H2. unfold key. rewrite H2. by apply counterKey_nested.
Qed.

(** The reset handler zeroes the named counter and reports zero, leaves the
    other counters' values, drops every per-sender baseline and invokes the
    reset callback exactly when one is registered. *)
Theorem reset_handler {D : Type} `{StoreOps D} (marshal : WALEntry -> string)
    (io : env) (s s' : CounterService D)
    (counterName other : string) (resp : CounterResponse) (called : bool) :
  Reset marshal io s counterName = (s', resp, called) ->
  let name := normalizeName counterName in
  cr_CurrentValue resp = 0 /\ ValueName (s_counter s') name = 0 /\ lastSyncClock s' = ∅ /\
  called = s_onReset s /\
  (forall k, keyBelongsTo name k = true -> (clock (s_clock s')).[k] = 0) /\
  (colon_free name -> colon_free other -> same_counter name other = false ->
   ValueName (s_counter s') other = ValueName (s_counter s) other).
Proof.
  unfold Reset. set (name := normalizeName counterName). set (sr := set_lastSync _ _).
  pose proof (log_same marshal io sr "reset" name 0 ∅ ∅ ∅) as [_ Hc Hk _ _ Hl _ _ _].
  assert (s_counter sr = PNCounter.ResetName (s_counter s) name) as Ec by (by destruct s).
  assert (s_clock sr = VectorClock.ResetName (s_clock s) name) as Ek by (by destruct s).
  assert (lastSyncClock sr = ∅ /\ s_onReset sr = s_onReset s) as [El Eo] by (by destruct s).
  intros [= <- <- <-]. simpl. rewrite Hc, Hk, Hl, Ec, Ek, El, Eo, ValueName_reset.
  split_and!; try done.
  - intros k Hk'. unfold VectorClock.ResetName, keyBelongsTo in *.
    destruct (is_default name); simpl; by rewrite delete_where_get, Hk'.
  - apply ValueName_reset_other.
Qed.

(** ** Listing *)

Lemma fnv32a_range (name : string) (h : Z) :
  0 <= h < 2 ^ 32 -> 0 <= fnv32a h name < 2 ^ 32.
Proof.
  revert h. induction name as [|c name IH]; intros h Hh; simpl; [done|].
  apply IH. unfold wrapu32. apply Z.mod_pos_bound. lia.
Qed.

Lemma Shard_range {D : Type} (s : CounterService D) (name : string) :
  1 <= counterShards s < 2 ^ 32 ->
  exists k, Shard s name = Some k /\ 0 <= k < counterShards s.
Proof.
  intros Hn. unfold Shard. destruct (Z.leb_spec (counterShards s) 1).
  { exists 0. split; [done|lia]. }
  unfold wrapu32. rewrite Z.mod_small by lia.
  destruct (Z.eqb_spec (counterShards s) 0); [lia|].
  eexists. split; [done|]. apply Z.mod_pos_bound. lia.
Qed.

Section listing.
Context {D : Type} `{StoreOps D}.
Implicit Types s : CounterService D.

(** The counters the handler lists: those with keys of their own or with tags, and
    the default one when its value is not zero or nothing else is known.  (The
    comment in the handler says "whenever it holds state"; the code tests the
    value.) *)
Definition known_counter s (n : string) : Prop :=
  n ∈ PNCounter.Names (s_counter s) \/ n ∈ dom (s_tags s) \/
  (n = defaultCounter /\
   (ValueName (s_counter s) defaultCounter <> 0 \/
    PNCounter.Names (s_counter s) = [] /\ s_tags s = ∅)).

Lemma names_fold (l : list string) (acc : gset string) (n : string) :
  n ∈ foldl (fun acc n => {[n]} ∪ acc) acc l <-> n ∈ l \/ n ∈ acc.
Proof. revert acc. induction l as [|x l IH]; intros acc; simpl; [set_solver|]. rewrite IH. set_solver. Qed.

Lemma tags_fold (tags : gmap string (list string)) (acc : gset string) (n : string) :
  n ∈ range (fun n _ acc => {[n]} ∪ acc) tags acc <-> n ∈ dom tags \/ n ∈ acc.
Proof.
  revert n. match goal with |- context [range ?f tags acc] =>
    apply (range_ind f (fun m b => forall n, n ∈ b <-> n ∈ dom m \/ n ∈ acc)) end.
  - intros n. rewrite dom_empty. set_solver.
  - intros k v m b _ IH n. rewrite dom_insert, elem_of_union, IH. set_solver.
Qed.

Lemma listed_names_spec s (n : string) : n ∈ listed_names s <-> known_counter s n.
Proof.
  unfold listed_names, known_counter.
  set (base := range _ (s_tags s) _).
  assert (forall n, n ∈ base <-> n ∈ dom (s_tags s) \/ n ∈ PNCounter.Names (s_counter s)) as Hb.
  { intros m. unfold base. rewrite tags_fold, names_fold. set_solver. }
  set (dv := ValueName (s_counter s) defaultCounter).
  assert ((0 <? Z.of_nat (length (default [] (s_tags s !! defaultCounter)))) = true ->
          defaultCounter ∈ dom (s_tags s)) as Ht.
  { destruct (s_tags s !! defaultCounter) as [l|] eqn:Hl; [|done]. intros _.
    by apply elem_of_dom_2 in Hl. }
  set (lt := 0 <? _) in *.
  assert (Z.of_nat (size base) = 0 <-> PNCounter.Names (s_counter s) = [] /\ s_tags s = ∅) as Hz.
  { split.
    - intros H0. assert (base = ∅) as He by (apply leibniz_equiv, size_empty_inv; lia).
      split.
      + destruct (PNCounter.Names (s_counter s)) as [|x l]; [done|].
        assert (x ∈ base) by (apply Hb; right; by left). set_solver.
      + apply dom_empty_inv_L. apply set_eq. intros x. specialize (Hb x). set_solver.
    - intros [H1 H2]. assert (base = ∅) as ->; [|done].
      apply set_eq. intros x. rewrite Hb, H1, H2, dom_empty_L. set_solver. }
  destruct (Z.eqb_spec dv 0) as [Hdv|Hdv]; simpl.
  - destruct lt; simpl.
    + rewrite (proj2 (Z.eqb_neq _ _)); [rewrite elem_of_union, Hb; set_solver|].
      assert (defaultCounter ∈ {[defaultCounter]} ∪ base) as Hin by set_solver.
      intros H0. assert (({[defaultCounter]} ∪ base : gset string) ≡ ∅) by (apply size_empty_inv; lia).
      set_solver.
    + destruct (Z.eqb_spec (Z.of_nat (size base)) 0) as [H0|H0].
      * apply Hz in H0. rewrite elem_of_union, Hb. set_solver.
      * rewrite Hb. set_solver.
  - rewrite (proj2 (Z.eqb_neq _ _)); [rewrite elem_of_union, Hb; set_solver|].
    intros H0. assert (({[defaultCounter]} ∪ base : gset string) ≡ ∅) by (apply size_empty_inv; lia).
    set_solver.
Qed.

Lemma mapM_info s (l : list string) :
  1 <= counterShards s < 2 ^ 32 ->
  exists res, mapM (buildCounterInfo s) l = Some res /\ ci_Name <$> res = l /\
    Forall (fun i => buildCounterInfo s (ci_Name i) = Some i) res.
Proof.
  intros Hn. induction l as [|x l (res & IH1 & IH2 & IH3)]; [by exists []|].
  destruct (Shard_range s x Hn) as (k & Hk & _).
  assert (exists i, buildCounterInfo s x = Some i /\ ci_Name i = x) as (i & Hi & Hix).
  { unfold buildCounterInfo. rewrite Hk. by eexists. }
  exists (i :: res). split; [simpl; rewrite Hi; simpl; by rewrite IH1|]. split.
  - by rewrite fmap_cons, Hix, IH2.
  - constructor; [by rewrite Hix|done].
Qed.

End listing.

(** C28: Listing counters: with a shard count of at least one and below 2^32 the
    handler always answers; the answer is sorted by name without duplicates and lists, with
    its current value, its tags and a shard below the shard count, exactly each
    known counter that carries the requested tag, if one is given. *)
Theorem ListCounters_spec {D : Type} `{StoreOps D} (s : CounterService D) (tag : string) :
  1 <= counterShards s < 2 ^ 32 ->
  exists res, ListCounters s tag = Some res /\
    Sorted name_le res /\ NoDup (ci_Name <$> res) /\
    (forall n, n ∈ ci_Name <$> res <->
       known_counter s n /\ (tag = "" \/ tag ∈ default [] (s_tags s !! n))) /\
    Forall (fun i => ci_CurrentValue i = ValueName (s_counter s) (ci_Name i) /\
                     ci_Tags i = default [] (s_tags s !! ci_Name i) /\
                     0 <= ci_Shard i < counterShards s) res.
Proof.
  intros Hn. unfold ListCounters. rewrite copy_map_id.
  set (l := List.filter _ _).
  destruct (mapM_info s l Hn) as (res & -> & Hnames & Hall). simpl.
  eexists. split; [done|].
  pose proof (merge_sort_Permutation name_le res) as Hperm.
  assert (ci_Name <$> merge_sort name_le res ≡ₚ l) as Hp by (by rewrite <- Hnames; apply fmap_Permutation).
  split_and!.
  - apply Sorted_merge_sort. intros a b. unfold name_le. apply total, _.
  - rewrite Hp. unfold l. apply NoDup_ListNoDup, List.NoDup_filter, NoDup_ListNoDup, NoDup_elements.
  - intros n. rewrite Hp. unfold l. rewrite list_elem_of_In, filter_In, <- list_elem_of_In.
    rewrite elem_of_elements, listed_names_spec. rewrite orb_true_iff, String.eqb_eq.
    apply and_iff_compat_l, or_iff_compat_l. unfold containsTag. rewrite existsb_exists.
    split.
    + intros (t & Ht & Heq). apply String.eqb_eq in Heq as ->. by apply list_elem_of_In.
    + intros Ht. exists tag. split; [by apply list_elem_of_In|apply String.eqb_refl].
  - rewrite Hperm. eapply Forall_impl; [exact Hall|]. simpl. intros i Hi.
    unfold buildCounterInfo in Hi. destruct (Shard_range s (ci_Name i) Hn) as (k & Hk & Hr).
    rewrite Hk in Hi. simpl in Hi. injection Hi as Hi. rewrite <- Hi. by simpl.
Qed.

(** ** Membership handlers *)

Lemma GetMembers_elem (m : Membership) (mem : Member) :
  mem ∈ GetMembers m <-> exists id, members m !! id = Some mem.
Proof. unfold GetMembers. rewrite append_range_elem. naive_solver. Qed.

Lemma AddOrUpdateMember_alive (m : Membership) (id address : string) (t : Z) :
  membership_ok m ->
  exists mem, members (AddOrUpdateMember m id address true t) !! id = Some mem /\
    mStatus mem = StatusAlive /\ Address mem = address /\ LastHeartbeat mem = t /\ ID mem = id.
Proof.
  intros Hm. unfold AddOrUpdateMember, AddOrUpdateMemberStatus.
  destruct (members m !! id) as [mem|] eqn:Hid; simpl; rewrite lookup_insert_eq; eexists;
    (split; [done|]); simpl; split_and!; try done. by apply (Hm id mem).
Qed.

(** The table after a heartbeat from [id]. *)
Definition after_heartbeat (m : Membership) (id addr : string) (t priority : Z) : Membership :=
  let m := AddOrUpdateMember m id addr true t in
  if 0 <? priority then Membership.SetPriority m id priority else m.

Lemma after_heartbeat_ok (m : Membership) (id addr : string) (t priority : Z) :
  membership_ok m -> membership_ok (after_heartbeat m id addr t priority).
Proof.
  intros Hok. pose proof (exec_ok m (OpAdd id addr true t) Hok) as H1.
  unfold after_heartbeat. destruct (0 <? priority); [|exact H1].
  exact (exec_ok _ (OpPriority id priority) H1).
Qed.

Lemma after_heartbeat_sender (m : Membership) (id addr : string) (t priority : Z) :
  membership_ok m ->
  exists mem, members (after_heartbeat m id addr t priority) !! id = Some mem /\
    mStatus mem = StatusAlive /\ Address mem = addr /\ LastHeartbeat mem = t /\
    (0 < priority -> Priority mem = priority).
Proof.
  intros Hok. destruct (AddOrUpdateMember_alive m id addr t Hok) as (mem & Hmem & Hs & Ha & Ht & _).
  unfold after_heartbeat. destruct (Z.ltb_spec 0 priority).
  - unfold Membership.SetPriority. rewrite on_member_lookup, decide_True, Hmem by done. by eexists.
  - exists mem. split_and!; try done. lia.
Qed.

Lemma after_heartbeat_other (m : Membership) (id addr : string) (t priority : Z) (j : string) :
  j <> id -> members (after_heartbeat m id addr t priority) !! j = members m !! j.
Proof.
  intros Hj. unfold after_heartbeat.
  assert (members (AddOrUpdateMember m id addr true t) !! j = members m !! j) as H.
  { unfold AddOrUpdateMember, AddOrUpdateMemberStatus.
    destruct (members m !! id); simpl; by rewrite lookup_insert_ne. }
  destruct (0 <? priority); [|done]. unfold Membership.SetPriority.
  by rewrite on_member_lookup, decide_False by done.
Qed.

Lemma active_members_elem (m : Membership) (p : pbMember) :
  membership_ok m ->
  p ∈ to_pb <$> List.filter IsActive (GetMembers m) <->
  exists id x, members m !! id = Some x /\ mStatus x = StatusAlive /\ p = to_pb x.
Proof.
  intros Hok. rewrite list_elem_of_fmap. split.
  - intros (x & -> & Hx). rewrite list_elem_of_In, filter_In, <- list_elem_of_In, GetMembers_elem in Hx.
    destruct Hx as [[id Hid] Hx]. exists id, x. split_and!; try done.
    destruct (Hok id x Hid) as (_ & Hi & _). rewrite Hi in Hx. by apply bool_decide_eq_true in Hx.
  - intros (id & x & Hid & Hx & ->). exists x. split; [done|].
    rewrite list_elem_of_In, filter_In, <- list_elem_of_In, GetMembers_elem. split; [by exists id|].
    destruct (Hok id x Hid) as (_ & -> & _). by apply bool_decide_eq_true_2.
Qed.

(** A heartbeat registers its sender: afterwards the sender is an Alive
    member at its advertised address (the transport address when it advertises
    none), every other member is as before, and the response lists exactly the
    active members, the sender included, and counts them. *)
Theorem Heartbeat_registers {D : Type} `{StoreOps D} (s s' : CounterService D) (m : Membership)
    (req : HeartbeatRequest) (peer : option string) (resp : HeartbeatResponse) :
  s_cluster s = Some m -> membership_ok m -> Heartbeat s req peer = (s', resp) ->
  exists m' mem, s_cluster s' = Some m' /\ membership_ok m' /\
    members m' !! hb_NodeId req = Some mem /\ mStatus mem = StatusAlive /\
    Address mem = (if String.eqb (hb_Address req) "" then default "" peer else hb_Address req) /\
    LastHeartbeat mem = unix_Time (hb_Timestamp req) /\
    (0 < hb_Priority req -> Priority mem = hb_Priority req) /\
    (forall id, id <> hb_NodeId req -> members m' !! id = members m !! id) /\
    (forall p, p ∈ hr_ActiveMembers resp <->
       exists id x, members m' !! id = Some x /\ mStatus x = StatusAlive /\ p = to_pb x) /\
    to_pb mem ∈ hr_ActiveMembers resp /\
    hr_ClusterSize resp = Z.of_nat (length (hr_ActiveMembers resp)).
Proof.
  intros Hm Hok. unfold Heartbeat. rewrite Hm.
  set (addr := if String.eqb (hb_Address req) "" then default (hb_Address req) peer
               else hb_Address req).
  set (t := unix_Time (hb_Timestamp req)). intros Hrun.
  set (m2 := after_heartbeat m (hb_NodeId req) addr t (hb_Priority req)).
  change (_ = (s', resp)) with ((SetCluster s (Some m2), mkHeartbeatResponse true
    "heartbeat acknowledged" (Z.of_nat (length (to_pb <$> List.filter IsActive (GetMembers m2))))
    (to_pb <$> List.filter IsActive (GetMembers m2))) = (s', resp)) in Hrun.
  injection Hrun as <- <-.
  assert (membership_ok m2) as Hok2 by (by apply after_heartbeat_ok).
  destruct (after_heartbeat_sender m (hb_NodeId req) addr t (hb_Priority req) Hok)
    as (mem & Hmem & Hs & Ha & Ht & Hp).
  exists m2, mem. split_and!; try done.
  - by destruct s.
  - rewrite Ha. unfold addr. destruct (String.eqb_spec (hb_Address req) "") as [->|]; done.
  - intros id. by apply after_heartbeat_other.
  - intros p. by apply active_members_elem.
  - apply active_members_elem; [done|]. by exists (hb_NodeId req), mem.
Qed.

(** ** Witnesses *)

(** The stores of the examples hold their snapshots in a Redis with the toy codec. *)
Definition ex_ops : StoreOps RedisStore := redis_ops.

Definition ex_service : CounterService RedisStore :=
  SetCluster (SetWAL (NewCounterService "node-a" 50051 ∅) (Some (mkWALStore "data" None 0)))
    (Some (AddMember (NewMembership "node-a") "node-a" "host-a:50051" 7)).

Lemma update_handlers_witness :
  cr_CurrentValue (@Increment _ ex_ops marshal_entry (mkEnv 5 AppendOpenErr StoreOk true)
    ex_service (mkUpdateRequest 4 "" 0 "likes")).2 = 4.
Proof.
  pose proof (@update_handlers _ ex_ops marshal_entry (mkEnv 5 AppendOpenErr StoreOk true)
    (calm 6) ex_service (mkUpdateRequest 4 "" 0 "likes") eq_refl eq_refl eq_refl) as H.
  rewrite (proj1 (proj1 (H _ _) (surjective_pairing _))). reflexivity.
Defined.

Lemma reset_handler_witness :
  let s := (@Increment _ ex_ops marshal_entry (calm 5) ex_service
              (mkUpdateRequest 4 "" 0 "likes")).1 in
  ValueName (s_counter (@Reset _ ex_ops marshal_entry (calm 6) s "likes").1.1) "likes" = 0.
Proof.
  intros s. destruct (@Reset _ ex_ops marshal_entry (calm 6) s "likes")
    as [[s' resp] called] eqn:E. apply (@reset_handler _ ex_ops _ _ _ _ _ "views" _ _ E).
Defined.

Lemma ListCounters_spec_witness :
  exists res, ListCounters ex_service "" = Some res /\ "default" ∈ ci_Name <$> res.
Proof.
  destruct (@ListCounters_spec _ ex_ops ex_service "" ltac:(split; vm_compute; congruence))
    as (res & Hr & _ & _ & Hn & _).
  exists res. split; [exact Hr|]. apply Hn. split; [|left; reflexivity].
  right. right. split; [reflexivity|]. right. split; vm_compute; reflexivity.
Defined.

Lemma Heartbeat_registers_witness :
  exists m', s_cluster (Heartbeat ex_service (mkHeartbeatRequest "node-b" 0 9 "host-b:1" 2 "") None).1
    = Some m' /\ members m' !! "node-b" = Some (mkMember "node-b" "host-b:1" StatusAlive true 0
      (unix_Time 9) 0 2).
Proof.
  destruct (@Heartbeat_registers _ ex_ops ex_service _ _ (mkHeartbeatRequest "node-b" 0 9 "host-b:1" 2 "")
    None _ eq_refl ltac:(by_eval) (surjective_pairing _)) as (m' & mem & Hm & _ & Hmem & _).
  exists m'. split; [exact Hm|].
  assert (Some m' = Some (Membership.SetPriority (AddOrUpdateMember (AddMember (NewMembership "node-a")
    "node-a" "host-a:50051" 7) "node-b" "host-b:1" true (unix_Time 9)) "node-b" 2)) as E
    by (rewrite <- Hm; reflexivity).
  injection E as ->. vm_compute. reflexivity.
Defined.
