(* ===== verification/Durability.v ===== *)
(** * Crash recovery (service, write-ahead log and snapshot store together)

    The start-up sequence of cmd/server/main.go and the proof that restarts do
    not change what a replica knows: the service with a log and a store refines
    a volatile replica that never crashes. *)

From S2P Require Import Prelude PNCounter VectorClock Delta Membership Bully Codec Wal Store Messages.
From S2P Require Import Service ServiceSpec.

(** ** The volatile replica *)

(** The replicated data of a node. *)
Abbreviation replica := (PNCounter * VectorClock)%type.

(** Same counts and versions, for the same node. *)
Definition data_sim (a b : replica) : Prop :=
  pn_sim a.1 b.1 /\ clock a.2 ≈ clock b.2 /\
  pn_nodeID a.1 = pn_nodeID b.1 /\ vc_nodeID a.2 = vc_nodeID b.2.

#[export] Instance data_sim_equivalence : Equivalence data_sim.
Proof.
  split.
  - intros a. split_and!; reflexivity.
  - intros a b (H1 & H2 & H3 & H4). split_and!; by symmetry.
  - intros a b c (H1 & H2 & H3 & H4) (H5 & H6 & H7 & H8). split_and!; etrans; eauto.
Qed.

Definition data_wf (a : replica) : Prop := pn_wf a.1 /\ vc_wf a.2.

#[export] Instance data_wf_proper : Proper (data_sim ==> iff) data_wf.
Proof.
  intros a b ([H1 H2] & H3 & _ & _). unfold data_wf, pn_wf, vc_wf. by rewrite H1, H2, H3.
Qed.

Definition data {D : Type} (s : CounterService D) : replica := (s_counter s, s_clock s).

Definition incremented (a : replica) (name : string) (d : Z) : replica :=
  (PNCounter.IncrementName a.1 name d, VectorClock.IncrementName a.2 name).

Definition decremented (a : replica) (name : string) (d : Z) : replica :=
  (PNCounter.DecrementName a.1 name d, VectorClock.IncrementName a.2 name).

Definition cleared (a : replica) (name : string) : replica :=
  (PNCounter.ResetName a.1 name, VectorClock.ResetName a.2 name).

Definition merged (a : replica) (pos neg clk : gmap string Z) : replica :=
  (PNCounter.Merge a.1 (remote_counter "" pos neg), MergeMap a.2 clk).

Lemma add_at_sim (m1 m2 : gmap string Z) (k : string) (d : Z) :
  m1 ≈ m2 -> add_at m1 k d ≈ add_at m2 k d.
Proof. intros H j. by rewrite !add_at_get, !H. Qed.

Lemma delete_where_sim (p : string -> bool) (m1 m2 : gmap string Z) :
  m1 ≈ m2 -> delete_where p m1 ≈ delete_where p m2.
Proof. intros H j. by rewrite !delete_where_get, H. Qed.

Lemma max_into_sim_dst (src m1 m2 : gmap string Z) :
  m1 ≈ m2 -> max_into src m1 ≈ max_into src m2.
Proof. intros H j. rewrite !max_into_get. by rewrite H. Qed.

#[export] Hint Resolve add_at_sim delete_where_sim max_into_sim_dst : gomap.

Lemma incremented_sim (a b : replica) (name : string) (d : Z) :
  data_sim a b -> data_sim (incremented a name d) (incremented b name d).
Proof.
  intros ([H1 H2] & H3 & H4 & H5). split_and!; simpl; try done;
    [split; simpl; [rewrite H4|done]|rewrite H5]; auto with gomap.
Qed.

Lemma decremented_sim (a b : replica) (name : string) (d : Z) :
  data_sim a b -> data_sim (decremented a name d) (decremented b name d).
Proof.
  intros ([H1 H2] & H3 & H4 & H5). split_and!; simpl; try done;
    [split; simpl; [done|rewrite H4]|rewrite H5]; auto with gomap.
Qed.

Lemma ResetName_nodeID (p : PNCounter) (v : VectorClock) (name : string) :
  pn_nodeID (PNCounter.ResetName p name) = pn_nodeID p /\
  vc_nodeID (VectorClock.ResetName v name) = vc_nodeID v.
Proof. unfold PNCounter.ResetName, VectorClock.ResetName. by destruct (is_default name). Qed.

Lemma cleared_sim (a b : replica) (name : string) :
  data_sim a b -> data_sim (cleared a name) (cleared b name).
Proof.
  intros ([H1 H2] & H3 & H4 & H5). unfold cleared.
  destruct (ResetName_nodeID a.1 a.2 name) as [Ha Ha'].
  destruct (ResetName_nodeID b.1 b.2 name) as [Hb Hb'].
  split_and!; simpl; [|rewrite !ResetName_clock; auto with gomap|congruence..].
  split; rewrite ?ResetName_positive, ?ResetName_negative; auto with gomap.
Qed.

Lemma merged_sim (a b : replica) (pos neg clk : gmap string Z) :
  data_sim a b -> data_sim (merged a pos neg clk) (merged b pos neg clk).
Proof.
  intros ([H1 H2] & H3 & H4 & H5). unfold merged. rewrite remote_counter_eq.
  split_and!; simpl; try done; [split; simpl|]; auto with gomap.
Qed.

(** One logged mutation. *)
Definition replayed (a : replica) (e : WALEntry) : replica :=
  if String.eqb (Op e) "increment" then incremented a (Counter e) (Codec.Delta e)
  else if String.eqb (Op e) "decrement" then decremented a (Counter e) (Codec.Delta e)
  else if String.eqb (Op e) "reset" then cleared a (Counter e)
  else if String.eqb (Op e) "merge" then merged a (ePositive e) (eNegative e) (eClock e)
  else a.

Lemma replayed_sim (a b : replica) (e : WALEntry) :
  data_sim a b -> data_sim (replayed a e) (replayed b e).
Proof.
  intros Hab. unfold replayed. repeat case_match; try done;
    by auto using incremented_sim, decremented_sim, cleared_sim, merged_sim.
Qed.

Lemma replayed_nodeID (a : replica) (e : WALEntry) :
  pn_nodeID (replayed a e).1 = pn_nodeID a.1 /\ vc_nodeID (replayed a e).2 = vc_nodeID a.2.
Proof.
  unfold replayed, cleared. repeat case_match; simpl; try done. apply ResetName_nodeID.
Qed.

Lemma replay_entry_data {D : Type} (s : CounterService D) (e : WALEntry) :
  data (replay_entry s e) = replayed (data s) e /\ s_nodeID (replay_entry s e) = s_nodeID s /\
  s_wal (replay_entry s e) = s_wal s /\ s_store (replay_entry s e) = s_store s /\
  files (replay_entry s e) = files s.
Proof.
  unfold replay_entry, replayed, absorb. destruct s; simpl. by repeat case_match.
Qed.

Lemma replay_entries_data {D : Type} (s : CounterService D) (es : list WALEntry) :
  data (foldl replay_entry s es) = foldl replayed (data s) es /\
  s_nodeID (foldl replay_entry s es) = s_nodeID s /\
  s_wal (foldl replay_entry s es) = s_wal s /\ s_store (foldl replay_entry s es) = s_store s /\
  files (foldl replay_entry s es) = files s.
Proof.
  revert s. induction es as [|e es IH]; intros s; [done|]. simpl.
  destruct (replay_entry_data s e) as (H1 & H2 & H3 & H4 & H5).
  destruct (IH (replay_entry s e)) as (I1 & I2 & I3 & I4 & I5).
  split_and!; congruence.
Qed.

(** ** Start-up (cmd/server/main.go) *)

(** What the environment answers at start-up. *)
Record boot_env := mkBootEnv { load_ok : bool; mkdir_ok : bool; open_ok : bool }.

Section boot.
Context {D : Type} `{StoreOps D}.
Variable unmarshal : string -> option WALEntry.

(** The part of [main] that builds the service and recovers its state: the
    snapshot is restored, then the log is opened and replayed over it. *)
Definition startup (nodeID : string) (port shards : Z) (store : option D) (walDir : option string)
    (fs : disk) (io : boot_env) : CounterService D :=
  let s := NewCounterService nodeID port fs in
  let s := SetShardCount s shards in
  let s := match store with
    | None => s
    | Some d =>
        let s := SetStore s (Some d) in
        match Load d nodeID (load_ok io) with
        | inr _ => s
        | inl persisted => Restore s persisted
        end
    end in
  match walDir with
  | None => s
  | Some dir =>
      match NewWALStore dir (mkdir_ok io) with
      | inr _ => s
      | inl w => (ReplayWAL unmarshal (SetWAL s (Some w)) (open_ok io)).1
      end
  end.

End boot.

(** ** What the disk and the store remember *)

(** The data a snapshot restores on a fresh node. *)
Definition restored (nodeID : string) (snap : option CounterState) : replica :=
  match snap with
  | None => (NewPNCounter nodeID, NewVectorClock nodeID)
  | Some st => merged (NewPNCounter nodeID, NewVectorClock nodeID)
                 (st_Positive st) (st_Negative st) (st_Clock st)
  end.

Lemma restored_snapshot (nodeID : string) (c : PNCounter) (k : VectorClock)
    (tags : gmap string (list string)) :
  data_wf (c, k) -> pn_nodeID c = nodeID -> vc_nodeID k = nodeID ->
  data_sim (c, k)
    (restored nodeID (Some (mkCounterState (Positive c) (Negative c) (State k) tags))).
Proof.
  intros [[H1 H2] H3] Hc Hk. simpl. unfold merged, Positive, Negative, State.
  rewrite remote_counter_eq, !copy_map_id.
  assert (forall m, nonneg m -> m ≈ max_into m ∅) as Hmax.
  { intros m Hm j. rewrite max_into_get_nonneg by apply nonneg_empty. rewrite get0_empty.
    specialize (Hm j). lia. }
  split_and!; simpl; try done; [split; simpl|]; by apply Hmax.
Qed.

Section durable.
Context {D : Type} `{SO : StoreOps D} `{ST : !Store D}.
Variable marshal : WALEntry -> string.
Variable unmarshal : string -> option WALEntry.
Context `{EC : !EntryCodec marshal unmarshal}.
Variable nodeID : string.
Variable walDir : string.
Implicit Types s : CounterService D.

(** What the store, if there is one, keeps for the node. *)
Definition keeps (store : option D) (snap : option CounterState) : Prop :=
  match store with
  | Some d => Load d nodeID true = inl snap
  | None => snap = None
  end.

(** The log holds the entries [es] and the store the snapshot [snap]. *)
Record logged s (snap : option CounterState) (es : list WALEntry) : Prop := {
  lg_node : s_nodeID s = nodeID;
  lg_wal : exists w, s_wal s = Some w /\ dir w = walDir /\ wal_repr marshal w (files s) nodeID es;
  lg_store : keeps (s_store s) snap;
  lg_ok : Forall entry_ok es;
  lg_fits : Forall (fits marshal) es;
}.

(** The node logs, and when it is [clean] its data can be rebuilt from the disk
    and the store; data merged without being logged makes it unclean. *)
Definition durable (clean : bool) s : Prop :=
  data_wf (data s) /\ (pn_nodeID (s_counter s) = nodeID /\ vc_nodeID (s_clock s) = nodeID) /\
  exists snap es, logged s snap es /\
    (clean = true -> data_sim (data s) (foldl replayed (restored nodeID snap) es)).

Lemma logged_same s s' (snap : option CounterState) (es : list WALEntry) :
  logged s snap es -> s_nodeID s' = s_nodeID s -> s_wal s' = s_wal s -> files s' = files s ->
  s_store s' = s_store s -> logged s' snap es.
Proof. intros [H1 H2 H3 H4 H5] E1 E2 E3 E4. split; [congruence|rewrite E2, E3|rewrite E4|..]; done. Qed.

(** The entry the next append writes. *)
Definition next_entry s (op counter : string) (delta : Z) (pos neg clk : gmap string Z)
    (now : Z) : WALEntry :=
  appended (default (mkWALStore walDir None 0) (s_wal s)) counter op delta pos neg clk now.

(** The append is representable: its numbers, strings and length are in range. *)
Definition loggable s (e : WALEntry) : Prop :=
  entry_ok e /\ fits marshal e /\
  Wal.seq (default (mkWALStore walDir None 0) (s_wal s)) + 1 < 2 ^ 64.

Lemma log_logged s (snap : option CounterState) (es : list WALEntry) (op counter : string)
    (delta : Z) (pos neg clk : gmap string Z) (now : Z) :
  logged s snap es -> loggable s (next_entry s op counter delta pos neg clk now) ->
  logged (persist (calm now) (walAppend marshal (calm now) s op counter delta pos neg clk)) snap
    (es ++ [next_entry s op counter delta pos neg clk now]).
Proof.
  intros [H1 (w & Hw & Hdir & Hrepr) H3 H4 H5] (Hok & Hfit & Hseq).
  unfold next_entry, loggable in *. unfold walAppend. rewrite Hw in *. simpl in *.
  pose proof (AppendCounter_repr marshal w (files s) nodeID counter op delta pos neg clk now es
    Hrepr Hseq) as HA. rewrite H1.
  destruct (AppendCounter _ _ _ _ _ _ _ _ _ _ _ _) as [[w' d'] err].
  destruct HA as (_ & Hdir' & _ & _ & Hrepr').
  assert (persist (calm now) (set_log s w' d') = set_log s w' d') as -> by (by destruct s).
  split.
  - by destruct s.
  - exists w'. split; [by destruct s|]. split; [congruence|]. by destruct s.
  - by destruct s.
  - apply Forall_app. by rewrite Forall_singleton.
  - apply Forall_app. by rewrite Forall_singleton.
Qed.

(** A mutation followed by its log entry keeps the node durable. *)
Lemma mutation_durable (c : bool) s s1 (op counter : string) (delta : Z) (pos neg clk : gmap string Z)
    (now : Z) :
  durable c s -> data_wf (data s1) ->
  data s1 = replayed (data s) (next_entry s op counter delta pos neg clk now) ->
  s_nodeID s1 = s_nodeID s -> s_wal s1 = s_wal s -> files s1 = files s -> s_store s1 = s_store s ->
  loggable s (next_entry s op counter delta pos neg clk now) ->
  let s' := persist (calm now) (walAppend marshal (calm now) s1 op counter delta pos neg clk) in
  durable c s' /\ data s' = replayed (data s) (next_entry s op counter delta pos neg clk now).
Proof.
  intros (_ & [Hn1 Hn2] & snap & es & Hlog & Hsim) Hwf Hdata E1 E2 E3 E4 Hlg. simpl.
  assert (next_entry s1 op counter delta pos neg clk now =
          next_entry s op counter delta pos neg clk now) as Ene by (unfold next_entry; by rewrite E2).
  assert (data (persist (calm now) (walAppend marshal (calm now) s1 op counter delta pos neg clk))
          = data s1) as Hd.
  { destruct (log_same marshal (calm now) s1 op counter delta pos neg clk).
    unfold data. congruence. }
  split; [|by rewrite Hd, Hdata]. split; [by rewrite Hd|]. split.
  { rewrite Hdata in Hd. destruct (replayed_nodeID (data s) (next_entry s op counter delta pos neg clk now))
      as [I1 I2]. rewrite <- Hd in I1, I2. simpl in I1, I2. split; congruence. }
  eexists snap, _. split.
  - apply log_logged; [by eapply logged_same|]. unfold loggable. by rewrite Ene, E2.
  - intros Hc. rewrite Hd, Hdata, Ene, foldl_snoc. by apply replayed_sim, Hsim.
Qed.

Lemma startup_data (port shards : Z) (store : option D) (fs : disk) (snap : option CounterState)
    (es : list WALEntry) (w : WALStore) :
  keeps store snap -> dir w = walDir -> wal_repr marshal w fs nodeID es ->
  Forall entry_ok es -> Forall (fits marshal) es ->
  let s := startup unmarshal nodeID port shards store (Some walDir) fs (mkBootEnv true true true) in
  data s = foldl replayed (restored nodeID snap) es /\ logged s snap es /\ s_store s = store.
Proof.
  intros Hload Hdir [Hfile _ _ _] Hok Hfit. unfold startup. simpl.
  match goal with |- context [SetWAL ?x _] => set (s1 := x) end.
  assert (data s1 = restored nodeID snap /\ s_nodeID s1 = nodeID /\ files s1 = fs /\
          s_store s1 = store) as (Hd1 & Hn1 & Hf1 & Hs1).
  { unfold s1. destruct store as [d|]; simpl in Hload; [|by subst snap]. rewrite Hload.
    unfold Restore, absorb. destruct snap as [st|]; [|done].
    by destruct (0 <? Z.of_nat (size (st_Tags st))). }
  clearbody s1. set (w0 := mkWALStore walDir None 0). unfold ReplayWAL.
  assert (s_wal (SetWAL s1 (Some w0)) = Some w0 /\ files (SetWAL s1 (Some w0)) = fs /\
          s_nodeID (SetWAL s1 (Some w0)) = nodeID) as (-> & -> & ->) by (by destruct s1).
  destruct (Replay_repr marshal unmarshal w0 fs nodeID es)
    as (w' & -> & Hdir' & _ & _ & Hrepr'); try done.
  { rewrite <- Hfile. unfold walPath. by rewrite Hdir. }
  simpl. set (s2 := SetWAL (SetWAL s1 (Some w0)) (Some w')).
  destruct (replay_entries_data s2 es) as (H1 & H2 & H3 & H4 & H5).
  assert (data s2 = data s1 /\ s_nodeID s2 = nodeID /\ s_wal s2 = Some w' /\ files s2 = fs /\
          s_store s2 = store) as (E1 & E2 & E3 & E4 & E5).
  { unfold s2. destruct s1. done. }
  split; [congruence|]. split; [|congruence]. split; try done; [congruence| |].
  - exists w'. split; [congruence|]. split; [done|]. by rewrite H5, E4.
  - by rewrite H4, E5.
Qed.

(** ** Sessions with crashes *)

Inductive op :=
| OpIncrement (req : UpdateRequest) (now : Z)
| OpDecrement (req : UpdateRequest) (now : Z)
| OpReset (counterName : string) (now : Z)
| OpSync (update : StateUpdate) (now : Z)
| OpSnapshot (now : Z)
| OpCrash.

(** The process dies and starts again on the same disk and store. *)
Definition crash s : CounterService D :=
  startup unmarshal nodeID (s_port s) (counterShards s) (s_store s) (Some walDir) (files s)
    (mkBootEnv true true true).

Definition run_op s (o : op) : CounterService D :=
  match o with
  | OpIncrement req now => (Increment marshal (calm now) s req).1
  | OpDecrement req now => (Decrement marshal (calm now) s req).1
  | OpReset name now => (Reset marshal (calm now) s name).1.1
  | OpSync update now => (sync_update marshal (calm now) s update).1
  | OpSnapshot now => Snapshot (calm now) s
  | OpCrash => crash s
  end.

(** The same operation on a replica in memory, which never crashes. *)
Definition spec_op (a : replica) (o : op) : replica :=
  match o with
  | OpIncrement req _ => incremented a (normalizeName (rq_CounterName req)) (asked req)
  | OpDecrement req _ => decremented a (normalizeName (rq_CounterName req)) (asked req)
  | OpReset name _ => cleared a (normalizeName name)
  | OpSync u _ =>
      if su_Type u =? HEARTBEAT then a
      else merged a (su_PositiveState u) (su_NegativeState u) (su_VectorClock u)
  | OpSnapshot _ | OpCrash => a
  end.

(** The operations durability is promised for: deltas are not negative, counts and
    versions stay below 2^63, and what is written can be represented.  The service
    checks neither (see [negative_count_lost]); this is the hypothesis of
    [restarts_invisible], not a guard of the code. *)
Definition legal s (o : op) : Prop :=
  match o with
  | OpIncrement req now =>
      let name := normalizeName (rq_CounterName req) in
      0 <= asked req /\
      (positive (s_counter s)).[counterKey name nodeID] + asked req < 2 ^ 63 /\
      (clock (s_clock s)).[counterKey name nodeID] + 1 < 2 ^ 63 /\
      loggable s (next_entry s "increment" name (asked req) ∅ ∅ ∅ now)
  | OpDecrement req now =>
      let name := normalizeName (rq_CounterName req) in
      0 <= asked req /\
      (negative (s_counter s)).[counterKey name nodeID] + asked req < 2 ^ 63 /\
      (clock (s_clock s)).[counterKey name nodeID] + 1 < 2 ^ 63 /\
      loggable s (next_entry s "decrement" name (asked req) ∅ ∅ ∅ now)
  | OpReset name now => loggable s (next_entry s "reset" (normalizeName name) 0 ∅ ∅ ∅ now)
  | OpSync u now =>
      loggable s (next_entry s "merge" "" 0 (su_PositiveState u) (su_NegativeState u)
        (su_VectorClock u) now)
  | OpSnapshot _ => state_ok (snapshot_state s)
  | OpCrash => True
  end.

Fixpoint legal_run s (ops : list op) : Prop :=
  match ops with
  | [] => True
  | o :: rest => legal s o /\ legal_run (run_op s o) rest
  end.

Lemma data_wf_merged (a : replica) (pos neg clk : gmap string Z) :
  data_wf a -> data_wf (merged a pos neg clk).
Proof. intros [H1 H2]. split; simpl; auto with gomap. Qed.

Lemma data_wf_cleared (a : replica) (name : string) : data_wf a -> data_wf (cleared a name).
Proof. intros [H1 H2]. split; simpl; auto with gomap. Qed.

Lemma increment_durable (c : bool) s (req : UpdateRequest) (now : Z) :
  durable c s -> legal s (OpIncrement req now) ->
  let s' := run_op s (OpIncrement req now) in
  durable c s' /\ data s' = spec_op (data s) (OpIncrement req now).
Proof.
  intros Hd (Ha & Hb & Hc & Hl). pose proof Hd as (_ & [Hn1 Hn2] & _). simpl.
  set (name := normalizeName (rq_CounterName req)) in *. fold (asked req).
  refine (mutation_durable c s (set_clock (set_counter s _) _) "increment" name (asked req) ∅ ∅ ∅ now
    Hd _ _ _ _ _ _ Hl); try (by destruct s).
  assert (data_wf (incremented (data s) name (asked req))) as Hwf; [|by destruct s].
  destruct Hd as [[H1 H2] _]. simpl in *. split; simpl.
  - apply pn_wf_increment; [done..|by rewrite Hn1].
  - apply vc_wf_increment; [done|by rewrite Hn2].
Qed.

Lemma decrement_durable (c : bool) s (req : UpdateRequest) (now : Z) :
  durable c s -> legal s (OpDecrement req now) ->
  let s' := run_op s (OpDecrement req now) in
  durable c s' /\ data s' = spec_op (data s) (OpDecrement req now).
Proof.
  intros Hd (Ha & Hb & Hc & Hl). pose proof Hd as (_ & [Hn1 Hn2] & _). simpl.
  set (name := normalizeName (rq_CounterName req)) in *. fold (asked req).
  refine (mutation_durable c s (set_clock (set_counter s _) _) "decrement" name (asked req) ∅ ∅ ∅ now
    Hd _ _ _ _ _ _ Hl); try (by destruct s).
  assert (data_wf (decremented (data s) name (asked req))) as Hwf; [|by destruct s].
  destruct Hd as [[H1 H2] _]. simpl in *. split; simpl.
  - apply pn_wf_decrement; [done..|by rewrite Hn1].
  - apply vc_wf_increment; [done|by rewrite Hn2].
Qed.

Lemma reset_durable (c : bool) s (name : string) (now : Z) :
  durable c s -> legal s (OpReset name now) ->
  let s' := run_op s (OpReset name now) in
  durable c s' /\ data s' = spec_op (data s) (OpReset name now).
Proof.
  intros Hd Hl. simpl. unfold Reset. simpl.
  refine (mutation_durable c s (set_lastSync (set_clock (set_counter s _) _) _) "reset"
    (normalizeName name) 0 ∅ ∅ ∅ now Hd _ _ _ _ _ _ Hl); try (by destruct s).
  pose proof (data_wf_cleared (data s) (normalizeName name) (proj1 Hd)). by destruct s.
Qed.

(** What durability depends on. *)
Definition disk_of s := (s_wal s, files s, s_store s).

Lemma durable_same (c : bool) s s' :
  durable c s -> data s' = data s -> s_nodeID s' = s_nodeID s -> disk_of s' = disk_of s ->
  durable c s'.
Proof.
  intros (Hwf & Hids & snap & es & Hlog & Hsim) E En [= E1 E2 E3].
  pose proof E as [= Ec Ek]. split; [by rewrite E|]. split; [by rewrite Ec, Ek|].
  exists snap, es. rewrite E. split; [|done]. by eapply logged_same.
Qed.

(** The merge of a message, with the statuses it carries. *)
Definition absorbed s (u : StateUpdate) : CounterService D :=
  let s := absorb s "" (su_PositiveState u) (su_NegativeState u) (su_VectorClock u) in
  match s_cluster s with
  | Some m => if 0 <? Z.of_nat (size (su_Membership u))
              then SetCluster s (Some (ApplyMembership m (su_Membership u))) else s
  | None => s
  end.

Lemma absorbed_durable (c : bool) s (u : StateUpdate) (now : Z) :
  durable c s -> loggable s (next_entry s "merge" "" 0 (su_PositiveState u) (su_NegativeState u)
    (su_VectorClock u) now) ->
  let s' := persist (calm now) (walAppend marshal (calm now) (absorbed s u) "merge" "" 0
              (su_PositiveState u) (su_NegativeState u) (su_VectorClock u)) in
  durable c s' /\
  data s' = merged (data s) (su_PositiveState u) (su_NegativeState u) (su_VectorClock u).
Proof.
  intros Hd Hl.
  assert (data (absorbed s u) =
      merged (data s) (su_PositiveState u) (su_NegativeState u) (su_VectorClock u) /\
    s_nodeID (absorbed s u) = s_nodeID s /\ disk_of (absorbed s u) = disk_of s) as (E0 & E1 & [= E2 E3 E4]).
  { unfold absorbed. destruct s as [? ? ? ? cl ? ? ? ? ? ? ? ? ? ? ?]. simpl.
    destruct cl; [|done]. by destruct (0 <? _). }
  assert (data_wf (data (absorbed s u))) as Hwf by (rewrite E0; apply data_wf_merged, Hd).
  by apply (mutation_durable c s (absorbed s u)).
Qed.

Lemma sync_durable (c : bool) s (u : StateUpdate) (now : Z) :
  durable c s -> legal s (OpSync u now) ->
  let s' := run_op s (OpSync u now) in
  durable c s' /\ data s' = spec_op (data s) (OpSync u now).
Proof.
  intros Hd Hl. simpl. unfold sync_update. destruct (su_Type u =? HEARTBEAT); [done|].
  destruct (absorbed_durable c s u now Hd Hl) as [H1 H2].
  change (match s_cluster (absorb s "" (su_PositiveState u) (su_NegativeState u) (su_VectorClock u)) with
          | Some _ => _ | None => _ end) with (absorbed s u).
  set (s2 := persist (calm now) _) in *. clearbody s2.
  destruct (su_Type u =? DELTA_UPDATE); [|by split].
  unfold buildDeltaReply. simpl. set (s3 := set_lastSync s2 _).
  assert (data s3 = data s2) as H3 by (by destruct s2). rewrite H3.
  split; [|done]. apply (durable_same c s2); by destruct s2.
Qed.

(** A snapshot makes the node clean, if there is a store to take it. *)
Lemma snapshot_durable (c : bool) s (now : Z) :
  durable c s -> legal s (OpSnapshot now) ->
  let s' := run_op s (OpSnapshot now) in
  durable (c || bool_decide (is_Some (s_store s))) s' /\ data s' = data s.
Proof.
  intros Hd Hok. pose proof Hd as (_ & [Hn1 Hn2] & _).
  destruct (s_store s) as [d|] eqn:Est; [|simpl; unfold Snapshot; by rewrite Est, orb_false_r].
  destruct Hd as (Hwf & Hids & snap & es & [H1 (w & Hw & Hdir & Hrepr) _ _ _] & Hsim).
  simpl. unfold Snapshot, save_state, truncate_log. rewrite Est. rewrite H1 in *.
  pose proof (save_load d nodeID (snapshot_state s) Hok) as HS. simpl.
  destruct (Save d nodeID (snapshot_state s) StoreOk) as [d' failed]. destruct HS as [-> HL].
  assert (s_wal (SetStore s (Some d')) = Some w /\ files (SetStore s (Some d')) = files s /\
          s_nodeID (SetStore s (Some d')) = nodeID) as (-> & -> & ->) by (by destruct s).
  pose proof (Truncate_repr w (files s) nodeID) as HT.
  destruct (Truncate w (files s) nodeID true) as [[w' fs'] err].
  destruct HT as (_ & Hdir' & Hseq' & Hfile' & Hgone & _).
  set (s' := set_log _ w' fs').
  assert (data s' = data s) as E by (by destruct s).
  split; [|done]. split; [by rewrite E|]. split; [by destruct s|].
  exists (Some (snapshot_state s)), []. split.
  - split; [by destruct s| | |by constructor..].
    + exists w'. split; [by destruct s|]. split; [congruence|].
      assert (files s' = fs') as -> by (by destruct s).
      split; [|by rewrite Hfile'|intros e He; by apply not_elem_of_nil in He|lia].
      unfold walPath in *. by rewrite Hdir', Hgone.
    + by destruct s.
  - intros _. rewrite E. by apply restored_snapshot.
Qed.

Lemma restored_nodeID (snap : option CounterState) (es : list WALEntry) :
  let a := foldl replayed (restored nodeID snap) es in
  pn_nodeID a.1 = nodeID /\ vc_nodeID a.2 = nodeID.
Proof.
  assert (pn_nodeID (restored nodeID snap).1 = nodeID /\ vc_nodeID (restored nodeID snap).2 = nodeID)
    as H by (by destruct snap).
  revert H. generalize (restored nodeID snap). induction es as [|e es IH]; intros a Ha; [done|].
  apply IH. destruct (replayed_nodeID a e) as [-> ->]. done.
Qed.

(** Whatever port and shard count the new process is configured with. *)
Lemma startup_durable (port shards : Z) s :
  durable true s ->
  let s' := startup unmarshal nodeID port shards (s_store s) (Some walDir) (files s)
              (mkBootEnv true true true) in
  durable true s' /\ data_sim (data s') (data s).
Proof.
  intros (Hwf & _ & snap & es & [H1 (w & Hw & Hdir & Hrepr) Hl Hok Hfit] & Hsim).
  specialize (Hsim eq_refl). intros s'.
  pose proof (startup_data port shards _ (files s) snap es w Hl Hdir Hrepr Hok Hfit) as (HD & HL & _).
  fold s' in HD, HL. assert (data_sim (data s') (data s)) as HS by (by rewrite HD, Hsim).
  split; [|done]. split; [by rewrite HS|]. pose proof (restored_nodeID snap es) as Hid.
  rewrite <- HD in Hid. split; [exact Hid|]. exists snap, es. split; [done|]. by rewrite HD.
Qed.

Lemma crash_durable s :
  durable true s -> durable true (crash s) /\ data_sim (data (crash s)) (data s).
Proof. apply startup_durable. Qed.

Lemma spec_op_sim (a b : replica) (o : op) :
  data_sim a b -> data_sim (spec_op a o) (spec_op b o).
Proof.
  intros Hab. destruct o; simpl; try done; auto using incremented_sim, decremented_sim, cleared_sim.
  case_match; auto using merged_sim.
Qed.

Lemma run_op_durable s (o : op) :
  durable true s -> legal s o -> durable true (run_op s o) /\ data_sim (data (run_op s o)) (spec_op (data s) o).
Proof.
  intros Hd Hl. destruct o.
  - destruct (increment_durable true s req now Hd Hl) as [? ->]. done.
  - destruct (decrement_durable true s req now Hd Hl) as [? ->]. done.
  - destruct (reset_durable true s counterName now Hd Hl) as [? ->]. done.
  - destruct (sync_durable true s update now Hd Hl) as [? ->]. done.
  - destruct (snapshot_durable true s now Hd Hl) as [? ->]. done.
  - by apply crash_durable.
Qed.

Lemma run_durable s (ops : list op) (a : replica) :
  durable true s -> data_sim (data s) a -> legal_run s ops ->
  durable true (foldl run_op s ops) /\ data_sim (data (foldl run_op s ops)) (foldl spec_op a ops).
Proof.
  revert s a. induction ops as [|o ops IH]; intros s a Hd Ha Hl; [done|].
  destruct Hl as [Ho Hl]. destruct (run_op_durable s o Hd Ho) as [H1 H2]. simpl.
  apply IH; [done| |done]. rewrite H2. by apply spec_op_sim.
Qed.

Lemma startup_fresh (port shards : Z) (store : option D) (fs : disk) :
  keeps store None -> fs !! walPath (mkWALStore walDir None 0) nodeID = None ->
  let s := startup unmarshal nodeID port shards store (Some walDir) fs (mkBootEnv true true true) in
  durable true s /\ data s = (NewPNCounter nodeID, NewVectorClock nodeID).
Proof.
  intros Hl Hf.
  pose proof (wal_repr_new marshal walDir nodeID fs _ eq_refl Hf) as Hrepr.
  destruct (startup_data port shards store fs None [] (mkWALStore walDir None 0) Hl eq_refl Hrepr)
    as (HD & HL & _); [by constructor..|].
  set (s := startup _ _ _ _ _ _ _ _) in *. clearbody s. split; [|done]. split.
  - rewrite HD. split; simpl; [apply pn_wf_new|apply vc_wf_new].
  - pose proof (restored_nodeID None []) as Hid. rewrite <- HD in Hid. split; [exact Hid|].
    exists None, []. split; [done|]. by rewrite HD.
Qed.

(** A snapshot that is saved while the log survives it. *)
Lemma snapshot_kept_log s (snap : option CounterState) (es : list WALEntry) (now : Z) :
  logged s snap es -> is_Some (s_store s) -> data_wf (data s) ->
  pn_nodeID (s_counter s) = nodeID ->
  vc_nodeID (s_clock s) = nodeID -> state_ok (snapshot_state s) ->
  data_sim (data (crash (Snapshot (mkEnv now AppendOk StoreOk false) s)))
    (foldl replayed (data s) es).
Proof.
  intros [H1 (w & Hw & Hdir & Hrepr) _ Hok Hfit] [d Hd] Hwf Hn1 Hn2 Hst.
  unfold Snapshot, save_state, truncate_log. rewrite Hd, H1.
  pose proof (save_load d nodeID (snapshot_state s) Hst) as HS.
  simpl. destruct (Save d nodeID (snapshot_state s) StoreOk) as [d' failed]. destruct HS as [-> HL].
  assert (s_wal (SetStore s (Some d')) = Some w /\ files (SetStore s (Some d')) = files s /\
          s_nodeID (SetStore s (Some d')) = nodeID) as (-> & -> & ->) by (by destruct s).
  assert (exists w' e, Truncate w (files s) nodeID false = (w', files s, e)) as (w' & e & ->).
  { unfold Truncate. destruct (files s !! _); by eexists _, _. }
  set (s' := set_log _ w' (files s)). unfold crash.
  assert (s_store s' = Some d' /\ files s' = files s) as [-> ->] by (by destruct s).
  destruct (startup_data (s_port s') (counterShards s') (Some d') (files s) (Some (snapshot_state s)) es w
    HL Hdir Hrepr Hok Hfit) as (-> & _).
  pose proof (restored_snapshot nodeID (s_counter s) (s_clock s) (copy_map (s_tags s)) Hwf Hn1 Hn2)
    as Hr. symmetry in Hr. revert Hr. fold (snapshot_state s).
  generalize (restored nodeID (Some (snapshot_state s))). change (s_counter s, s_clock s) with (data s).
  generalize (data s). clear. induction es as [|e es IH]; intros a b Hab; [done|].
  apply IH, replayed_sim, Hab.
Qed.

End durable.

(** ** Properties *)

(** C12: Restarts are invisible when nothing goes wrong with the writes: take a node
    with a log, without a store or with any store that meets the interface, started
    on an empty disk and run through any sequence of increments and decrements by
    non-negative deltas within [int64], resets, merges, snapshots and crashes with
    recovery, where every write to the log, the store and the disk succeeds, what is
    written can be represented, and crashes fall between two operations.  It holds
    the same counts and versions, and reports the same values, as a replica in
    memory that performed the same mutations and never crashed.  None of the
    conditions can be dropped: a negative count does not survive a snapshot
    ([negative_count_lost]), and interrupted or failed writes are the subject of
    [surviving_log_is_replayed_twice], [torn_tail_hides_log] and
    [snapshot_race_loses_updates]. *)
Theorem restarts_invisible {D : Type} `{SO : StoreOps D} `{ST : !Store D}
    (nodeID walDir : string) (port shards : Z) (store : option D)
    (fs : disk) (ops : list op) :
  keeps nodeID store None -> fs !! walPath (mkWALStore walDir None 0) nodeID = None ->
  let s0 := startup unmarshal_entry nodeID port shards store (Some walDir) fs
              (mkBootEnv true true true) in
  legal_run marshal_entry unmarshal_entry nodeID walDir s0 ops ->
  let s := foldl (run_op marshal_entry unmarshal_entry nodeID walDir) s0 ops in
  let ideal := foldl spec_op (NewPNCounter nodeID, NewVectorClock nodeID) ops in
  pn_sim (s_counter s) ideal.1 /\ clock (s_clock s) ≈ clock ideal.2 /\
  forall name, ValueName (s_counter s) name = ValueName ideal.1 name.
Proof.
  intros Hl Hf s0 Hrun s ideal.
  destruct (startup_fresh marshal_entry unmarshal_entry nodeID walDir port shards store fs Hl Hf) as [Hd E].
  destruct (run_durable marshal_entry unmarshal_entry nodeID walDir s0 ops
    (NewPNCounter nodeID, NewVectorClock nodeID) Hd ltac:(by rewrite <- E) Hrun) as [_ (Hp & Hc & _)].
  split; [exact Hp|]. split; [exact Hc|]. intros name. by apply ValueName_proper.
Qed.

(** C23: A snapshot that is saved without the log being truncated (the removal
    fails, or the process dies in between) is not idempotent: recovery restores
    the snapshot and applies every logged mutation to it a second time, so that
    increments already counted are counted again. *)
Theorem surviving_log_is_replayed_twice {D : Type} `{SO : StoreOps D} `{ST : !Store D}
    (nodeID walDir : string) (s : CounterService D)
    (snap : option CounterState) (es : list WALEntry) (now : Z) :
  logged marshal_entry nodeID walDir s snap es -> is_Some (s_store s) -> data_wf (data s) ->
  pn_nodeID (s_counter s) = nodeID ->
  vc_nodeID (s_clock s) = nodeID -> state_ok (snapshot_state s) ->
  let s' := crash unmarshal_entry nodeID walDir (Snapshot (mkEnv now AppendOk StoreOk false) s) in
  pn_sim (s_counter s') (foldl replayed (data s) es).1 /\
  forall name, ValueName (s_counter s') name = ValueName (foldl replayed (data s) es).1 name.
Proof.
  intros Hl Hs Hwf Hn1 Hn2 Hst.
  destruct (snapshot_kept_log marshal_entry unmarshal_entry nodeID walDir s snap es now Hl Hs Hwf Hn1 Hn2
    Hst) as (Hp & _). split; [exact Hp|]. intros name. by apply ValueName_proper.
Qed.

(** ** Witnesses *)

#[export] Instance loggable_dec {D : Type} (marshal : WALEntry -> string) (walDir : string)
  (s : CounterService D) (e : WALEntry) : Decision (loggable marshal walDir s e).
Proof. unfold loggable. apply _. Defined.

#[export] Instance legal_dec {D : Type} `{StoreOps D} (marshal : WALEntry -> string)
  (nodeID walDir : string) (s : CounterService D) (o : op) : Decision (legal marshal nodeID walDir s o).
Proof. destruct o; simpl; apply _. Defined.

#[export] Instance legal_run_dec {D : Type} `{StoreOps D} (marshal : WALEntry -> string)
  (unmarshal : string -> option WALEntry)
  (nodeID walDir : string) (s : CounterService D) (ops : list op) :
  Decision (legal_run marshal unmarshal nodeID walDir s ops).
Proof. revert s. induction ops as [|o ops IH]; intros s; simpl; apply _. Defined.

Definition ex_redis : @Store RedisStore ex_ops :=
  redis_store.

Definition ex_db : RedisStore := mkRedisStore ∅.

Definition ex_session : list op :=
  [OpIncrement (mkUpdateRequest 5 "" 0 "likes") 10; OpCrash; OpDecrement (mkUpdateRequest 2 "" 0 "likes") 20;
   OpSnapshot 30; OpIncrement (mkUpdateRequest 1 "" 0 "likes") 40; OpCrash].

Definition ex_start : CounterService RedisStore :=
  @startup _ ex_ops unmarshal_entry "node-a" 50051 4 (Some ex_db) (Some "data") ∅
    (mkBootEnv true true true).

Lemma restarts_invisible_witness :
  ValueName (s_counter (foldl (@run_op _ ex_ops marshal_entry unmarshal_entry "node-a" "data")
    ex_start ex_session)) "likes" = 4.
Proof.
  destruct (@restarts_invisible _ ex_ops ex_redis "node-a"
    "data" 50051 4 (Some ex_db) ∅ ex_session)
    as (_ & _ & H); [reflexivity|reflexivity|by_eval|].
  etransitivity; [apply (H "likes")|]. vm_compute. reflexivity.
Defined.

(** The service accepts a negative delta; the count survives a restart while it is
    in the log, and is gone once it is in a snapshot, because [Restore] merges the
    snapshot into empty maps by maximum. *)
Lemma negative_count_lost :
  let count ops := ValueName (s_counter (foldl (@run_op _ ex_ops marshal_entry unmarshal_entry "node-a" "data")
    ex_start (OpIncrement (mkUpdateRequest (-3) "" 0 "likes") 10 :: ops))) "likes" in
  count [] = -3 /\ count [OpCrash] = -3 /\ count [OpSnapshot 20] = -3 /\ count [OpSnapshot 20; OpCrash] = 0.
Proof. vm_compute. repeat split. Qed.

(** The node after one increment of 5, with its log entry. *)
Definition ex_incremented : CounterService RedisStore :=
  @run_op _ ex_ops marshal_entry unmarshal_entry "node-a" "data" ex_start
    (OpIncrement (mkUpdateRequest 5 "" 0 "likes") 10).

Definition ex_entry : WALEntry := mkWALEntry 1 "increment" "" "likes" 5 ∅ ∅ ∅ (time_Unix 10).

Lemma ex_logged : @logged _ ex_ops marshal_entry "node-a" "data" ex_incremented None [ex_entry].
Proof.
  split.
  - reflexivity.
  - eexists. split; [reflexivity|]. split; [reflexivity|]. split.
    + vm_compute. reflexivity.
    + intros path. vm_compute. by intros [= <-].
    + intros e ->%list_elem_of_singleton. vm_compute. congruence.
    + vm_compute. congruence.
  - vm_compute. reflexivity.
  - by_eval.
  - by_eval.
Qed.

Lemma surviving_log_is_replayed_twice_witness :
  ValueName (s_counter ex_incremented) "likes" = 5 /\
  ValueName (s_counter (@crash _ ex_ops unmarshal_entry "node-a" "data"
    (@Snapshot _ ex_ops (mkEnv 20 AppendOk StoreOk false) ex_incremented))) "likes" = 10.
Proof.
  split; [vm_compute; reflexivity|].
  destruct (@surviving_log_is_replayed_twice _ ex_ops ex_redis
    "node-a" "data" ex_incremented None [ex_entry] 20 ex_logged) as [_ H].
  - eexists. reflexivity.
  - split; by_eval.
  - reflexivity.
  - reflexivity.
  - by_eval.
  - etransitivity; [apply (H "likes")|]. vm_compute. reflexivity.
Defined.
