(* ===== verification/Gossip.v ===== *)
(** * The gossip engine (internal/gossip/engine.go)

    The engine's [counter], [clock], [cluster] and [wal] pointers are the
    service's objects, so its operations take and return the service state;
    [g_wal] says whether the log pointer is set.  A cached connection is
    represented by its address; the transport's answers are oracles. *)

From S2P Require Import Prelude PNCounter VectorClock Delta Breaker Membership Codec Wal Store Messages.
From S2P Require Import Service.

(** ** Data *)

Record GossipEngine := mkGossipEngine {
  g_nodeID : string;
  g_interval : Z;
  connections : gset string;
  syncing : gset string;
  lastSync : gmap string (gmap string Z);
  breakers : gmap string CircuitBreaker;
  g_wal : bool;
  g_apiKey : string;
  g_compression : bool;
  g_round : Z;
  fullSyncInterval : Z;
  maxRetries : Z;
  backoffBase : Z;
  backoffMax : Z;
  circuitFailures : Z;
  circuitCooldown : Z;
}.

Definition NewGossipEngine (nodeID : string) (interval : Z) : GossipEngine :=
  let interval := if interval <=? 0 then 5 * Second else interval in
  {| g_nodeID := nodeID; g_interval := interval; connections := ∅; syncing := ∅; lastSync := ∅;
     breakers := ∅; g_wal := false; g_apiKey := ""; g_compression := false; g_round := 0;
     fullSyncInterval := 10; maxRetries := 3; backoffBase := 250 * Millisecond;
     backoffMax := 2 * Second; circuitFailures := 3; circuitCooldown := 30 * Second |}.

Definition set_connections (g : GossipEngine) (x : gset string) : GossipEngine :=
  let '(mkGossipEngine a b _ d e f h i j k l m n o p q) := g in
  mkGossipEngine a b x d e f h i j k l m n o p q.

Definition set_syncing (g : GossipEngine) (x : gset string) : GossipEngine :=
  let '(mkGossipEngine a b c _ e f h i j k l m n o p q) := g in
  mkGossipEngine a b c x e f h i j k l m n o p q.

Definition set_baselines (g : GossipEngine) (x : gmap string (gmap string Z)) : GossipEngine :=
  let '(mkGossipEngine a b c d _ f h i j k l m n o p q) := g in
  mkGossipEngine a b c d x f h i j k l m n o p q.

Definition set_breakers (g : GossipEngine) (x : gmap string CircuitBreaker) : GossipEngine :=
  let '(mkGossipEngine a b c d e _ h i j k l m n o p q) := g in
  mkGossipEngine a b c d e x h i j k l m n o p q.

Definition set_round (g : GossipEngine) (x : Z) : GossipEngine :=
  let '(mkGossipEngine a b c d e f h i j _ l m n o p q) := g in
  mkGossipEngine a b c d e f h i j x l m n o p q.

Definition SetWAL (g : GossipEngine) (x : bool) : GossipEngine :=
  let '(mkGossipEngine a b c d e f _ i j k l m n o p q) := g in
  mkGossipEngine a b c d e f x i j k l m n o p q.

Definition SetClientConfig (g : GossipEngine) (apiKey : string) (compression : bool) :
    GossipEngine :=
  let '(mkGossipEngine a b c d e f h _ _ k l m n o p q) := g in
  mkGossipEngine a b c d e f h apiKey compression k l m n o p q.

Definition SetCircuitBreakerConfig (g : GossipEngine) (failures cooldown : Z) : GossipEngine :=
  let '(mkGossipEngine a b c d e f h i j k l m n o p _) := g in
  mkGossipEngine a b c d e f h i j k l m n o (if 0 <? failures then failures else p) cooldown.

Definition SetFullSyncInterval (g : GossipEngine) (rounds : Z) : GossipEngine :=
  let '(mkGossipEngine a b c d e f h i j k l m n o p q) := g in
  mkGossipEngine a b c d e f h i j k (if 0 <? rounds then rounds else l) m n o p q.

Definition InvalidateBaselines (g : GossipEngine) : GossipEngine := set_baselines g ∅.

(** ** Peers *)

(** [g.breaker(address)]: the breaker and the engine that now holds it. *)
Definition breaker (g : GossipEngine) (address : string) : GossipEngine * CircuitBreaker :=
  match breakers g !! address with
  | Some b => (g, b)
  | None =>
      let b := newCircuitBreaker (circuitFailures g) (circuitCooldown g) in
      (set_breakers g (<[address := b]> (breakers g)), b)
  end.

(** A call on the shared breaker object of [address]. *)
Definition on_breaker (g : GossipEngine) (address : string)
    (f : CircuitBreaker -> CircuitBreaker) : GossipEngine :=
  set_breakers g (alter f address (breakers g)).

(** [g.backoffBase * time.Duration(1<<attempt)], capped. *)
Definition backoff (g : GossipEngine) (attempt : Z) : Z :=
  let d := wrap64 (backoffBase g * wrap64 (Z.shiftl 1 attempt)) in
  if backoffMax g <? d then backoffMax g else d.

(** One pass of the peer loops of [gossip] and [ForceSync]: the peers whose
    round is launched are those without a round in flight. *)
Fixpoint launch (g : GossipEngine) (peers : list Member) : GossipEngine * list Member :=
  match peers with
  | [] => (g, [])
  | peer :: rest =>
      if decide (Address peer ∈ syncing g) then launch g rest
      else
        let g := set_syncing g ({[Address peer]} ∪ syncing g) in
        let '(g, launched) := launch g rest in
        (g, peer :: launched)
  end.

Definition gossip (shuffle : list Member -> list Member) (g : GossipEngine) (m : Membership) :
    GossipEngine * list Member :=
  launch g (GetRandomPeers shuffle m 3).

Definition ForceSync (g : GossipEngine) (m : Membership) : GossipEngine * list Member * Z :=
  let '(g, launched) := launch g (GetAlivePeers m) in
  (g, launched, Z.of_nat (length launched)).

(** The deferred [delete(g.syncing, p.Address)] of a finished round. *)
Definition round_over (g : GossipEngine) (address : string) : GossipEngine :=
  set_syncing g (syncing g ∖ {[address]}).

(** ** Streams *)

(** The outcome of dialing (when no connection is cached) and of opening the
    stream. *)
Definition getOrCreateStream (g : GossipEngine) (address : string) (dial_ok stream_ok : bool) :
    GossipEngine * bool :=
  if decide (address ∈ connections g) then (g, stream_ok)
  else if dial_ok then (set_connections g ({[address]} ∪ connections g), stream_ok)
  else (g, false).

Definition evictConn (g : GossipEngine) (address : string) : GossipEngine :=
  set_connections g (connections g ∖ {[address]}).

(** What happens to an attempt once it has a stream. *)
Inductive attempt :=
| SendFailed
| RecvFailed
| Reply (response : StateUpdate).

(** The transport during a round: the first stream, then one try per attempt. *)
Record transport := mkTransport {
  t_first : bool * bool;
  t_stream : Z -> bool * bool;
  t_attempt : Z -> attempt;
}.

(** The delivery loop from attempt [i] on, with [n] attempts left. *)
Fixpoint deliver (t : transport) (g : GossipEngine) (address : string) (stream : bool)
    (i : Z) (n : nat) : GossipEngine * option StateUpdate :=
  match n with
  | O => (g, None)
  | S n =>
      let '(g, stream) :=
        if stream then (g, true)
        else let '(dial_ok, stream_ok) := t_stream t i in
             getOrCreateStream g address dial_ok stream_ok in
      if negb stream then deliver t g address false (i + 1) n
      else match t_attempt t i with
      | Reply response => (g, Some response)
      | SendFailed | RecvFailed => deliver t (evictConn g address) address false (i + 1) n
      end
  end.

(** ** A round with one peer *)

Section engine.
Context {D : Type} `{StoreOps D}.
Variable marshal : WALEntry -> string.
Implicit Types s : CounterService D.
Implicit Types g : GossipEngine.

(** The first part of [gossipToPeer]: ask the breaker, read the state, count
    the round and choose what to send; [None] when the round ends here.  The
    counts and the clock are read under separate locks: [myPos], [myNeg] and
    [myClock] are the values read. *)
Definition prepare_read (myPos myNeg myClock : gmap string Z) g (m : Membership)
    (address : string) (now : Z) : GossipEngine * option StateUpdate :=
  let '(g, b) := breaker g address in
  if negb (Allow b now) then (g, None)
  else
    let base := default ∅ (lastSync g !! address) in
    let g := set_round g (wrap64 (g_round g + 1)) in
    let staleBaseline := ClockNewerThan base myClock in
    let fullSync := (Z.rem (g_round g) (fullSyncInterval g) =? 0) || staleBaseline in
    if fullSync then
      (g, Some {| su_FromNodeId := g_nodeID g; su_PositiveState := myPos;
                  su_NegativeState := myNeg; su_VectorClock := myClock;
                  su_Timestamp := time_Unix now; su_Type := FULL_STATE;
                  su_LastSyncVersion := MaxClock myClock;
                  su_Membership := GossipMembership m |})
    else
      let d := DeltaFrom myPos myNeg myClock base in
      if Z.of_nat (size (deltaClock d)) =? 0 then (g, None)
      else
        (g, Some {| su_FromNodeId := g_nodeID g; su_PositiveState := deltaPos d;
                    su_NegativeState := deltaNeg d; su_VectorClock := myClock;
                    su_Timestamp := time_Unix now; su_Type := DELTA_UPDATE;
                    su_LastSyncVersion := MaxClock base;
                    su_Membership := GossipMembership m |}).

(** The reads at one instant. *)
Definition prepare s g (m : Membership) (address : string) (now : Z) :
    GossipEngine * option StateUpdate :=
  prepare_read (Positive (s_counter s)) (Negative (s_counter s)) (State (s_clock s)) g m address now.

Definition mergeRemoteState (io : env) s g (update : StateUpdate) : CounterService D :=
  let s := absorb s "" (su_PositiveState update) (su_NegativeState update)
             (su_VectorClock update) in
  let s := match s_cluster s with
    | Some m => if 0 <? Z.of_nat (size (su_Membership update))
                then SetCluster s (Some (ApplyMembership m (su_Membership update))) else s
    | None => s
    end in
  if g_wal g then
    match s_wal s with
    | None => s
    | Some w =>
        let '(w, d, _) := Append marshal w (files s) (g_nodeID g) "merge" 0
          (su_PositiveState update) (su_NegativeState update) (su_VectorClock update)
          (e_now io) (e_append io) in
        set_log s w d
    end
  else s.

(** The last part: the answer, if any, is merged and becomes the baseline. *)
Definition complete (io : env) s g (address : string) (myClock : gmap string Z)
    (response : option StateUpdate) : CounterService D * GossipEngine :=
  match response with
  | None => (s, on_breaker g address (fun b => Failure b (e_now io)))
  | Some response =>
      let g := on_breaker g address Success in
      let s := mergeRemoteState io s g response in
      (s, set_baselines g
            (<[address := MergeClock myClock (su_VectorClock response)]> (lastSync g)))
  end.

Definition gossipToPeer (io : env) (t : transport) s g (m : Membership) (peer : Member) :
    CounterService D * GossipEngine :=
  let address := Address peer in
  let '(g, update) := prepare s g m address (e_now io) in
  match update with
  | None => (s, g)
  | Some update =>
      let '(g, stream) := getOrCreateStream g address (t_first t).1 (t_first t).2 in
      if negb stream then (s, g)
      else
        let '(g, response) := deliver t g address true 0 (Z.to_nat (maxRetries g)) in
        complete io s g address (su_VectorClock update) response
  end.

End engine.

(** ** Lemmas *)

Lemma launch_spec (g : GossipEngine) (peers : list Member) :
  let '(g', launched) := launch g peers in
  (forall p, p ∈ launched -> p ∈ peers /\ Address p ∉ syncing g) /\
  NoDup (Address <$> launched) /\
  (forall p, p ∈ peers -> Address p ∈ syncing g') /\
  (forall a, a ∈ syncing g' <-> a ∈ syncing g \/ a ∈ Address <$> launched) /\
  lastSync g' = lastSync g /\ breakers g' = breakers g /\ connections g' = connections g.
Proof.
  revert g. induction peers as [|p peers IH]; intros g; cbn [launch].
  - split_and!; try done; try (intros x Hx; by apply not_elem_of_nil in Hx); [constructor|].
    intros a. rewrite elem_of_nil. naive_solver.
  - destruct (decide (Address p ∈ syncing g)) as [Hin|Hin].
    + specialize (IH g). destruct (launch g peers) as [g' l].
      destruct IH as (H1 & H2 & H3 & H4 & H5 & H6 & H7). split_and!; try done.
      * intros q Hq. destruct (H1 q Hq). split; [by right|done].
      * intros q [->|Hq]%elem_of_cons; [|by apply H3]. apply H4. by left.
    + specialize (IH (set_syncing g ({[Address p]} ∪ syncing g))).
      destruct (launch (set_syncing g _) peers) as [g' l].
      assert (syncing (set_syncing g ({[Address p]} ∪ syncing g)) = {[Address p]} ∪ syncing g)
        as E by (by destruct g). rewrite E in IH.
      destruct IH as (H1 & H2 & H3 & H4 & H5 & H6 & H7).
      assert (Address p ∈ syncing g') as Hp by (apply H4; set_solver).
      split_and!.
      * intros q [->|Hq]%elem_of_cons; [split; [by left|done]|].
        destruct (H1 q Hq) as [Hq1 Hq2]. split; [by right|set_solver].
      * rewrite fmap_cons. apply NoDup_cons. split; [|done].
        intros (q & Hq1 & Hq2)%list_elem_of_fmap. destruct (H1 q Hq2) as [_ Hq3].
        apply Hq3. rewrite <- Hq1. set_solver.
      * intros q [->|Hq]%elem_of_cons; [done|by apply H3].
      * intros a. rewrite H4, fmap_cons, elem_of_cons. set_solver.
      * rewrite H5. by destruct g.
      * rewrite H6. by destruct g.
      * rewrite H7. by destruct g.
Qed.

Lemma getOrCreateStream_ok (g : GossipEngine) (address : string) :
  (getOrCreateStream g address true true).2 = true.
Proof. unfold getOrCreateStream. by case_decide. Qed.

(** An attempt that finds a working transport and an answering peer succeeds. *)
Lemma deliver_found (t : transport) (r : StateUpdate) (j : nat) :
  forall (g : GossipEngine) (address : string) (stream : bool) (i : Z) (n : nat),
  (j < n)%nat -> t_attempt t (i + Z.of_nat j) = Reply r ->
  (forall k, (k < j)%nat -> t_attempt t (i + Z.of_nat k) = SendFailed \/
                            t_attempt t (i + Z.of_nat k) = RecvFailed) ->
  (j = 0%nat /\ stream = true \/ t_stream t (i + Z.of_nat j) = (true, true)) ->
  (deliver t g address stream i n).2 = Some r.
Proof.
  induction j as [|j IH]; intros g address stream i n Hn Hr Hk Hs;
    (destruct n as [|n]; [lia|]); cbn [deliver].
  - rewrite Z.add_0_r in *. destruct stream.
    + simpl. by rewrite Hr.
    + destruct Hs as [[_ Hs]|Hs]; [done|]. rewrite Hs.
      pose proof (getOrCreateStream_ok g address) as Ho.
      destruct (getOrCreateStream g address true true) as [g' ok]. simpl in Ho. subst ok. simpl.
      by rewrite Hr.
  - assert (forall g', (deliver t g' address false (i + 1) n).2 = Some r) as Hnext.
    { intros g'. apply IH; [lia| | |].
      - by replace (i + 1 + Z.of_nat j) with (i + Z.of_nat (S j)) by lia.
      - intros k Hlt. replace (i + 1 + Z.of_nat k) with (i + Z.of_nat (S k)) by lia. apply Hk. lia.
      - right. replace (i + 1 + Z.of_nat j) with (i + Z.of_nat (S j)) by lia.
        by destruct Hs as [[? _]|]. }
    destruct (if stream then _ else _) as [g' ok]. destruct ok; simpl; [|done].
    specialize (Hk 0%nat ltac:(lia)). rewrite Z.add_0_r in Hk. by destruct Hk as [-> | ->].
Qed.

(** A reply is the answer to one of the attempts. *)
Lemma deliver_genuine (t : transport) (r : StateUpdate) (n : nat) :
  forall (g : GossipEngine) (address : string) (stream : bool) (i : Z),
  (deliver t g address stream i n).2 = Some r ->
  exists j, (j < n)%nat /\ t_attempt t (i + Z.of_nat j) = Reply r.
Proof.
  induction n as [|n IH]; intros g address stream i; [done|]. cbn [deliver].
  assert (forall g', (deliver t g' address false (i + 1) n).2 = Some r ->
    exists j, (j < S n)%nat /\ t_attempt t (i + Z.of_nat j) = Reply r) as Hnext.
  { intros g' Hd. destruct (IH _ _ _ _ Hd) as (j & Hj & Ha). exists (S j). split; [lia|].
    by replace (i + Z.of_nat (S j)) with (i + 1 + Z.of_nat j) by lia. }
  destruct (if stream then _ else _) as [g' ok]. destruct ok; simpl; [|apply Hnext].
  destruct (t_attempt t i) as [| |r'] eqn:Ha; [apply Hnext|apply Hnext|].
  intros [= ->]. exists 0%nat. split; [lia|]. by rewrite Z.add_0_r.
Qed.

(** ** Properties *)

(** Concurrent rounds never share a peer: a periodic round and a forced
    sync only launch rounds to addresses with no round in flight, one per
    address, and mark them; a forced sync leaves no live peer without one and
    reports how many it launched; a finished round frees its address only. *)
Theorem rounds_exclusive (g : GossipEngine) (m : Membership) (shuffle : list Member -> list Member)
    (address : string) :
  let '(g1, l1) := gossip shuffle g m in
  let '(g2, l2, contacted) := ForceSync g m in
  NoDup (Address <$> l1) /\ (forall p, p ∈ l1 -> Address p ∉ syncing g) /\
  NoDup (Address <$> l2) /\ (forall p, p ∈ l2 -> Address p ∉ syncing g) /\
  contacted = Z.of_nat (length l2) /\
  (forall p, p ∈ GetAlivePeers m -> Address p ∈ syncing g2) /\
  (forall a, a ∈ syncing g1 <-> a ∈ syncing g \/ a ∈ Address <$> l1) /\
  (forall a, a ∈ syncing (round_over g1 address) <-> a ∈ syncing g1 /\ a <> address).
Proof.
  unfold gossip, ForceSync.
  pose proof (launch_spec g (GetRandomPeers shuffle m 3)) as H1.
  pose proof (launch_spec g (GetAlivePeers m)) as H2.
  destruct (launch g (GetRandomPeers shuffle m 3)) as [g1 l1].
  destruct (launch g (GetAlivePeers m)) as [g2 l2].
  destruct H1 as (A1 & A2 & _ & A4 & _), H2 as (B1 & B2 & B3 & _).
  split_and!; try done.
  - intros p Hp. by apply A1.
  - intros p Hp. by apply B1.
  - intros a. assert (syncing (round_over g1 address) = syncing g1 ∖ {[address]}) as ->
      by (by destruct g1). set_solver.
Qed.

(** Delivery: a peer that answers attempt [j] after failing the earlier ones
    is reached, as long as the connection can be dialed again, and the answer
    the loop returns is that one; a round with no answering attempt among the
    first [n] gets no response; and the pause after attempt [a] doubles from the
    base up to the maximum. *)
Theorem delivery_retries (t : transport) (g : GossipEngine) (address : string) (r : StateUpdate)
    (j n : nat) (a : Z) :
  (j < n)%nat -> t_attempt t (Z.of_nat j) = Reply r ->
  (forall k, (k < j)%nat -> t_attempt t (Z.of_nat k) = SendFailed \/
                            t_attempt t (Z.of_nat k) = RecvFailed) ->
  t_stream t (Z.of_nat j) = (true, true) ->
  0 < backoffBase g -> 0 <= a -> backoffBase g * 2 ^ a < 2 ^ 63 ->
  (deliver t g address true 0 n).2 = Some r /\
  (deliver t g address true 0 j).2 = None /\
  backoff g a = Z.min (backoffBase g * 2 ^ a) (backoffMax g).
Proof.
  intros Hj Hr Hk Hs Hb Ha Hlim. split_and!.
  - apply (deliver_found t r j g address true 0 n Hj Hr Hk). by right.
  - destruct (deliver t g address true 0 j).2 as [r'|] eqn:Hd; [|done].
    destruct (deliver_genuine t r' j g address true 0 Hd) as (i & Hi & Hr').
    destruct (Hk i Hi) as [H|H]; rewrite Z.add_0_l in Hr'; congruence.
  - unfold backoff. rewrite Z.shiftl_1_l.
    assert (1 <= 2 ^ a) by (pose proof (Z.pow_pos_nonneg 2 a); lia).
    rewrite (wrap64_id (2 ^ a)) by (unfold in_int64; nia).
    rewrite wrap64_id by (unfold in_int64; nia). case_bool; lia.
Qed.

(** ** Witnesses *)

(** The peer answers the third attempt. *)
Definition ex_transport : transport :=
  mkTransport (true, true) (fun _ => (true, true))
    (fun i => if i =? 0 then SendFailed else if i =? 1 then RecvFailed
              else Reply (mkStateUpdate "node-b" ∅ ∅ ∅ 0 FULL_STATE 0 ∅)).

Lemma delivery_retries_witness :
  (deliver ex_transport (NewGossipEngine "node-a" 0) "host-b:1" true 0 3).2 =
  Some (mkStateUpdate "node-b" ∅ ∅ ∅ 0 FULL_STATE 0 ∅) /\
  backoff (NewGossipEngine "node-a" 0) 3 = 2 * Second.
Proof.
  destruct (delivery_retries ex_transport (NewGossipEngine "node-a" 0) "host-b:1"
    (mkStateUpdate "node-b" ∅ ∅ ∅ 0 FULL_STATE 0 ∅) 2 3 3) as (H1 & _ & H3).
  - repeat constructor.
  - reflexivity.
  - intros [|[|k]] Hk; [left; reflexivity|right; reflexivity|exfalso; lia].
  - reflexivity.
  - reflexivity.
  - discriminate.
  - reflexivity.
  - split; [exact H1|]. rewrite H3. reflexivity.
Defined.
