(* ===== verification/Cluster.v ===== *)
(** * A cluster of gossiping nodes

    The service and the gossip engine of several nodes composed as the program
    composes them.  A gossip exchange is three steps, the sender's preparation,
    the receiver's handler and the sender's completion, which interleave with
    every other step of the cluster.  The invariant is that a version of a key
    determines its counts. *)

From S2P Require Import Prelude PNCounter VectorClock Delta Breaker Membership Bully Codec Wal Store.
From S2P Require Import Messages Service ServiceSpec Gossip.

(** ** The system *)

Record node (D : Type) := mkNode { svc : CounterService D; eng : GossipEngine }.

Arguments mkNode {D}.
Arguments svc {D}.
Arguments eng {D}.

(** An exchange in flight: the update was sent, or the reply was. *)
Inductive flight :=
| Sent (u : StateUpdate)
| Replied (u r : StateUpdate).

(** What can go wrong in a step: an update with a negative delta or beyond
    [int64], a reset, an answer to a delta that is lost, a node that comes back
    without its data, counts and clock read at different instants, a message that
    no node of the system sent. *)
Inductive hazard := Unfit | Cleared | ReplyLost | Forgotten | Torn | Foreign.

#[export] Instance hazard_eq_dec : EqDecision hazard.
Proof. solve_decision. Defined.

Record system (D : Type) := mkSystem {
  nodes : gmap string (node D);
  flights : gmap (string * string) flight;
}.

Arguments mkSystem {D}.
Arguments nodes {D}.
Arguments flights {D}.

Definition npos {D : Type} (n : node D) : gmap string Z := positive (s_counter (svc n)).

Definition nneg {D : Type} (n : node D) : gmap string Z := negative (s_counter (svc n)).

Definition nclk {D : Type} (n : node D) : gmap string Z := clock (s_clock (svc n)).

Section steps.
Context {D : Type} `{SO : StoreOps D}.
Variable marshal : WALEntry -> string.
(** The address other nodes reach a node at. *)
Variable addr : string -> string.

Definition put (y : system D) (id : string) (n : node D) : system D :=
  mkSystem (<[id := n]> (nodes y)) (flights y).

Definition put_flight (y : system D) (ab : string * string) (f : option flight) : system D :=
  mkSystem (nodes y) (partial_alter (fun _ => f) ab (flights y)).

(** The replicated data and the baselines of the node are the same. *)
Record same_node (n n' : node D) : Prop := {
  sn_id : s_nodeID (svc n') = s_nodeID (svc n);
  sn_gid : g_nodeID (eng n') = g_nodeID (eng n);
  sn_counter : s_counter (svc n') = s_counter (svc n);
  sn_clock : s_clock (svc n') = s_clock (svc n);
  sn_last : lastSyncClock (svc n') = lastSyncClock (svc n);
  sn_base : lastSync (eng n') = lastSync (eng n);
}.

(** The node restarted: it runs under the same ids, recovery gave it its counts
    and versions back, and the baselines are those of new objects. *)
Record restarted (n n' : node D) : Prop := {
  rs_id : s_nodeID (svc n') = s_nodeID (svc n);
  rs_gid : g_nodeID (eng n') = g_nodeID (eng n);
  rs_pn : pn_nodeID (s_counter (svc n')) = pn_nodeID (s_counter (svc n));
  rs_vc : vc_nodeID (s_clock (svc n')) = vc_nodeID (s_clock (svc n));
  rs_counter : pn_sim (s_counter (svc n')) (s_counter (svc n));
  rs_clock : nclk n' ≈ nclk n;
  rs_last : lastSyncClock (svc n') = ∅;
  rs_base : lastSync (eng n') = ∅;
}.

(** The data of [s'] is the data of [s] merged with the message [u]. *)
Record merged_with (s s' : CounterService D) (u : StateUpdate) : Prop := {
  mw_id : s_nodeID s' = s_nodeID s;
  mw_pn : pn_nodeID (s_counter s') = pn_nodeID (s_counter s);
  mw_vc : vc_nodeID (s_clock s') = vc_nodeID (s_clock s);
  mw_pos : positive (s_counter s') = max_into (su_PositiveState u) (positive (s_counter s));
  mw_neg : negative (s_counter s') = max_into (su_NegativeState u) (negative (s_counter s));
  mw_clk : clock (s_clock s') = max_into (su_VectorClock u) (clock (s_clock s));
}.

(** A new process of the node: its ids, and the baselines of new objects. *)
Record renewed (n n' : node D) : Prop := {
  rn_id : s_nodeID (svc n') = s_nodeID (svc n);
  rn_gid : g_nodeID (eng n') = g_nodeID (eng n);
  rn_pn : pn_nodeID (s_counter (svc n')) = pn_nodeID (s_counter (svc n));
  rn_vc : vc_nodeID (s_clock (svc n')) = vc_nodeID (s_clock (svc n));
  rn_last : lastSyncClock (svc n') = ∅;
  rn_base : lastSync (eng n') = ∅;
}.

(** The node after the reset handler and its callback into the engine. *)
Definition reset_node io (n : node D) (name : string) : node D :=
  let '(s, _, called) := Reset marshal io (svc n) name in
  mkNode s (if (called : bool) then InvalidateBaselines (eng n) else eng n).

(** What an update of the entry [key] puts at risk: nothing when the delta is
    not negative and the count and the version stay within [int64]. *)
Definition update_hazard (counts clk : gmap string Z) (key : string) (req : UpdateRequest) : list hazard :=
  if (0 <=? asked req) && (counts.[key] + asked req <? 2 ^ 63) && (clk.[key] + 1 <? 2 ^ 63)
  then [] else [Unfit].

(** The key an update request on node [a] writes. *)
Definition update_key (a : string) (req : UpdateRequest) : string :=
  counterKey (normalizeName (rq_CounterName req)) a.

(** The loss of a message: only the reply to a delta is not made up for. *)
Definition loss_hazard (f : flight) : list hazard :=
  match f with
  | Sent _ => []
  | Replied u _ => if su_Type u =? DELTA_UPDATE then [ReplyLost] else []
  end.

(** One step of the cluster, with the hazards it brings.
    - Clients update and reset any counter of any node, with any delta.
    - An exchange to a peer starts when none is in flight.  The engine reads the
      counts and the clock under locks of their own: [y_send] reads them at one
      instant, [y_send_torn] the counts at other ones.
    - The receiver's handler and the sender's completion follow; an update may be
      lost, with the sender's failure path ([y_lost]); a reply may be lost, and
      then the delivery loop sends the same update again, however much the nodes
      have changed since ([y_retry]); an exchange may break off ([y_drop]).
    - A node that recovers from a seed sends its full state outside the engine
      ([y_ask]) and merges the reply without making it a baseline ([y_absorb]).
    - [y_internal] is any activity that leaves the replicated data and the
      baselines alone: membership, heartbeats, elections, snapshots, skipped rounds.
    - A process dies, its exchanges with it, and a new one takes over, with the
      node's data ([y_restart]) or with any other ([y_forget]).
    - Messages of strangers arrive on the stream ([y_stranger]), as the reply of a
      round ([y_stranger_reply]) or as the state of a seed ([y_stranger_seed]). *)
Inductive ystep (y : system D) : list hazard -> system D -> Prop :=
| y_increment a n req io :
    nodes y !! a = Some n ->
    ystep y (update_hazard (npos n) (nclk n) (update_key a req) req)
      (put y a (mkNode (Increment marshal io (svc n) req).1 (eng n)))
| y_decrement a n req io :
    nodes y !! a = Some n ->
    ystep y (update_hazard (nneg n) (nclk n) (update_key a req) req)
      (put y a (mkNode (Decrement marshal io (svc n) req).1 (eng n)))
| y_reset a n name io :
    nodes y !! a = Some n -> ystep y [Cleared] (put y a (reset_node io n name))
| y_send a b na nb m now g u :
    nodes y !! a = Some na -> nodes y !! b = Some nb -> a <> b -> flights y !! (a, b) = None ->
    prepare (svc na) (eng na) m (addr b) now = (g, Some u) ->
    ystep y [] (put_flight (put y a (mkNode (svc na) g)) (a, b) (Some (Sent u)))
| y_send_torn a b na nb pos neg m now g u :
    nodes y !! a = Some na -> nodes y !! b = Some nb -> a <> b -> flights y !! (a, b) = None ->
    prepare_read pos neg (nclk na) (eng na) m (addr b) now = (g, Some u) ->
    ystep y [Torn] (put_flight (put y a (mkNode (svc na) g)) (a, b) (Some (Sent u)))
| y_handle a b nb u io s' r :
    flights y !! (a, b) = Some (Sent u) -> nodes y !! b = Some nb ->
    sync_update marshal io (svc nb) u = (s', Some r) ->
    ystep y [] (put_flight (put y b (mkNode s' (eng nb))) (a, b) (Some (Replied u r)))
| y_finish a b na u r io s' g' :
    flights y !! (a, b) = Some (Replied u r) -> nodes y !! a = Some na ->
    complete marshal io (svc na) (eng na) (addr b) (su_VectorClock u) (Some r) = (s', g') ->
    ystep y [] (put_flight (put y a (mkNode s' g')) (a, b) None)
| y_lost a b na u io s' g' :
    flights y !! (a, b) = Some (Sent u) -> nodes y !! a = Some na ->
    complete marshal io (svc na) (eng na) (addr b) (su_VectorClock u) None = (s', g') ->
    ystep y [] (put_flight (put y a (mkNode s' g')) (a, b) None)
| y_retry a b u r :
    flights y !! (a, b) = Some (Replied u r) ->
    ystep y (loss_hazard (Replied u r)) (put_flight y (a, b) (Some (Sent u)))
| y_drop a b f :
    flights y !! (a, b) = Some f -> ystep y (loss_hazard f) (put_flight y (a, b) None)
| y_ask a b na nb u :
    nodes y !! a = Some na -> nodes y !! b = Some nb -> a <> b -> flights y !! (a, b) = None ->
    su_FromNodeId u = a -> su_Type u = FULL_STATE -> su_PositiveState u = npos na ->
    su_NegativeState u = nneg na -> su_VectorClock u = nclk na ->
    ystep y [] (put_flight y (a, b) (Some (Sent u)))
| y_absorb a b na u r s' :
    flights y !! (a, b) = Some (Replied u r) -> nodes y !! a = Some na ->
    merged_with (svc na) s' r -> lastSyncClock s' = lastSyncClock (svc na) ->
    ystep y [] (put_flight (put y a (mkNode s' (eng na))) (a, b) None)
| y_internal a n n' :
    nodes y !! a = Some n -> same_node n n' -> ystep y [] (put y a n')
| y_restart a n n' :
    nodes y !! a = Some n -> (forall b, flights y !! (a, b) = None) -> restarted n n' ->
    ystep y [] (put y a n')
| y_forget a n n' :
    nodes y !! a = Some n -> (forall b, flights y !! (a, b) = None) -> renewed n n' ->
    ystep y [Forgotten] (put y a n')
| y_stranger b nb u io s' r :
    nodes y !! b = Some nb -> sync_update marshal io (svc nb) u = (s', r) ->
    ystep y [Foreign] (put y b (mkNode s' (eng nb)))
| y_stranger_reply a na io address clk r s' g' :
    nodes y !! a = Some na -> complete marshal io (svc na) (eng na) address clk (Some r) = (s', g') ->
    ystep y [Foreign] (put y a (mkNode s' g'))
| y_stranger_seed a na r s' :
    nodes y !! a = Some na -> merged_with (svc na) s' r -> lastSyncClock s' = lastSyncClock (svc na) ->
    ystep y [Foreign] (put y a (mkNode s' (eng na))).

(** A run, with all its hazards. *)
Inductive yrun (y : system D) : list hazard -> system D -> Prop :=
| yrun_nil : yrun y [] y
| yrun_step h hs y1 y2 : ystep y h y1 -> yrun y1 hs y2 -> yrun y (h ++ hs) y2.

(** New nodes, each filed under its id. *)
Definition boot (ids : gset string) (fs : disk) (port interval : Z) : system D :=
  mkSystem (set_to_map (fun id =>
    (id, mkNode (NewCounterService id port fs) (NewGossipEngine id interval))) ids) ∅.

(** The states a run with the hazards [hs] leads to. *)
Definition reached (ids : gset string) (fs : disk) (port interval : Z) (hs : list hazard)
    (y : system D) : Prop := yrun (boot ids fs port interval) hs y.

Lemma yrun_once (y y' : system D) (h : list hazard) : ystep y h y' -> yrun y h y'.
Proof. intros H. rewrite <- (app_nil_r h). by eapply yrun_step; [|constructor]. Qed.

Lemma yrun_app (y1 y2 y3 : system D) (h1 h2 : list hazard) :
  yrun y1 h1 y2 -> yrun y2 h2 y3 -> yrun y1 (h1 ++ h2) y3.
Proof. induction 1; intros H2; [done|]. rewrite <- app_assoc. eapply yrun_step; eauto. Qed.

End steps.

(** ** Versions determine counts *)

(** [V k v] are the counts the owner of key [k] had at version [v]. *)
Abbreviation versions := (string -> Z -> Z * Z).

Record history (V : versions) (T : string -> Z) : Prop := {
  h_zero k : V k 0 = (0, 0);
  h_mono k v v' : 0 <= v -> v <= v' -> v' <= T k -> (V k v).1 <= (V k v').1 /\ (V k v).2 <= (V k v').2;
}.

(** Every entry holds the counts of its version. *)
Definition versioned (V : versions) (T : string -> Z) (pos neg clk : gmap string Z) : Prop :=
  forall k, 0 <= clk.[k] <= T k /\ pos.[k] = (V k clk.[k]).1 /\ neg.[k] = (V k clk.[k]).2.

(** A message carries the counts of each version, or the receiver is not behind. *)
Definition carries (V : versions) (pos neg clk recv : gmap string Z) : Prop :=
  forall k, (pos.[k] = (V k clk.[k]).1 /\ neg.[k] = (V k clk.[k]).2) \/
            (pos.[k] = 0 /\ neg.[k] = 0 /\ clk.[k] <= recv.[k]).

Section history.
Variable V : versions.
Variable T : string -> Z.
Hypothesis HV : history V T.

Lemma history_nonneg (k : string) (v : Z) : 0 <= v <= T k -> 0 <= (V k v).1 /\ 0 <= (V k v).2.
Proof.
  intros Hv. pose proof (h_mono V T HV k 0 v ltac:(lia) ltac:(lia) ltac:(lia)) as H.
  rewrite (h_zero V T HV k) in H. done.
Qed.

Lemma versioned_nonneg (pos neg clk : gmap string Z) :
  versioned V T pos neg clk -> nonneg pos /\ nonneg neg /\ nonneg clk.
Proof.
  intros H. split_and!; intros k; destruct (H k) as (Hc & Hp & Hn);
    pose proof (history_nonneg k clk.[k] Hc); lia.
Qed.

(** Merging a message keeps the invariant and takes the later versions. *)
Lemma versioned_merge (pos neg clk p n c : gmap string Z) :
  versioned V T pos neg clk -> (forall k, 0 <= c.[k] <= T k) -> carries V p n c clk ->
  versioned V T (max_into p pos) (max_into n neg) (max_into c clk) /\
  forall k, (max_into c clk).[k] = Z.max clk.[k] c.[k].
Proof.
  intros Hv Hc Hm. destruct (versioned_nonneg pos neg clk Hv) as (H1 & H2 & H3).
  split; [|intros k; by apply max_into_get_nonneg].
  intros k. rewrite !max_into_get_nonneg by done.
  destruct (Hv k) as (Hck & Hp & Hn). specialize (Hc k).
  destruct (Z.le_ge_cases clk.[k] c.[k]) as [Hle|Hle].
  - rewrite Z.max_r by lia. destruct (Hm k) as [[Ep En]|(Ep & En & Hr)].
    + pose proof (h_mono V T HV k clk.[k] c.[k] ltac:(lia) ltac:(lia) ltac:(lia)).
      split_and!; lia.
    + replace c.[k] with clk.[k] by lia. pose proof (history_nonneg k clk.[k] ltac:(lia)).
      split_and!; lia.
  - rewrite Z.max_l by lia. pose proof (history_nonneg k clk.[k] ltac:(lia)).
    destruct (Hm k) as [[Ep En]|(Ep & En & Hr)]; [|split_and!; lia].
    pose proof (h_mono V T HV k c.[k] clk.[k] ltac:(lia) ltac:(lia) ltac:(lia)). split_and!; lia.
Qed.

(** A full state and a delta against a baseline the receiver covers. *)
Lemma full_carries (pos neg clk recv : gmap string Z) :
  versioned V T pos neg clk -> carries V pos neg clk recv.
Proof. intros H k. left. by destruct (H k) as (_ & ? & ?). Qed.

Lemma delta_carries (pos neg clk base recv : gmap string Z) :
  versioned V T pos neg clk -> (forall k, 0 <= recv.[k]) ->
  (forall k, clk.[k] <= base.[k] -> clk.[k] <= recv.[k]) ->
  let d := DeltaFrom pos neg clk base in carries V (deltaPos d) (deltaNeg d) clk recv.
Proof.
  intros H Hr Hb d k. destruct (DeltaFrom_lookup pos neg clk base k) as (Hp & Hn & _).
  fold d in Hp, Hn. destruct (H k) as (_ & Ep & En).
  assert ((deltaPos d).[k] = default 0 (restrict_newer clk base pos k)) as ->
    by (unfold get0; by rewrite Hp).
  assert ((deltaNeg d).[k] = default 0 (restrict_newer clk base neg k)) as ->
    by (unfold get0; by rewrite Hn).
  unfold restrict_newer. destruct (clk !! k) as [v|] eqn:Hk.
  - apply get0_Some in Hk. destruct (Z.ltb_spec base.[k] v); [by left|right].
    split_and!; [done|done|]. apply Hb. lia.
  - right. apply get0_None in Hk. split_and!; [done|done|]. rewrite Hk. apply Hr.
Qed.

End history.

(** ** The invariant of the cluster *)

Section invariant.
Context {D : Type} `{SO : StoreOps D}.
Variable marshal : WALEntry -> string.
Variable addr : string -> string.
Hypothesis addr_inj : forall a b, addr a = addr b -> a = b.
Implicit Types n : node D.
Implicit Types y : system D.

(** The node runs under its own id. *)
Record ids_ok (id : string) n : Prop := {
  id_free : colon_free id;
  id_svc : s_nodeID (svc n) = id;
  id_eng : g_nodeID (eng n) = id;
  id_pn : pn_nodeID (s_counter (svc n)) = id;
  id_vc : vc_nodeID (s_clock (svc n)) = id;
}.

(** The baseline of the engine for peer [b], and of the service for sender [a]. *)
Definition base_of n (b : string) : gmap string Z := default ∅ (lastSync (eng n) !! addr b).

Definition last_of n (a : string) : gmap string Z := default ∅ (lastSyncClock (svc n) !! a).

(** The clock of the delta reply travelling from [b] to [a], if there is one. *)
Definition flight_clock (f : option flight) : gmap string Z :=
  match f with
  | Some (Replied u r) => if su_Type u =? DELTA_UPDATE then su_VectorClock r else ∅
  | _ => ∅
  end.

Definition reply_clock y (a b : string) : gmap string Z := flight_clock (flights y !! (a, b)).

(** The update [u] was prepared by [a] and is good for [b] as it is now. *)
Definition sent_ok (V : versions) (a : string) (na nb : node D) (u : StateUpdate) : Prop :=
  su_FromNodeId u = a /\ su_Type u <> HEARTBEAT /\
  (forall k, 0 <= (su_VectorClock u).[k] <= (nclk na).[k]) /\
  carries V (su_PositiveState u) (su_NegativeState u) (su_VectorClock u) (nclk nb).

Definition flight_ok (V : versions) (a : string) (na nb : node D) (f : flight) : Prop :=
  match f with
  | Sent u => sent_ok V a na nb u
  | Replied u r =>
      sent_ok V a na nb u /\
      (forall k, (su_VectorClock u).[k] <= (nclk nb).[k]) /\
      (forall k, 0 <= (su_VectorClock r).[k] <= (nclk nb).[k]) /\
      carries V (su_PositiveState r) (su_NegativeState r) (su_VectorClock r) (nclk na)
  end.

Record inv y (V : versions) (T : string -> Z) : Prop := {
  i_hist : history V T;
  i_node id n : nodes y !! id = Some n -> ids_ok id n /\ versioned V T (npos n) (nneg n) (nclk n);
  i_top k : T k = match nodes y !! key_owner k with Some n => (nclk n).[k] | None => 0 end;
  i_flight a b f : flights y !! (a, b) = Some f ->
    a <> b /\ exists na nb, nodes y !! a = Some na /\ nodes y !! b = Some nb /\
                            flight_ok V a na nb f;
  i_base a b na nb : nodes y !! a = Some na -> nodes y !! b = Some nb -> a <> b ->
    forall k, (base_of na b).[k] <= (nclk nb).[k];
  i_last a b na nb : nodes y !! a = Some na -> nodes y !! b = Some nb -> a <> b ->
    forall k, 0 <= (last_of nb a).[k] <= Z.max (nclk na).[k] (reply_clock y a b).[k];
}.

Lemma carries_weaken (V V' : versions) (T : string -> Z) (p n c r r' : gmap string Z) :
  (forall k v, 0 <= v <= T k -> V' k v = V k v) -> (forall k, 0 <= c.[k] <= T k) -> r ⊑ r' ->
  carries V p n c r -> carries V' p n c r'.
Proof.
  intros HV Hc Hr H k. rewrite HV by apply Hc. specialize (Hr k).
  destruct (H k) as [?|(? & ? & ?)]; [by left|right]. split_and!; [done..|lia].
Qed.

Lemma sent_ok_mono (V V' : versions) (T : string -> Z) (a : string) na nb na' nb' u :
  (forall k v, 0 <= v <= T k -> V' k v = V k v) -> (forall k, (nclk na).[k] <= T k) ->
  nclk na ⊑ nclk na' -> nclk nb ⊑ nclk nb' -> sent_ok V a na nb u -> sent_ok V' a na' nb' u.
Proof.
  intros HV Ta Ha Hb (H1 & H2 & H3 & H4). split_and!; try done.
  - intros k. specialize (H3 k). specialize (Ha k). lia.
  - eapply carries_weaken; [done| |done|done]. intros k. specialize (H3 k). specialize (Ta k). lia.
Qed.

Lemma flight_ok_mono (V V' : versions) (T : string -> Z) (a : string) na nb na' nb' f :
  (forall k v, 0 <= v <= T k -> V' k v = V k v) ->
  (forall k, (nclk na).[k] <= T k) -> (forall k, (nclk nb).[k] <= T k) ->
  nclk na ⊑ nclk na' -> nclk nb ⊑ nclk nb' -> flight_ok V a na nb f -> flight_ok V' a na' nb' f.
Proof.
  intros HV Ta Tb Ha Hb. destruct f as [u|u r]; simpl; [by apply (sent_ok_mono V V' T)|].
  intros (H0 & H1 & H2 & H3). split_and!.
  - by apply (sent_ok_mono V V' T _ na nb).
  - intros k. specialize (H1 k). specialize (Hb k). lia.
  - intros k. specialize (H2 k). specialize (Hb k). lia.
  - eapply carries_weaken; [done| |done|done]. intros k. specialize (H2 k). specialize (Tb k). lia.
Qed.

(** Node [x] moves to [n'] and the exchange from [a] to [b] to [f]. *)
Lemma inv_update y (V V' : versions) (T T' : string -> Z) (x a b : string) n n' (f : option flight) :
  let y' := put_flight (put y x n') (a, b) f in
  inv y V T -> nodes y !! x = Some n -> ids_ok x n' -> x = a \/ x = b -> nclk n ⊑ nclk n' ->
  history V' T' -> versioned V' T' (npos n') (nneg n') (nclk n') ->
  (forall k v, 0 <= v <= T k -> V' k v = V k v) ->
  (forall k, T' k = if decide (key_owner k = x) then (nclk n').[k] else T k) ->
  (forall fl, f = Some fl -> a <> b /\ exists na nb,
     nodes y' !! a = Some na /\ nodes y' !! b = Some nb /\ flight_ok V' a na nb fl) ->
  (forall c nc, nodes y !! c = Some nc -> c <> x -> forall k, (base_of n' c).[k] <= (nclk nc).[k]) ->
  (forall c nc, nodes y !! c = Some nc -> c <> x -> forall k,
     0 <= (last_of n' c).[k] <= Z.max (nclk nc).[k] (reply_clock y' c x).[k]) ->
  (forall nb, x = a -> nodes y !! b = Some nb -> b <> a -> forall k,
     0 <= (last_of nb a).[k] <= Z.max (nclk n').[k] (reply_clock y' a b).[k]) ->
  inv y' V' T'.
Proof.
  intros y' [Ih In It If Ib Il] Hn Hid Hx Hle Hh Hv HVV HT Hf Hbase Hlast Hpair.
  assert (forall id, nodes y' !! id = if decide (id = x) then Some n' else nodes y !! id) as Hl.
  { intros id. unfold y'. simpl. rewrite lookup_insert. repeat case_decide; by subst. }
  assert (forall id m, nodes y !! id = Some m -> exists m', nodes y' !! id = Some m' /\
            nclk m ⊑ nclk m' /\ (id <> x -> m' = m)) as Hmove.
  { intros id m Hm. rewrite Hl. case_decide as Heq; [subst|by exists m].
    exists n'. split; [done|]. split; [|done]. by replace m with n by congruence. }
  assert (forall id m k, nodes y !! id = Some m -> (nclk m).[k] <= T k) as Hbound.
  { intros id m k Hm. destruct (In id m Hm) as [_ Hver]. by destruct (Hver k) as ([_ ?] & _). }
  assert (forall k, T k <= T' k) as HTT.
  { intros k. rewrite HT. case_decide as Heq; [|lia]. rewrite It, Heq, Hn. apply Hle. }
  assert (forall c d, (c, d) <> (a, b) -> flights y' !! (c, d) = flights y !! (c, d)) as Hfl.
  { intros c d Hne. unfold y'. simpl. by rewrite lookup_partial_alter_ne. }
  split.
  - done.
  - intros id m. rewrite Hl. case_decide as Heq; [intros [= <-]; by subst|].
    intros Hm. destruct (In id m Hm) as [Hi Hver]. split; [done|].
    intros k. destruct (Hver k) as (Hc & Hp & Hng). rewrite HVV by done.
    split_and!; try done; [lia|]. specialize (HTT k). lia.
  - intros k. rewrite HT, Hl. case_decide; [done|]. apply It.
  - intros c d fl Hfd. destruct (decide ((c, d) = (a, b))) as [[= -> ->]|Hne].
    + unfold y' in Hfd. simpl in Hfd. rewrite lookup_partial_alter_eq in Hfd. by apply Hf.
    + rewrite Hfl in Hfd by done. destruct (If c d fl Hfd) as (Hcd & nc & nd & Hc & Hd & Hok).
      split; [done|]. destruct (Hmove c nc Hc) as (nc' & Hc' & Hlc & _).
      destruct (Hmove d nd Hd) as (nd' & Hd' & Hld & _). exists nc', nd'. split_and!; try done.
      eapply (flight_ok_mono V V' T); [done| | |done|done|done]; intros k; by eapply Hbound.
  - intros c d nc nd. rewrite !Hl. case_decide as Ec; case_decide as Ed; try congruence.
    + intros [= <-] Hd _ k. by apply Hbase.
    + intros Hc [= <-] Hne k. subst. specialize (Hle k).
      pose proof (Ib c x nc n Hc Hn Hne k). lia.
    + apply Ib.
  - intros c d nc nd. rewrite !Hl. case_decide as Ec; case_decide as Ed; try congruence.
    + intros [= <-] Hd Hne k. subst c.
      destruct (decide ((x, d) = (a, b))) as [[= -> ->]|Hab]; [by apply Hpair|].
      pose proof (Il x d n nd Hn Hd Hne k) as H1. specialize (Hle k).
      unfold reply_clock in *. rewrite Hfl by done. lia.
    + intros Hc [= <-] Hne k. subst d. by apply Hlast.
    + intros Hc Hd Hne k. unfold reply_clock. rewrite Hfl; [by apply Il|].
      intros [= -> ->]. by destruct Hx.
Qed.

Lemma put_flight_same y (ab : string * string) (f : option flight) :
  flights y !! ab = f -> put_flight y ab f = y.
Proof.
  intros Hf. destruct y as [ns fs]. unfold put_flight. simpl in *. f_equal.
  apply map_eq. intros cd. destruct (decide (ab = cd)) as [<-|].
  - by rewrite lookup_partial_alter_eq.
  - by rewrite lookup_partial_alter_ne.
Qed.

Lemma inv_no_self y (V : versions) (T : string -> Z) (a : string) :
  inv y V T -> flights y !! (a, a) = None.
Proof.
  intros HI. destruct (flights y !! (a, a)) as [f|] eqn:Hf; [|done].
  by destruct (i_flight y V T HI a a f Hf).
Qed.

(** Node [a] moves to [n'] without touching an exchange or a baseline. *)
Lemma inv_put y (V V' : versions) (T T' : string -> Z) (a : string) n n' :
  inv y V T -> nodes y !! a = Some n -> ids_ok a n' -> nclk n ⊑ nclk n' ->
  lastSync (eng n') = lastSync (eng n) -> lastSyncClock (svc n') = lastSyncClock (svc n) ->
  history V' T' -> versioned V' T' (npos n') (nneg n') (nclk n') ->
  (forall k v, 0 <= v <= T k -> V' k v = V k v) ->
  (forall k, T' k = if decide (key_owner k = a) then (nclk n').[k] else T k) ->
  inv (put y a n') V' T'.
Proof.
  intros HI Hn Hid Hle E1 E2 Hh Hv HVV HT.
  pose proof (inv_no_self y V T a HI) as Hself.
  rewrite <- (put_flight_same (put y a n') (a, a) None Hself).
  apply (inv_update y V V' T T' a a a n n' None); try done; [by left| |].
  - intros c nc Hc Hne k. unfold base_of. rewrite E1.
    by apply (i_base y V T HI a c n nc Hn Hc).
  - intros c nc Hc Hne k. unfold last_of. rewrite E2.
    rewrite (put_flight_same (put y a n') (a, a) None Hself).
    apply (i_last y V T HI c a nc n Hc Hn Hne k).
Qed.

(** The owner of a key publishes its next version. *)
Definition publish (V : versions) (key : string) (v : Z) (counts : Z * Z) : versions :=
  fun k w => if decide (k = key /\ w = v) then counts else V k w.

Lemma inv_owner_update y (V : versions) (T : string -> Z) (a name : string) n n' :
  let key := counterKey name a in
  inv y V T -> nodes y !! a = Some n -> ids_ok a n' ->
  (nclk n).[key] + 1 < 2 ^ 63 ->
  (forall k, (nclk n').[k] = if decide (k = key) then (nclk n).[key] + 1 else (nclk n).[k]) ->
  (forall k, k <> key -> (npos n').[k] = (npos n).[k] /\ (nneg n').[k] = (nneg n).[k]) ->
  (npos n).[key] <= (npos n').[key] -> (nneg n).[key] <= (nneg n').[key] ->
  lastSync (eng n') = lastSync (eng n) -> lastSyncClock (svc n') = lastSyncClock (svc n) ->
  exists V' T', inv (put y a n') V' T'.
Proof.
  intros key HI Hn Hid Hlim Hclk Hother Hp Hng E1 E2.
  destruct (i_node y V T HI a n Hn) as [Hida Hver].
  assert (key_owner key = a) as Hown by (apply key_owner_counterKey, Hida).
  assert (T key = (nclk n).[key]) as HTk by (rewrite (i_top y V T HI), Hown; by rewrite Hn).
  destruct (Hver key) as (Hck & Hpk & Hnk). pose proof (i_hist y V T HI) as HH.
  clearbody key. set (v1 := (nclk n).[key] + 1) in *.
  set (V' := publish V key v1 ((npos n').[key], (nneg n').[key])).
  assert (forall k v, 0 <= v <= T k -> V' k v = V k v) as HVV.
  { intros k v Hkv. unfold V', publish. rewrite decide_False; [done|]. intros [-> ->]. lia. }
  assert (V' key v1 = ((npos n').[key], (nneg n').[key])) as HV1
    by (unfold V', publish; by rewrite decide_True).
  set (T' := fun k => if decide (k = key) then v1 else T k).
  exists V', T'. apply (inv_put y V V' T T' a n n'); try done.
  - intros k. rewrite Hclk. case_decide as Heq; [rewrite Heq|]; lia.
  - split.
    + intros k. rewrite HVV; [apply (h_zero V T HH)|].
      destruct (Hver k) as (Hk & _). lia.
    + intros k v v' H0 Hvv Hv'. unfold T' in Hv'. case_decide as Hk; [subst k|].
      * destruct (decide (v' = v1)) as [->|]; [|rewrite !HVV by lia; apply (h_mono V T HH); lia].
        rewrite HV1. destruct (decide (v = v1)) as [->|]; [by rewrite HV1|].
        rewrite HVV by lia.
        pose proof (h_mono V T HH key v (nclk n).[key] ltac:(lia) ltac:(lia) ltac:(lia)). simpl. lia.
      * rewrite !HVV by lia. apply (h_mono V T HH); lia.
  - intros k. rewrite Hclk. unfold T'. destruct (Hver k) as (Hk & Hpv & Hnv).
    case_decide as Heq; [subst k; rewrite HV1; simpl; split_and!; [lia|lia|done|done]|].
    rewrite HVV by done. destruct (Hother k Heq) as [-> ->]. done.
  - intros k. unfold T'. case_decide as Heq; [subst k; rewrite Hown, decide_True by done|].
    + rewrite Hclk. by rewrite decide_True.
    + case_decide as Ho; [|done]. rewrite Hclk, decide_False by done.
      rewrite (i_top y V T HI), Ho. by rewrite Hn.
Qed.

Lemma update_node_data io (s : CounterService D) (req : UpdateRequest) :
  let name := normalizeName (rq_CounterName req) in
  let s1 := (Increment marshal io s req).1 in
  let s2 := (Decrement marshal io s req).1 in
  s_counter s1 = PNCounter.IncrementName (s_counter s) name (asked req) /\
  s_counter s2 = PNCounter.DecrementName (s_counter s) name (asked req) /\
  (forall s', s' = s1 \/ s' = s2 ->
     s_clock s' = VectorClock.IncrementName (s_clock s) name /\ s_nodeID s' = s_nodeID s /\
     lastSyncClock s' = lastSyncClock s).
Proof.
  intros name s1 s2. unfold s1, s2, Increment, Decrement. fold name. fold (asked req). simpl.
  match goal with |- context [walAppend marshal io ?x "increment" _ _ _ _ _] => set (si := x) end.
  match goal with |- context [walAppend marshal io ?x "decrement" _ _ _ _ _] => set (sd := x) end.
  destruct (log_same marshal io si "increment" name (asked req) ∅ ∅ ∅) as [A1 A2 A3 _ _ A4 _ _ _].
  destruct (log_same marshal io sd "decrement" name (asked req) ∅ ∅ ∅) as [B1 B2 B3 _ _ B4 _ _ _].
  rewrite A2, B2. split; [by destruct s|]. split; [by destruct s|].
  intros s' [-> | ->]; [rewrite A1, A3, A4|rewrite B1, B3, B4]; by destruct s.
Qed.

Lemma step_update y (V : versions) (T : string -> Z) (a : string) n (req : UpdateRequest) io s' :
  let key := counterKey (normalizeName (rq_CounterName req)) a in
  inv y V T -> nodes y !! a = Some n -> 0 <= asked req ->
  (nclk n).[key] + 1 < 2 ^ 63 ->
  (s' = (Increment marshal io (svc n) req).1 /\ (npos n).[key] + asked req < 2 ^ 63) \/
  (s' = (Decrement marshal io (svc n) req).1 /\ (nneg n).[key] + asked req < 2 ^ 63) ->
  exists V' T', inv (put y a (mkNode s' (eng n))) V' T'.
Proof.
  intros key HI Hn Ha Hc Hs.
  destruct (i_node y V T HI a n Hn) as [[F1 F2 F3 F4 F5] Hver].
  destruct (versioned_nonneg V T (i_hist y V T HI) _ _ _ Hver) as (N1 & N2 & N3).
  destruct (update_node_data io (svc n) req) as (Ei & Ed & Eo).
  destruct (Eo s') as (Ec & En & El); [by destruct Hs as [[-> _]|[-> _]]; auto|].
  assert (forall k, (nclk (mkNode s' (eng n))).[k] =
            if decide (k = key) then (nclk n).[key] + 1 else (nclk n).[k]) as Hclk.
  { intros k. unfold nclk at 1. simpl. rewrite Ec. simpl. rewrite F5, add_at_get.
    repeat case_decide; subst; try done. apply wrap64_id. specialize (N3 key). unfold in_int64. lia. }
  assert (ids_ok a (mkNode s' (eng n)) /\
    (forall k, k <> key -> (npos (mkNode s' (eng n))).[k] = (npos n).[k] /\
                           (nneg (mkNode s' (eng n))).[k] = (nneg n).[k]) /\
    (npos n).[key] <= (npos (mkNode s' (eng n))).[key] /\
    (nneg n).[key] <= (nneg (mkNode s' (eng n))).[key]) as (Hids & Hoth & Hp & Hng).
  { specialize (N1 key). specialize (N2 key). unfold npos, nneg in *. cbn [svc eng].
    assert (pn_nodeID (s_counter s') = a) as Epn.
    { destruct Hs as [[-> _]|[-> _]]; [by rewrite Ei|by rewrite Ed]. }
    split; [split; cbn [svc eng]; first [done|congruence|by rewrite Ec]|].
    destruct Hs as [[Es Hb]|[Es Hb]]; rewrite <- Es in *; [rewrite Ei|rewrite Ed];
      cbn [positive negative PNCounter.IncrementName DecrementName with_positive with_negative];
      rewrite F4; fold key;
      (split; [intros k Hk; by rewrite add_at_get, decide_False by (intros E; by apply Hk)|]);
      rewrite add_at_get, decide_True by done;
      rewrite wrap64_id by (unfold in_int64; lia); lia. }
  by apply (inv_owner_update y V T a (normalizeName (rq_CounterName req)) n).
Qed.

(** *** What the pieces of an exchange do *)

(** The state [pos], [neg], [clk] in full, or its delta against [base]. *)
Definition announces (u : StateUpdate) (pos neg clk base : gmap string Z) : Prop :=
  su_VectorClock u = clk /\
  ((su_Type u = FULL_STATE /\ su_PositiveState u = pos /\ su_NegativeState u = neg) \/
   (su_Type u = DELTA_UPDATE /\ su_PositiveState u = deltaPos (DeltaFrom pos neg clk base) /\
    su_NegativeState u = deltaNeg (DeltaFrom pos neg clk base))).

Lemma breaker_frame (g : GossipEngine) (address : string) :
  lastSync (breaker g address).1 = lastSync g /\ g_nodeID (breaker g address).1 = g_nodeID g.
Proof. unfold breaker. destruct (breakers g !! address); [done|]. by destruct g. Qed.

Lemma prepare_read_spec (pos neg clk : gmap string Z) (g g' : GossipEngine) m (address : string)
    (now : Z) ou :
  prepare_read pos neg clk g m address now = (g', ou) ->
  lastSync g' = lastSync g /\ g_nodeID g' = g_nodeID g /\
  forall u, ou = Some u -> su_FromNodeId u = g_nodeID g /\
    announces u pos neg clk (default ∅ (lastSync g !! address)).
Proof.
  unfold prepare_read. pose proof (breaker_frame g address) as [H1 H2].
  destruct (breaker g address) as [g0 b]. simpl in H1, H2. rewrite <- H1, <- H2.
  assert (lastSync (set_round g0 (wrap64 (g_round g0 + 1))) = lastSync g0 /\
          g_nodeID (set_round g0 (wrap64 (g_round g0 + 1))) = g_nodeID g0) as [R1 R2]
    by (by destruct g0).
  destruct (negb (Allow b now)); [by intros [= <- <-]|].
  destruct (_ || _).
  - intros [= <- <-]. split_and!; try done. intros u [= <-]. split; [done|].
    split; [done|]. by left.
  - destruct (_ =? 0); intros [= <- <-]; (split_and!; try done). intros u [= <-].
    split; [done|]. split; [done|]. by right.
Qed.

Lemma prepare_spec (s : CounterService D) (g g' : GossipEngine) m (address : string) (now : Z) ou :
  prepare s g m address now = (g', ou) ->
  lastSync g' = lastSync g /\ g_nodeID g' = g_nodeID g /\
  forall u, ou = Some u -> su_FromNodeId u = g_nodeID g /\
    announces u (positive (s_counter s)) (negative (s_counter s)) (clock (s_clock s))
      (default ∅ (lastSync g !! address)).
Proof.
  unfold prepare, Positive, Negative, State. rewrite !copy_map_id. apply prepare_read_spec.
Qed.

Lemma absorb_merged (s : CounterService D) (u : StateUpdate) :
  merged_with s (absorb s "" (su_PositiveState u) (su_NegativeState u) (su_VectorClock u)) u /\
  lastSyncClock (absorb s "" (su_PositiveState u) (su_NegativeState u) (su_VectorClock u)) =
    lastSyncClock s.
Proof.
  unfold absorb. rewrite remote_counter_eq. destruct s; simpl. split; [|done]. by split.
Qed.

Lemma merged_with_same (s s1 s2 : CounterService D) (u : StateUpdate) :
  merged_with s s1 u -> s_nodeID s2 = s_nodeID s1 -> s_counter s2 = s_counter s1 ->
  s_clock s2 = s_clock s1 -> merged_with s s2 u.
Proof. intros [] E1 E2 E3. split; rewrite ?E1, ?E2, ?E3; done. Qed.

Lemma sync_update_spec io (s s' : CounterService D) (u r : StateUpdate) :
  su_Type u <> HEARTBEAT -> sync_update marshal io s u = (s', Some r) ->
  let base := MergeClock (su_VectorClock u) (default ∅ (lastSyncClock s !! su_FromNodeId u)) in
  merged_with s s' u /\
  announces r (positive (s_counter s')) (negative (s_counter s')) (clock (s_clock s')) base /\
  su_Type r = (if su_Type u =? DELTA_UPDATE then DELTA_UPDATE else FULL_STATE) /\
  lastSyncClock s' =
    (if su_Type u =? DELTA_UPDATE
     then <[su_FromNodeId u := MergeClock (clock (s_clock s')) (su_VectorClock u)]> (lastSyncClock s)
     else lastSyncClock s).
Proof.
  intros Ht. unfold sync_update. apply Z.eqb_neq in Ht as ->.
  destruct (absorb_merged s u) as [Hm Hl]. set (s0 := absorb _ _ _ _ _) in *.
  set (s1 := match s_cluster s0 with Some m => _ | None => s0 end).
  assert (s_nodeID s1 = s_nodeID s0 /\ s_counter s1 = s_counter s0 /\ s_clock s1 = s_clock s0 /\
          lastSyncClock s1 = lastSyncClock s0) as (A1 & A2 & A3 & A4).
  { unfold s1. destruct (s_cluster s0); [destruct (0 <? _)|]; by destruct s0. }
  pose proof (log_same marshal io s1 "merge" "" 0 (su_PositiveState u) (su_NegativeState u)
    (su_VectorClock u)) as [B1 B2 B3 _ _ B4 _ _ _].
  set (s2 := persist io _) in *. clearbody s2 s1 s0.
  assert (merged_with s s2 u) as Hm2 by (eapply merged_with_same; [exact Hm|congruence..]).
  intros Hrun. destruct (su_Type u =? DELTA_UPDATE).
  - unfold buildDeltaReply in Hrun. injection Hrun as <- <-.
    set (s3 := set_lastSync s2 _).
    assert (s_nodeID s3 = s_nodeID s2 /\ s_counter s3 = s_counter s2 /\ s_clock s3 = s_clock s2)
      as (C1 & C2 & C3) by (by destruct s2).
    split_and!; [by eapply merged_with_same| |done|].
    + split; simpl; [unfold State; by rewrite copy_map_id, C3|right].
      unfold State, Positive, Negative. rewrite !copy_map_id, B4, A4, Hl. by rewrite C2, C3.
    + unfold s3. destruct s2. simpl in *. unfold State. rewrite copy_map_id. congruence.
  - injection Hrun as <- <-. split_and!; [done| |done|congruence].
    split; simpl; [unfold State; by rewrite copy_map_id|left].
    unfold Positive, Negative. by rewrite !copy_map_id.
Qed.

Lemma complete_spec io (s s' : CounterService D) (g g' : GossipEngine) (address : string)
    (myClock : gmap string Z) (response : option StateUpdate) :
  complete marshal io s g address myClock response = (s', g') ->
  lastSyncClock s' = lastSyncClock s /\ g_nodeID g' = g_nodeID g /\
  match response with
  | None => s' = s /\ lastSync g' = lastSync g
  | Some r => merged_with s s' r /\
              lastSync g' = <[address := MergeClock myClock (su_VectorClock r)]> (lastSync g)
  end.
Proof.
  unfold complete. destruct response as [r|].
  - unfold mergeRemoteState. destruct (absorb_merged s r) as [Hm Hl].
    set (s0 := absorb _ _ _ _ _) in *.
    set (s1 := match s_cluster s0 with Some m => _ | None => s0 end).
    assert (s_nodeID s1 = s_nodeID s0 /\ s_counter s1 = s_counter s0 /\ s_clock s1 = s_clock s0 /\
            lastSyncClock s1 = lastSyncClock s0) as (A1 & A2 & A3 & A4).
    { unfold s1. destruct (s_cluster s0); [destruct (0 <? _)|]; by destruct s0. }
    match goal with |- (?x, _) = _ -> _ => set (s2 := x) end.
    assert (s_nodeID s2 = s_nodeID s1 /\ s_counter s2 = s_counter s1 /\ s_clock s2 = s_clock s1 /\
            lastSyncClock s2 = lastSyncClock s1) as (B1 & B2 & B3 & B4).
    { unfold s2. destruct (g_wal _); [|done]. destruct (s_wal s1); [|done].
      destruct (Append _ _ _ _ _ _ _ _ _ _ _) as [[w' d'] e]. by destruct s1. }
    clearbody s2 s1 s0. intros [= <- <-]. split_and!; [congruence|by destruct g| |by destruct g].
    eapply merged_with_same; [exact Hm|congruence..].
  - intros [= <- <-]. split_and!; try done; by destruct g.
Qed.

(** *** Preservation *)

Lemma announces_carries (V : versions) (T : string -> Z) (u : StateUpdate)
    (pos neg clk base recv : gmap string Z) :
  versioned V T pos neg clk -> nonneg recv -> (forall k, clk.[k] <= base.[k] -> clk.[k] <= recv.[k]) ->
  announces u pos neg clk base ->
  carries V (su_PositiveState u) (su_NegativeState u) (su_VectorClock u) recv.
Proof.
  intros Hv Hr Hb (-> & [(_ & -> & ->)|(_ & -> & ->)]).
  - by eapply full_carries.
  - by eapply delta_carries.
Qed.

Lemma announces_type (u : StateUpdate) (pos neg clk base : gmap string Z) :
  announces u pos neg clk base -> su_Type u <> HEARTBEAT.
Proof. by intros (_ & [(-> & _)|(-> & _)]). Qed.

Lemma inv_top_of y (V : versions) (T : string -> Z) (x : string) n n' :
  inv y V T -> nodes y !! x = Some n -> nclk n ⊑ nclk n' ->
  versioned V T (npos n') (nneg n') (nclk n') ->
  forall k, T k = if decide (key_owner k = x) then (nclk n').[k] else T k.
Proof.
  intros HI Hn Hle Hv k. case_decide as Ho; [|done]. destruct (Hv k) as ([_ Hk] & _).
  specialize (Hle k). rewrite (i_top y V T HI), Ho, Hn in *. lia.
Qed.

Lemma inv_clock y (V : versions) (T : string -> Z) (x : string) n :
  inv y V T -> nodes y !! x = Some n -> nonneg (nclk n) /\ forall k, (nclk n).[k] <= T k.
Proof.
  intros HI Hn. destruct (i_node y V T HI x n Hn) as [_ Hv].
  split; intros k; by destruct (Hv k) as ([? ?] & _).
Qed.

Lemma reply_clock_other y (x : string) n (ab cd : string * string) f :
  ab <> cd -> reply_clock (put_flight (put y x n) ab f) cd.1 cd.2 = reply_clock y cd.1 cd.2.
Proof.
  intros Hne. unfold reply_clock. simpl. destruct cd. by rewrite lookup_partial_alter_ne.
Qed.

Lemma merged_node y (V : versions) (T : string -> Z) (x : string) n s' (u : StateUpdate) g :
  inv y V T -> nodes y !! x = Some n -> merged_with (svc n) s' u -> g_nodeID g = g_nodeID (eng n) ->
  (forall k, 0 <= (su_VectorClock u).[k] <= T k) ->
  carries V (su_PositiveState u) (su_NegativeState u) (su_VectorClock u) (nclk n) ->
  let n' := mkNode s' g in
  ids_ok x n' /\ nclk n ⊑ nclk n' /\ versioned V T (npos n') (nneg n') (nclk n') /\
  forall k, (nclk n').[k] = Z.max (nclk n).[k] (su_VectorClock u).[k].
Proof.
  intros HI Hn [M1 M2 M3 M4 M5 M6] Hg Hc Hcar n'.
  destruct (i_node y V T HI x n Hn) as [[F1 F2 F3 F4 F5] Hv].
  destruct (versioned_merge V T (i_hist y V T HI) _ _ _ _ _ _ Hv Hc Hcar) as [Hv' Hmax].
  assert (nclk n' = max_into (su_VectorClock u) (nclk n)) as Ec by exact M6.
  assert (npos n' = max_into (su_PositiveState u) (npos n)) as Ep by exact M4.
  assert (nneg n' = max_into (su_NegativeState u) (nneg n)) as En by exact M5.
  rewrite Ec, Ep, En. split_and!; [split; simpl; congruence| |done|done].
  apply max_into_le_dst.
Qed.

(** A message that announces the state of [a] enters the network. *)
Lemma inv_sent y (V : versions) (T : string -> Z) (a b : string) na nb g u :
  inv y V T -> nodes y !! a = Some na -> nodes y !! b = Some nb -> a <> b ->
  flights y !! (a, b) = None -> lastSync g = lastSync (eng na) -> g_nodeID g = g_nodeID (eng na) ->
  su_FromNodeId u = a -> announces u (npos na) (nneg na) (nclk na) (base_of na b) ->
  inv (put_flight (put y a (mkNode (svc na) g)) (a, b) (Some (Sent u))) V T.
Proof.
  intros HI Ha Hb Hne Hf L1 L2 Hfrom Hann.
  destruct (i_node y V T HI a na Ha) as [[F1 F2 F3 F4 F5] Hv].
  destruct (inv_clock y V T b nb HI Hb) as [Nb _]. destruct (inv_clock y V T a na HI Ha) as [Na _].
  assert (nclk na ⊑ nclk (mkNode (svc na) g)) as Hle by reflexivity.
  apply (inv_update y V V T T a a b na); try done.
  - split; simpl; congruence.
  - by left.
  - apply HI.
  - by apply (inv_top_of y V T a na).
  - intros fl [= <-]. split; [done|]. exists (mkNode (svc na) g), nb. simpl.
    rewrite lookup_insert_eq, lookup_insert_ne by done. unfold sent_ok.
    split_and!; try done; [by eapply announces_type| |].
    + destruct Hann as [-> _]. intros k. specialize (Na k). unfold nclk in *. simpl. lia.
    + eapply announces_carries; [exact Hv|done| |exact Hann]. intros k Hk.
      pose proof (i_base y V T HI a b na nb Ha Hb Hne k). lia.
  - intros c nc Hc Hca k. unfold base_of. simpl. rewrite L1.
    by apply (i_base y V T HI a c na nc Ha Hc).
  - intros c nc Hc Hca k. rewrite (reply_clock_other y a _ (a, b) (c, a)) by congruence.
    apply (i_last y V T HI c a nc na Hc Ha Hca k).
  - intros nb' _ Hb' _ k. pose proof (i_last y V T HI a b na nb' Ha Hb' Hne k) as Hl.
    unfold reply_clock in *. simpl. rewrite lookup_partial_alter_eq. by rewrite Hf in Hl.
Qed.

Lemma step_send y (V : versions) (T : string -> Z) (a b : string) na nb m now g u :
  inv y V T -> nodes y !! a = Some na -> nodes y !! b = Some nb -> a <> b ->
  flights y !! (a, b) = None -> prepare (svc na) (eng na) m (addr b) now = (g, Some u) ->
  inv (put_flight (put y a (mkNode (svc na) g)) (a, b) (Some (Sent u))) V T.
Proof.
  intros HI Ha Hb Hne Hf Hp. destruct (prepare_spec _ _ _ _ _ _ _ Hp) as (L1 & L2 & Hu).
  destruct (Hu u eq_refl) as [Hfrom Hann]. destruct (i_node y V T HI a na Ha) as [[] _].
  apply (inv_sent y V T a b na nb); try done. congruence.
Qed.

Lemma step_ask y (V : versions) (T : string -> Z) (a b : string) na nb u :
  inv y V T -> nodes y !! a = Some na -> nodes y !! b = Some nb -> a <> b ->
  flights y !! (a, b) = None -> su_FromNodeId u = a -> su_Type u = FULL_STATE ->
  su_PositiveState u = npos na -> su_NegativeState u = nneg na -> su_VectorClock u = nclk na ->
  inv (put_flight y (a, b) (Some (Sent u))) V T.
Proof.
  intros HI Ha Hb Hne Hf Hfrom Ht Hp Hn Hc.
  replace y with (put y a (mkNode (svc na) (eng na))) at 1.
  - apply (inv_sent y V T a b na nb); try done. split; [done|by left].
  - unfold put. destruct y, na; simpl in *. by rewrite insert_id.
Qed.

(** What the receiver believes its peers know, after it replied to [a]. *)
Lemma handled_last y (V : versions) (T : string -> Z) (a b : string) na nb u r s' :
  inv y V T -> nodes y !! a = Some na -> nodes y !! b = Some nb -> a <> b ->
  flights y !! (a, b) = Some (Sent u) -> su_FromNodeId u = a ->
  (forall k, 0 <= (su_VectorClock u).[k] <= (nclk na).[k]) ->
  nonneg (clock (s_clock s')) -> su_VectorClock r = clock (s_clock s') ->
  lastSyncClock s' =
    (if su_Type u =? DELTA_UPDATE
     then <[su_FromNodeId u := MergeClock (clock (s_clock s')) (su_VectorClock u)]>
            (lastSyncClock (svc nb))
     else lastSyncClock (svc nb)) ->
  let n' := mkNode s' (eng nb) in
  forall c nc, nodes y !! c = Some nc -> c <> b -> forall k,
    0 <= (last_of n' c).[k] <=
    Z.max (nclk nc).[k]
      (reply_clock (put_flight (put y b n') (a, b) (Some (Replied u r))) c b).[k].
Proof.
  intros HI Ha Hb Hne Hf Hfrom Hu N' Er Hlast n' c nc Hc Hcb k.
  pose proof (i_last y V T HI c b nc nb Hc Hb Hcb k) as Hk.
  unfold last_of in *. simpl. rewrite Hlast. destruct (decide (c = a)) as [->|Hca].
  - assert (nc = na) as -> by congruence. specialize (Hu k). pose proof (N' k).
    unfold reply_clock in *. rewrite Hf in Hk. simpl in *. rewrite get0_empty in Hk.
    rewrite lookup_partial_alter_eq. simpl. rewrite Er.
    destruct (su_Type u =? DELTA_UPDATE); [|rewrite get0_empty; lia].
    rewrite Hfrom, lookup_insert_eq. simpl. rewrite MergeClock_get by done. lia.
  - rewrite (reply_clock_other y b _ (a, b) (c, b)) by congruence.
    destruct (su_Type u =? DELTA_UPDATE); [|done]. by rewrite Hfrom, lookup_insert_ne by congruence.
Qed.

Lemma step_handle y (V : versions) (T : string -> Z) (a b : string) nb u io s' r :
  inv y V T -> flights y !! (a, b) = Some (Sent u) -> nodes y !! b = Some nb ->
  sync_update marshal io (svc nb) u = (s', Some r) ->
  inv (put_flight (put y b (mkNode s' (eng nb))) (a, b) (Some (Replied u r))) V T.
Proof.
  intros HI Hf Hb Hrun.
  destruct (i_flight y V T HI a b _ Hf) as (Hne & na & nb' & Ha & Hb' & Hfrom & Ht & Hu & Hcar).
  assert (nb' = nb) as -> by congruence. clear Hb'.
  destruct (sync_update_spec io (svc nb) s' u r Ht Hrun) as (Hm & Hann & _ & Hlast).
  destruct (inv_clock y V T a na HI Ha) as [Na Ta]. destruct (inv_clock y V T b nb HI Hb) as [Nb _].
  assert (forall k, 0 <= (su_VectorClock u).[k] <= T k) as HuT.
  { intros k. specialize (Hu k). specialize (Ta k). lia. }
  destruct (merged_node y V T b nb s' u (eng nb) HI Hb Hm eq_refl HuT Hcar)
    as (Hids & Hle & Hv & Hmax).
  set (n' := mkNode s' (eng nb)) in *.
  assert (nonneg (nclk n')) as N' by (intros k; rewrite Hmax; specialize (Nb k); lia).
  assert (su_VectorClock r = nclk n') as Er by apply Hann.
  pose proof (i_last y V T HI a b na nb Ha Hb Hne) as Hl.
  unfold reply_clock in Hl. rewrite Hf in Hl.
  assert (forall k, 0 <= (last_of nb a).[k] <= (nclk na).[k]) as Hl0.
  { intros k. specialize (Hl k). rewrite get0_empty in Hl. specialize (Na k). lia. }
  apply (inv_update y V V T T b a b nb); try done.
  - by right.
  - apply HI.
  - by apply (inv_top_of y V T b nb).
  - intros fl [= <-]. split; [done|]. exists na, n'. simpl.
    rewrite lookup_insert_ne, lookup_insert_eq by done. split_and!; try done.
    + apply (sent_ok_mono V V T a na nb); [done..|]. by split_and!.
    + intros k. rewrite Hmax. lia.
    + intros k. rewrite Er. specialize (N' k). lia.
    + eapply announces_carries; [exact Hv|exact Na| |exact Hann]. intros k Hk.
      change (default ∅ (lastSyncClock (svc nb) !! su_FromNodeId u))
        with (last_of nb (su_FromNodeId u)) in Hk. rewrite Hfrom in Hk.
      rewrite MergeClock_get in Hk by (intros j; by destruct (Hu j)).
      change (clock (s_clock s')) with (nclk n') in *. specialize (Hu k). specialize (Hl0 k). lia.
  - intros c nc Hc Hcb k. by apply (i_base y V T HI b c nb nc Hb Hc).
  - intros c nc Hc Hcb. by apply (handled_last y V T a b na nb u r s').
Qed.

(** The reply [r] is merged, and the baseline for [b] becomes a clock [b] covers. *)
Lemma inv_replied y (V : versions) (T : string -> Z) (a b : string) na u r s' g' :
  inv y V T -> flights y !! (a, b) = Some (Replied u r) -> nodes y !! a = Some na ->
  merged_with (svc na) s' r -> lastSyncClock s' = lastSyncClock (svc na) ->
  g_nodeID g' = g_nodeID (eng na) ->
  lastSync g' = lastSync (eng na) \/
  lastSync g' = <[addr b := MergeClock (su_VectorClock u) (su_VectorClock r)]> (lastSync (eng na)) ->
  inv (put_flight (put y a (mkNode s' g')) (a, b) None) V T.
Proof.
  intros HI Hf Ha Hm L1 L2 L3.
  destruct (i_flight y V T HI a b _ Hf)
    as (Hne & na' & nb & Ha' & Hb & (_ & _ & Hu & _) & Hub & Hr & Hcar).
  assert (na' = na) as -> by congruence. clear Ha'.
  destruct (inv_clock y V T b nb HI Hb) as [Nb Tb]. destruct (inv_clock y V T a na HI Ha) as [Na _].
  assert (forall k, 0 <= (su_VectorClock r).[k] <= T k) as HrT.
  { intros k. specialize (Hr k). specialize (Tb k). lia. }
  destruct (merged_node y V T a na s' r g' HI Ha Hm L2 HrT Hcar) as (Hids & Hle & Hv & Hmax).
  set (n' := mkNode s' g') in *.
  apply (inv_update y V V T T a a b na); try done.
  - by left.
  - apply HI.
  - by apply (inv_top_of y V T a na).
  - intros c nc Hc Hca k. pose proof (i_base y V T HI a c na nc Ha Hc ltac:(done) k) as Hk.
    unfold base_of in *. simpl. destruct L3 as [-> | ->]; [done|].
    destruct (decide (c = b)) as [->|Hcb].
    + assert (nc = nb) as -> by congruence. rewrite lookup_insert_eq. simpl.
      rewrite MergeClock_get by (intros j; apply Hu). specialize (Hub k). specialize (Hr k). lia.
    + by rewrite lookup_insert_ne by (intros E; by apply addr_inj in E).
  - intros c nc Hc Hca k. rewrite (reply_clock_other y a _ (a, b) (c, a)) by congruence.
    unfold last_of. simpl. rewrite L1. apply (i_last y V T HI c a nc na Hc Ha Hca k).
  - intros nb' _ Hb' _ k. pose proof (i_last y V T HI a b na nb' Ha Hb' Hne k) as Hk.
    unfold reply_clock in *. simpl. rewrite lookup_partial_alter_eq. rewrite Hf in Hk.
    simpl in *. rewrite Hmax, get0_empty. specialize (Na k). specialize (Hr k).
    destruct (su_Type u =? DELTA_UPDATE); [lia|]. rewrite get0_empty in Hk. lia.
Qed.

Lemma step_finish y (V : versions) (T : string -> Z) (a b : string) na u r io s' g' :
  inv y V T -> flights y !! (a, b) = Some (Replied u r) -> nodes y !! a = Some na ->
  complete marshal io (svc na) (eng na) (addr b) (su_VectorClock u) (Some r) = (s', g') ->
  inv (put_flight (put y a (mkNode s' g')) (a, b) None) V T.
Proof.
  intros HI Hf Ha Hrun. destruct (complete_spec io _ _ _ _ _ _ _ Hrun) as (L1 & L2 & Hm & L3).
  by apply (inv_replied y V T a b na u r s' g'); auto.
Qed.

Lemma step_lost y (V : versions) (T : string -> Z) (a b : string) na u io s' g' :
  inv y V T -> flights y !! (a, b) = Some (Sent u) -> nodes y !! a = Some na ->
  complete marshal io (svc na) (eng na) (addr b) (su_VectorClock u) None = (s', g') ->
  inv (put_flight (put y a (mkNode s' g')) (a, b) None) V T.
Proof.
  intros HI Hf Ha Hrun. destruct (i_flight y V T HI a b _ Hf) as (Hne & _).
  destruct (complete_spec io _ _ _ _ _ _ _ Hrun) as (_ & L2 & -> & L3).
  destruct (i_node y V T HI a na Ha) as [[F1 F2 F3 F4 F5] Hv].
  assert (nclk na ⊑ nclk (mkNode (svc na) g')) as Hle by reflexivity.
  apply (inv_update y V V T T a a b na); try done.
  - split; simpl; congruence.
  - by left.
  - apply HI.
  - by apply (inv_top_of y V T a na).
  - intros c nc Hc Hca k. unfold base_of. simpl. rewrite L3.
    by apply (i_base y V T HI a c na nc Ha Hc).
  - intros c nc Hc Hca k. rewrite (reply_clock_other y a _ (a, b) (c, a)) by congruence.
    apply (i_last y V T HI c a nc na Hc Ha Hca k).
  - intros nb' _ Hb' _ k. pose proof (i_last y V T HI a b na nb' Ha Hb' Hne k) as Hk.
    unfold reply_clock in *. simpl. rewrite lookup_partial_alter_eq. by rewrite Hf in Hk.
Qed.

(** A message is taken out of the network or goes back to what was sent. *)
Lemma step_loss y (V : versions) (T : string -> Z) (a b : string) f (f' : option flight) :
  inv y V T -> flights y !! (a, b) = Some f -> loss_hazard f = [] ->
  f' = None \/ (exists u r, f = Replied u r /\ f' = Some (Sent u)) ->
  inv (put_flight y (a, b) f') V T.
Proof.
  intros HI Hf Hloss Hf'. destruct (i_flight y V T HI a b _ Hf) as (Hne & na & nb & Ha & Hb & Hok).
  destruct (i_node y V T HI a na Ha) as [Hids Hv].
  assert (flight_clock (Some f) = ∅ /\ flight_clock f' = ∅) as [E0 E1].
  { split; [|by destruct Hf' as [->|(u & r & _ & ->)]]. destruct f as [u|u r]; [done|].
    simpl in *. by destruct (su_Type u =? DELTA_UPDATE). }
  assert (put y a na = y) as E by (unfold put; destruct y; simpl in *; by rewrite insert_id).
  rewrite <- E at 1. apply (inv_update y V V T T a a b na); try done.
  - by left.
  - apply HI.
  - by apply (inv_top_of y V T a na).
  - intros fl ->. destruct Hf' as [|(u & r & -> & [= ->])]; [done|]. split; [done|]. rewrite E.
    exists na, nb. by destruct Hok as [? _].
  - intros c nc Hc Hca k. by apply (i_base y V T HI a c na nc Ha Hc).
  - intros c nc Hc Hca k. rewrite (reply_clock_other y a _ (a, b) (c, a)) by congruence.
    apply (i_last y V T HI c a nc na Hc Ha Hca k).
  - intros nb' _ Hb' _ k. pose proof (i_last y V T HI a b na nb' Ha Hb' Hne k) as Hk.
    unfold reply_clock in *. rewrite Hf, E0 in Hk. simpl.
    by rewrite lookup_partial_alter_eq, E1.
Qed.

Lemma step_internal y (V : versions) (T : string -> Z) (a : string) n n' :
  inv y V T -> nodes y !! a = Some n -> same_node n n' -> inv (put y a n') V T.
Proof.
  intros HI Hn [S1 S2 S3 S4 S5 S6].
  destruct (i_node y V T HI a n Hn) as [[F1 F2 F3 F4 F5] Hv].
  assert (npos n' = npos n /\ nneg n' = nneg n /\ nclk n' = nclk n) as (E1 & E2 & E3)
    by (unfold npos, nneg, nclk; by rewrite S3, S4).
  apply (inv_put y V V T T a n n'); try done.
  - split; congruence.
  - by rewrite E3.
  - apply HI.
  - by rewrite E1, E2, E3.
  - apply (inv_top_of y V T a n); try done; [by rewrite E3|by rewrite E1, E2, E3].
Qed.

Lemma step_restart y (V : versions) (T : string -> Z) (a : string) n n' :
  inv y V T -> nodes y !! a = Some n -> restarted n n' -> inv (put y a n') V T.
Proof.
  intros HI Hn [R1 R2 R3 R4 [R5 R6] R7 R8 R9].
  destruct (i_node y V T HI a n Hn) as [[F1 F2 F3 F4 F5] Hv].
  assert (versioned V T (npos n') (nneg n') (nclk n')) as Hv'.
  { intros k. destruct (Hv k) as (H1 & H2 & H3). rewrite (R7 k). unfold npos, nneg in *.
    by rewrite (R5 k), (R6 k). }
  assert (nclk n ⊑ nclk n') as Hle by (intros k; rewrite (R7 k); lia).
  rewrite <- (put_flight_same (put y a n') (a, a) None) by exact (inv_no_self y V T a HI).
  apply (inv_update y V V T T a a a n); try done.
  - split; congruence.
  - by left.
  - apply HI.
  - by apply (inv_top_of y V T a n).
  - intros c nc Hc _ k. destruct (inv_clock y V T c nc HI Hc) as [Nc _].
    unfold base_of. rewrite R9, lookup_empty. simpl. rewrite get0_empty. apply Nc.
  - intros c nc Hc _ k. destruct (inv_clock y V T c nc HI Hc) as [Nc _]. specialize (Nc k).
    unfold last_of. rewrite R8, lookup_empty. simpl. rewrite get0_empty. lia.
Qed.

Lemma update_hazard_fits (counts clk : gmap string Z) (key : string) (req : UpdateRequest) :
  update_hazard counts clk key req = [] ->
  0 <= asked req /\ counts.[key] + asked req < 2 ^ 63 /\ clk.[key] + 1 < 2 ^ 63.
Proof.
  unfold update_hazard. destruct (_ && _) eqn:H; [|done]. intros _.
  apply andb_true_iff in H as [[H1%Z.leb_le H2%Z.ltb_lt]%andb_true_iff H3%Z.ltb_lt]. done.
Qed.

(** A step without hazard keeps the invariant. *)
Lemma ystep_inv y y' (V : versions) (T : string -> Z) (h : list hazard) :
  inv y V T -> ystep marshal addr y h y' -> h = [] -> exists V' T', inv y' V' T'.
Proof.
  intros HI Hs Hh. destruct Hs; try done.
  - apply update_hazard_fits in Hh as (H1 & H2 & H3). eapply step_update; [done..|]. left. by split.
  - apply update_hazard_fits in Hh as (H1 & H2 & H3). eapply step_update; [done..|]. right. by split.
  - exists V, T. by eapply step_send.
  - exists V, T. by eapply step_handle.
  - exists V, T. by eapply step_finish.
  - exists V, T. by eapply step_lost.
  - exists V, T. eapply step_loss; [done..|]. right. by eexists _, _.
  - exists V, T. eapply step_loss; [done..|]. by left.
  - exists V, T. by eapply step_ask.
  - exists V, T. eapply (inv_replied y V T a b na u r s' (eng na)); auto.
  - exists V, T. by eapply step_internal.
  - exists V, T. by eapply step_restart.
Qed.

Lemma yrun_inv y y' (hs : list hazard) (V : versions) (T : string -> Z) :
  yrun marshal addr y hs y' -> hs = [] -> inv y V T -> exists V' T', inv y' V' T'.
Proof.
  intros Hr. revert V T. induction Hr as [y|y h hs y1 y2 Hs _ IH]; intros V T Hh HI; [by exists V, T|].
  apply app_nil in Hh as [-> ->]. destruct (ystep_inv y y1 V T [] HI Hs eq_refl) as (V1 & T1 & HI1).
  by apply (IH V1 T1).
Qed.

Lemma boot_inv (ids : gset string) (fs : disk) (port interval : Z) :
  (forall id, id ∈ ids -> colon_free id) ->
  inv (boot ids fs port interval) (fun _ _ => (0, 0)) (fun _ => 0).
Proof.
  intros Hids.
  assert (forall id n, nodes (boot ids fs port interval) !! id = Some n ->
    id ∈ ids /\ n = mkNode (NewCounterService id port fs) (NewGossipEngine id interval)) as Hb.
  { intros id n. unfold boot. simpl. intros (x & Hx & Heq)%lookup_set_to_map; [|naive_solver].
    by simplify_eq. }
  split.
  - split; [done|]. intros; simpl; lia.
  - intros id n [Hi ->]%Hb. split; [by split; auto|]. intros k.
    unfold nclk, npos, nneg. simpl. by rewrite get0_empty.
  - intros k. destruct (nodes _ !! key_owner k) as [n|] eqn:Hk; [|done].
    apply Hb in Hk as [_ ->]. unfold nclk. simpl. by rewrite get0_empty.
  - intros a b f Hf. simpl in Hf. by rewrite lookup_empty in Hf.
  - intros a b na nb [_ ->]%Hb [_ ->]%Hb _ k. unfold base_of, nclk. simpl.
    rewrite lookup_empty. simpl. by rewrite get0_empty.
  - intros a b na nb [_ ->]%Hb [_ ->]%Hb _ k. unfold last_of, nclk, reply_clock. simpl.
    rewrite !lookup_empty. simpl. rewrite get0_empty. lia.
Qed.

Lemma reached_inv (ids : gset string) (fs : disk) (port interval : Z) y :
  (forall id, id ∈ ids -> colon_free id) -> reached marshal addr ids fs port interval [] y ->
  exists V T, inv y V T.
Proof. intros Hids Hr. by eapply yrun_inv; [exact Hr|done|apply boot_inv]. Qed.

(** An undisturbed exchange: both ends keep the invariant, and their clocks meet. *)
Lemma exchange_versioned y (V : versions) (T : string -> Z) (a b : string) na nb m now io io' g g' u r
    sa sb :
  inv y V T -> nodes y !! a = Some na -> nodes y !! b = Some nb -> a <> b ->
  flights y !! (a, b) = None ->
  prepare (svc na) (eng na) m (addr b) now = (g, Some u) ->
  sync_update marshal io (svc nb) u = (sb, Some r) ->
  complete marshal io' (svc na) g (addr b) (su_VectorClock u) (Some r) = (sa, g') ->
  versioned V T (positive (s_counter sa)) (negative (s_counter sa)) (clock (s_clock sa)) /\
  versioned V T (positive (s_counter sb)) (negative (s_counter sb)) (clock (s_clock sb)).
Proof.
  intros HI Ha Hb Hne Hf Hp Hs Hc.
  pose proof (step_send y V T a b na nb m now g u HI Ha Hb Hne Hf Hp) as HI1.
  set (y1 := put_flight _ _ (Some (Sent u))) in HI1.
  assert (flights y1 !! (a, b) = Some (Sent u)) as Hf1 by apply lookup_partial_alter_eq.
  assert (nodes y1 !! b = Some nb) as Hb1 by (simpl; by rewrite lookup_insert_ne).
  pose proof (step_handle y1 V T a b nb u io sb r HI1 Hf1 Hb1 Hs) as HI2.
  set (y2 := put_flight _ _ (Some (Replied u r))) in HI2.
  assert (flights y2 !! (a, b) = Some (Replied u r)) as Hf2 by apply lookup_partial_alter_eq.
  assert (nodes y2 !! a = Some (mkNode (svc na) g)) as Ha2
    by (simpl; rewrite lookup_insert_ne by done; apply lookup_insert_eq).
  pose proof (step_finish y2 V T a b _ u r io' sa g' HI2 Hf2 Ha2 Hc) as HI3.
  destruct (i_node _ V T HI3 a (mkNode sa g')) as [_ Va]; [apply lookup_insert_eq|].
  destruct (i_node _ V T HI2 b (mkNode sb (eng nb))) as [_ Vb]; [apply lookup_insert_eq|]. done.
Qed.

Lemma exchange_clocks (na nb : node D) m (address : string) now io io' g g1 g' u r
    (sa sb : CounterService D) :
  nonneg (nclk na) -> nonneg (nclk nb) ->
  prepare (svc na) (eng na) m address now = (g, Some u) ->
  sync_update marshal io (svc nb) u = (sb, Some r) ->
  complete marshal io' (svc na) g1 address (su_VectorClock u) (Some r) = (sa, g') ->
  forall k, (clock (s_clock sa)).[k] = Z.max (nclk na).[k] (nclk nb).[k] /\
            (clock (s_clock sb)).[k] = Z.max (nclk na).[k] (nclk nb).[k].
Proof.
  intros Na Nb Hp Hs Hc k. destruct (prepare_spec _ _ _ _ _ _ _ Hp) as (_ & _ & Hu).
  destruct (Hu u eq_refl) as [_ Hann]. pose proof (announces_type _ _ _ _ _ Hann) as Hty.
  destruct (sync_update_spec io _ _ _ _ Hty Hs) as ([_ _ _ _ _ Mb] & [Er _] & _).
  destruct (complete_spec io' _ _ _ _ _ _ _ Hc) as (_ & _ & [_ _ _ _ _ Ma] & _).
  destruct Hann as [Eu _].
  assert ((clock (s_clock sb)).[k] = Z.max (nclk na).[k] (nclk nb).[k]) as Kb.
  { rewrite Mb, max_into_get_nonneg, Eu by exact Nb. apply Z.max_comm. }
  split; [|done]. rewrite Ma, max_into_get_nonneg, Er, Kb by exact Na.
  change (clock (s_clock (svc na))) with (nclk na). lia.
Qed.

End invariant.

(** ** Properties *)

Lemma versioned_agree (V : versions) (T : string -> Z) (c1 c2 : PNCounter) (k1 k2 : gmap string Z) :
  versioned V T (positive c1) (negative c1) k1 -> versioned V T (positive c2) (negative c2) k2 ->
  k1 ≈ k2 -> pn_sim c1 c2.
Proof.
  intros H1 H2 Hk. split; intros k; destruct (H1 k) as (_ & P1 & N1), (H2 k) as (_ & P2 & N2);
    specialize (Hk k); congruence.
Qed.

(** The owner of an entry is never behind on it. *)
Lemma owner_ahead {D : Type} (addr : string -> string) (y : system D) (V : versions) (T : string -> Z)
    (a b : string) (na nb : node D) (k : string) :
  inv addr y V T -> nodes y !! a = Some na -> nodes y !! b = Some nb -> key_owner k = a ->
  (npos nb).[k] <= (npos na).[k] /\ (nneg nb).[k] <= (nneg na).[k].
Proof.
  intros HI Ha Hb Ho. pose proof (i_top addr y V T HI k) as Ht. rewrite Ho, Ha in Ht.
  destruct (i_node addr y V T HI a na Ha) as [_ Va]. destruct (i_node addr y V T HI b nb Hb) as [_ Vb].
  destruct (Va k) as (_ & -> & ->), (Vb k) as (? & -> & ->).
  apply (h_mono V T (i_hist addr y V T HI)); lia.
Qed.

(** C1: Strong convergence without hazards.  Take any run of the cluster from its
    boot in which none of these happened: an update with a negative delta or beyond
    [int64] (the service accepts both), a reset, the loss of the answer to a delta,
    a restart without the node's data, an exchange whose counts and clock were read
    at different instants, a message of a stranger; node ids have no colon, distinct
    nodes have distinct addresses, and each handler runs at one instant.  Then,
    however updates, delta and full exchanges, recoveries from seeds and restarts
    that kept the data interleave, and whichever updates and full-state replies were
    lost or retried, two nodes that have seen the same versions report the same
    value for every counter, and no node holds more of a replica's contribution than
    the replica itself.  (Each hazard alone breaks this: [hazards_matter].) *)
Theorem strong_convergence {D : Type} `{SO : StoreOps D} (marshal : WALEntry -> string)
    (addr : string -> string) (ids : gset string) (fs : disk)
    (port interval : Z) (y : system D) (a b : string) (na nb : node D) :
  (forall a b, addr a = addr b -> a = b) -> (forall id, id ∈ ids -> colon_free id) ->
  reached marshal addr ids fs port interval [] y ->
  nodes y !! a = Some na -> nodes y !! b = Some nb ->
  (nclk na ≈ nclk nb ->
   forall name, ValueName (s_counter (svc na)) name = ValueName (s_counter (svc nb)) name) /\
  (forall k, key_owner k = a -> (npos nb).[k] <= (npos na).[k] /\ (nneg nb).[k] <= (nneg na).[k]).
Proof.
  intros Hinj Hids Hr Ha Hb.
  destruct (reached_inv marshal addr Hinj ids fs port interval y Hids Hr) as (V & T & HI).
  destruct (i_node _ y V T HI a na Ha) as [_ Va]. destruct (i_node _ y V T HI b nb Hb) as [_ Vb].
  split.
  - intros Hk name. apply ValueName_proper; [|done]. by eapply (versioned_agree V T).
  - intros k Ho. by apply (owner_ahead addr y V T a b na nb).
Qed.

(** C11: A completed exchange synchronises its two ends, in a cluster whose run so
    far had no hazard: no negative or overflowing update, no reset, no lost answer to
    a delta, no restart without data, no counts and clock read apart, no message of a
    stranger (after a hazard the ends may share their clocks and not their counts).
    When the sender prepares the update, the receiver handles it and the sender
    merges the reply with nothing else in between, then, whether the engine chose a
    delta or the full state, both nodes hold the same counts, report the same values,
    and their clock is the join of the two clocks they started with. *)
Theorem exchange_synchronizes {D : Type} `{SO : StoreOps D} (marshal : WALEntry -> string)
    (addr : string -> string) (ids : gset string) (fs : disk)
    (port interval : Z) (y : system D) (a b : string) (na nb : node D) (m : Membership)
    (now : Z) (io io' : env) (g g' : GossipEngine) (u r : StateUpdate) (sa sb : CounterService D) :
  (forall a b, addr a = addr b -> a = b) -> (forall id, id ∈ ids -> colon_free id) ->
  reached marshal addr ids fs port interval [] y ->
  nodes y !! a = Some na -> nodes y !! b = Some nb -> a <> b -> flights y !! (a, b) = None ->
  prepare (svc na) (eng na) m (addr b) now = (g, Some u) ->
  sync_update marshal io (svc nb) u = (sb, Some r) ->
  complete marshal io' (svc na) g (addr b) (su_VectorClock u) (Some r) = (sa, g') ->
  pn_sim (s_counter sa) (s_counter sb) /\
  (forall name, ValueName (s_counter sa) name = ValueName (s_counter sb) name) /\
  (forall k, (clock (s_clock sa)).[k] = Z.max (nclk na).[k] (nclk nb).[k] /\
             (clock (s_clock sb)).[k] = Z.max (nclk na).[k] (nclk nb).[k]).
Proof.
  intros Hinj Hids Hr Ha Hb Hne Hf Hp Hs Hc.
  destruct (reached_inv marshal addr Hinj ids fs port interval y Hids Hr) as (V & T & HI).
  destruct (inv_clock addr y V T a na HI Ha) as [Na _].
  destruct (inv_clock addr y V T b nb HI Hb) as [Nb _].
  destruct (exchange_versioned marshal addr Hinj y V T a b na nb m now io io' g g' u r sa sb)
    as [Va Vb]; try done.
  pose proof (exchange_clocks marshal na nb m (addr b) now io io' g g g' u r sa sb Na Nb Hp Hs Hc) as K.
  assert (pn_sim (s_counter sa) (s_counter sb)) as Hsim.
  { eapply (versioned_agree V T); [exact Va|exact Vb|]. intros k. by destruct (K k) as [-> ->]. }
  split_and!; [done| |exact K]. intros name. by apply ValueName_proper.
Qed.

Lemma prepare_skips {D : Type} (s : CounterService D) (g g' : GossipEngine) (m : Membership)
    (address : string) (now : Z) :
  prepare s g m address now = (g', None) -> Allow (breaker g address).2 now = true ->
  deltaClock (DeltaFrom (positive (s_counter s)) (negative (s_counter s)) (clock (s_clock s))
    (default ∅ (lastSync g !! address))) = ∅.
Proof.
  unfold prepare, prepare_read, Positive, Negative, State. pose proof (breaker_frame g address) as [H1 _].
  destruct (breaker g address) as [g0 b]. simpl in *. rewrite <- H1, !copy_map_id.
  intros Hrun Hal. rewrite Hal in Hrun. simpl in Hrun. destruct (_ || _); [done|].
  destruct (Z.eqb_spec (Z.of_nat (size (deltaClock (DeltaFrom (positive (s_counter s))
    (negative (s_counter s)) (clock (s_clock s)) (default ∅ (lastSync g0 !! address)))))) 0) as [Hz|];
    [|done]. apply map_size_empty_inv. lia.
Qed.

(** An admitted round that sends nothing: the peer is not behind. *)
Lemma skip_clocks {D : Type} (addr : string -> string) (y : system D) (V : versions) (T : string -> Z)
    (a b : string) (na nb : node D) (m : Membership) (now : Z) (g : GossipEngine) :
  inv addr y V T -> nodes y !! a = Some na -> nodes y !! b = Some nb -> a <> b ->
  Allow (breaker (eng na) (addr b)).2 now = true ->
  prepare (svc na) (eng na) m (addr b) now = (g, None) -> nclk na ⊑ nclk nb.
Proof.
  intros HI Ha Hb Hne Hal Hp k. pose proof (prepare_skips _ _ _ _ _ _ Hp Hal) as He.
  change (deltaClock (DeltaFrom (npos na) (nneg na) (nclk na) (base_of addr na b)) = ∅) in He.
  pose proof (i_base _ y V T HI a b na nb Ha Hb Hne k) as Hbase.
  destruct (inv_clock addr y V T b nb HI Hb) as [Nb _]. specialize (Nb k).
  destruct (DeltaFrom_lookup (npos na) (nneg na) (nclk na) (base_of addr na b) k) as (_ & _ & Hc).
  rewrite He, lookup_empty in Hc. unfold restrict_newer in Hc.
  destruct (nclk na !! k) as [v|] eqn:Hk.
  - apply get0_Some in Hk as Hv.
    destruct (Z.ltb_spec (base_of addr na b).[k] v); [congruence|lia].
  - apply get0_None in Hk. lia.
Qed.

(** C13: A skipped round loses nothing in a cluster whose run so far had no hazard:
    when the breaker admits the round and the engine still sends nothing because no
    entry is newer than the baseline, the peer already holds every count of the
    sender.  The hazards are those of [strong_convergence]; after a reset of the
    peer, its restart without data or a send whose counts and clock were read apart
    the engine does skip rounds the peer would need. *)
Theorem skipped_round_is_safe {D : Type} `{SO : StoreOps D} (marshal : WALEntry -> string)
    (addr : string -> string) (ids : gset string) (fs : disk)
    (port interval : Z) (y : system D) (a b : string) (na nb : node D) (m : Membership)
    (now : Z) (g : GossipEngine) :
  (forall a b, addr a = addr b -> a = b) -> (forall id, id ∈ ids -> colon_free id) ->
  reached marshal addr ids fs port interval [] y ->
  nodes y !! a = Some na -> nodes y !! b = Some nb -> a <> b ->
  Allow (breaker (eng na) (addr b)).2 now = true ->
  prepare (svc na) (eng na) m (addr b) now = (g, None) ->
  pn_le (s_counter (svc na)) (s_counter (svc nb)) /\ nclk na ⊑ nclk nb.
Proof.
  intros Hinj Hids Hr Ha Hb Hne Hal Hp.
  destruct (reached_inv marshal addr Hinj ids fs port interval y Hids Hr) as (V & T & HI).
  destruct (i_node _ y V T HI a na Ha) as [_ Va]. destruct (i_node _ y V T HI b nb Hb) as [_ Vb].
  pose proof (skip_clocks addr y V T a b na nb m now g HI Ha Hb Hne Hal Hp) as Hle.
  split; [|done]. pose proof (i_hist _ y V T HI) as HH.
  assert (forall k, (V k (nclk na).[k]).1 <= (V k (nclk nb).[k]).1 /\
                    (V k (nclk na).[k]).2 <= (V k (nclk nb).[k]).2) as Hmono.
  { intros k. destruct (Va k) as ([? ?] & _), (Vb k) as ([? ?] & _). apply (h_mono V T HH); auto. }
  split; intros k; destruct (Va k) as (_ & Pa & Na), (Vb k) as (_ & Pb & Nb), (Hmono k);
    unfold npos, nneg in *; lia.
Qed.


(** ** Witnesses

    Node a counts 1 and node b counts 5 on the same counter. *)

Definition ex_addr (id : string) : string := id +:+ ":50051".

Lemma ex_addr_inj (a b : string) : ex_addr a = ex_addr b -> a = b.
Proof. apply str_app_inj_r. Qed.

Definition ex_ids : gset string := {["a"; "b"]}.

Lemma ex_ids_free (id : string) : id ∈ ex_ids -> colon_free id.
Proof. unfold ex_ids. rewrite elem_of_union, !elem_of_singleton. by intros [-> | ->]. Qed.

Definition ex_node (id : string) : node RedisStore :=
  mkNode (NewCounterService id 50051 ∅) (NewGossipEngine id 0).

Definition ex_counted (n : node RedisStore) (d : Z) : node RedisStore :=
  mkNode (@Increment _ ex_ops marshal_entry (calm 5) (svc n) (mkUpdateRequest d "" 0 "likes")).1
    (eng n).

Definition ex_na : node RedisStore := ex_counted (ex_node "a") 1.

Definition ex_nb : node RedisStore := ex_counted (ex_node "b") 5.

Definition ex_system : system RedisStore :=
  put (put (boot ex_ids ∅ 50051 0) "a" ex_na) "b" ex_nb.

Lemma ex_reached :
  @reached _ ex_ops marshal_entry ex_addr ex_ids ∅ 50051 0 [] ex_system.
Proof.
  apply (yrun_app _ _ _ (put (boot ex_ids ∅ 50051 0) "a" ex_na) _ [] []); apply yrun_once.
  - by apply (y_increment _ _ _ "a" (ex_node "a") (mkUpdateRequest 1 "" 0 "likes") (calm 5)).
  - by apply (y_increment _ _ _ "b" (ex_node "b") (mkUpdateRequest 5 "" 0 "likes") (calm 5)).
Qed.

Lemma strong_convergence_witness : (npos ex_nb).["likes:a"] <= (npos ex_na).["likes:a"].
Proof.
  destruct (@strong_convergence _ ex_ops marshal_entry ex_addr ex_ids ∅ 50051 0 ex_system
    "a" "b" ex_na ex_nb ex_addr_inj ex_ids_free ex_reached ltac:(reflexivity) ltac:(reflexivity))
    as [_ H]. apply (H "likes:a"). reflexivity.
Defined.

(** The exchange from a to b: the update, the reply and the final states. *)
Definition ex_blank : StateUpdate := mkStateUpdate "" ∅ ∅ ∅ 0 0 0 ∅.

Definition ex_prepared : GossipEngine * option StateUpdate :=
  prepare (svc ex_na) (eng ex_na) (NewMembership "a") "b:50051" 6.

Definition ex_update : StateUpdate := default ex_blank ex_prepared.2.

Definition ex_handled (s : CounterService RedisStore) :
    CounterService RedisStore * option StateUpdate :=
  @sync_update _ ex_ops marshal_entry (calm 7) s ex_update.

Definition ex_reply : StateUpdate := default ex_blank (ex_handled (svc ex_nb)).2.

Definition ex_done (r : StateUpdate) : CounterService RedisStore * GossipEngine :=
  complete marshal_entry (calm 8) (svc ex_na) ex_prepared.1 "b:50051" (su_VectorClock ex_update) (Some r).

Lemma exchange_synchronizes_witness :
  ValueName (s_counter (ex_done ex_reply).1) "likes" = 6 /\
  ValueName (s_counter (ex_handled (svc ex_nb)).1) "likes" = 6.
Proof.
  destruct (@exchange_synchronizes _ ex_ops marshal_entry ex_addr ex_ids ∅ 50051 0 ex_system
    "a" "b" ex_na ex_nb (NewMembership "a") 6 (calm 7) (calm 8) ex_prepared.1 (ex_done ex_reply).2
    ex_update ex_reply (ex_done ex_reply).1 (ex_handled (svc ex_nb)).1
    ex_addr_inj ex_ids_free ex_reached) as (_ & H & _).
  - reflexivity.
  - reflexivity.
  - discriminate.
  - reflexivity.
  - vm_compute. reflexivity.
  - vm_compute. reflexivity.
  - vm_compute. reflexivity.
  - rewrite (H "likes"). vm_compute. split; reflexivity.
Defined.

(** Node a at start-up has nothing to tell node b. *)
Lemma skipped_round_is_safe_witness :
  nclk (ex_node "a") ⊑ nclk (ex_node "b").
Proof.
  apply (@skipped_round_is_safe _ ex_ops marshal_entry ex_addr ex_ids ∅ 50051 0
    (boot ex_ids ∅ 50051 0) "a" "b" (ex_node "a") (ex_node "b") (NewMembership "a") 6
    (prepare (svc (ex_node "a")) (eng (ex_node "a")) (NewMembership "a") (ex_addr "b") 6).1
    ex_addr_inj ex_ids_free).
  - apply yrun_nil.
  - reflexivity.
  - reflexivity.
  - discriminate.
  - reflexivity.
  - vm_compute. reflexivity.
Defined.



