(* ===== verification/Races.v ===== *)
(** * What the locks do not cover

    Every counter, clock, log and table operation holds its own lock, but the
    handlers and loops of several calls hold none in between.  Here the calls of
    [Snapshot] and of [gossipToPeer] are separate steps that other operations of
    the same node run between, and [Reset] meets the gossip of the peers. *)

From S2P Require Import Prelude PNCounter VectorClock Delta Breaker Membership Bully Codec Wal Store Messages.
From S2P Require Import Service ServiceSpec Durability Gossip Cluster.

(** ** Mutations during a snapshot *)

(** The operations that only mutate and log. *)
Definition mutation (o : op) : bool :=
  match o with OpSnapshot _ | OpCrash => false | _ => true end.

Section snapshot.
Context {D : Type} `{SO : StoreOps D} `{ST : !Store D}.
Variable marshal : WALEntry -> string.
Variable unmarshal : string -> option WALEntry.
Context `{EC : !EntryCodec marshal unmarshal}.
Variable nodeID walDir : string.
Implicit Types s : CounterService D.
Abbreviation run := (run_op marshal unmarshal nodeID walDir).

(** A snapshot whose state is read at [s]; the operations [before] run before it
    is saved and [after] before the log is removed. *)
Definition racing_snapshot (t : Z) s (before after : list op) : CounterService D :=
  let state := snapshot_state s in
  let s := foldl run s before in
  let '(s, failed) := save_state (calm t) s state in
  let s := foldl run s after in
  if (failed : bool) then s else truncate_log (calm t) s.

(** With a log, a logged mutation leaves the store alone. *)
Lemma log_store (now : Z) s (op counter : string) (delta : Z) (pos neg clk : gmap string Z) :
  is_Some (s_wal s) ->
  let s' := persist (calm now) (walAppend marshal (calm now) s op counter delta pos neg clk) in
  s_store s' = s_store s /\ is_Some (s_wal s').
Proof.
  intros [w Hw]. unfold walAppend. rewrite Hw.
  destruct (AppendCounter _ _ _ _ _ _ _ _ _ _ _ _) as [[w' d'] err]. unfold persist.
  destruct s. simpl. by eauto.
Qed.

Lemma mutation_store s (o : op) :
  is_Some (s_wal s) -> mutation o = true ->
  s_store (run s o) = s_store s /\ is_Some (s_wal (run s o)).
Proof.
  intros Hw Ho.
  assert (forall s1 now op counter delta pos neg clk, s_wal s1 = s_wal s -> s_store s1 = s_store s ->
    let s' := persist (calm now) (walAppend marshal (calm now) s1 op counter delta pos neg clk) in
    s_store s' = s_store s /\ is_Some (s_wal s')) as Hlog.
  { intros s1 now op counter delta pos neg clk E1 <-. apply log_store. by rewrite E1. }
  destruct o; try done; simpl.
  - apply Hlog; by destruct s.
  - apply Hlog; by destruct s.
  - unfold Reset. simpl. apply Hlog; by destruct s.
  - unfold sync_update. destruct (su_Type update =? HEARTBEAT); [done|].
    fold (absorbed s update).
    assert (s_wal (absorbed s update) = s_wal s /\ s_store (absorbed s update) = s_store s) as [E1 E2].
    { unfold absorbed. destruct s as [? ? ? ? cl ? ? ? ? ? ? ? ? ? ? ?]. simpl.
      destruct cl; [|done]. by destruct (0 <? _). }
    pose proof (Hlog _ now "merge" "" 0 (su_PositiveState update) (su_NegativeState update)
      (su_VectorClock update) E1 E2) as H. simpl in H.
    set (s2 := persist (calm now) _) in *. clearbody s2.
    destruct (su_Type update =? DELTA_UPDATE); [|done]. unfold buildDeltaReply. simpl. by destruct s2.
Qed.

Lemma mutation_durable_any (c : bool) s (o : op) :
  durable marshal nodeID walDir c s -> legal marshal nodeID walDir s o -> mutation o = true ->
  durable marshal nodeID walDir c (run s o) /\ data (run s o) = spec_op (data s) o.
Proof.
  intros Hd Hl Ho. destruct o; try done.
  - by apply (increment_durable marshal unmarshal nodeID walDir c).
  - by apply (decrement_durable marshal unmarshal nodeID walDir c).
  - by apply (reset_durable marshal unmarshal nodeID walDir c).
  - by apply (sync_durable marshal unmarshal nodeID walDir c).
Qed.

Lemma mutations_durable (c : bool) s (ops : list op) :
  durable marshal nodeID walDir c s -> legal_run marshal unmarshal nodeID walDir s ops ->
  Forall (fun o => mutation o = true) ops ->
  durable marshal nodeID walDir c (foldl run s ops) /\
  data (foldl run s ops) = foldl spec_op (data s) ops /\ s_store (foldl run s ops) = s_store s.
Proof.
  revert s. induction ops as [|o ops IH]; intros s Hd Hl Hm; [done|].
  destruct Hl as [Ho Hl]. apply Forall_cons in Hm as [Hmo Hm].
  destruct (mutation_durable_any c s o Hd Ho Hmo) as [H1 H2].
  pose proof Hd as (_ & _ & _ & _ & [_ (w & Hw & _) _ _ _] & _).
  destruct (mutation_store s o ltac:(by rewrite Hw) Hmo) as [H3 _].
  destruct (IH (run s o) H1 Hl Hm) as (I1 & I2 & I3). simpl. split; [done|]. split; congruence.
Qed.

(** The state that is saved, on a node that has moved on since. *)
Lemma save_durable (t : Z) s (state : CounterState) :
  durable marshal nodeID walDir true s -> is_Some (s_store s) -> state_ok state ->
  exists s', save_state (calm t) s state = (s', false) /\ durable marshal nodeID walDir false s' /\
    data s' = data s /\ keeps nodeID (s_store s') (Some state).
Proof.
  intros (Hwf & Hids & snap & es & [H1 H2 H3 H4 H5] & _) [d Hd] Hok. unfold save_state. rewrite Hd, H1.
  pose proof (save_load d nodeID state Hok) as HS. simpl.
  destruct (Save d nodeID state StoreOk) as [d' failed]. destruct HS as [-> HL].
  exists (SetStore s (Some d')). split; [done|]. split_and!; [|by destruct s..].
  split; [by destruct s|]. split; [by destruct s|]. exists (Some state), es. split; [|done].
  split; [by destruct s|by destruct s|by destruct s|done|done].
Qed.

(** Once the log is removed only the saved state is left. *)
Lemma truncate_restores (t : Z) s (state : CounterState) :
  durable marshal nodeID walDir false s -> keeps nodeID (s_store s) (Some state) ->
  data (crash unmarshal nodeID walDir (truncate_log (calm t) s)) = restored nodeID (Some state) /\
  data (truncate_log (calm t) s) = data s.
Proof.
  intros (_ & _ & snap & es & [H1 (w & Hw & Hdir & Hrepr) _ _ _] & _) Hk.
  unfold truncate_log. rewrite Hw, H1. pose proof (Truncate_repr w (files s) nodeID) as HT.
  destruct (Truncate w (files s) nodeID (e_remove (calm t))) as [[w' fs'] err] eqn:E.
  simpl in E. rewrite E in HT. destruct HT as (_ & Hdir' & Hseq' & Hfile' & Hgone & _).
  set (s' := set_log s w' fs'). split; [|by destruct s]. unfold crash.
  assert (s_store s' = s_store s /\ files s' = fs') as [-> ->] by (by destruct s).
  assert (wal_repr marshal w' fs' nodeID []) as Hrepr'.
  { split; [|by rewrite Hfile'|intros e He; by apply not_elem_of_nil in He|lia].
    unfold walPath in *. by rewrite Hdir', Hgone. }
  destruct (startup_data marshal unmarshal nodeID walDir
    (s_port s') (counterShards s') (s_store s) fs' (Some state) [] w' Hk) as [H _]; try done; [congruence..].
Qed.

End snapshot.

(** ** Reads of counts and clock at different instants *)

Section torn.
Context {D : Type} `{SO : StoreOps D}.
Variable marshal : WALEntry -> string.
Implicit Types s : CounterService D.

(** A message announces at most the counts it was built from. *)
Lemma announces_bound (u : StateUpdate) (pos neg clk base : gmap string Z) (k : string) :
  nonneg pos -> announces u pos neg clk base -> (su_PositiveState u).[k] <= pos.[k].
Proof.
  intros Hp (_ & [(_ & -> & _)|(_ & -> & _)]); [done|]. unfold get0 at 1.
  destruct (DeltaFrom_lookup pos neg clk base k) as (-> & _). unfold restrict_newer.
  specialize (Hp k). unfold get0 in *. repeat case_match; simpl in *; lia.
Qed.

(** An update of the own key: the new count and version. *)
Lemma increment_key io s (req : UpdateRequest) (nodeID : string) :
  pn_nodeID (s_counter s) = nodeID -> vc_nodeID (s_clock s) = nodeID ->
  pn_wf (s_counter s) -> vc_wf (s_clock s) -> 0 <= asked req ->
  let key := counterKey (normalizeName (rq_CounterName req)) nodeID in
  (positive (s_counter s)).[key] + asked req < 2 ^ 63 -> (clock (s_clock s)).[key] + 1 < 2 ^ 63 ->
  let s' := (Increment marshal io s req).1 in
  (positive (s_counter s')).[key] = (positive (s_counter s)).[key] + asked req /\
  (clock (s_clock s')).[key] = (clock (s_clock s)).[key] + 1 /\
  nonneg (positive (s_counter s')) /\ vc_wf (s_clock s').
Proof.
  intros Hp Hv [W1 W2] W3 Ha key B1 B2 s'.
  destruct (update_node_data marshal io s req) as (Ei & _ & Eo). fold s' in Ei, Eo.
  destruct (Eo s' (or_introl eq_refl)) as (Ec & _). rewrite Ei, Ec. simpl. rewrite Hp, Hv. fold key.
  split_and!.
  - rewrite add_at_get, decide_True by done. apply wrap64_id. specialize (W1 key). unfold in_int64. lia.
  - rewrite add_at_get, decide_True by done. apply wrap64_id. specialize (W3 key). unfold in_int64. lia.
  - apply add_at_nonneg; [done|done|]. lia.
  - apply (vc_wf_increment (s_clock s)); [done|]. by rewrite Hv.
Qed.

End torn.

(** ** Properties *)

(** C24: A snapshot forgets what happens while it is taken: the state is read, saved
    and the log removed in three calls, and whatever the node counts or merges in
    between, logged or not, is gone after a crash, which brings back the state
    that was read; until then the node itself holds everything. *)
Theorem snapshot_race_loses_updates {D : Type} `{SO : StoreOps D} `{ST : !Store D}
    (nodeID walDir : string) (s : CounterService D)
    (before after : list op) (t : Z) (name : string) :
  durable marshal_entry nodeID walDir true s -> is_Some (s_store s) -> state_ok (snapshot_state s) ->
  Forall (fun o => mutation o = true) (before ++ after) ->
  let run := run_op marshal_entry unmarshal_entry nodeID walDir in
  legal_run marshal_entry unmarshal_entry nodeID walDir s before ->
  legal_run marshal_entry unmarshal_entry nodeID walDir
    (save_state (calm t) (foldl run s before) (snapshot_state s)).1 after ->
  let s' := racing_snapshot marshal_entry unmarshal_entry nodeID walDir t s before after in
  ValueName (s_counter s') name = ValueName (foldl spec_op (data s) (before ++ after)).1 name /\
  ValueName (s_counter (crash unmarshal_entry nodeID walDir s')) name = ValueName (s_counter s) name.
Proof.
  intros Hd Hst Hok [Hmb Hma]%Forall_app run Hlb Hla.
  destruct (mutations_durable marshal_entry unmarshal_entry nodeID walDir true s before Hd Hlb Hmb)
    as (D1 & E1 & S1). fold run in D1, E1, S1.
  destruct (save_durable marshal_entry nodeID walDir t (foldl run s before) (snapshot_state s) D1
    ltac:(by rewrite S1) Hok) as (s2 & Hsave & D2 & E2 & K2). rewrite Hsave in Hla.
  destruct (mutations_durable marshal_entry unmarshal_entry nodeID walDir false s2 after D2 Hla Hma)
    as (D3 & E3 & S3).
  unfold racing_snapshot. fold run in D3, E3, S3 |- *. rewrite Hsave.
  destruct (truncate_restores marshal_entry unmarshal_entry nodeID walDir t (foldl run s2 after)
    (snapshot_state s) D3 ltac:(by rewrite S3)) as [R1 R2]. injection R1 as R1 _. injection R2 as R2 _.
  rewrite R1, R2. split.
  - change (s_counter (foldl run s2 after)) with (data (foldl run s2 after)).1.
    by rewrite E3, E2, E1, foldl_app.
  - destruct Hd as (Hwf & [Hn1 Hn2] & _).
    destruct (restored_snapshot nodeID (s_counter s) (s_clock s) (copy_map (s_tags s)) Hwf Hn1 Hn2)
      as (Hp & _). symmetry. by apply ValueName_proper.
Qed.

(** C25: A torn read hides an update: [gossipToPeer] reads the counts and then the
    clock, so an increment between the two reads is announced as a version
    without its count.  The peer then holds the new version and still lacks the
    count, and no delta of the sender ever carries it, since the new baseline
    covers the version; a full update does. *)
Theorem torn_read_hides_update {D : Type} `{SO : StoreOps D} (marshal : WALEntry -> string)
    (nodeID address : string) (s s2 sb sb' : CounterService D)
    (g g1 g2 : GossipEngine) (m : Membership) (req : UpdateRequest) (io io' io'' : env) (now : Z)
    (u r : StateUpdate) :
  let key := counterKey (normalizeName (rq_CounterName req)) nodeID in
  let s1 := (Increment marshal io s req).1 in
  pn_nodeID (s_counter s) = nodeID -> vc_nodeID (s_clock s) = nodeID ->
  pn_wf (s_counter s) -> vc_wf (s_clock s) -> pn_wf (s_counter sb) -> vc_wf (s_clock sb) ->
  0 < asked req -> (positive (s_counter s)).[key] + asked req < 2 ^ 63 ->
  (clock (s_clock s)).[key] + 1 < 2 ^ 63 ->
  (clock (s_clock sb)).[key] <= (clock (s_clock s)).[key] ->
  (positive (s_counter sb)).[key] <= (positive (s_counter s)).[key] ->
  prepare_read (Positive (s_counter s)) (Negative (s_counter s)) (State (s_clock s1)) g m address now =
    (g1, Some u) ->
  sync_update marshal io' sb u = (sb', Some r) ->
  complete marshal io'' s1 g1 address (su_VectorClock u) (Some r) = (s2, g2) ->
  (clock (s_clock sb')).[key] = (clock (s_clock s2)).[key] /\
  (positive (s_counter sb')).[key] + asked req <= (positive (s_counter s2)).[key] /\
  forall m' now' g3 u', prepare s2 g2 m' address now' = (g3, Some u') ->
    (su_Type u' = DELTA_UPDATE /\ su_PositiveState u' !! key = None) \/
    (su_Type u' = FULL_STATE /\ (su_PositiveState u').[key] = (positive (s_counter s2)).[key]).
Proof.
  intros key s1 Hp Hv [W1 W1'] W2 [W3 W3'] W4 Ha B1 B2 Hcb Hpb Hprep Hsync Hcomp.
  destruct (increment_key marshal io s req nodeID Hp Hv ltac:(by split) W2 ltac:(lia) B1 B2)
    as (K1 & K2 & K3 & K4). fold key s1 in K1, K2, K3, K4.
  unfold Positive, Negative, State in Hprep. rewrite !copy_map_id in Hprep.
  destruct (prepare_read_spec _ _ _ _ _ _ _ _ _ Hprep) as (_ & _ & Hu).
  destruct (Hu u eq_refl) as [_ Hann]. pose proof (announces_bound u _ _ _ _ key W1 Hann) as Bu.
  destruct (sync_update_spec marshal io' sb sb' u r (announces_type _ _ _ _ _ Hann) Hsync)
    as ([_ _ _ M4 M5 M6] & Hann' & _).
  destruct (complete_spec marshal io'' _ _ _ _ _ _ _ Hcomp) as (_ & _ & [_ _ _ N4 N5 N6] & L).
  assert (su_VectorClock u = clock (s_clock s1)) as Ecu by apply Hann.
  assert (su_VectorClock r = clock (s_clock sb')) as Ecr by apply Hann'.
  rewrite Ecu in *. rewrite Ecr in *.
  assert (nonneg (positive (s_counter sb'))) as Nb by (rewrite M4; by apply max_into_nonneg).
  pose proof (announces_bound r _ _ _ _ key Nb Hann') as Br.
  assert ((clock (s_clock sb')).[key] = (clock (s_clock s)).[key] + 1) as Cb.
  { rewrite M6, max_into_get_nonneg by done. lia. }
  assert ((clock (s_clock s2)).[key] = (clock (s_clock s)).[key] + 1) as C2.
  { rewrite N6, max_into_get_nonneg by done. lia. }
  assert ((positive (s_counter sb')).[key] <= (positive (s_counter s)).[key]) as Pb.
  { rewrite M4, max_into_get_nonneg by done. lia. }
  split; [by rewrite Cb, C2|]. split.
  { rewrite N4, max_into_get_nonneg by done. lia. }
  intros m' now' g3 u' Hprep'. destruct (prepare_spec _ _ _ _ _ _ _ Hprep') as (_ & _ & Hu').
  destruct (Hu' u' eq_refl) as [_ (_ & [(Ht & -> & _)|(Ht & -> & _)])]; [by right|left].
  split; [done|]. destruct (DeltaFrom_lookup (positive (s_counter s2)) (negative (s_counter s2))
    (clock (s_clock s2)) (default ∅ (lastSync g2 !! address)) key) as (-> & _).
  unfold restrict_newer. destruct (clock (s_clock s2) !! key) as [v|] eqn:Hk; [|done].
  apply get0_Some in Hk. rewrite L, lookup_insert_eq. simpl.
  rewrite MergeClock_get by done. destruct (Z.ltb_spec (Z.max (clock (s_clock s1)).[key]
    (clock (s_clock sb')).[key]) v); [lia|done].
Qed.

(** A reset does not spread and is undone: it deletes the counter's entries on
    one node, and the next full state from a peer that still counts them brings
    them all back, so that the counter shows the peer's value again. *)
Theorem reset_undone {D : Type} `{SO : StoreOps D} (marshal : WALEntry -> string)
    (s sb : CounterService D) (name : string)
    (io io' io'' : env) :
  pn_wf (s_counter sb) ->
  let s1 := (Reset marshal io s name).1.1 in
  let s2 := (sync_update marshal io' s1 (buildFullReply io'' sb)).1 in
  ValueName (s_counter s1) (normalizeName name) = 0 /\
  ValueName (s_counter s2) (normalizeName name) = ValueName (s_counter sb) (normalizeName name).
Proof.
  intros [W1 W2] s1 s2.
  assert (s_counter s1 = PNCounter.ResetName (s_counter s) (normalizeName name)) as E1.
  { unfold s1, Reset. simpl. match goal with |- context [walAppend marshal io ?x _ _ _ _ _ _] =>
      destruct (log_same marshal io x "reset" (normalizeName name) 0 ∅ ∅ ∅) as [_ H _ _ _ _ _ _ _] end.
    rewrite H. by destruct s. }
  split; [rewrite E1; apply ValueName_reset|].
  destruct (sync_update marshal io' s1 (buildFullReply io'' sb)) as [x r] eqn:Hs.
  destruct r as [r|]; [|done].
  destruct (sync_update_spec marshal io' s1 x (buildFullReply io'' sb) r ltac:(done) Hs)
    as ([_ _ _ M4 M5 _] & _). change s2 with x. simpl in M4, M5.
  unfold Positive, Negative in M4, M5. rewrite copy_map_id in M4, M5.
  assert (forall m m' k, nonneg m' -> keyBelongsTo (normalizeName name) k = true ->
    (max_into m' (delete_where (keyBelongsTo (normalizeName name)) m)).[k] = m'.[k]) as Hback.
  { intros m m' k Hn Hk. rewrite max_into_get, delete_where_get, Hk. specialize (Hn k).
    unfold get0 in *. destruct (m' !! k); simpl in *; lia. }
  rewrite !ValueName_eq, M4, M5, E1, ResetName_positive, ResetName_negative. f_equal. f_equal;
    apply msum_ext; intros k Hk; by apply Hback.
Qed.

(** ** Witnesses *)

(** A node with a log and a store counts 5, and 1 more while its snapshot runs. *)
Lemma ex_incremented_durable : @durable _ ex_ops marshal_entry "node-a" "data" true ex_incremented.
Proof.
  split; [split; by_eval|]. split; [by split|]. exists None, [ex_entry]. split; [apply ex_logged|].
  intros _. split_and!; [split|..]; vm_compute; try reflexivity; intros k; by destruct k.
Qed.

Definition ex_during : list op := [OpIncrement (mkUpdateRequest 1 "" 0 "likes") 15].

Lemma snapshot_race_loses_updates_witness :
  let s' := @racing_snapshot _ ex_ops marshal_entry unmarshal_entry "node-a" "data" 20
              ex_incremented [] ex_during in
  ValueName (s_counter s') "likes" = 6 /\
  ValueName (s_counter (@crash _ ex_ops unmarshal_entry "node-a" "data" s')) "likes" = 5.
Proof.
  intros s'.
  destruct (@snapshot_race_loses_updates _ ex_ops ex_redis "node-a"
    "data" ex_incremented [] ex_during 20 "likes"
    ex_incremented_durable) as [H1 H2].
  - eexists. reflexivity.
  - by_eval.
  - repeat constructor.
  - exact I.
  - by_eval.
  - split; [etransitivity; [exact H1|]|etransitivity; [exact H2|]]; vm_compute; reflexivity.
Defined.

(** Node a is asked for 3 between the two reads of a round with b. *)
Definition ex_req : UpdateRequest := mkUpdateRequest 3 "" 0 "likes".

Definition ex_torn_a : CounterService RedisStore := NewCounterService "a" 50051 ∅.

Definition ex_torn_b : CounterService RedisStore := NewCounterService "b" 50051 ∅.

Definition ex_torn_a1 : CounterService RedisStore :=
  (@Increment _ ex_ops marshal_entry (calm 1) ex_torn_a ex_req).1.

Definition ex_torn_sent : GossipEngine * option StateUpdate :=
  prepare_read (Positive (s_counter ex_torn_a)) (Negative (s_counter ex_torn_a))
    (State (s_clock ex_torn_a1)) (NewGossipEngine "a" 0) (NewMembership "a") "b:1" 2.

Definition ex_torn_u : StateUpdate := default ex_blank ex_torn_sent.2.

Definition ex_torn_reply : CounterService RedisStore * option StateUpdate :=
  @sync_update _ ex_ops marshal_entry (calm 3) ex_torn_b ex_torn_u.

Definition ex_torn_end : CounterService RedisStore * GossipEngine :=
  complete marshal_entry (calm 4) ex_torn_a1 ex_torn_sent.1 "b:1" (su_VectorClock ex_torn_u) ex_torn_reply.2.

Lemma torn_read_hides_update_witness :
  (positive (s_counter ex_torn_reply.1)).["likes:a"] + 3 <= (positive (s_counter ex_torn_end.1)).["likes:a"] /\
  (clock (s_clock ex_torn_reply.1)).["likes:a"] = (clock (s_clock ex_torn_end.1)).["likes:a"].
Proof.
  destruct (@torn_read_hides_update _ ex_ops marshal_entry "a" "b:1" ex_torn_a ex_torn_end.1
    ex_torn_b ex_torn_reply.1 (NewGossipEngine "a" 0) ex_torn_sent.1 ex_torn_end.2 (NewMembership "a") ex_req
    (calm 1) (calm 3) (calm 4) 2 ex_torn_u (default ex_blank ex_torn_reply.2)) as (H1 & H2 & _).
  1-2: reflexivity.
  1-4: by_eval.
  1-5: vm_compute; congruence.
  1-3: vm_compute; reflexivity.
  split; [exact H2|exact H1].
Defined.

Lemma reset_undone_witness :
  let s1 := (@Reset _ ex_ops marshal_entry (calm 5) ex_torn_b "likes").1.1 in
  ValueName (s_counter (@sync_update _ ex_ops marshal_entry (calm 6) s1 (buildFullReply (calm 6) ex_torn_a1)).1)
    "likes" = 3.
Proof.
  intros s1.
  destruct (@reset_undone _ ex_ops marshal_entry ex_torn_b ex_torn_a1 "likes" (calm 5) (calm 6)
    (calm 6)) as [_ H]; [by_eval|].
  etransitivity; [exact H|]. vm_compute. reflexivity.
Defined.
