(* ===== verification/Admin.v ===== *)
(** * The admin service and the auth interceptor (internal/admin/admin.go,
    internal/server/middleware.go, pkg/grpcutil)

    Operator requests on the membership table and the gossip engine, and the
    API key check every request passes. *)

From stdpp Require Import options.
From S2P Require Import Prelude Membership Bully Breaker Messages Gossip.

(** ** Admin operations *)

Record AdminService := mkAdminService {
  a_nodeID : string;
  a_membership : option Membership;
  a_gossip : option GossipEngine;
}.

Definition New (nodeID : string) : AdminService :=
  {| a_nodeID := nodeID; a_membership := None; a_gossip := None |}.

Definition SetCluster (a : AdminService) (m : option Membership) : AdminService :=
  {| a_nodeID := a_nodeID a; a_membership := m; a_gossip := a_gossip a |}.

Definition SetGossip (a : AdminService) (g : option GossipEngine) : AdminService :=
  {| a_nodeID := a_nodeID a; a_membership := a_membership a; a_gossip := g |}.

Inductive adminError :=
| NodeIdRequired
| AddressRequired
| LocalNode.

Record AdminResponse := mkAdminResponse {
  ar_Success : bool;
  ar_Message : string;
  ar_Members : list pbMember;
}.

Record ForceSyncResponse := mkForceSyncResponse {
  fs_Success : bool;
  fs_Message : string;
  fs_PeersContacted : Z;
}.

Definition response (a : AdminService) (message : string) : AdminResponse :=
  {| ar_Success := true; ar_Message := message;
     ar_Members := match a_membership a with
       | Some m => to_pb <$> GetMembers m
       | None => []
       end |}.

Section admin.
(** The [%q] verb of [fmt]. *)
Variable quote : string -> string.

Definition AddNode (a : AdminService) (nodeId address : string) (now : Z) :
    AdminService * (AdminResponse + adminError) :=
  if String.eqb nodeId "" then (a, inr NodeIdRequired)
  else if String.eqb address "" then (a, inr AddressRequired)
  else
    let a := match a_membership a with
      | Some m => SetCluster a (Some (AddOrUpdateMember m nodeId address true now))
      | None => a
      end in
    (a, inl (response a ("node " +:+ quote nodeId +:+ " added"))).

Definition RemoveNode (a : AdminService) (nodeId : string) :
    AdminService * (AdminResponse + adminError) :=
  if String.eqb nodeId "" then (a, inr NodeIdRequired)
  else if String.eqb nodeId (a_nodeID a) then (a, inr LocalNode)
  else
    let a := match a_membership a with
      | Some m => SetCluster a (Some (MarkLeft m nodeId))
      | None => a
      end in
    (a, inl (response a ("node " +:+ quote nodeId +:+ " removed"))).

End admin.

(** The engine's peers come from the membership table it shares with this
    service; its rounds run in the background, their peers are the last
    component.  The count is converted to [int32]. *)
Definition ForceSync (a : AdminService) : AdminService * ForceSyncResponse * list Member :=
  match a_gossip a, a_membership a with
  | None, _ =>
      (a, {| fs_Success := false; fs_Message := "gossip engine not wired";
             fs_PeersContacted := 0 |}, [])
  | Some g, m =>
      let '(g, launched, contacted) :=
        Gossip.ForceSync g (default (NewMembership (a_nodeID a)) m) in
      (SetGossip a (Some g),
       {| fs_Success := true; fs_Message := "force sync triggered";
          fs_PeersContacted := (contacted + 2 ^ 31) mod 2 ^ 32 - 2 ^ 31 |}, launched)
  end.

(** ** Authentication *)

Record AuthInterceptor := mkAuthInterceptor { enabled : bool; apiKey : string }.

Definition NewAuthInterceptor (authEnabled : bool) (key : string) : AuthInterceptor :=
  {| enabled := authEnabled; apiKey := key |}.

Definition allowlist (method : string) : bool :=
  HasPrefix method "/grpc.health.v1.Health/" || HasPrefix method "/grpc.reflection.".

Fixpoint str_drop (n : nat) (s : string) : string :=
  match n, s with
  | O, _ => s
  | _, EmptyString => ""
  | S n, String _ s => str_drop n s
  end.

Definition TrimPrefix (s prefix : string) : string :=
  if HasPrefix s prefix then str_drop (String.length prefix) s else s.

Definition bearer : string := "Bearer ".

(** [md] is the incoming metadata: [None] without metadata, else the values of
    the [authorization] key.  The comparison is the constant-time one. *)
Definition authorized (a : AuthInterceptor) (md : option (list string)) : bool :=
  match md with
  | None | Some [] => false
  | Some (value :: _) =>
      let token := TrimPrefix value bearer in
      if String.eqb (apiKey a) "" then false else String.eqb token (apiKey a)
  end.

(** Both interceptors: the handler's result, or [Unauthenticated]. *)
Definition intercept {R : Type} (a : AuthInterceptor) (method : string)
    (md : option (list string)) (handler : R) : R + unit :=
  if enabled a && negb (allowlist method) && negb (authorized a md) then inr tt else inl handler.

(** The metadata a cluster client attaches (pkg/grpcutil). *)
Definition client_metadata (key : string) : option (list string) :=
  if String.eqb key "" then Some [] else Some [bearer +:+ key].

Lemma str_drop_app (a b : string) : str_drop (String.length a) (a +:+ b) = b.
Proof. induction a as [|c a IH]; [done|]. exact IH. Qed.

Lemma TrimPrefix_spec (v prefix t : string) :
  TrimPrefix v prefix = t <-> v = prefix +:+ t \/ (v = t /\ HasPrefix v prefix = false).
Proof.
  unfold TrimPrefix. destruct (HasPrefix v prefix) eqn:Hp.
  - apply HasPrefix_spec in Hp as [r ->]. rewrite str_drop_app. split; [by intros ->; left|].
    intros [H|[_ ?]]; [|done]. apply (f_equal (str_drop (String.length prefix))) in H.
    by rewrite !str_drop_app in H.
  - split; [by right|]. intros [->|[? _]]; [|done].
    assert (HasPrefix (prefix +:+ t) prefix = true) by (apply HasPrefix_spec; by exists t). congruence.
Qed.

(** ** Properties *)

(** Removing a node takes it out of gossip and of elections: a known remote
    member becomes Left and none of the peer selections returns it any more, the
    other members are unchanged, and the local node cannot be removed. *)
Theorem RemoveNode_excludes (quote : string -> string) (a : AdminService) (m : Membership)
    (id : string) (mem : Member) (shuffle : list Member -> list Member) (b : Bully) :
  a_membership a = Some m -> membership_ok m -> (forall l, shuffle l ≡ₚ l) ->
  id <> "" -> id <> a_nodeID a -> members m !! id = Some mem ->
  exists a' resp m', RemoveNode quote a id = (a', inl resp) /\ a_membership a' = Some m' /\
    (exists mem', members m' !! id = Some mem' /\ mStatus mem' = StatusLeft) /\
    (forall j, j <> id -> members m' !! j = members m !! j) /\
    (forall p, p ∈ GetAlivePeers m' \/ p ∈ GetRandomPeers shuffle m' 3 \/
               p ∈ higherPriorityLivePeers b m' -> ID p <> id) /\
    RemoveNode quote a (a_nodeID a) = (a, inr (if String.eqb (a_nodeID a) "" then NodeIdRequired
                                               else LocalNode)).
Proof.
  intros Hm Hok Hsh Hne Hself Hmem. set (m' := MarkLeft m id).
  assert (membership_ok m') as Hok' by exact (exec_ok m (OpLeft id) Hok).
  assert (members m' !! id = Some (setStatus mem StatusLeft)) as Hleft.
  { unfold m', MarkLeft. by rewrite on_member_lookup, decide_True, Hmem by done. }
  assert (forall p, p ∈ GetAlivePeers m' -> ID p <> id) as Halive.
  { intros p [Hp [j Hj]]%append_range_elem Hid. destruct (Hok' j p Hj) as [Hpj _].
    assert (p = setStatus mem StatusLeft) as -> by congruence.
    unfold alive_peer in Hp. simpl in Hp. by rewrite andb_false_r in Hp. }
  unfold RemoveNode. rewrite Hm. apply String.eqb_neq in Hne as ->. apply String.eqb_neq in Hself as ->.
  eexists _, _, m'. split; [done|]. split; [done|]. split; [by eexists|]. split; [|split].
  - intros j Hj. unfold m', MarkLeft. by rewrite on_member_lookup, decide_False by done.
  - intros p [Hp|[Hp|Hp]]; apply Halive; [done| |].
    + unfold GetRandomPeers in Hp. change (range _ _ _) with (GetAlivePeers m') in Hp.
      rewrite <- (Hsh (GetAlivePeers m')). case_match; [|done]. by apply (subseteq_take 3).
    + apply list_elem_of_omap in Hp as (q & Hq & Heq). by repeat case_match; simplify_eq.
  - destruct (String.eqb (a_nodeID a) ""); [done|]. by rewrite String.eqb_refl.
Qed.

(** The API key gate: when authentication is on, an application request is
    served exactly when its first authorization value is the configured,
    non-empty key behind a Bearer prefix or alone; an empty configured key
    rejects every such request; and a cluster client that dials with the same
    non-empty key is always served. *)
Theorem auth_gate {R : Type} (key method : string) (md : option (list string)) (handler : R) :
  allowlist method = false ->
  (intercept (NewAuthInterceptor true key) method md handler = inl handler <->
   key <> "" /\ exists value rest, md = Some (value :: rest) /\
     (value = bearer +:+ key \/ (value = key /\ HasPrefix key bearer = false))) /\
  intercept (NewAuthInterceptor true "") method md handler = inr tt /\
  (key <> "" ->
   intercept (NewAuthInterceptor true key) method (client_metadata key) handler = inl handler).
Proof.
  intros Hal.
  assert (forall md', intercept (NewAuthInterceptor true key) method md' handler = inl handler <->
    authorized (NewAuthInterceptor true key) md' = true) as Hi.
  { intros md'. unfold intercept. simpl. rewrite Hal. simpl. by destruct (authorized _ md'). }
  assert (authorized (NewAuthInterceptor true key) md = true <-> key <> "" /\
    exists value rest, md = Some (value :: rest) /\ TrimPrefix value bearer = key) as Ha.
  { unfold authorized. destruct md as [[|v rest]|]; simpl; [naive_solver| |naive_solver].
    destruct (String.eqb_spec key "") as [->|Hk]; [naive_solver|]. rewrite String.eqb_eq.
    naive_solver. }
  split_and!.
  - rewrite Hi, Ha. apply and_iff_compat_l. split; intros (v & rest & -> & Hv); exists v, rest.
    + split; [done|]. apply TrimPrefix_spec in Hv. naive_solver.
    + split; [done|]. apply TrimPrefix_spec. naive_solver.
  - unfold intercept. simpl. rewrite Hal. by destruct md as [[|]|].
  - intros Hk. apply Hi. unfold client_metadata. apply String.eqb_neq in Hk as Hk'. rewrite Hk'.
    unfold authorized. cbn [apiKey NewAuthInterceptor]. rewrite Hk'. apply String.eqb_eq.
    apply TrimPrefix_spec. by left.
Qed.

(** ** Witnesses *)

Lemma RemoveNode_excludes_witness :
  exists a' resp m', RemoveNode id (mkAdminService "a" (Some (AddMember (NewMembership "a") "b" "h:1" 5))
    None) "b" = (a', inl resp) /\ a_membership a' = Some m' /\
    (forall p, p ∈ GetAlivePeers m' -> ID p <> "b").
Proof.
  destruct (RemoveNode_excludes id (mkAdminService "a" (Some (AddMember (NewMembership "a") "b" "h:1" 5))
    None) (AddMember (NewMembership "a") "b" "h:1" 5) "b"
    (mkMember "b" "h:1" StatusAlive true 0 5 0 0) (fun l => l)
    (Bully.New (mkBullyConfig "a" 1 0 0))) as (a' & resp & m' & H1 & H2 & _ & _ & H3 & _).
  - reflexivity.
  - by_eval.
  - intros l. reflexivity.
  - discriminate.
  - discriminate.
  - reflexivity.
  - exists a', resp, m'. split; [exact H1|]. split; [exact H2|]. intros p Hp. apply H3. left. exact Hp.
Defined.

Lemma auth_gate_witness :
  intercept (NewAuthInterceptor true "s3cret") "/counter.CounterService/Increment"
    (Some ["s3cret"]) 7 = inl 7.
Proof.
  destruct (auth_gate "s3cret" "/counter.CounterService/Increment" (Some ["s3cret"]) 7) as [[_ H] _].
  - reflexivity.
  - apply H. split; [discriminate|]. exists "s3cret", []. split; [reflexivity|]. right. split; reflexivity.
Defined.
