(* ===== verification/Bootstrap.v ===== *)
(** * Joining and recovering from the seeds (cmd/server/main.go, internal/config)

    What a node does before its background loops start: it asks the seed nodes for
    the member list and for the cluster's state, with retries over a rotating seed
    order.  The remote calls are oracles; the servers are up already, and what they
    change meanwhile is an argument of the recovery. *)

From Stdlib Require Import SpecFloat.
From S2P Require Import Prelude PNCounter VectorClock Membership Bully Codec Wal Store Messages Service.
From S2P Require Import ServiceSpec Gossip Cluster.

(** ** Seeds *)

Definition unique_step (acc : gset string * list string) (seed : string) :
    gset string * list string :=
  let '(seen, ordered) := acc in
  if decide (seed ∈ seen) then acc else ({[seed]} ∪ seen, ordered ++ [seed]).

Definition uniqueOrderedSeeds (seedNodes : list string) : list string :=
  (foldl unique_step (∅, []) seedNodes).2.

(** [rotated = append(rotated, seedNodes[(offset+i)%len(seedNodes)])] *)
Definition rotateSeeds (seedNodes : list string) (offset : nat) : list string :=
  if Nat.eqb (length seedNodes) 0 then []
  else (fun i => default "" (seedNodes !! Nat.modulo (offset + i) (length seedNodes)))
         <$> List.seq 0 (length seedNodes).

(** ** Joining *)

(** What a seed answers: it cannot be dialed, the call fails, or it streams
    member lists and the stream ends, possibly in error. *)
Inductive join_io :=
| JoinUnreachable
| JoinFailed
| JoinStream (lists : list (list pbMember)) (failed : bool).

Definition learn (m : Membership) (member : pbMember) : Membership :=
  let m := AddOrUpdateMemberStatus m (pm_NodeId member) (pm_Address member)
             (StatusFromProto (pm_Status member)) (unix_Time (pm_LastHeartbeat member)) in
  if 0 <? pm_Priority member then Membership.SetPriority m (pm_NodeId member) (pm_Priority member)
  else m.

(** The table, and whether an error remains ([lastErr]). *)
Fixpoint joinCluster (call : string -> join_io) (seedNodes : list string) (m : Membership)
    (lastErr : bool) : Membership * bool :=
  match seedNodes with
  | [] => (m, lastErr)
  | seed :: rest =>
      match call seed with
      | JoinUnreachable | JoinFailed => joinCluster call rest m true
      | JoinStream lists failed =>
          let m := foldl learn m (concat lists) in
          let lastErr := if failed then true else lastErr in
          let joined := negb (Nat.eqb (length lists) 0) in
          if joined then (m, false) else joinCluster call rest m lastErr
      end
  end.

(** ** Recovery *)

(** What a seed answers to the recovery exchange. *)
Inductive seed_io :=
| SeedDialErr
| SeedStreamErr
| SeedSendErr
| SeedRecvErr
| SeedReply (response : StateUpdate).

Definition maxAttempts : nat := 5.

(** [len(response.PositiveState) > 0 || ...] *)
Definition has_state (r : StateUpdate) : bool :=
  (0 <? Z.of_nat (size (su_PositiveState r))) || (0 <? Z.of_nat (size (su_NegativeState r)))
  || (0 <? Z.of_nat (size (su_VectorClock r))).

Definition pbToPNCounter (nodeID : string) (positive negative : gmap string Z) : PNCounter :=
  remote_counter nodeID positive negative.

Section recovery.
Context {D : Type}.
Implicit Types s : CounterService D.
Variable nodeID localAddress : string.
Variable now : Z.

(** The successful branch: merge the reply and refresh the own member entry. *)
Definition recovered s (r : StateUpdate) : CounterService D :=
  let s := set_counter s (PNCounter.Merge (s_counter s)
             (pbToPNCounter nodeID (su_PositiveState r) (su_NegativeState r))) in
  let s := set_clock s (MergeMap (s_clock s) (su_VectorClock r)) in
  match s_cluster s with
  | Some m => SetCluster s (Some (AddOrUpdateMember m nodeID localAddress true now))
  | None => s
  end.

(** What is sent to a seed: the full state, without a membership map. *)
Definition recovery_request s : StateUpdate :=
  {| su_FromNodeId := nodeID; su_PositiveState := Positive (s_counter s);
     su_NegativeState := Negative (s_counter s); su_VectorClock := State (s_clock s);
     su_Timestamp := time_Unix now; su_Type := FULL_STATE; su_LastSyncVersion := 0;
     su_Membership := ∅ |}.

(** The servers are up while [main] recovers: what the rest of the process does to
    the service before the request to a seed is built, and between the request and
    the merge of the reply. *)
Record interference := mkInterference {
  if_before : nat -> string -> CounterService D -> CounterService D;
  if_during : nat -> string -> CounterService D -> CounterService D;
}.

Definition undisturbed : interference := mkInterference (fun _ _ s => s) (fun _ _ s => s).

Variable busy : interference.

(** One pass over the seeds: the state when a reply was merged, or the state and
    the error flag so far.  [call seed request] is what the exchange with a seed
    yields. *)
Fixpoint try_seeds (attempt : nat) (call : string -> StateUpdate -> seed_io) (seeds : list string) s
    (lastErr : bool) : CounterService D + CounterService D * bool :=
  match seeds with
  | [] => inr (s, lastErr)
  | seed :: rest =>
      let s := if_before busy attempt seed s in
      let outcome := call seed (recovery_request s) in
      let s := if_during busy attempt seed s in
      match outcome with
      | SeedReply r => if has_state r then inl (recovered s r) else try_seeds attempt call rest s lastErr
      | _ => try_seeds attempt call rest s true
      end
  end.

(** The attempts from [attempt] on, with [n] left. *)
Fixpoint try_attempts (call : nat -> string -> StateUpdate -> seed_io) (uniqueSeeds : list string) s
    (lastErr : bool) (attempt n : nat) : CounterService D * bool :=
  match n with
  | O => (s, lastErr)
  | S n =>
      let startIndex := Nat.modulo attempt (length uniqueSeeds) in
      match try_seeds attempt (call attempt) (rotateSeeds uniqueSeeds startIndex) s lastErr with
      | inl s => (s, false)
      | inr (s, lastErr) => try_attempts call uniqueSeeds s lastErr (S attempt) n
      end
  end.

(** The service, and whether an error is returned. *)
Definition recoverStateFromSeedNodes (call : nat -> string -> StateUpdate -> seed_io)
    (seedNodes : list string) s : CounterService D * bool :=
  let uniqueSeeds := uniqueOrderedSeeds seedNodes in
  if Nat.eqb (length uniqueSeeds) 0 then (s, true)
  else try_attempts call uniqueSeeds s false 0 maxAttempts.

End recovery.

(** ** Defaults of the configuration *)

Record Config := mkConfig {
  cfg_NodeID : string;
  cfg_GRPCPort : Z;
  cfg_MetricsPort : Z;
  cfg_HTTPPort : Z;
  cfg_AdvertiseAddress : string;
  cfg_SeedNodes : list string;
  cfg_GossipInterval : Z;
  cfg_HeartbeatInterval : Z;
  cfg_HeartbeatTimeout : Z;
  cfg_PersistenceEnabled : bool;
  cfg_RedisAddr : string;
  cfg_RedisPassword : string;
  cfg_RedisDB : Z;
  cfg_WALEnabled : bool;
  cfg_WALDir : string;
  cfg_SnapshotIntervalSeconds : Z;
  cfg_SwimInterval : Z;
  cfg_SwimProbeTimeout : Z;
  cfg_SwimSuspectToDead : Z;
  cfg_AuthEnabled : bool;
  cfg_APIKey : string;
  cfg_RateLimitPerSecond : Z;
  cfg_CompressionEnabled : bool;
  cfg_TracingEnabled : bool;
  cfg_TraceEndpoint : string;
  cfg_TraceSampleRatio : spec_float;
  cfg_CounterShards : Z;
  cfg_NodePriority : Z;
  cfg_ElectionInterval : Z;
}.

(** [if cfg.F <= 0 { cfg.F = d }] *)
Definition positive_or (d x : Z) : Z := if x <=? 0 then d else x.

(** [if cfg.F == "" { cfg.F = d }] *)
Definition nonempty_or (d x : string) : string := if String.eqb x "" then d else x.

(** The [float64] constants 0 and 1. *)
Definition float_zero : spec_float := S754_zero false.

Definition float_one : spec_float := S754_finite false 4503599627370496 (-52).

(** The defaulting of [config.Load], after the file was read. *)
Definition with_defaults (cfg : Config) : Config :=
  {| cfg_NodeID := cfg_NodeID cfg;
     cfg_GRPCPort := cfg_GRPCPort cfg;
     cfg_MetricsPort := cfg_MetricsPort cfg;
     cfg_HTTPPort := cfg_HTTPPort cfg;
     cfg_AdvertiseAddress := cfg_AdvertiseAddress cfg;
     cfg_SeedNodes := cfg_SeedNodes cfg;
     cfg_GossipInterval := positive_or 5 (cfg_GossipInterval cfg);
     cfg_HeartbeatInterval := positive_or 3 (cfg_HeartbeatInterval cfg);
     cfg_HeartbeatTimeout := positive_or 10 (cfg_HeartbeatTimeout cfg);
     cfg_PersistenceEnabled := cfg_PersistenceEnabled cfg;
     cfg_RedisAddr := cfg_RedisAddr cfg;
     cfg_RedisPassword := cfg_RedisPassword cfg;
     cfg_RedisDB := cfg_RedisDB cfg;
     cfg_WALEnabled := cfg_WALEnabled cfg;
     cfg_WALDir := nonempty_or "data" (cfg_WALDir cfg);
     cfg_SnapshotIntervalSeconds := positive_or 30 (cfg_SnapshotIntervalSeconds cfg);
     cfg_SwimInterval := positive_or 1 (cfg_SwimInterval cfg);
     cfg_SwimProbeTimeout := positive_or 2 (cfg_SwimProbeTimeout cfg);
     cfg_SwimSuspectToDead := positive_or 3 (cfg_SwimSuspectToDead cfg);
     cfg_AuthEnabled := cfg_AuthEnabled cfg;
     cfg_APIKey := cfg_APIKey cfg;
     cfg_RateLimitPerSecond := cfg_RateLimitPerSecond cfg;
     cfg_CompressionEnabled := cfg_CompressionEnabled cfg;
     cfg_TracingEnabled := cfg_TracingEnabled cfg;
     cfg_TraceEndpoint := nonempty_or "localhost:4317" (cfg_TraceEndpoint cfg);
     cfg_TraceSampleRatio := if SFleb (cfg_TraceSampleRatio cfg) float_zero
                                || SFltb float_one (cfg_TraceSampleRatio cfg)
                             then float_one else cfg_TraceSampleRatio cfg;
     cfg_CounterShards := positive_or 1 (cfg_CounterShards cfg);
     cfg_NodePriority := cfg_NodePriority cfg;
     cfg_ElectionInterval := positive_or 2 (cfg_ElectionInterval cfg) |}.

(** The tickers of the loops and the shard count never see a non-positive
    value, and loading a defaulted configuration changes nothing. *)
Lemma with_defaults_spec (cfg : Config) :
  let c := with_defaults cfg in
  with_defaults c = c /\ 0 < cfg_GossipInterval c /\ 0 < cfg_HeartbeatInterval c /\
  0 < cfg_HeartbeatTimeout c /\ 0 < cfg_SnapshotIntervalSeconds c /\ 0 < cfg_SwimInterval c /\
  0 < cfg_SwimProbeTimeout c /\ 0 < cfg_SwimSuspectToDead c /\ 0 < cfg_CounterShards c /\
  0 < cfg_ElectionInterval c.
Proof.
  assert (forall d x, 0 < d -> 0 < positive_or d x /\ positive_or d (positive_or d x) = positive_or d x)
    as Hp by (intros d x Hd; unfold positive_or; repeat case_bool; lia).
  assert (forall d x, d <> "" -> nonempty_or d (nonempty_or d x) = nonempty_or d x) as Hn.
  { intros d x Hd. unfold nonempty_or. destruct (String.eqb x "") eqn:Hx; [|by rewrite Hx].
    by apply String.eqb_neq in Hd as ->. }
  assert (forall x, let y := if SFleb x float_zero || SFltb float_one x then float_one else x in
    (if SFleb y float_zero || SFltb float_one y then float_one else y) = y) as Hf.
  { intros x y. unfold y. destruct (SFleb x float_zero || SFltb float_one x) eqn:Hx; [done|].
    by rewrite Hx. }
  intros c. split_and!; try by (apply Hp).
  unfold c, with_defaults. simpl. rewrite !(fun d x H => proj2 (Hp d x H)) by done.
  rewrite !Hn by done. f_equal. apply Hf.
Qed.

(** ** Lemmas *)

Lemma unique_fold (l : list string) (seen : gset string) (ordered : list string) :
  (forall x, x ∈ seen <-> x ∈ ordered) -> NoDup ordered ->
  let '(seen', ordered') := foldl unique_step (seen, ordered) l in
  NoDup ordered' /\ forall x, x ∈ ordered' <-> x ∈ ordered \/ x ∈ l.
Proof.
  revert seen ordered. induction l as [|y l IH]; intros seen ordered Hs Hnd.
  - simpl. split; [done|]. intros x. rewrite elem_of_nil. naive_solver.
  - cbn [foldl unique_step]. destruct (decide (y ∈ seen)) as [Hy|Hy].
    + specialize (IH seen ordered Hs Hnd). destruct (foldl unique_step (seen, ordered) l) as [s' o'].
      destruct IH as [H1 H2]. split; [done|]. intros x. rewrite H2, elem_of_cons.
      apply Hs in Hy. naive_solver.
    + specialize (IH ({[y]} ∪ seen) (ordered ++ [y])).
      destruct (foldl unique_step ({[y]} ∪ seen, ordered ++ [y]) l) as [s' o'].
      destruct IH as [H1 H2].
      * intros x. rewrite elem_of_union, elem_of_singleton, elem_of_app, list_elem_of_singleton, Hs.
        naive_solver.
      * apply NoDup_app. split; [done|]. split; [|apply NoDup_singleton].
        intros x Hx ->%list_elem_of_singleton. by apply Hy, Hs.
      * split; [done|]. intros x. rewrite H2, elem_of_app, list_elem_of_singleton, elem_of_cons.
        naive_solver.
Qed.

Lemma uniqueOrderedSeeds_spec (l : list string) :
  NoDup (uniqueOrderedSeeds l) /\ forall x, x ∈ uniqueOrderedSeeds l <-> x ∈ l.
Proof.
  unfold uniqueOrderedSeeds.
  pose proof (unique_fold l ∅ [] ltac:(set_solver) ltac:(constructor)) as H.
  destruct (foldl unique_step (∅, []) l) as [s o]. simpl. destruct H as [H1 H2].
  split; [done|]. intros x. rewrite H2, elem_of_nil. naive_solver.
Qed.

Lemma rotateSeeds_eq (l : list string) (off : nat) :
  (off < length l)%nat -> rotateSeeds l off = drop off l ++ take off l.
Proof.
  intros Hoff. unfold rotateSeeds. destruct (Nat.eqb_spec (length l) 0) as [|_]; [lia|].
  apply list_eq_same_length with (n := length l).
  - by rewrite length_app, length_drop, length_take, Nat.min_l by lia; lia.
  - by rewrite length_fmap, length_seq.
  - intros i x y Hi Hx Hy. rewrite list_lookup_fmap, lookup_seq_lt in Hx by done. simpl in Hx.
    injection Hx as <-. destruct (decide (i < length l - off)%nat) as [Hlt|Hge].
    + rewrite lookup_app_l, lookup_drop in Hy by (rewrite length_drop; lia).
      rewrite Nat.mod_small by lia. by rewrite Hy.
    + rewrite lookup_app_r in Hy by (rewrite length_drop; lia).
      rewrite length_drop, lookup_take_lt in Hy by lia.
      replace (Nat.modulo (off + i) (length l)) with (i - (length l - off))%nat; [by rewrite Hy|].
      apply (Nat.mod_unique _ _ 1); lia.
Qed.

Lemma rotateSeeds_perm (l : list string) (off : nat) :
  (off < length l)%nat -> rotateSeeds l off ≡ₚ l.
Proof. intros H. rewrite rotateSeeds_eq, Permutation_app_comm by done. by rewrite take_drop. Qed.

(** The states the rest of the process makes of a service. *)
Definition drift {D : Type} (busy : interference) : relation (CounterService D) :=
  rtc (fun s s' => exists j seed, s' = if_before busy j seed s \/ s' = if_during busy j seed s).

(** The seed was asked from a state [s0] the service drifted to, and gave none;
    without an error it answered. *)
Definition asked_in_vain {D : Type} (nodeID : string) (now : Z) (busy : interference)
    (call : nat -> string -> StateUpdate -> seed_io) (s : CounterService D) (err : bool) (j : nat)
    (seed : string) : Prop :=
  exists s0, drift busy s s0 /\
    (forall r, call j seed (recovery_request nodeID now s0) = SeedReply r -> has_state r = false) /\
    (err = false -> exists r, call j seed (recovery_request nodeID now s0) = SeedReply r).

(** The seed was asked from [s0] and its state merged. *)
Definition asked_well {D : Type} (nodeID la : string) (now : Z) (busy : interference)
    (call : nat -> string -> StateUpdate -> seed_io) (s s' : CounterService D) (j : nat)
    (seed : string) : Prop :=
  exists s0 r, drift busy s s0 /\ call j seed (recovery_request nodeID now s0) = SeedReply r /\
    s' = recovered nodeID la now (if_during busy j seed s0) r.

Lemma drift_turn {D : Type} (busy : interference) (s : CounterService D) (j : nat) (seed : string) :
  drift busy s (if_before busy j seed s) /\
  drift busy s (if_during busy j seed (if_before busy j seed s)).
Proof.
  assert (drift busy s (if_before busy j seed s)) as H by (apply rtc_once; eauto).
  split; [done|]. etransitivity; [exact H|]. apply rtc_once. eauto.
Qed.

Lemma asked_drift {D : Type} (nodeID la : string) (now : Z) (busy : interference)
    (call : nat -> string -> StateUpdate -> seed_io) (s s1 : CounterService D) (j : nat) (seed : string) :
  drift busy s s1 ->
  (forall err, asked_in_vain nodeID now busy call s1 err j seed ->
     asked_in_vain nodeID now busy call s err j seed) /\
  (forall s', asked_well nodeID la now busy call s1 s' j seed -> asked_well nodeID la now busy call s s' j seed).
Proof.
  intros Hd. split.
  - intros err (s0 & H0 & H). exists s0. split; [by etransitivity|done].
  - intros s' (s0 & r & H0 & H). exists s0, r. split; [by etransitivity|done].
Qed.

Lemma try_seeds_spec {D : Type} (nodeID la : string) (now : Z) (busy : interference)
    (call : nat -> string -> StateUpdate -> seed_io) (j : nat) (seeds : list string) :
  forall (s : CounterService D) (e : bool),
  match try_seeds nodeID la now busy j (call j) seeds s e with
  | inl s' => exists seed, seed ∈ seeds /\ asked_well nodeID la now busy call s s' j seed
  | inr (s', e') => drift busy s s' /\ (e' = false -> e = false) /\
      forall seed, seed ∈ seeds -> asked_in_vain nodeID now busy call s e' j seed
  end.
Proof.
  induction seeds as [|x seeds IH]; intros s e; cbn [try_seeds].
  { split; [done|]. split; [done|]. by intros seed Hs%not_elem_of_nil. }
  destruct (drift_turn busy s j x) as [D0 D1].
  set (s0 := if_before busy j x s) in *. set (s1 := if_during busy j x s0) in *.
  assert (forall e', (e' = false -> e = false) ->
    (forall r, call j x (recovery_request nodeID now s0) = SeedReply r -> has_state r = false) ->
    (e' = false -> exists r, call j x (recovery_request nodeID now s0) = SeedReply r) ->
    match try_seeds nodeID la now busy j (call j) seeds s1 e' with
    | inl s' => exists seed, seed ∈ x :: seeds /\ asked_well nodeID la now busy call s s' j seed
    | inr (s', e2) => drift busy s s' /\ (e2 = false -> e = false) /\
        forall seed, seed ∈ x :: seeds -> asked_in_vain nodeID now busy call s e2 j seed
    end) as Hnext.
  { intros e' He Hx Ha. specialize (IH s1 e'). destruct (try_seeds _ _ _ _ _ _ _ _ _) as [s'|[s' e2]].
    - destruct IH as (seed & H1 & H2). exists seed. split; [by right|].
      by apply (asked_drift nodeID la now busy call s s1 j seed D1).
    - destruct IH as (H1 & H2 & H3). split; [by etransitivity|]. split; [auto|].
      intros seed [->|Hs]%elem_of_cons.
      + exists s0. split; [done|]. split; [done|auto].
      + by apply (asked_drift nodeID la now busy call s s1 j seed D1), H3. }
  destruct (call j x (recovery_request nodeID now s0)) as [| | | |r] eqn:Hx; try (by apply Hnext).
  destruct (has_state r) eqn:Hh.
  - exists x. split; [by left|]. by exists s0, r.
  - apply Hnext; [done|by intros r' [= <-]|]. intros _. by exists r.
Qed.

Lemma try_attempts_spec {D : Type} (nodeID la : string) (now : Z) (busy : interference)
    (call : nat -> string -> StateUpdate -> seed_io) (us : list string) (n : nat) :
  (0 < length us)%nat -> forall (s : CounterService D) (e : bool) (i : nat),
  let '(s', err) := try_attempts nodeID la now busy call us s e i n in
  (err = false /\ exists j seed, (i <= j < i + n)%nat /\ seed ∈ us /\
     asked_well nodeID la now busy call s s' j seed) \/
  (drift busy s s' /\ (err = false -> e = false) /\
   forall j seed, (i <= j < i + n)%nat -> seed ∈ us -> asked_in_vain nodeID now busy call s err j seed).
Proof.
  intros Hus. induction n as [|n IH]; intros s e i; cbn [try_attempts].
  { right. split; [done|]. split; [done|lia]. }
  pose proof (rotateSeeds_perm us (Nat.modulo i (length us))
    (Nat.mod_upper_bound i (length us) ltac:(lia))) as Hp.
  pose proof (try_seeds_spec nodeID la now busy call i (rotateSeeds us (Nat.modulo i (length us))) s e)
    as Ht. destruct (try_seeds _ _ _ _ _ _ _ _ _) as [s1|[s1 e1]].
  - destruct Ht as (seed & H1 & H2). left. split; [done|]. exists i, seed. rewrite Hp in H1.
    split; [lia|done].
  - destruct Ht as (T1 & T2 & T3). specialize (IH s1 e1 (S i)).
    destruct (try_attempts _ _ _ _ _ _ _ _ _ _) as [s' err].
    destruct IH as [(He & j & seed & Hj & H1 & H2)|(H1 & H2 & H3)]; [left|right].
    + split; [done|]. exists j, seed. split; [lia|]. split; [done|].
      by apply (asked_drift nodeID la now busy call s s1 j seed T1).
    + split; [by etransitivity|]. split; [auto|]. intros j seed Hj Hs.
      destruct (decide (j = i)) as [->|].
      * destruct (T3 seed) as (s0 & A1 & A2 & A3); [by rewrite Hp|]. exists s0. split_and!; auto.
      * apply (asked_drift nodeID la now busy call s s1 j seed T1), H3; [lia|done].
Qed.

(** A recovery that nothing disturbs merges one reply or none. *)
Lemma recover_undisturbed {D : Type} (nodeID la : string) (now : Z)
    (call : nat -> string -> StateUpdate -> seed_io) (seeds : list string) (s : CounterService D) :
  let s' := (recoverStateFromSeedNodes nodeID la now undisturbed call seeds s).1 in
  s' = s \/ exists r, s' = recovered nodeID la now s r.
Proof.
  assert (forall s0, drift undisturbed s s0 -> s0 = s) as Hd.
  { intros s0. unfold drift. induction 1 as [|x y z (j & seed & [->| ->]) _ IH]; done. }
  unfold recoverStateFromSeedNodes. set (us := uniqueOrderedSeeds seeds).
  destruct (Nat.eqb_spec (length us) 0); [by left|].
  pose proof (try_attempts_spec nodeID la now undisturbed call us maxAttempts ltac:(lia) s false 0) as H.
  destruct (try_attempts _ _ _ _ _ _ _ _ _ _) as [s' err].
  destruct H as [(_ & j & seed & _ & _ & s0 & r & ->%Hd & _ & ->)|(->%Hd & _)]; [right|by left].
  by exists r.
Qed.

Lemma learn_ok (m : Membership) (p : pbMember) : membership_ok m -> membership_ok (learn m p).
Proof.
  intros Hm. unfold learn.
  pose proof (exec_ok m (OpAddStatus (pm_NodeId p) (pm_Address p) (StatusFromProto (pm_Status p))
    (unix_Time (pm_LastHeartbeat p))) Hm) as H1.
  destruct (0 <? pm_Priority p); [|exact H1].
  exact (exec_ok _ (OpPriority (pm_NodeId p) (pm_Priority p)) H1).
Qed.

Lemma learn_dom (m : Membership) (p : pbMember) :
  dom (members (learn m p)) = {[pm_NodeId p]} ∪ dom (members m).
Proof.
  unfold learn. set (m1 := AddOrUpdateMemberStatus _ _ _ _ _).
  assert (dom (members m1) = {[pm_NodeId p]} ∪ dom (members m)) as H1.
  { unfold m1, AddOrUpdateMemberStatus. destruct (members m !! pm_NodeId p); simpl;
      by rewrite dom_insert_L. }
  destruct (0 <? pm_Priority p); [|done]. rewrite <- H1. apply set_eq. intros id.
  unfold Membership.SetPriority. rewrite !elem_of_dom, on_member_lookup.
  destruct (decide _); [|done]. by rewrite fmap_is_Some.
Qed.

Lemma learn_all (l : list pbMember) (m : Membership) :
  membership_ok m -> membership_ok (foldl learn m l) /\
  dom (members (foldl learn m l)) = list_to_set (pm_NodeId <$> l) ∪ dom (members m).
Proof.
  revert m. induction l as [|p l IH]; intros m Hm; [split; [done|set_solver]|].
  destruct (IH (learn m p) (learn_ok m p Hm)) as [H1 H2]. cbn [foldl]. split; [done|].
  rewrite H2, learn_dom. set_solver.
Qed.

(** Merging a state that contains one's own gives that state. *)
Lemma max_into_over (src dst : gmap string Z) : nonneg dst -> dst ⊑ src -> max_into src dst ≈ src.
Proof. intros Hd H k. rewrite max_into_get_nonneg by done. specialize (H k). lia. Qed.

Definition nonneg_service {D : Type} (s : CounterService D) : Prop :=
  pn_wf (s_counter s) /\ nonneg (clock (s_clock s)).

(** The merge of a seed's reply, as a cluster step sees it. *)
Lemma recovered_merged {D : Type} (nodeID la : string) (now : Z) (s : CounterService D)
    (r : StateUpdate) :
  let s' := recovered nodeID la now s r in
  merged_with s s' r /\ lastSyncClock s' = lastSyncClock s /\
  s_wal s' = s_wal s /\ s_store s' = s_store s /\ files s' = files s.
Proof.
  unfold recovered, pbToPNCounter. rewrite remote_counter_eq.
  destruct s as [id port c k cl st w re ls tg sh bu pr ak co fs]. destruct cl; simpl; (split; [by split|done]).
Qed.

Lemma stateless_merged {D : Type} (s : CounterService D) (r : StateUpdate) :
  has_state r = false -> merged_with s s r.
Proof.
  assert (forall m : gmap string Z, (0 <? Z.of_nat (size m)) = false -> m = ∅) as Hm.
  { intros m Hz. apply map_size_empty_inv. apply Z.ltb_ge in Hz. lia. }
  unfold has_state. intros [[E1%Hm E2%Hm]%orb_false_elim E3%Hm]%orb_false_elim.
  split; rewrite ?E1, ?E2, ?E3; done.
Qed.

(** Merging a seed's reply to the recovery request of [s0], when the service has
    become [s1]. *)
Lemma recovered_from_seed {D : Type} `{SO : StoreOps D} (marshal : WALEntry -> string)
    (nodeID la : string) (now : Z) (io : env) (s0 s1 sv sv' : CounterService D) (r : StateUpdate) :
  sync_update marshal io sv (recovery_request nodeID now s0) = (sv', Some r) ->
  let s' := recovered nodeID la now s1 r in
  positive (s_counter s') = max_into (positive (s_counter sv')) (positive (s_counter s1)) /\
  negative (s_counter s') = max_into (negative (s_counter sv')) (negative (s_counter s1)) /\
  clock (s_clock s') = max_into (clock (s_clock sv')) (clock (s_clock s1)) /\
  (nonneg_service s0 -> nonneg_service sv -> s_counter s1 = s_counter s0 -> s_clock s1 = s_clock s0 ->
   pn_sim (s_counter s') (s_counter sv') /\ clock (s_clock s') ≈ clock (s_clock sv')).
Proof.
  intros Hs s'.
  destruct (sync_update_spec marshal io sv sv' (recovery_request nodeID now s0) r ltac:(discriminate) Hs)
    as ([_ _ _ Mp Mn Mc] & (Ec & Ha) & Ht & _). simpl in Ht, Mp, Mn, Mc.
  destruct Ha as [(_ & Ep & En)|(Hf & _)]; [|by rewrite Ht in Hf].
  unfold Positive, Negative, State in *. rewrite copy_map_id in Mp, Mn, Mc.
  destruct (recovered_merged nodeID la now s1 r) as ([_ _ _ Rp Rn Rc] & _). fold s' in Rp, Rn, Rc.
  rewrite Ep in Rp. rewrite En in Rn. rewrite Ec in Rc. split_and!; [done..|].
  intros [[H1 H2] H3] [[H4 H5] H6] E1 E2. unfold pn_sim. rewrite Rp, Rn, Rc, E1, E2.
  split; [split|]; apply max_into_over; try done; rewrite ?Mp, ?Mn, ?Mc; by apply max_into_le_src.
Qed.

Lemma joinCluster_spec (call : string -> join_io) (seeds : list string) :
  forall (m : Membership) (e : bool), membership_ok m ->
  let '(m', err) := joinCluster call seeds m e in
  membership_ok m' /\ dom (members m) ⊆ dom (members m') /\
  ((exists seed lists failed, seed ∈ seeds /\ call seed = JoinStream lists failed /\
      lists <> [] /\ err = false /\
      forall p, p ∈ concat lists -> pm_NodeId p ∈ dom (members m')) \/
   (m' = m /\ forall seed lists failed, seed ∈ seeds -> call seed = JoinStream lists failed ->
      lists = [])).
Proof.
  induction seeds as [|x seeds IH]; intros m e Hm; simpl.
  { split_and!; [done..|]. right. split; [done|]. intros seed l f Hs. by apply not_elem_of_nil in Hs. }
  assert (forall e', (forall lists failed, call x = JoinStream lists failed -> lists = []) ->
    let '(m', err) := joinCluster call seeds m e' in
    membership_ok m' /\ dom (members m) ⊆ dom (members m') /\
    ((exists seed lists failed, seed ∈ x :: seeds /\ call seed = JoinStream lists failed /\
        lists <> [] /\ err = false /\
        forall p, p ∈ concat lists -> pm_NodeId p ∈ dom (members m')) \/
     (m' = m /\ forall seed lists failed, seed ∈ x :: seeds ->
        call seed = JoinStream lists failed -> lists = []))) as Hnext.
  { intros e' Hx. specialize (IH m e' Hm). destruct (joinCluster call seeds m e') as [m' err].
    destruct IH as (H1 & H2 & [(seed & l & f & H3 & H4)|[-> H3]]); split_and!; try done.
    - left. exists seed, l, f. split; [by right|done].
    - right. split; [done|]. intros seed l f [->|Hs]%elem_of_cons Hc; [by eapply Hx|by eapply H3]. }
  destruct (call x) as [| |lists failed] eqn:Hx; try (by apply Hnext).
  destruct lists as [|l lists]; [apply Hnext; by intros ? ? [= <- _]|].
  change (negb (Nat.eqb (length (l :: lists)) 0)) with true. cbv iota.
  destruct (learn_all (concat (l :: lists)) m Hm) as [H1 H2]. split_and!; [done| |left].
  - rewrite H2. set_solver.
  - exists x, (l :: lists), failed. split_and!; [by left|done..|].
    intros p Hp. rewrite H2. apply elem_of_union_l, elem_of_list_to_set, list_elem_of_fmap. by exists p.
Qed.

(** ** Properties *)

(** C14: Recovery catches up with a seed, whatever the process does meanwhile.  Let
    the seeds that answer do so with the service's own stream handler.  The node
    either ends, without an error, with the state of one of its seeds, as that seed
    stands after the exchange, merged into its own, as that stands when the reply
    arrives; if nothing changed it since the request and neither side holds a
    negative count, it then has the counts, the values and the clock of the seed.
    Or no seed gave it any state: then it has only what the rest of the process
    made of it, every seed was asked in each of the five attempts, and without an
    error each of them answered. *)
Theorem recovery_outcome {D : Type} `{SO : StoreOps D} (marshal : WALEntry -> string)
    (nodeID la : string) (now : Z) (busy : interference)
    (call : nat -> string -> StateUpdate -> seed_io)
    (peers : nat -> string -> CounterService D) (seedNodes : list string)
    (s s' : CounterService D) (err : bool) :
  let request := recovery_request nodeID now in
  (forall j seed s0 r, call j seed (request s0) = SeedReply r ->
    exists io sv', sync_update marshal io (peers j seed) (request s0) = (sv', Some r)) ->
  recoverStateFromSeedNodes nodeID la now busy call seedNodes s = (s', err) ->
  (err = false /\ exists j seed s0 r io sv', (j < 5)%nat /\ seed ∈ seedNodes /\ drift busy s s0 /\
     sync_update marshal io (peers j seed) (request s0) = (sv', Some r) /\
     let s1 := if_during busy j seed s0 in
     positive (s_counter s') = max_into (positive (s_counter sv')) (positive (s_counter s1)) /\
     negative (s_counter s') = max_into (negative (s_counter sv')) (negative (s_counter s1)) /\
     clock (s_clock s') = max_into (clock (s_clock sv')) (clock (s_clock s1)) /\
     (nonneg_service s0 -> nonneg_service (peers j seed) ->
      s_counter s1 = s_counter s0 -> s_clock s1 = s_clock s0 ->
      pn_sim (s_counter s') (s_counter sv') /\
      (forall name, ValueName (s_counter s') name = ValueName (s_counter sv') name) /\
      clock (s_clock s') ≈ clock (s_clock sv'))) \/
  (drift busy s s' /\ forall j seed, (j < 5)%nat -> seed ∈ seedNodes ->
     exists s0, drift busy s s0 /\
       (forall r, call j seed (request s0) = SeedReply r -> has_state r = false) /\
       (err = false -> exists r, call j seed (request s0) = SeedReply r)).
Proof.
  intros request Hcall. unfold recoverStateFromSeedNodes.
  destruct (uniqueOrderedSeeds_spec seedNodes) as [_ Hu]. set (us := uniqueOrderedSeeds seedNodes) in *.
  destruct (Nat.eqb_spec (length us) 0) as [H0%length_zero_iff_nil|H0].
  { intros [= <- <-]. right. split; [done|]. intros j seed _ Hs%Hu. rewrite H0 in Hs.
    by apply not_elem_of_nil in Hs. }
  intros Hrun.
  pose proof (try_attempts_spec nodeID la now busy call us maxAttempts ltac:(lia) s false 0) as H.
  rewrite Hrun in H. unfold maxAttempts in H.
  destruct H as [(-> & j & seed & Hj & Hseed & s0 & r & Hd & Hc & ->)|(H1 & _ & H2)]; [left|right].
  - split; [done|]. destruct (Hcall j seed s0 r Hc) as (io & sv' & Hsync).
    destruct (recovered_from_seed marshal nodeID la now io s0 (if_during busy j seed s0) _ sv' r Hsync)
      as (R1 & R2 & R3 & R4).
    exists j, seed, s0, r, io, sv'. split_and!; try done; [lia|by apply Hu|].
    intros N0 Nv E1 E2. destruct (R4 N0 Nv E1 E2) as [Q1 Q2]. split_and!; [done| |done].
    intros name. by apply ValueName_proper.
  - split; [done|]. intros j seed Hj Hseed. apply H2; [lia|by apply Hu].
Qed.

(** Joining: the member table stays well formed and no member is forgotten;
    either some seed streamed a member list, then there is no error and every
    member it listed is known afterwards, or the table is unchanged because no
    seed streamed any list. *)
Theorem joinCluster_learns (call : string -> join_io) (seeds : list string) (m m' : Membership)
    (err : bool) :
  membership_ok m -> joinCluster call seeds m false = (m', err) ->
  membership_ok m' /\ dom (members m) ⊆ dom (members m') /\
  ((exists seed lists failed, seed ∈ seeds /\ call seed = JoinStream lists failed /\
      lists <> [] /\ err = false /\
      forall p, p ∈ concat lists -> pm_NodeId p ∈ dom (members m')) \/
   (m' = m /\ forall seed lists failed, seed ∈ seeds -> call seed = JoinStream lists failed ->
      lists = [])).
Proof. intros Hm Hrun. pose proof (joinCluster_spec call seeds m false Hm) as H. by rewrite Hrun in H. Qed.

(** ** Witnesses

    The only seed of a new node is down at the first attempt and then answers
    from a service that counted 5; between the request and the reply a client
    adds 2 at the new node. *)

Definition ex_joiner : CounterService RedisStore := NewCounterService "c" 50051 ∅.

Definition ex_call (j : nat) (seed : string) (req : StateUpdate) : seed_io :=
  match j with
  | O => SeedDialErr
  | _ => match (@sync_update _ ex_ops marshal_entry (calm 7) (svc ex_nb) req).2 with
         | Some r => SeedReply r
         | None => SeedRecvErr
         end
  end.

Definition ex_busy : @interference RedisStore :=
  mkInterference (fun _ _ s => s)
    (fun j _ s => match j with
      | O => s
      | _ => (@Increment _ ex_ops marshal_entry (calm 7) s (mkUpdateRequest 2 "" 0 "likes")).1
      end).

Definition ex_recovered : CounterService RedisStore * bool :=
  recoverStateFromSeedNodes "c" "host-c:1" 6 ex_busy ex_call ["host-b:1"; "host-b:1"] ex_joiner.

Lemma recovery_outcome_witness :
  ValueName (s_counter ex_recovered.1) "likes" = 7 /\
  exists sv s1 : CounterService RedisStore,
    positive (s_counter ex_recovered.1) = max_into (positive (s_counter sv)) (positive (s_counter s1)).
Proof.
  split; [vm_compute; reflexivity|].
  destruct (@recovery_outcome _ ex_ops marshal_entry "c" "host-c:1" 6 ex_busy ex_call (fun _ _ => svc ex_nb)
    ["host-b:1"; "host-b:1"] ex_joiner ex_recovered.1 ex_recovered.2)
    as [(_ & j & seed & s0 & r & io & sv' & _ & _ & _ & _ & Hp & _)|(_ & H)].
  - intros [|j] seed s0 r; [discriminate|]. unfold ex_call. intros Hr. exists (calm 7).
    destruct (sync_update _ _ _ _) as [sv [r'|]]; [|discriminate]. injection Hr as ->. by exists sv.
  - vm_compute. reflexivity.
  - exists sv', (if_during ex_busy j seed s0). exact Hp.
  - exfalso. destruct (H 1%nat "host-b:1") as (s0 & _ & Hs & He); [lia|by left|].
    destruct He as [r Hr]; [vm_compute; reflexivity|]. specialize (Hs r Hr). unfold ex_call in Hr.
    destruct (@sync_update_spec _ ex_ops marshal_entry (calm 7) (svc ex_nb)
      (@sync_update _ ex_ops marshal_entry (calm 7) (svc ex_nb) (recovery_request "c" 6 s0)).1
      (recovery_request "c" 6 s0) r) as ([_ _ _ _ _ Mc] & [Ec _] & _); [discriminate| |].
    + destruct (sync_update _ _ _ _) as [sv [r'|]]; [|discriminate]. by injection Hr as ->.
    + unfold has_state in Hs. apply orb_false_elim in Hs as [_ Hs%Z.ltb_ge].
      assert (su_VectorClock r = ∅) as Hz by (apply map_size_empty_inv; lia).
      rewrite Hz, Mc in Ec. pose proof (max_into_le_dst (su_VectorClock (recovery_request "c" 6 s0))
        (clock (s_clock (svc ex_nb))) "likes:b") as Hle. rewrite <- Ec, get0_empty in Hle.
      vm_compute in Hle. by apply Hle.
Defined.

Definition ex_listed : pbMember := mkPbMember "node-c" "host-c:1" true 9 0 0 4.

(** The first seed is down, the second lists one member. *)
Definition ex_join (seed : string) : join_io :=
  if String.eqb seed "host-a:1" then JoinUnreachable else JoinStream [[ex_listed]] false.

Lemma joinCluster_learns_witness :
  "node-c" ∈ dom (members (joinCluster ex_join ["host-a:1"; "host-b:1"] (NewMembership "node-d") false).1).
Proof.
  destruct (joinCluster_learns ex_join ["host-a:1"; "host-b:1"] (NewMembership "node-d")
    (joinCluster ex_join ["host-a:1"; "host-b:1"] (NewMembership "node-d") false).1
    (joinCluster ex_join ["host-a:1"; "host-b:1"] (NewMembership "node-d") false).2)
    as (_ & _ & [(seed & lists & failed & _ & Hc & _ & _ & H)|[_ H]]).
  - by_eval.
  - apply surjective_pairing.
  - apply (H ex_listed). unfold ex_join in Hc. destruct (String.eqb seed "host-a:1"); [discriminate|].
    injection Hc as <- _. by left.
  - specialize (H "host-b:1" [[ex_listed]] false ltac:(by right; left) eq_refl). discriminate.
Defined.
