(* ===== verification/Float.v ===== *)
(** * Rounding bounds for [float64]

    Go's [float64] is IEEE 754 binary64, which the Standard Library specifies as
    [spec_float] with 53 bits of precision.  Finite values are multiples of
    2^-1074, so the value of a non-negative float is an integer at that scale; an
    operation on finite values returns the exact result up to one unit in the
    last place, that is a relative error of 2^-52 or the smallest float. *)

From Stdlib Require Import SpecFloat.
From S2P Require Import Prelude.

(** ** The operations *)

Definition fadd : spec_float -> spec_float -> spec_float := SFadd 53 1024.

Definition fsub : spec_float -> spec_float -> spec_float := SFsub 53 1024.

Definition fmul : spec_float -> spec_float -> spec_float := SFmul 53 1024.

Definition fdiv : spec_float -> spec_float -> spec_float := SFdiv 53 1024.

(** The conversion [float64(n)]. *)
Definition float_of_int (n : Z) : spec_float := binary_normalize 53 1024 n 0 false.

(** [math.MaxFloat64] *)
Definition MaxFloat64 : spec_float := SFmax_float 53 1024.

(** [math.Min]: NaN when one argument is NaN, and the negative zero of two zeros. *)
Definition float_min (x y : spec_float) : spec_float :=
  match x, y with
  | S754_infinity true, _ | _, S754_infinity true => S754_infinity true
  | S754_nan, _ | _, S754_nan => S754_nan
  | S754_zero a, S754_zero b => S754_zero (a || b)
  | _, _ => if SFltb x y then x else y
  end.

(** ** Values *)

(** A finite float that is not negative, in canonical form. *)
Definition nonneg_float (x : spec_float) : Prop :=
  match x with
  | S754_zero _ => True
  | S754_finite false m e => bounded 53 1024 m e = true
  | _ => False
  end.

(** The value in units of 2^-1074. *)
Definition fval (x : spec_float) : Z :=
  match x with
  | S754_finite _ m e => Zpos m * 2 ^ (e + 1074)
  | _ => 0
  end.

Definition fscale : Z := 2 ^ 1074.

(** [R] is [num / den] up to one unit in the last place. *)
Definition approx (R num den : Z) : Prop :=
  2 ^ 52 * Z.abs (R * den - num) <= num + 2 ^ 52 * den.

(** ** Rounding *)

Abbreviation fexp64 := (fexp 53 1024).

Lemma digits2_log2 (p : positive) : Zpos (digits2_pos p) = Z.log2 (Zpos p) + 1.
Proof.
  induction p as [p IH|p IH|]; [| |done]; cbn [digits2_pos]; rewrite Pos2Z.inj_succ, IH.
  - rewrite Pos2Z.inj_xI, Z.log2_succ_double by lia. lia.
  - rewrite Pos2Z.inj_xO, Z.log2_double by lia. lia.
Qed.

Lemma Zdigits2_log2 (m : Z) : 0 < m -> Zdigits2 m = Z.log2 m + 1.
Proof. destruct m as [|p|p]; [lia| |lia]. intros _. apply digits2_log2. Qed.

Lemma fexp64_eq (e : Z) : fexp64 e = Z.max (e - 53) (-1074).
Proof. unfold fexp, emin. f_equal. Qed.

Lemma shr_1_half (r : shr_record) : 0 <= shr_m r -> shr_m (shr_1 r) = shr_m r / 2.
Proof.
  destruct r as [m a b]. simpl. destruct m as [|[p|p|]|p]; simpl; intros H; try lia; try done.
  - rewrite Pos2Z.inj_xI. rewrite Z.mul_comm, Z.div_add_l by lia. change (1 / 2) with 0. lia.
  - rewrite Pos2Z.inj_xO, Z.mul_comm, Z.div_mul by lia. done.
Qed.

Lemma shr_iter (p : positive) (r : shr_record) :
  0 <= shr_m r -> shr_m (SpecFloat.iter_pos shr_1 p r) = shr_m r / 2 ^ Zpos p.
Proof.
  revert r.
  assert (forall a b, 0 <= b -> 0 <= a -> 0 <= a / 2 ^ b) as Hnn
    by (intros; apply Z.div_pos; [done|by apply Z.pow_pos_nonneg]).
  induction p as [p IH|p IH|]; intros r Hr; cbn [SpecFloat.iter_pos].
  - assert (0 <= shr_m (shr_1 r)) by (rewrite shr_1_half by done; apply (Hnn _ 1); lia).
    rewrite !IH; [|done|rewrite IH by done; apply Hnn; lia]. rewrite shr_1_half by done.
    rewrite !Z.div_div by (try apply Z.pow_pos_nonneg; lia). f_equal.
    replace (Zpos p~1) with (1 + (Zpos p + Zpos p)) by lia. by rewrite !Z.pow_add_r by lia.
  - rewrite !IH; [|done|rewrite IH by done; apply Hnn; lia].
    rewrite Z.div_div by (try apply Z.pow_pos_nonneg; lia). f_equal.
    rewrite Pos2Z.inj_xO, <- Z.pow_add_r by lia. f_equal. lia.
  - by apply shr_1_half.
Qed.

(** [shr_fexp] moves the exponent up to the one the format wants. *)
Lemma shr_fexp_spec (m e : Z) (l : location) :
  0 < m -> e <= fexp64 (Z.log2 m + 1 + e) ->
  let E := fexp64 (Z.log2 m + 1 + e) in
  shr_m (shr_fexp 53 1024 m e l).1 = m / 2 ^ (E - e) /\ (shr_fexp 53 1024 m e l).2 = E.
Proof.
  intros Hm He E. unfold shr_fexp. rewrite Zdigits2_log2 by done. fold E.
  assert (shr_m (shr_record_of_loc m l) = m) as Hr by (by destruct l as [|[]]).
  destruct (E - e) as [|p|p] eqn:Hn; [| |lia]; cbn [shr fst snd].
  - rewrite Hr, Z.div_1_r. lia.
  - rewrite shr_iter by lia. rewrite Hr. lia.
Qed.

(** Rounding to even takes the truncated significand or the next one. *)
Lemma round_nearest_even_cases (m : Z) (l : location) :
  round_nearest_even m l = m \/ round_nearest_even m l = m + 1.
Proof. destruct l as [|[]]; simpl; auto. destruct (Z.even m); auto. Qed.

Lemma canonical_log2 (p : positive) (e : Z) :
  bounded 53 1024 p e = true <-> fexp64 (Z.log2 (Zpos p) + 1 + e) = e /\ e <= 971.
Proof.
  unfold bounded, canonical_mantissa. rewrite digits2_log2, andb_true_iff, Z.eqb_eq, Z.leb_le. done.
Qed.

(** The second normalisation of a rounded significand is exact. *)
Lemma renormalise (q E : Z) :
  0 <= q <= 2 ^ 53 -> -1074 <= E <= 970 -> (E = -1074 \/ 2 ^ 52 <= q) ->
  exists x, (let '(r, e) := shr_fexp 53 1024 q E loc_Exact in
    match shr_m r with
    | Z0 => S754_zero false
    | Zpos m => if Z.leb e (1024 - 53) then S754_finite false m e else S754_infinity false
    | _ => S754_nan
    end) = x /\ nonneg_float x /\ fval x = q * 2 ^ (E + 1074).
Proof.
  intros Hq HE Hnorm. eexists. split; [reflexivity|].
  destruct (decide (q = 0)) as [->|Hq0].
  { unfold shr_fexp, Zdigits2. rewrite fexp64_eq. destruct (Z.max _ _ - E) as [|p|p] eqn:Hn; simpl;
      [done| |done]. lia. }
  assert (Z.log2 q < 53 \/ q = 2 ^ 53) as Hl.
  { destruct (decide (q = 2 ^ 53)); [by right|left]. apply Z.log2_lt_pow2; lia. }
  assert (0 <= Z.log2 q) by apply Z.log2_nonneg.
  assert (E = -1074 \/ 52 <= Z.log2 q) as Hl2.
  { destruct Hnorm as [?|Hnorm]; [by left|right]. by apply Z.log2_le_mono in Hnorm. }
  destruct (shr_fexp_spec q E loc_Exact) as [Hm He]; [lia|rewrite fexp64_eq; lia|].
  destruct (shr_fexp 53 1024 q E loc_Exact) as [r e]. simpl in Hm, He. subst e.
  rewrite Hm. clear Hm r. set (F := fexp64 (Z.log2 q + 1 + E)).
  assert (F = E \/ (F = E + 1 /\ q = 2 ^ 53)) as HF.
  { unfold F. rewrite fexp64_eq. destruct Hl as [Hl| ->]; [lia|].
    change (Z.log2 (2 ^ 53)) with 53. lia. }
  assert (q / 2 ^ (F - E) * 2 ^ (F + 1074) = q * 2 ^ (E + 1074) /\
    fexp64 (Z.log2 (q / 2 ^ (F - E)) + 1 + F) = F /\ 0 < q / 2 ^ (F - E)) as (Hv & Hc & Hp).
  { destruct HF as [HF|[HF ->]]; rewrite HF.
    - rewrite Z.sub_diag, Z.div_1_r. split_and!; [done| |lia]. unfold F in HF. by rewrite HF.
    - replace (E + 1 - E) with 1 by lia. change (2 ^ 53 / 2 ^ 1) with (2 ^ 52).
      split_and!; [|rewrite fexp64_eq; change (Z.log2 (2 ^ 52)) with 52; lia|lia].
      rewrite <- !Z.pow_add_r by lia. f_equal. lia. }
  destruct (q / 2 ^ (F - E)) as [|p|p]; [lia| |lia].
  destruct (Z.leb_spec F (1024 - 53)); [|lia]. split; [|by simpl].
  apply canonical_log2. split; [done|lia].
Qed.

(** The rounding step: with [m] the truncated significand of [num / den] at
    exponent [e] and [w] the weight of its last bit, the result is within one
    unit in the last place. *)
Lemma round_aux_spec (m e : Z) (l : location) (num den w : Z) :
  let E := fexp64 (Z.log2 m + 1 + e) in
  0 < m -> e <= E -> E <= 970 -> 0 < den -> 0 <= w ->
  m * w <= num <= (m + 1) * w -> w * 2 ^ (E - e) = den * 2 ^ (E + 1074) ->
  let x := binary_round_aux 53 1024 false m e l in
  nonneg_float x /\ approx (fval x) num den.
Proof.
  intros E Hm He HE Hden Hw Hnum HwE x.
  destruct (shr_fexp_spec m e l Hm He) as [Hs1 Hs2]. fold E in Hs1, Hs2.
  unfold x, binary_round_aux. destruct (shr_fexp 53 1024 m e l) as [r e']. simpl in Hs1, Hs2. subst e'.
  rewrite Hs1. set (n := E - e) in *. set (q := round_nearest_even _ _).
  assert (q = m / 2 ^ n \/ q = m / 2 ^ n + 1) as Hq by apply round_nearest_even_cases.
  clearbody q. assert (0 < 2 ^ n) as Hpn by (apply Z.pow_pos_nonneg; lia).
  assert (0 <= Z.log2 m) by apply Z.log2_nonneg.
  destruct (Z.log2_spec m Hm) as [Hlo Hhi].
  assert (m / 2 ^ n * 2 ^ n <= m < (m / 2 ^ n + 1) * 2 ^ n) as Hdiv.
  { pose proof (Z.div_mod m (2 ^ n)). pose proof (Z.mod_pos_bound m (2 ^ n)). lia. }
  assert (E = -1074 \/ E = Z.log2 m - 52 + e) as HEc by (unfold E; rewrite fexp64_eq; lia).
  assert (Z.log2 m - 52 + e <= E /\ -1074 <= E) as HEc' by (unfold E; rewrite fexp64_eq; lia).
  assert (m / 2 ^ n < 2 ^ 53) as Hup.
  { apply Z.div_lt_upper_bound; [lia|]. rewrite <- Z.pow_add_r by lia.
    eapply Z.lt_le_trans; [exact Hhi|]. apply Z.pow_le_mono_r; lia. }
  assert (E = -1074 \/ 2 ^ 52 <= m / 2 ^ n) as Hlow.
  { destruct HEc as [?|HEc]; [by left|right]. apply Z.div_le_lower_bound; [lia|].
    rewrite <- Z.pow_add_r by lia. replace (n + 52) with (Z.log2 m) by lia. done. }
  destruct (renormalise q E) as (y & -> & Hy & Hv); [|lia| |].
  { pose proof (Z.div_pos m (2 ^ n)). lia. }
  { destruct Hlow; [by left|right; lia]. }
  split; [done|]. unfold approx. rewrite Hv.
  assert (q * 2 ^ (E + 1074) * den = q * (w * 2 ^ n)) as -> by (rewrite HwE; lia).
  assert (Z.abs (q * (w * 2 ^ n) - num) <= w * 2 ^ n) as Herr by nia.
  assert (2 ^ 52 * (w * 2 ^ n) <= num + 2 ^ 52 * den) as Hulp.
  { destruct HEc as [HEc|HEc].
    - rewrite HwE, HEc. change (2 ^ (-1074 + 1074)) with 1. nia.
    - assert (2 ^ 52 * 2 ^ n = 2 ^ Z.log2 m) as Hw2 by (rewrite <- Z.pow_add_r by lia; f_equal; lia).
      nia. }
  lia.
Qed.

(** Far below the overflow threshold. *)
Definition moderate (v : Z) : Prop := v < 2 ^ 2000.

Lemma moderate_log2 (m k : Z) : 0 < m -> 0 <= k -> moderate (m * 2 ^ k) -> Z.log2 m + k < 2000.
Proof.
  unfold moderate. intros Hm Hk H. rewrite Z.add_comm, <- (Z.log2_mul_pow2 m k) by lia.
  apply Z.log2_lt_pow2; [|done]. apply Z.mul_pos_pos; [done|by apply Z.pow_pos_nonneg].
Qed.

Lemma pos_iter_xO (p d : positive) : Zpos (Pos.iter xO p d) = Zpos p * 2 ^ Zpos d.
Proof.
  rewrite <- (Pos2Nat.id d) at 2. rewrite Pos2Nat.inj_iter, Pos2Nat.id.
  rewrite <- (positive_nat_Z d).
  induction (Pos.to_nat d) as [|n IH]; [simpl; lia|].
  cbn [Nat.iter nat_rect]. rewrite Pos2Z.inj_xO. unfold Nat.iter in IH. rewrite IH.
  rewrite Nat2Z.inj_succ, Z.pow_succ_r by lia. lia.
Qed.

Lemma shl_align_spec (m : positive) (e e' : Z) :
  Zpos (fst (shl_align m e e')) = Zpos m * 2 ^ Z.max 0 (e - e') /\
  snd (shl_align m e e') = Z.min e e'.
Proof.
  unfold shl_align. destruct (e' - e) as [|d|d] eqn:Hd; simpl.
  - replace (Z.max 0 (e - e')) with 0 by lia. lia.
  - replace (Z.max 0 (e - e')) with 0 by lia. lia.
  - rewrite pos_iter_xO. replace (Z.max 0 (e - e')) with (Zpos d) by lia. lia.
Qed.

Lemma binary_round_spec (m : positive) (e : Z) :
  -1074 <= e -> moderate (Zpos m * 2 ^ (e + 1074)) ->
  let x := binary_round 53 1024 false m e in
  nonneg_float x /\ approx (fval x) (Zpos m * 2 ^ (e + 1074)) 1.
Proof.
  intros He Hmod. unfold binary_round. rewrite digits2_log2.
  set (E := fexp64 (Z.log2 (Zpos m) + 1 + e)).
  pose proof (shl_align_spec m e E) as [Hz He']. destruct (shl_align m e E) as [mz ez].
  simpl in Hz, He'. subst ez.
  pose proof (moderate_log2 (Zpos m) (e + 1074) (Pos2Z.is_pos m) ltac:(lia) Hmod) as Hl.
  assert (-1074 <= E <= 900) as HE.
  { unfold E. rewrite fexp64_eq. pose proof (Z.log2_nonneg (Zpos m)). lia. }
  assert (Z.log2 (Zpos mz) + Z.min e E = Z.log2 (Zpos m) + e) as Hlz.
  { rewrite Hz, Z.log2_mul_pow2 by lia. lia. }
  assert (fexp64 (Z.log2 (Zpos mz) + 1 + Z.min e E) = E) as HEz.
  { unfold E at 2. f_equal. lia. }
  assert (Zpos mz * 2 ^ (Z.min e E + 1074) = Zpos m * 2 ^ (e + 1074)) as Hval.
  { rewrite Hz, <- Z.mul_assoc, <- Z.pow_add_r by lia. do 2 f_equal. lia. }
  apply (round_aux_spec (Zpos mz) (Z.min e E) loc_Exact _ 1 (2 ^ (Z.min e E + 1074)));
    rewrite ?HEz, ?Hval; try lia.
  rewrite Z.mul_1_l, <- Z.pow_add_r by lia. f_equal. lia.
Qed.

Lemma approx_exact (v d : Z) : 0 <= v -> 0 <= d -> approx v (v * d) d.
Proof. intros Hv Hd. unfold approx. rewrite Z.sub_diag. simpl Z.abs. nia. Qed.

(** Cases of a non-negative float: its value, and the form of a positive one. *)
Lemma nonneg_float_cases (x : spec_float) :
  nonneg_float x ->
  (exists s, x = S754_zero s /\ fval x = 0) \/
  (exists m e, x = S754_finite false m e /\ -1074 <= e /\ e <= 971 /\
     fexp64 (Z.log2 (Zpos m) + 1 + e) = e /\ fval x = Zpos m * 2 ^ (e + 1074) /\ 0 < fval x).
Proof.
  destruct x as [s| | |[] m e]; simpl; try done; [intros _; left; by exists s|].
  intros [Hc He]%canonical_log2. right. exists m, e.
  assert (-1074 <= e) by (rewrite fexp64_eq in Hc; lia).
  split_and!; try done. apply Z.mul_pos_pos; [lia|apply Z.pow_pos_nonneg; lia].
Qed.

Lemma fval_nonneg (x : spec_float) : nonneg_float x -> 0 <= fval x.
Proof. intros [(s & -> & ->)|(m & e & _ & _ & _ & _ & _ & H)]%nonneg_float_cases; lia. Qed.

(** Two significands aligned at the smaller exponent. *)
Lemma aligned (m : positive) (e e' : Z) :
  -1074 <= e -> -1074 <= e' ->
  Zpos (fst (shl_align m e (Z.min e e'))) * 2 ^ (Z.min e e' + 1074) = Zpos m * 2 ^ (e + 1074).
Proof.
  intros He He'. destruct (shl_align_spec m e (Z.min e e')) as [-> _].
  rewrite <- Z.mul_assoc, <- Z.pow_add_r by lia. do 2 f_equal. lia.
Qed.

Lemma binary_normalize_spec (z e : Z) :
  0 <= z -> -1074 <= e -> moderate (z * 2 ^ (e + 1074)) ->
  let x := binary_normalize 53 1024 z e false in
  nonneg_float x /\ approx (fval x) (z * 2 ^ (e + 1074)) 1.
Proof.
  intros Hz He Hm. destruct z as [|p|p]; [split; [done|by apply (approx_exact 0 1)]| |lia].
  by apply binary_round_spec.
Qed.

Lemma fadd_spec (x y : spec_float) :
  nonneg_float x -> nonneg_float y -> moderate (fval x + fval y) ->
  nonneg_float (fadd x y) /\ approx (fval (fadd x y)) (fval x + fval y) 1.
Proof.
  intros Hx Hy Hm. pose proof (fval_nonneg x Hx). pose proof (fval_nonneg y Hy).
  destruct (nonneg_float_cases x Hx) as [(s & -> & Vx)|(m & e & -> & He & _ & _ & Vx & _)],
    (nonneg_float_cases y Hy) as [(s' & -> & Vy)|(m' & e' & -> & He' & _ & _ & Vy & _)];
    unfold fadd; cbn [SFadd].
  - rewrite Vx, Vy. split; [by destruct s, s'|]. destruct s, s'; by apply (approx_exact 0 1).
  - rewrite Vx. split; [done|]. rewrite Z.add_0_l. rewrite <- (Z.mul_1_r (fval _)) at 2.
    by apply approx_exact.
  - rewrite Vy. split; [done|]. rewrite Z.add_0_r. rewrite <- (Z.mul_1_r (fval _)) at 2.
    by apply approx_exact.
  - cbn [cond_Zopp]. pose proof (aligned m e e' He He') as A1. pose proof (aligned m' e' e He' He) as A2.
    rewrite (Z.min_comm e' e) in A2. rewrite Vx, Vy, <- A1, <- A2, <- Z.mul_add_distr_r in *.
    apply binary_normalize_spec; [lia|lia|done].
Qed.

Lemma fsub_spec (x y : spec_float) :
  nonneg_float x -> nonneg_float y -> moderate (fval x) -> fval y <= fval x ->
  nonneg_float (fsub x y) /\ approx (fval (fsub x y)) (fval x - fval y) 1.
Proof.
  intros Hx Hy Hm Hle. pose proof (fval_nonneg x Hx). pose proof (fval_nonneg y Hy).
  destruct (nonneg_float_cases x Hx) as [(s & -> & Vx)|(m & e & -> & He & _ & _ & Vx & _)],
    (nonneg_float_cases y Hy) as [(s' & -> & Vy)|(m' & e' & -> & He' & _ & _ & Vy & Py)];
    unfold fsub; cbn [SFsub].
  - rewrite Vx, Vy. split; [by destruct s, s'|]. destruct s, s'; by apply (approx_exact 0 1).
  - lia.
  - rewrite Vy. split; [done|]. rewrite Z.sub_0_r. rewrite <- (Z.mul_1_r (fval _)) at 2.
    by apply approx_exact.
  - cbn [cond_Zopp]. pose proof (aligned m e e' He He') as A1. pose proof (aligned m' e' e He' He) as A2.
    rewrite (Z.min_comm e' e) in A2. rewrite Vx, Vy, <- A1, <- A2, <- Z.mul_sub_distr_r in *.
    assert (0 < 2 ^ (Z.min e e' + 1074)) by (apply Z.pow_pos_nonneg; lia).
    apply binary_normalize_spec; [nia|lia|]. unfold moderate in *. nia.
Qed.

Lemma canonical_bits (m : positive) (e : Z) :
  fexp64 (Z.log2 (Zpos m) + 1 + e) = e ->
  0 <= Z.log2 (Zpos m) <= 52 /\ (Z.log2 (Zpos m) = 52 \/ e = -1074).
Proof. rewrite fexp64_eq. pose proof (Z.log2_nonneg (Zpos m)). lia. Qed.

Lemma fmul_spec (x y : spec_float) :
  nonneg_float x -> nonneg_float y -> fval x * fval y < 2 ^ 3000 ->
  nonneg_float (fmul x y) /\ approx (fval (fmul x y)) (fval x * fval y) fscale.
Proof.
  intros Hx Hy Hm.
  destruct (nonneg_float_cases x Hx) as [(s & -> & Vx)|(m & e & -> & He & _ & Cx & Vx & _)].
  { rewrite Vx, Z.mul_0_l.
    by destruct (nonneg_float_cases y Hy) as [(s' & -> & Vy)|(m' & e' & -> & _)]. }
  destruct (nonneg_float_cases y Hy) as [(s' & -> & Vy)|(m' & e' & -> & He' & _ & Cy & Vy & _)].
  { by rewrite Vy, Z.mul_0_r. }
  apply canonical_bits in Cx, Cy. rewrite Vx, Vy in *. unfold fmul. cbn [SFmul xorb].
  assert (Zpos m * 2 ^ (e + 1074) * (Zpos m' * 2 ^ (e' + 1074)) =
          Zpos (m * m') * 2 ^ (e + e' + 2148)) as Hnum.
  { rewrite Pos2Z.inj_mul. replace (e + e' + 2148) with ((e + 1074) + (e' + 1074)) by lia.
    rewrite (Z.pow_add_r 2 (e + 1074)) by lia. lia. }
  rewrite Hnum in *.
  pose proof (Z.log2_mul_below (Zpos m) (Zpos m') ltac:(lia) ltac:(lia)) as Hb.
  rewrite <- Pos2Z.inj_mul in Hb. set (L := Z.log2 (Zpos (m * m'))) in *.
  assert (L + (e + e' + 2148) < 3000) as HL.
  { unfold L. rewrite Z.add_comm, <- Z.log2_mul_pow2 by lia. apply Z.log2_lt_pow2; [|done].
    apply Z.mul_pos_pos; [lia|apply Z.pow_pos_nonneg; lia]. }
  set (E := fexp64 (L + 1 + (e + e'))).
  assert (e + e' <= E /\ -1074 <= E <= 900) as [HE1 HE2] by (unfold E; rewrite fexp64_eq; lia).
  apply (round_aux_spec (Zpos (m * m')) (e + e') loc_Exact _ fscale (2 ^ (e + e' + 2148)));
    fold L; fold E; try lia; try done.
  unfold fscale. rewrite <- !Z.pow_add_r by lia. f_equal. lia.
Qed.

(** The quotient of two significands, the first shifted so that it has at least
    53 bits more than the second. *)
Lemma quotient_bits (m1 m2 s : Z) :
  let q := m1 * 2 ^ s / m2 in
  0 < m1 -> 0 < m2 -> 0 <= s -> Z.log2 m2 + 53 <= Z.log2 m1 + s ->
  q * m2 <= m1 * 2 ^ s < (q + 1) * m2 /\ 2 ^ 52 <= q /\
  Z.log2 q <= Z.log2 m1 + 1 + s - Z.log2 m2.
Proof.
  intros q H1 H2 Hs Hl.
  assert (q * m2 <= m1 * 2 ^ s < (q + 1) * m2) as Hqm.
  { pose proof (Z.div_mod (m1 * 2 ^ s) m2). pose proof (Z.mod_pos_bound (m1 * 2 ^ s) m2).
    unfold q. lia. }
  destruct (Z.log2_spec m1 H1) as [A1 A2]. destruct (Z.log2_spec m2 H2) as [B1 B2].
  pose proof (Z.log2_nonneg m1). pose proof (Z.log2_nonneg m2).
  assert (0 < 2 ^ s) as Ps by (apply Z.pow_pos_nonneg; lia).
  assert (2 ^ 52 <= q) as Hqlo.
  { apply Z.div_le_lower_bound; [lia|].
    assert (2 ^ (Z.log2 m2 + 1) * 2 ^ 52 <= 2 ^ Z.log2 m1 * 2 ^ s); [|nia].
    rewrite <- !Z.pow_add_r by lia. apply Z.pow_le_mono_r; lia. }
  split_and!; try done; try lia.
  assert (Z.log2 q < Z.log2 m1 + 1 + s - Z.log2 m2 + 1); [|lia]. apply Z.log2_lt_pow2; [lia|].
  assert (q * 2 ^ Z.log2 m2 < 2 ^ (Z.log2 m1 + 1 + s)) as Hlt by (rewrite Z.pow_add_r by lia; nia).
  replace (Z.log2 m1 + 1 + s) with ((Z.log2 m1 + 1 + s - Z.log2 m2) + Z.log2 m2) in Hlt by lia.
  rewrite Z.pow_add_r in Hlt by lia. assert (0 < 2 ^ Z.log2 m2) by (apply Z.pow_pos_nonneg; lia).
  assert (q < 2 ^ (Z.log2 m1 + 1 + s - Z.log2 m2)) by nia. rewrite Z.pow_add_r by lia. lia.
Qed.

Lemma fdiv_spec (x y : spec_float) :
  nonneg_float x -> nonneg_float y -> 0 < fval x -> 0 < fval y ->
  -900 <= Z.log2 (fval x) - Z.log2 (fval y) <= 900 ->
  nonneg_float (fdiv x y) /\ approx (fval (fdiv x y)) (fval x * fscale) (fval y).
Proof.
  intros Hx Hy Px Py HD.
  destruct (nonneg_float_cases x Hx) as [(s & -> & Vx)|(m1 & e1 & -> & He1 & _ & Cx & Vx & _)]; [lia|].
  destruct (nonneg_float_cases y Hy) as [(s & -> & Vy)|(m2 & e2 & -> & He2 & _ & Cy & Vy & _)]; [lia|].
  apply canonical_bits in Cx, Cy. rewrite Vx, Vy in *. clear Hx Hy Vx Vy.
  rewrite !Z.log2_mul_pow2 in HD by lia. unfold fdiv. cbn [SFdiv xorb].
  unfold SFdiv_core_binary. rewrite !Zdigits2_log2 by lia.
  set (l1 := Z.log2 (Zpos m1)) in *. set (l2 := Z.log2 (Zpos m2)) in *.
  set (e' := Z.min _ _).
  assert (e' <= l1 + e1 - (l2 + e2) - 53 /\ e' <= e1 - e2 /\ -1074 <= e') as (K1 & K2 & K3).
  { unfold e'. rewrite fexp64_eq. lia. }
  clearbody e'. set (s := e1 - e2 - e').
  assert (match s with Z0 => Zpos m1 | Zpos _ => Z.shiftl (Zpos m1) s | Zneg _ => Z0 end =
          Zpos m1 * 2 ^ s) as ->.
  { destruct s eqn:Hs; [lia| |lia]. rewrite Z.shiftl_mul_pow2 by lia. done. }
  destruct (Z.div_eucl (Zpos m1 * 2 ^ s) (Zpos m2)) as [q r] eqn:Hqr.
  assert (q = Zpos m1 * 2 ^ s / Zpos m2) as Hq by (unfold Z.div; by rewrite Hqr). clear Hqr.
  destruct (quotient_bits (Zpos m1) (Zpos m2) s) as (Hqm & Hqlo & Hqhi); [lia..|].
  rewrite <- Hq in Hqm, Hqlo, Hqhi. fold l1 l2 in Hqhi.
  apply Z.log2_le_mono in Hqlo as Hl. change (Z.log2 (2 ^ 52)) with 52 in Hl.
  set (E := fexp64 (Z.log2 q + 1 + e')).
  assert (e' <= E /\ -1074 <= E <= 900) as [HE1 HE2] by (unfold E; rewrite fexp64_eq; lia).
  set (den := Zpos m2 * 2 ^ (e2 + 1074)) in *.
  apply (round_aux_spec q e' _ _ den (den * 2 ^ (e' + 1074))); fold E; try lia.
  - assert (forall k, k * (den * 2 ^ (e' + 1074)) = k * Zpos m2 * 2 ^ (e2 + e' + 2148)) as Hk.
    { intros k. unfold den. replace (e2 + e' + 2148) with ((e2 + 1074) + (e' + 1074)) by lia.
      rewrite (Z.pow_add_r 2 (e2 + 1074)) by lia. lia. }
    rewrite !Hk. replace (Zpos m1 * 2 ^ (e1 + 1074) * fscale)
      with (Zpos m1 * 2 ^ s * 2 ^ (e2 + e' + 2148)).
    + assert (0 < 2 ^ (e2 + e' + 2148)) by (apply Z.pow_pos_nonneg; lia). nia.
    + unfold fscale. rewrite <- !Z.mul_assoc, <- !Z.pow_add_r by lia. do 2 f_equal. lia.
  - rewrite <- Z.mul_assoc, <- Z.pow_add_r by lia. do 2 f_equal. lia.
Qed.

(** Integers below 2^53 are exact. *)
Lemma float_of_int_spec (n : Z) :
  0 <= n < 2 ^ 53 -> nonneg_float (float_of_int n) /\ fval (float_of_int n) = n * fscale.
Proof.
  intros Hn. destruct n as [|p|p]; [by split| |lia]. unfold float_of_int, binary_normalize, binary_round.
  rewrite digits2_log2. set (l := Z.log2 (Zpos p)).
  assert (0 <= l < 53) as Hl by (split; [apply Z.log2_nonneg|apply Z.log2_lt_pow2; lia]).
  destruct (Z.log2_spec (Zpos p) ltac:(lia)) as [Hlo Hhi]. fold l in Hlo, Hhi.
  rewrite fexp64_eq. replace (Z.max (l + 1 + 0 - 53) (-1074)) with (l - 52) by lia.
  destruct (shl_align_spec p 0 (l - 52)) as [Hz He]. destruct (shl_align p 0 (l - 52)) as [mz ez].
  simpl in Hz, He. subst ez. replace (Z.min 0 (l - 52)) with (l - 52) by lia.
  replace (Z.max 0 (0 - (l - 52))) with (52 - l) in Hz by lia.
  assert (Z.log2 (Zpos mz) = 52) as Hlz by (rewrite Hz, Z.log2_mul_pow2 by lia; fold l; lia).
  assert (shr_fexp 53 1024 (Zpos mz) (l - 52) loc_Exact =
          (shr_record_of_loc (Zpos mz) loc_Exact, l - 52)) as HF.
  { unfold shr_fexp. rewrite Zdigits2_log2, Hlz, fexp64_eq by lia.
    by replace (Z.max _ _ - _) with 0 by lia. }
  unfold binary_round_aux. rewrite HF.
  cbn [shr_record_of_loc shr_m loc_of_shr_record round_nearest_even]. rewrite HF.
  cbn [shr_record_of_loc shr_m]. destruct (Z.leb_spec (l - 52) (1024 - 53)); [|lia]. split.
  - apply canonical_log2. rewrite Hlz, fexp64_eq. lia.
  - simpl. unfold fscale. rewrite Hz, <- Z.mul_assoc, <- Z.pow_add_r by lia. do 2 f_equal. lia.
Qed.

(** ** Comparisons *)

(** Canonical floats compare by exponent first. *)
Lemma fval_lt_exponent (m m' : positive) (e e' : Z) :
  -1074 <= e -> fexp64 (Z.log2 (Zpos m) + 1 + e) = e -> fexp64 (Z.log2 (Zpos m') + 1 + e') = e' ->
  e < e' -> Zpos m * 2 ^ (e + 1074) < Zpos m' * 2 ^ (e' + 1074).
Proof.
  intros He [Hm _]%canonical_bits [_ Hm']%canonical_bits Hlt.
  assert (Z.log2 (Zpos m') = 52) as Hl by lia.
  destruct (Z.log2_spec (Zpos m') ltac:(lia)) as [Hlo _]. rewrite Hl in Hlo.
  destruct (Z.log2_spec (Zpos m) ltac:(lia)) as [_ Hhi].
  assert (2 ^ Z.succ (Z.log2 (Zpos m)) <= 2 ^ 53) by (apply Z.pow_le_mono_r; lia).
  assert (0 < 2 ^ (e + 1074)) by (apply Z.pow_pos_nonneg; lia).
  assert (2 ^ (e + 1075) <= 2 ^ (e' + 1074)) by (apply Z.pow_le_mono_r; lia).
  replace (e + 1075) with (1 + (e + 1074)) in * by lia. rewrite Z.pow_add_r in * by lia. nia.
Qed.

Lemma SFcompare_spec (x y : spec_float) :
  nonneg_float x -> nonneg_float y -> SFcompare x y = Some (fval x ?= fval y).
Proof.
  intros Hx Hy.
  destruct (nonneg_float_cases x Hx) as [(s & -> & Vx)|(m & e & -> & He & _ & Cx & Vx & Px)],
    (nonneg_float_cases y Hy) as [(s' & -> & Vy)|(m' & e' & -> & He' & _ & Cy & Vy & Py)].
  - by rewrite Vx, Vy.
  - rewrite Vx. cbn [SFcompare]. f_equal. symmetry. by apply Z.compare_lt_iff.
  - rewrite Vy. cbn [SFcompare]. f_equal. symmetry. by apply Z.compare_gt_iff.
  - rewrite Vx, Vy. cbn [SFcompare]. f_equal. destruct (Z.compare_spec e e') as [->|Hlt|Hgt]; symmetry.
    + rewrite <- (Zmult_compare_compat_r (Zpos m) (Zpos m') (2 ^ (e' + 1074))); [done|].
      apply Z.lt_gt, Z.pow_pos_nonneg; lia.
    + apply Z.compare_lt_iff. by apply fval_lt_exponent.
    + apply Z.compare_gt_iff. by apply fval_lt_exponent.
Qed.

Lemma SFltb_spec (x y : spec_float) :
  nonneg_float x -> nonneg_float y -> SFltb x y = (fval x <? fval y).
Proof.
  intros Hx Hy. unfold SFltb. rewrite SFcompare_spec by done. unfold Z.ltb. by destruct (_ ?= _).
Qed.

Lemma SFleb_spec (x y : spec_float) :
  nonneg_float x -> nonneg_float y -> SFleb x y = (fval x <=? fval y).
Proof.
  intros Hx Hy. unfold SFleb. rewrite SFcompare_spec by done. unfold Z.leb. by destruct (_ ?= _).
Qed.

Lemma float_min_spec (x y : spec_float) :
  nonneg_float x -> nonneg_float y ->
  nonneg_float (float_min x y) /\ fval (float_min x y) = Z.min (fval x) (fval y).
Proof.
  intros Hx Hy.
  assert (float_min x y = (if SFltb x y then x else y) \/
          exists a b, x = S754_zero a /\ y = S754_zero b) as Hc.
  { destruct x as [| | |[]], y as [| | |[]]; try done; eauto. }
  destruct Hc as [->|(a & b & -> & ->)]; [|done]. rewrite SFltb_spec by done.
  destruct (Z.ltb_spec (fval x) (fval y)); split; try done; lia.
Qed.
