(* ===== verification/RateLimit.v ===== *)
(** * The rate limiter (internal/server/middleware.go)

    A token bucket over [float64] with the wall clock as an argument.  A window
    of requests admits at most the burst capacity plus the refill of its length,
    up to one request for the accumulated rounding, and an idle limiter admits
    the next request. *)

From Stdlib Require Import SpecFloat.
From S2P Require Import Prelude Float.

(** ** Data and operations *)

Record RateLimiter := mkRateLimiter {
  tokens : spec_float;
  capacity : spec_float;
  refill : spec_float;
  last : Z;
}.

Definition NewRateLimiter (perSecond now : Z) : RateLimiter :=
  if perSecond <=? 0 then
    {| tokens := MaxFloat64; capacity := MaxFloat64; refill := S754_zero false; last := zeroTime |}
  else
    {| tokens := float_of_int perSecond; capacity := float_of_int perSecond;
       refill := float_of_int perSecond; last := now |}.

(** [Duration.Seconds]: [float64(d/Second) + float64(d%Second)/1e9] *)
Definition Seconds (d : Z) : spec_float :=
  fadd (float_of_int (Z.quot d Second)) (fdiv (float_of_int (Z.rem d Second)) (float_of_int Second)).

Definition Allow (r : RateLimiter) (now : Z) : RateLimiter * bool :=
  if SFeqb (capacity r) MaxFloat64 then (r, true)
  else
    let elapsed := Seconds (time_Sub now (last r)) in
    let tokens' := float_min (capacity r) (fadd (tokens r) (fmul elapsed (refill r))) in
    if SFleb (float_of_int 1) tokens' then
      ({| tokens := fsub tokens' (float_of_int 1); capacity := capacity r; refill := refill r;
          last := now |}, true)
    else
      ({| tokens := tokens'; capacity := capacity r; refill := refill r; last := now |}, false).

(** The requests at the times [ts], and how many are admitted. *)
Fixpoint serve (r : RateLimiter) (ts : list Z) : RateLimiter * Z :=
  match ts with
  | [] => (r, 0)
  | t :: ts =>
      let '(r, ok) := Allow r t in
      let '(r, n) := serve r ts in
      (r, if (ok : bool) then n + 1 else n)
  end.

(** The clock does not run backwards. *)
Fixpoint ascending (t : Z) (ts : list Z) : Prop :=
  match ts with
  | [] => True
  | t' :: ts => t <= t' < 2 ^ 63 /\ ascending t' ts
  end.

(** ** The error of one refill *)

(** A limited bucket of rate [p]. *)
Record limiter_ok (p : Z) (r : RateLimiter) : Prop := {
  lo_capacity : capacity r = float_of_int p;
  lo_refill : refill r = float_of_int p;
  lo_tokens : nonneg_float (tokens r);
  lo_full : fval (tokens r) <= p * fscale;
}.

Lemma fscale_big : 2 ^ 200 <= fscale.
Proof. unfold fscale. by apply Z.pow_le_mono_r. Qed.

Lemma Seconds_spec (d : Z) :
  0 <= d < 2 ^ 63 ->
  nonneg_float (Seconds d) /\ 2 ^ 53 * Z.abs (fval (Seconds d) * Second - d * fscale) <= 5 * (d * fscale).
Proof.
  intros Hd. unfold Seconds. pose proof fscale_big as HS.
  rewrite Z.quot_div_nonneg, Z.rem_mod_nonneg by (unfold Second; lia).
  pose proof (Z.div_mod d Second ltac:(done)) as Hdm.
  pose proof (Z.mod_pos_bound d Second ltac:(done)) as Hm.
  set (sec := d / Second) in *. set (ns := d mod Second) in *.
  assert (0 <= sec < 2 ^ 53) as Hs by (unfold Second in *; lia).
  destruct (float_of_int_spec sec Hs) as [Fs Vs].
  destruct (float_of_int_spec ns ltac:(unfold Second in *; lia)) as [Fn Vn].
  destruct (float_of_int_spec Second ltac:(done)) as [F9 V9].
  assert (nonneg_float (fdiv (float_of_int ns) (float_of_int Second)) /\
    2 ^ 52 * Z.abs (fval (fdiv (float_of_int ns) (float_of_int Second)) * Second - ns * fscale) <=
    ns * fscale + 2 ^ 52 * Second /\ (ns = 0 -> fval (fdiv (float_of_int ns) (float_of_int Second)) = 0))
    as (Fq & Hq & Hq0).
  { destruct (decide (ns = 0)) as [->|Hn0]; [by split_and!|].
    destruct (fdiv_spec (float_of_int ns) (float_of_int Second)) as [Fq Aq]; try done.
    - rewrite Vn. apply Z.mul_pos_pos; lia.
    - rewrite Vn, V9. unfold fscale. rewrite !Z.log2_mul_pow2 by (unfold Second; lia).
      assert (Z.log2 ns < 30) by (apply Z.log2_lt_pow2; unfold Second in *; lia).
      pose proof (Z.log2_nonneg ns). change (Z.log2 Second) with 29. lia.
    - split_and!; [done| |lia]. unfold approx in Aq. rewrite Vn, V9 in Aq.
      set (R := fval (fdiv _ _)) in *.
      replace (R * (Second * fscale) - ns * fscale * fscale) with ((R * Second - ns * fscale) * fscale)
        in Aq by lia. rewrite Z.abs_mul, (Z.abs_eq fscale) in Aq by lia. nia. }
  set (R := fval (fdiv _ _)) in *. pose proof (fval_nonneg _ Fq) as HR0. fold R in HR0.
  destruct (fadd_spec _ _ Fs Fq) as [Fe Ae].
  { rewrite Vs. fold R. unfold moderate, Second in *.
    assert (2 ^ 100 * fscale < 2 ^ 2000); [|nia]. by apply Z.ltb_lt. }
  split; [done|]. unfold approx in Ae. rewrite Vs in Ae. fold R in Ae. rewrite !Z.mul_1_r in Ae.
  set (X := fval (fadd _ _)) in *. unfold Second in *.
  destruct (decide (d = 0)) as [->|Hd0].
  - assert (sec = 0) by done. assert (R = 0) by (by apply Hq0).
    assert (X = 0); [|lia]. unfold X, R in *. by vm_compute.
  - assert (fscale <= d * fscale) by nia.
    assert (d * fscale = 1000000000 * (sec * fscale) + ns * fscale) by nia.
    lia.
Qed.

(** The refill for [d] nanoseconds at rate [p]. *)
Lemma refill_spec (p d : Z) :
  0 <= p < 2 ^ 53 -> 0 <= d < 2 ^ 63 ->
  let z := fmul (Seconds d) (float_of_int p) in
  nonneg_float z /\ fval z <= 2 ^ 120 * fscale /\
  2 ^ 50 * Z.abs (fval z * Second - p * (d * fscale)) <= p * (d * fscale) + 2 ^ 80.
Proof.
  intros Hp Hd z. pose proof fscale_big as HS. destruct (Seconds_spec d Hd) as [Fe He].
  destruct (float_of_int_spec p Hp) as [Fp Vp]. pose proof (fval_nonneg _ Fe) as He0.
  set (X := fval (Seconds d)) in *. set (D := d * fscale) in *.
  assert (X <= 2 ^ 64 * fscale) as HX by (unfold Second, D in *; nia).
  assert (X * (p * fscale) < 2 ^ 3000) as Hov.
  { assert (2 ^ 120 * (fscale * fscale) < 2 ^ 3000) by (by apply Z.ltb_lt).
    assert (X * p <= 2 ^ 120 * fscale) by nia. nia. }
  destruct (fmul_spec (Seconds d) (float_of_int p) Fe Fp ltac:(by rewrite Vp)) as [Fz Az].
  fold z in Fz, Az. unfold approx in Az. rewrite Vp in Az. fold X in Az.
  set (W := fval z) in *.
  replace (W * fscale - X * (p * fscale)) with ((W - X * p) * fscale) in Az by lia.
  rewrite Z.abs_mul, (Z.abs_eq fscale) in Az by lia.
  assert (2 ^ 52 * Z.abs (W - X * p) <= X * p + 2 ^ 52) as Hz by nia.
  assert (2 ^ 53 * Z.abs (X * p * Second - p * D) <= 5 * (p * D)) as Hx.
  { replace (X * p * Second - p * D) with ((X * Second - D) * p) by lia.
    rewrite Z.abs_mul, (Z.abs_eq p) by lia. nia. }
  assert (0 <= X * p) by nia. assert (0 <= p * D) by (unfold D; nia).
  split_and!; [done| |].
  - assert (X * p <= 2 ^ 118 * fscale) by nia. lia.
  - unfold Second in *. lia.
Qed.

(** ** One request *)

Lemma capacity_limited (p : Z) : 0 < p < 2 ^ 53 -> SFeqb (float_of_int p) MaxFloat64 = false.
Proof.
  intros Hp. destruct (float_of_int_spec p ltac:(lia)) as [Fp Vp].
  unfold SFeqb. rewrite SFcompare_spec by done. rewrite Vp.
  assert (p * fscale < fval MaxFloat64) as Hlt.
  { assert (2 ^ 53 * fscale < fval MaxFloat64) by (by apply Z.ltb_lt). pose proof fscale_big. nia. }
  apply Z.compare_lt_iff in Hlt. by rewrite Hlt.
Qed.

(** The bucket before the token is taken: it gains the refill, up to an error of
    the capacity over 2^52 per addition, and is full or holds at least the exact
    sum up to the same error. *)
Lemma refilled_spec (p : Z) (r : RateLimiter) (z : spec_float) :
  0 < p < 2 ^ 50 -> limiter_ok p r -> nonneg_float z -> fval z <= 2 ^ 120 * fscale ->
  let b := float_min (capacity r) (fadd (tokens r) z) in
  nonneg_float b /\ fval b <= p * fscale /\
  2 ^ 52 * (fval b - (fval (tokens r) + fval z)) <= p * fscale + 2 ^ 52 /\
  (fval b = p * fscale \/
   2 ^ 52 * (fval (tokens r) + fval z - fval b) <= fval (tokens r) + fval z + 2 ^ 52).
Proof.
  intros Hp [Hc _ Ft Hfull] Fz Hz b. pose proof fscale_big as HS.
  destruct (float_of_int_spec p ltac:(lia)) as [Fp Vp].
  pose proof (fval_nonneg _ Ft). pose proof (fval_nonneg _ Fz).
  destruct (fadd_spec (tokens r) z Ft Fz) as [Fs As].
  { unfold moderate. assert (2 ^ 121 * fscale < 2 ^ 2000) by (by apply Z.ltb_lt). nia. }
  unfold approx in As. rewrite !Z.mul_1_r in As.
  destruct (float_min_spec (capacity r) (fadd (tokens r) z)) as [Fb Vb]; [by rewrite Hc|done|].
  fold b in Fb, Vb. rewrite Hc, Vp in Vb. clearbody b. set (C := p * fscale) in *.
  split_and!; [done|lia|lia|lia].
Qed.

Lemma one_spec : nonneg_float (float_of_int 1) /\ fval (float_of_int 1) = fscale.
Proof. by destruct (float_of_int_spec 1 ltac:(lia)) as [? ->]. Qed.

(** A request keeps the bucket well formed, and what it takes plus what is left
    is at most what was there plus the refill, up to rounding. *)
Lemma Allow_spec (p : Z) (r : RateLimiter) (now : Z) :
  0 < p < 2 ^ 50 -> limiter_ok p r -> 0 <= now - last r < 2 ^ 63 ->
  let '(r', ok) := Allow r now in
  limiter_ok p r' /\ last r' = now /\
  2 ^ 51 * Second * (fval (tokens r') + (if (ok : bool) then fscale else 0) - fval (tokens r)) <=
    (2 ^ 51 + 2) * (p * ((now - last r) * fscale)) + Second * (p + 1) * fscale.
Proof.
  intros Hp Hok Hd. pose proof fscale_big as HS. unfold Allow.
  destruct Hok as [Hc Hr Ft Hfull] eqn:Heq. pose proof Hok as Hok'. clear Heq Hok.
  rewrite Hc, capacity_limited by lia. rewrite Hr.
  assert (time_Sub now (last r) = now - last r) as ->
    by (unfold time_Sub, minDuration, maxDuration; lia).
  set (d := now - last r) in *.
  destruct (refill_spec p d ltac:(lia) Hd) as (Fz & Hz & Ez). set (z := fmul _ _) in *.
  destruct (refilled_spec p r z Hp Hok' Fz Hz) as (Fb & Hb & Hgain & _). rewrite Hc in Fb, Hb, Hgain.
  set (b := float_min _ _) in *. destruct one_spec as [F1 V1].
  rewrite SFleb_spec, V1 by done. pose proof (fval_nonneg _ Ft). pose proof (fval_nonneg _ Fb).
  set (G := p * (d * fscale)) in *. assert (0 <= G) by (unfold G; nia).
  destruct (Z.leb_spec fscale (fval b)) as [Hle|Hlt].
  - destruct (fsub_spec b (float_of_int 1)) as [Fs As]; [done|done| |by rewrite V1|].
    { unfold moderate. assert (2 ^ 53 * fscale < 2 ^ 2000) by (by apply Z.ltb_lt). nia. }
    unfold approx in As. rewrite V1, !Z.mul_1_r in As. set (t := fval (fsub _ _)) in *.
    assert (2 ^ 52 * (t - (fval b - fscale)) <= p * fscale + 2 ^ 52) by lia.
    cbn [tokens]. split_and!; [|done|fold t; unfold Second in *; lia].
    split; try done. change (t <= p * fscale).
    assert (p * fscale <= 2 ^ 50 * fscale) by nia. lia.
  - cbn [tokens]. split_and!; [|done|unfold Second in *; lia]. by split.
Qed.

(** ** Windows of requests *)

Lemma serve_spec (p : Z) (ts : list Z) :
  forall (r : RateLimiter), 0 < p < 2 ^ 50 -> limiter_ok p r -> 0 <= last r ->
  ascending (last r) ts ->
  let '(r', n) := serve r ts in
  limiter_ok p r' /\ last r' = default (last r) (list.last ts) /\ 0 <= n /\
  2 ^ 51 * Second * (fval (tokens r') + n * fscale - fval (tokens r)) <=
    (2 ^ 51 + 2) * (p * ((last r' - last r) * fscale)) +
    Z.of_nat (length ts) * (Second * (p + 1) * fscale).
Proof.
  induction ts as [|t ts IH]; intros r Hp Hok H0 Hts; cbn [serve].
  - split_and!; try done. rewrite !Z.sub_diag, Z.mul_0_l, Z.add_0_r, Z.sub_diag. simpl. lia.
  - destruct Hts as [Ht Hts]. pose proof (Allow_spec p r t Hp Hok ltac:(lia)) as HA.
    destruct (Allow r t) as [r1 ok]. destruct HA as (Hok1 & Hl1 & HA).
    rewrite <- Hl1 in Hts. specialize (IH r1 Hp Hok1 ltac:(lia) Hts).
    destruct (serve r1 ts) as [r2 n]. destruct IH as (Hok2 & Hl2 & Hn & IH).
    split_and!; [done| |by destruct ok; lia|].
    + rewrite Hl2, Hl1. destruct ts as [|t' ts']; [done|].
      rewrite (last_cons_cons t). by destruct (last_is_Some (t' :: ts')) as [_ [x ->]].
    + rewrite Hl1 in *. cbn [length]. rewrite Nat2Z.inj_succ.
      set (K := Second * (p + 1) * fscale) in *. unfold Second in *.
      destruct ok; nia.
Qed.

Lemma new_ok (p now : Z) : 0 < p < 2 ^ 50 -> limiter_ok p (NewRateLimiter p now).
Proof.
  intros Hp. destruct (float_of_int_spec p ltac:(lia)) as [Fp Vp]. unfold NewRateLimiter.
  destruct (Z.leb_spec p 0); [lia|]. split; try done. change (fval (float_of_int p) <= p * fscale). lia.
Qed.

Lemma ascending_app (t : Z) (ts us : list Z) :
  ascending t (ts ++ us) <-> ascending t ts /\ ascending (default t (list.last ts)) us.
Proof.
  revert t. induction ts as [|x ts IH]; intros t; [naive_solver|]. cbn [app ascending].
  rewrite IH. destruct ts as [|y ts]; [naive_solver|]. rewrite (last_cons_cons x).
  destruct (last_is_Some (y :: ts)) as [_ [z ->]]; [done|]. naive_solver.
Qed.

(** The limiter after any history of requests. *)
Lemma history_ok (p t0 : Z) (ts : list Z) :
  0 < p < 2 ^ 50 -> 0 <= t0 -> ascending t0 ts ->
  let r := (serve (NewRateLimiter p t0) ts).1 in
  limiter_ok p r /\ last r = default t0 (list.last ts).
Proof.
  intros Hp H0 Hts. pose proof (new_ok p t0 Hp) as Hn.
  assert (last (NewRateLimiter p t0) = t0) as El
    by (unfold NewRateLimiter; destruct (Z.leb_spec p 0); [lia|done]).
  pose proof (serve_spec p ts (NewRateLimiter p t0) Hp Hn) as H. rewrite El in H.
  specialize (H H0 Hts). destruct (serve _ ts) as [r n]. by destruct H as (? & ? & _).
Qed.

Lemma ascending_nonneg (t : Z) (ts : list Z) :
  0 <= t -> ascending t ts -> 0 <= default t (list.last ts).
Proof.
  revert t. induction ts as [|x ts IH]; intros t Ht; [done|]. intros [Hx Hts].
  specialize (IH x ltac:(lia) Hts). destruct ts as [|y ts]; [simpl; lia|].
  rewrite (last_cons_cons x). destruct (last_is_Some (y :: ts)) as [_ [z Ez]]; [done|].
  by rewrite Ez in *.
Qed.

(** The rate limit holds over every window: after any history of requests, a
    window of [length ts1] requests that spans [T] nanoseconds admits at most the
    burst of [perSecond], plus the refill for [T], plus one request for all
    rounding of the [float64] bucket, as long as requests times rate stay below
    2^51. *)
Lemma limiter_bound (perSecond t0 : Z) (ts0 ts1 : list Z) :
  0 < perSecond < 2 ^ 50 -> 0 <= t0 -> ascending t0 (ts0 ++ ts1) ->
  let r := (serve (NewRateLimiter perSecond t0) ts0).1 in
  let T := default (last r) (list.last ts1) - last r in
  Z.of_nat (length ts1) * (perSecond + 1) * Second + 2 * (perSecond * T) <= 2 ^ 51 * Second ->
  (serve r ts1).2 * Second <= (perSecond + 1) * Second + perSecond * T.
Proof.
  intros Hp H0 [Ha Hb]%ascending_app r T Hlim.
  destruct (history_ok perSecond t0 ts0 Hp H0 Ha) as [Hok Hl]. fold r in Hok, Hl.
  pose proof (ascending_nonneg t0 ts0 H0 Ha) as Hnn. rewrite <- Hl in Hb, Hnn.
  pose proof (serve_spec perSecond ts1 r Hp Hok Hnn Hb) as H. unfold T in *. clear T.
  destruct (serve r ts1) as [r' n]. destruct H as ([_ _ Ft' _] & Hl' & Hn & H). rewrite <- Hl' in *.
  pose proof (fval_nonneg _ Ft'). destruct Hok as [_ _ _ Hfull]. pose proof fscale_big.
  cbn [snd]. set (T := last r' - last r) in *. set (L := Z.of_nat (length ts1)) in *.
  assert (2 ^ 51 * Second * n * fscale <=
    (2 ^ 51 * Second * perSecond + (2 ^ 51 + 2) * (perSecond * T) + L * (Second * (perSecond + 1))) * fscale)
    as Hs by (unfold Second in *; nia).
  apply Z.mul_le_mono_pos_r in Hs; [|lia]. unfold Second in *. nia.
Qed.

(** ** Properties *)

(** The limiter recovers: after any history of requests, a request is admitted
    once the time since the previous one is worth more than one token; and
    without a positive limit every request is admitted. *)
Theorem limiter_recovers (perSecond t0 now : Z) (ts : list Z) :
  perSecond < 2 ^ 50 -> 0 <= t0 -> ascending t0 (ts ++ [now]) ->
  let r := (serve (NewRateLimiter perSecond t0) ts).1 in
  perSecond <= 0 \/ Second < perSecond * (now - last r) -> (Allow r now).2 = true.
Proof.
  intros Hp H0 [Ha [Hb _]]%ascending_app r. destruct (decide (perSecond <= 0)) as [Hle|Hgt].
  - intros _. unfold r, NewRateLimiter. destruct (Z.leb_spec perSecond 0); [|lia].
    assert (forall us, (serve (mkRateLimiter MaxFloat64 MaxFloat64 (S754_zero false) zeroTime) us).1 =
      mkRateLimiter MaxFloat64 MaxFloat64 (S754_zero false) zeroTime) as ->; [|done].
    induction us as [|u us IH]; [done|]. cbn [serve].
    change (Allow (mkRateLimiter MaxFloat64 MaxFloat64 (S754_zero false) zeroTime) u)
      with (mkRateLimiter MaxFloat64 MaxFloat64 (S754_zero false) zeroTime, true). simpl.
    destruct (serve _ us) as [r' n]. exact IH.
  - intros [?|Hwait]; [lia|].
    destruct (history_ok perSecond t0 ts ltac:(lia) H0 Ha) as [Hok Hl]. fold r in Hok, Hl.
    pose proof (ascending_nonneg t0 ts H0 Ha) as Hnn. rewrite <- Hl in Hb, Hnn.
    pose proof Hok as [Hc Hr Ft _]. unfold Allow. rewrite Hc, capacity_limited, Hr by lia.
    assert (time_Sub now (last r) = now - last r) as ->
      by (unfold time_Sub, minDuration, maxDuration; lia).
    destruct (refill_spec perSecond (now - last r) ltac:(lia) ltac:(lia)) as (Fz & Hz & Ez).
    set (z := fmul _ _) in *.
    destruct (refilled_spec perSecond r z ltac:(lia) Hok Fz Hz) as (Fb & _ & _ & Hfill).
    rewrite Hc in Fb, Hfill. set (b := float_min _ _) in *. destruct one_spec as [F1 V1].
    rewrite SFleb_spec, V1 by done. pose proof (fval_nonneg _ Ft). pose proof fscale_big.
    assert ((Second + 1) * fscale <= perSecond * ((now - last r) * fscale)) by nia.
    set (G := perSecond * ((now - last r) * fscale)) in *.
    assert (fscale <= fval b) as Hb1; [|by apply Z.leb_le in Hb1 as ->].
    destruct Hfill as [->|Hfill]; [nia|]. unfold Second in *. lia.
Qed.

(** ** Witnesses

    A limit of two per second: three requests at once, then one half a second
    later. *)

Lemma limiter_recovers_witness :
  (Allow (serve (NewRateLimiter 2 0) [0; 0; 0]).1 600000000).2 = true.
Proof.
  apply (limiter_recovers 2 0 600000000 [0; 0; 0]).
  - lia.
  - lia.
  - vm_compute. repeat split; discriminate.
  - right. vm_compute. reflexivity.
Defined.
