(* ===== verification/Convergence.v ===== *)
(** * Convergence of undisturbed gossip

    [Cluster] proves what holds in every reachable state; this file shows that
    the engine makes progress: rounds that are not disturbed, in whatever order
    the nodes run them, bring every node to the same state once each node's
    state has had a path to every other.  A round is the engine's
    [gossipToPeer] against a transport whose peer answers with its own
    [SyncState] handler. *)

From S2P Require Import Prelude Lattice PNCounter VectorClock Delta Breaker Membership Codec Wal Store.
From S2P Require Import Messages Service ServiceSpec Gossip Cluster.

(** What a round meets: the sender's and the receiver's environments and the
    membership table whose statuses travel along. *)
Record link_env := mkLinkEnv {
  le_send : env;
  le_recv : env;
  le_table : Membership;
}.

(** A scheduled round. *)
Record sched_round := mkSchedRound { r_from : string; r_to : string; r_env : link_env }.

Section rounds.
Context {D : Type} `{SO : StoreOps D}.
Variable marshal : WALEntry -> string.
Variable addr : string -> string.
Implicit Types y : system D.

(** The entry the table of the sender holds for the peer. *)
Definition peer_entry (b : string) : Member := mkMember b (addr b) StatusAlive true 0 0 0 0.

(** The peer [nb] as the sender's transport sees it: it can be dialed, and its
    answer to the update is its handler's. *)
Definition answering (le : link_env) (nb : node D) (u : option StateUpdate) : transport :=
  mkTransport (true, true) (fun _ => (true, true))
    (fun _ => match u with
      | Some u => match (sync_update marshal (le_recv le) (svc nb) u).2 with
                  | Some r => Reply r
                  | None => RecvFailed
                  end
      | None => RecvFailed
      end).

(** The round of [a] with [b], both on their real code. *)
Definition gossip_round y (r : sched_round) : system D :=
  match nodes y !! r_from r, nodes y !! r_to r with
  | Some na, Some nb =>
      let le := r_env r in
      let u := (prepare (svc na) (eng na) (le_table le) (addr (r_to r)) (e_now (le_send le))).2 in
      let '(sa, g) := gossipToPeer marshal (le_send le) (answering le nb u) (svc na) (eng na)
                        (le_table le) (peer_entry (r_to r)) in
      let sb := match u with
        | Some u => (sync_update marshal (le_recv le) (svc nb) u).1
        | None => svc nb
        end in
      put (put y (r_to r) (mkNode sb (eng nb))) (r_from r) (mkNode sa g)
  | _, _ => y
  end.

Definition run_rounds y (sched : list sched_round) : system D := foldl gossip_round y sched.

(** The nodes the state of [S] has reached after the rounds. *)
Definition spread (S : gset string) (sched : list sched_round) : gset string :=
  foldl (fun S r => if decide (r_from r ∈ S) then {[r_to r]} ∪ S else S) S sched.

(** From time [t] on the breaker of [address] admits rounds, and a round makes
    at least one attempt. *)
Definition link_ready (t : Z) (g : GossipEngine) (address : string) : Prop :=
  openUntil (breaker g address).2 <= t /\ 0 < maxRetries g.

(** A schedule among the nodes of [y], from time [t] on. *)
Definition admissible (t : Z) y (sched : list sched_round) : Prop :=
  Forall (fun r => r_from r <> r_to r /\ r_from r ∈ dom (nodes y) /\ r_to r ∈ dom (nodes y) /\
                   t <= e_now (le_send (r_env r))) sched.

Definition links_ready (t : Z) y : Prop :=
  forall a na b, nodes y !! a = Some na -> link_ready t (eng na) (addr b).

End rounds.

(** ** What a round does to the engine *)

Lemma breaker_value (g : GossipEngine) (address : string) :
  (breaker g address).2 =
  default (newCircuitBreaker (circuitFailures g) (circuitCooldown g)) (breakers g !! address).
Proof. unfold breaker. by destruct (breakers g !! address). Qed.

(** Everything that decides about later rounds, except the baselines. *)
Record same_links (t : Z) (g g' : GossipEngine) : Prop := {
  sl_retries : maxRetries g' = maxRetries g;
  sl_ready address : openUntil (breaker g address).2 <= t -> openUntil (breaker g' address).2 <= t;
}.

#[local] Instance same_links_preorder (t : Z) : PreOrder (same_links t).
Proof.
  split; [by split|]. intros g1 g2 g3 [A1 A2] [B1 B2]. split; [congruence|]. auto.
Qed.

Lemma same_links_breakers (t : Z) (g g' : GossipEngine) :
  maxRetries g' = maxRetries g -> circuitFailures g' = circuitFailures g ->
  circuitCooldown g' = circuitCooldown g ->
  (forall address, breakers g' !! address = breakers g !! address \/
     exists b, breakers g' !! address = Some b /\ openUntil b <= t) ->
  same_links t g g'.
Proof.
  intros E1 E2 E3 Hb. split; [done|]. intros address. rewrite !breaker_value, E2, E3.
  by destruct (Hb address) as [-> |(b & -> & Hle)].
Qed.

Lemma prepare_links (t : Z) {D : Type} (s : CounterService D) (g : GossipEngine) (m : Membership)
    (address : string) (now : Z) :
  0 <= t -> same_links t g (prepare s g m address now).1.
Proof.
  intros Ht. assert (same_links t g (breaker g address).1) as Hb.
  { unfold breaker. destruct (breakers g !! address) as [b|] eqn:Hb; [done|].
    apply same_links_breakers; try (by destruct g). intros x.
    assert (forall bs, breakers (set_breakers g bs) = bs) as E by (by destruct g). simpl. rewrite E.
    destruct (decide (address = x)) as [->|Hne]; [|left; by rewrite lookup_insert_ne].
    right. eexists. by rewrite lookup_insert_eq. }
  unfold prepare, prepare_read. destruct (breaker g address) as [g0 b]. simpl in Hb.
  destruct (negb _); [done|].
  assert (same_links t g0 (set_round g0 (wrap64 (g_round g0 + 1)))) as Hr.
  { apply same_links_breakers; try (by destruct g0). left. by destruct g0. }
  by repeat case_match; (etransitivity; [exact Hb|exact Hr]).
Qed.

Lemma connections_links (t : Z) (g : GossipEngine) (x : gset string) :
  same_links t g (set_connections g x).
Proof. apply same_links_breakers; try (by destruct g). left. by destruct g. Qed.

Lemma complete_links (t : Z) {D : Type} (marshal : WALEntry -> string) (io : env)
    (s s' : CounterService D) (g g' : GossipEngine) (address : string) (clk : gmap string Z)
    (r : StateUpdate) :
  0 <= t -> complete marshal io s g address clk (Some r) = (s', g') -> same_links t g g'.
Proof.
  intros Ht [= _ <-]. apply same_links_breakers; try (by destruct g). intros x.
  assert (forall bs z, breakers (set_baselines (set_breakers g bs) z) = bs) as E by (by destruct g).
  unfold on_breaker. rewrite E. destruct (decide (address = x)) as [->|Hne].
  - rewrite lookup_alter_eq. destruct (breakers g !! x) as [b|]; [right|by left].
    eexists. split; [done|]. exact Ht.
  - left. by rewrite lookup_alter_ne.
Qed.

(** With an answering peer the round is its first part, a cached connection and
    its last part on the answer. *)
Lemma gossipToPeer_answered {D : Type} (marshal : WALEntry -> string) (io : env)
    (s : CounterService D) (g g1 : GossipEngine) (m : Membership) (peer : Member) (t : transport)
    (u r : StateUpdate) :
  prepare s g m (Address peer) (e_now io) = (g1, Some u) -> 0 < maxRetries g1 ->
  t_first t = (true, true) -> (forall i, t_attempt t i = Reply r) ->
  exists x, gossipToPeer marshal io t s g m peer =
    complete marshal io s (set_connections g1 x) (Address peer) (su_VectorClock u) (Some r).
Proof.
  intros Hp Hr Hf Ha. unfold gossipToPeer. rewrite Hp, Hf. simpl.
  assert (exists x, getOrCreateStream g1 (Address peer) true true = (set_connections g1 x, true))
    as [x Hx].
  { unfold getOrCreateStream. case_decide; [exists (connections g1)|by eexists]. by destruct g1. }
  exists x. rewrite Hx. simpl.
  assert (maxRetries (set_connections g1 x) = maxRetries g1) as -> by (by destruct g1).
  destruct (Z.to_nat (maxRetries g1)) as [|n] eqn:En; [lia|]. cbn [deliver negb]. by rewrite Ha.
Qed.

(** ** The effect of a round *)

Section effect.
Context {D : Type} `{SO : StoreOps D}.
Variable marshal : WALEntry -> string.
Variable addr : string -> string.
Hypothesis addr_inj : forall a b, addr a = addr b -> a = b.
Variable V : versions.
Variable T : string -> Z.
Variable t : Z.
Hypothesis t_nonneg : 0 <= t.
Implicit Types y : system D.

(** [y'] has the nodes of [y], each at least as far as before. *)
Record advanced y y' : Prop := {
  ad_inv : inv addr y' V T;
  ad_flights : flights y' = flights y;
  ad_back c nc' : nodes y' !! c = Some nc' ->
    exists nc, nodes y !! c = Some nc /\ nclk nc ⊑ nclk nc' /\ same_links t (eng nc) (eng nc');
  ad_dom c : is_Some (nodes y !! c) -> is_Some (nodes y' !! c);
}.

Lemma advanced_trans y1 y2 y3 : advanced y1 y2 -> advanced y2 y3 -> advanced y1 y3.
Proof.
  intros [A1 A2 A3 A4] [B1 B2 B3 B4]. split; [done|congruence| |auto].
  intros c n3 H3. destruct (B3 c n3 H3) as (n2 & H2 & L2 & S2).
  destruct (A3 c n2 H2) as (n1 & H1 & L1 & S1). exists n1. split; [done|].
  split; [by etransitivity|by etransitivity].
Qed.

(** The two ends of a round replaced. *)
Lemma advanced_put y (a b : string) na nb na' nb' :
  a <> b -> nodes y !! a = Some na -> nodes y !! b = Some nb ->
  inv addr (put (put y b nb') a na') V T ->
  nclk na ⊑ nclk na' -> nclk nb ⊑ nclk nb' ->
  same_links t (eng na) (eng na') -> same_links t (eng nb) (eng nb') ->
  advanced y (put (put y b nb') a na').
Proof.
  intros Hne Ha Hb HI La Lb Sa Sb. split; [done|done| |].
  - intros c nc'. simpl. rewrite !lookup_insert. repeat case_decide; intros Hc; simplify_eq; eauto.
    exists nc'. split; [done|]. by split.
  - intros c. simpl. rewrite !lookup_insert. by repeat case_decide.
Qed.

Lemma exchange_system y (a b : string) n1 n2 na' nb' f1 f2 :
  a <> b -> flights y !! (a, b) = None ->
  put_flight (put (put_flight (put (put (put_flight (put y a n1) (a, b) f1) a n2) b nb') (a, b) f2) a na')
    (a, b) None = put (put y b nb') a na'.
Proof.
  intros Hne Hf. destruct y as [ns fs]. unfold put, put_flight. simpl in *. f_equal.
  - apply map_eq. intros c. rewrite !lookup_insert. by repeat case_decide.
  - apply map_eq. intros c. destruct (decide (c = (a, b))) as [->|].
    + by rewrite lookup_partial_alter_eq.
    + by rewrite !lookup_partial_alter_ne.
Qed.

Lemma sync_update_replies io (s : CounterService D) (u : StateUpdate) :
  su_Type u <> HEARTBEAT -> exists s' r, sync_update marshal io s u = (s', Some r).
Proof.
  intros Ht. unfold sync_update. apply Z.eqb_neq in Ht as ->.
  destruct (su_Type u =? DELTA_UPDATE); [|by eexists _, _].
  destruct (buildDeltaReply _ _ _) as [s' r]. by eexists _, _.
Qed.

(** The exchange with the connection cached in between. *)
Lemma exchange_inv y (a b : string) na nb m now io io' g x g' u r sa sb :
  inv addr y V T -> nodes y !! a = Some na -> nodes y !! b = Some nb -> a <> b ->
  flights y !! (a, b) = None ->
  prepare (svc na) (eng na) m (addr b) now = (g, Some u) ->
  sync_update marshal io (svc nb) u = (sb, Some r) ->
  complete marshal io' (svc na) (set_connections g x) (addr b) (su_VectorClock u) (Some r) = (sa, g') ->
  inv addr (put (put y b (mkNode sb (eng nb))) a (mkNode sa g')) V T.
Proof.
  intros HI Ha Hb Hne Hf Hp Hs Hc.
  pose proof (step_send addr y V T a b na nb m now g u HI Ha Hb Hne Hf Hp) as HI1.
  set (y1 := put_flight _ _ _) in HI1.
  assert (inv addr (put y1 a (mkNode (svc na) (set_connections g x))) V T) as HI2.
  { apply (step_internal addr y1 V T a (mkNode (svc na) g)); [done|apply lookup_insert_eq|].
    split; try done; by destruct g. }
  set (y2 := put y1 a _) in HI2.
  assert (nodes y2 !! b = Some nb) as Hb2 by (simpl; by rewrite !lookup_insert_ne).
  assert (flights y2 !! (a, b) = Some (Sent u)) as Hf2 by apply lookup_partial_alter_eq.
  pose proof (step_handle marshal addr y2 V T a b nb u io sb r HI2 Hf2 Hb2 Hs) as HI3.
  rewrite <- (exchange_system y a b (mkNode (svc na) g) (mkNode (svc na) (set_connections g x))
    (mkNode sa g') (mkNode sb (eng nb)) (Some (Sent u)) (Some (Replied u r)) Hne Hf).
  apply (step_finish marshal addr addr_inj _ V T a b (mkNode (svc na) (set_connections g x)) u r io');
    [exact HI3|apply lookup_partial_alter_eq| |exact Hc].
  simpl. rewrite lookup_insert_ne by done. apply lookup_insert_eq.
Qed.

Lemma ready_allows (g : GossipEngine) (address : string) (now : Z) :
  link_ready t g address -> t <= now -> Allow (breaker g address).2 now = true.
Proof.
  intros [Ho _] Hn. unfold Allow, time_Before.
  destruct (Z.ltb_spec now (openUntil (breaker g address).2)); [lia|done].
Qed.

(** A round advances the system, and the peer ends where the sender started. *)
Lemma gossip_round_spec y (r : sched_round) na nb :
  inv addr y V T -> flights y = ∅ -> nodes y !! r_from r = Some na -> nodes y !! r_to r = Some nb ->
  r_from r <> r_to r -> link_ready t (eng na) (addr (r_to r)) -> t <= e_now (le_send (r_env r)) ->
  let y' := gossip_round marshal addr y r in
  advanced y y' /\ forall nb', nodes y' !! r_to r = Some nb' -> nclk na ⊑ nclk nb'.
Proof.
  destruct r as [a b le]. cbn [r_from r_to r_env]. intros HI Hfl Ha Hb Hne Hl Ht.
  unfold gossip_round. cbn [r_from r_to r_env]. rewrite Ha, Hb.
  pose proof (prepare_links t (svc na) (eng na) (le_table le) (addr b) (e_now (le_send le)) t_nonneg)
    as Hpl.
  destruct (prepare (svc na) (eng na) (le_table le) (addr b) (e_now (le_send le))) as [g [u|]] eqn:Hp;
    cbn [fst snd] in *.
  - destruct (prepare_spec _ _ _ _ _ _ _ Hp) as (_ & _ & Hu). destruct (Hu u eq_refl) as [_ Hann].
    destruct (sync_update_replies (le_recv le) (svc nb) u) as (sb & r & Hs);
      [by eapply announces_type|].
    destruct (gossipToPeer_answered marshal (le_send le) (svc na) (eng na) g (le_table le)
      (peer_entry addr b) (answering marshal le nb (Some u)) u r Hp) as [x Hx]; [|done| |].
    { rewrite (sl_retries t _ _ Hpl). apply Hl. }
    { intros i. simpl. by rewrite Hs. }
    rewrite Hx, Hs. cbn [fst]. destruct (complete _ _ _ _ _ _ _) as [sa g'] eqn:Hc.
    assert (flights y !! (a, b) = None) as Hf by (by rewrite Hfl, lookup_empty).
    destruct (inv_clock addr y V T a na HI Ha) as [Na _], (inv_clock addr y V T b nb HI Hb) as [Nb _].
    pose proof (exchange_clocks marshal na nb _ _ _ _ _ _ _ _ _ _ _ _ Na Nb Hp Hs Hc) as Hk.
    split.
    + apply advanced_put with na nb; try done.
      * by eapply exchange_inv.
      * intros k. destruct (Hk k) as [E _]. unfold nclk in *. simpl. lia.
      * intros k. destruct (Hk k) as [_ E]. unfold nclk in *. simpl. lia.
      * etransitivity; [exact Hpl|]. etransitivity; [apply (connections_links t g x)|].
        by eapply complete_links.
    + intros nb'. simpl. rewrite lookup_insert_ne, lookup_insert_eq by done. intros [= <-] k.
      destruct (Hk k) as [_ E]. unfold nclk in *. simpl. lia.
  - unfold gossipToPeer. cbn [peer_entry Address]. rewrite Hp. split.
    + apply advanced_put with na nb; try done. destruct nb as [sb gb]. simpl.
      assert (put y b (mkNode sb gb) = y) as -> by (unfold put; destruct y; simpl in *; by rewrite insert_id).
      apply (step_internal addr y V T a na); [done|done|].
      destruct (prepare_spec _ _ _ _ _ _ _ Hp) as (L1 & L2 & _). by split.
    + intros nb'. simpl. rewrite lookup_insert_ne, lookup_insert_eq by done. intros [= <-].
      change (nclk na ⊑ nclk nb). eapply (skip_clocks addr y V T a b); try done. by apply ready_allows.
Qed.

(** Rounds spread the state of [a] along the schedule. *)
Lemma run_rounds_spec (sched : list sched_round) :
  forall y (S : gset string) (clk : gmap string Z),
  inv addr y V T -> flights y = ∅ -> links_ready addr t y -> admissible t y sched ->
  (forall c nc, c ∈ S -> nodes y !! c = Some nc -> clk ⊑ nclk nc) ->
  let y' := run_rounds marshal addr y sched in
  advanced y y' /\ forall c nc, c ∈ spread S sched -> nodes y' !! c = Some nc -> clk ⊑ nclk nc.
Proof.
  induction sched as [|r sched IH]; intros y S clk HI Hf Hl Hadm HS.
  - split; [|exact HS]. split; try done. intros c nc Hc. exists nc. by split.
  - apply Forall_cons in Hadm as [(Hne & [na Ha]%elem_of_dom & [nb Hb]%elem_of_dom & Ht) Hadm].
    destruct (gossip_round_spec y r na nb HI Hf Ha Hb Hne) as [Hadv Hab]; [by eapply Hl|done|].
    simpl. set (y1 := gossip_round marshal addr y r) in *. pose proof Hadv as [A1 A2 A3 A4].
    destruct (IH y1 (if decide (r_from r ∈ S) then {[r_to r]} ∪ S else S) clk) as [B1 B2].
    + done.
    + by rewrite A2.
    + intros c nc' b Hc. destruct (A3 c nc' Hc) as (nc & Hc0 & _ & [E1 E2]).
      destruct (Hl c nc b Hc0) as [L1 L2]. split; [by apply E2|by rewrite E1].
    + eapply Forall_impl; [exact Hadm|]. intros r' (R1 & R2 & R3 & R4). rewrite !elem_of_dom in *.
      split_and!; auto.
    + intros c nc' Hc Hn'. destruct (A3 c nc' Hn') as (nc & Hc0 & Hle & _).
      case_decide as Hin; [apply elem_of_union in Hc as [->%elem_of_singleton|Hc]|].
      * transitivity (nclk na); [by eapply HS|by apply Hab].
      * transitivity (nclk nc); [by eapply HS|done].
      * transitivity (nclk nc); [by eapply HS|done].
    + split; [|exact B2]. by eapply advanced_trans.
Qed.

End effect.

(** ** Properties *)

(** The owner's version is reached by every node the owner's state spread to. *)
Lemma run_rounds_top {D : Type} `{SO : StoreOps D} (marshal : WALEntry -> string)
    (addr : string -> string) (addr_inj : forall a b, addr a = addr b -> a = b)
    (V : versions) (T : string -> Z) (t : Z) (y : system D) (sched : list sched_round) :
  0 <= t -> inv addr y V T -> flights y = ∅ -> links_ready addr t y -> admissible t y sched ->
  (forall a, a ∈ dom (nodes y) -> dom (nodes y) ⊆ spread {[a]} sched) ->
  let y' := run_rounds marshal addr y sched in
  inv addr y' V T /\ dom (nodes y') = dom (nodes y) /\
  forall c nc k, nodes y' !! c = Some nc -> (nclk nc).[k] = T k.
Proof.
  intros Ht HI Hf Hl Hadm Hsp y'.
  pose proof (fun S clk => run_rounds_spec marshal addr addr_inj V T t Ht sched y S clk HI Hf Hl Hadm)
    as Hrun.
  destruct (Hrun ∅ ∅) as [[A1 A2 A3 A4] _]; [set_solver|]. fold y' in A1, A2, A3, A4.
  split; [done|]. split.
  { apply set_eq. intros c. rewrite !elem_of_dom. split; [|apply A4].
    intros [nc (n & Hn & _)%A3]. by exists n. }
  intros c nc k Hc. destruct (inv_clock addr y' V T c nc A1 Hc) as [Nc Tc].
  apply Z.le_antisymm; [apply Tc|]. rewrite (i_top addr y V T HI k).
  destruct (nodes y !! key_owner k) as [no|] eqn:Ho; [|apply Nc].
  destruct (Hrun {[key_owner k]} (nclk no)) as [_ B].
  { intros d nd ->%elem_of_singleton Hd. by assert (nd = no) as -> by congruence. }
  refine (B c nc _ Hc k). apply (Hsp (key_owner k)); apply elem_of_dom; [by exists no|].
  destruct (A3 c nc Hc) as (n & Hn & _). by exists n.
Qed.

(** C2: Convergence without hazards: take a state a run of the cluster leads to in
    which no update had a negative delta or went beyond [int64], no counter was
    reset, no answer to a delta was lost, no node restarted without its data, counts
    and clock were read together and all messages came from the nodes; no exchange is
    in flight and the breakers admit rounds.  From there let the nodes run gossip
    rounds that are answered, in any order and however often, deltas, full states
    and skipped rounds alike, and nothing else.  Once the rounds have carried each node's state to
    every other, all nodes hold exactly the counts and versions each replica
    had recorded for itself, and every counter has the same value everywhere. *)
Theorem gossip_converges {D : Type} `{SO : StoreOps D} (marshal : WALEntry -> string)
    (addr : string -> string) (ids : gset string) (fs : disk)
    (port interval t : Z) (y : system D) (sched : list sched_round) :
  (forall a b, addr a = addr b -> a = b) -> (forall id, id ∈ ids -> colon_free id) ->
  reached marshal addr ids fs port interval [] y ->
  flights y = ∅ -> 0 <= t -> links_ready addr t y -> admissible t y sched ->
  (forall a, a ∈ dom (nodes y) -> dom (nodes y) ⊆ spread {[a]} sched) ->
  let y' := run_rounds marshal addr y sched in
  dom (nodes y') = dom (nodes y) /\
  (forall c nc o no k, nodes y' !! c = Some nc -> nodes y !! o = Some no -> key_owner k = o ->
     (npos nc).[k] = (npos no).[k] /\ (nneg nc).[k] = (nneg no).[k] /\ (nclk nc).[k] = (nclk no).[k]) /\
  (forall a b na nb name, nodes y' !! a = Some na -> nodes y' !! b = Some nb ->
     ValueName (s_counter (svc na)) name = ValueName (s_counter (svc nb)) name).
Proof.
  intros Hinj Hids Hr Hf Ht Hl Hadm Hsp y'.
  destruct (reached_inv marshal addr Hinj ids fs port interval y Hids Hr) as (V & T & HI).
  destruct (run_rounds_top marshal addr Hinj V T t y sched Ht HI Hf Hl Hadm Hsp) as (HI' & Hd & Htop).
  fold y' in HI', Hd, Htop. split; [done|]. split.
  - intros c nc o no k Hc Ho Hk. destruct (i_node addr y' V T HI' c nc Hc) as [_ Vc].
    destruct (i_node addr y V T HI o no Ho) as [_ Vo].
    destruct (Vc k) as (_ & -> & ->), (Vo k) as (_ & -> & ->). rewrite (Htop c nc k Hc).
    rewrite (i_top addr y V T HI k), Hk, Ho. done.
  - intros a b na nb name Ha Hb. apply ValueName_proper; [|done].
    destruct (i_node addr y' V T HI' a na Ha) as [_ Va].
    destruct (i_node addr y' V T HI' b nb Hb) as [_ Vb].
    apply (versioned_agree V T _ _ _ _ Va Vb). intros k. by rewrite (Htop a na k Ha), (Htop b nb k Hb).
Qed.

(** ** Witnesses

    Node a counted 1 and node b 5; one round each way. *)

Definition ex_round (a b : string) (now : Z) : sched_round :=
  mkSchedRound a b (mkLinkEnv (calm now) (calm (now + 1)) (NewMembership a)).

Definition ex_sched : list sched_round := [ex_round "a" "b" 10; ex_round "b" "a" 20].

Lemma gossip_converges_witness :
  let y' := @run_rounds _ ex_ops marshal_entry ex_addr ex_system ex_sched in
  (fun n => ValueName (s_counter (svc n)) "likes") <$> nodes y' !! "a" = Some 6 /\
  (fun n => ValueName (s_counter (svc n)) "likes") <$> nodes y' !! "b" = Some 6.
Proof.
  intros y'. assert ((fun n => ValueName (s_counter (svc n)) "likes") <$> nodes y' !! "a" = Some 6)
    as Hv by (vm_compute; reflexivity).
  assert ((fun _ => tt) <$> nodes y' !! "b" = Some tt) as Hs by (vm_compute; reflexivity).
  assert (forall a b na nb name, nodes y' !! a = Some na -> nodes y' !! b = Some nb ->
    ValueName (s_counter (svc na)) name = ValueName (s_counter (svc nb)) name) as H.
  { apply (@gossip_converges _ ex_ops marshal_entry ex_addr ex_ids ∅ 50051 0 5 ex_system
      ex_sched ex_addr_inj ex_ids_free ex_reached).
    - reflexivity.
    - lia.
    - assert (map_Forall (fun _ n => breakers (eng n) = ∅ /\ maxRetries (eng n) = 3)
        (nodes ex_system)) as Hall by by_eval.
      intros a n b Hn. destruct (Hall a n Hn) as [E1 E2]. split; [|rewrite E2; lia].
      rewrite breaker_value, E1, lookup_empty. simpl. unfold zeroTime. lia.
    - by_eval.
    - assert (dom (nodes ex_system) = {["a"; "b"]}) as -> by (vm_compute; reflexivity).
      intros a [->%elem_of_singleton| ->%elem_of_singleton]%elem_of_union; by_eval. }
  clearbody y'. split; [exact Hv|].
  apply fmap_Some in Hv as (na & Ha & Hv). apply fmap_Some in Hs as (nb & Hb & _).
  rewrite Hb. simpl. by rewrite <- (H "a" "b" na nb "likes" Ha Hb), <- Hv.
Defined.
