(* ===== verification/Hazards.v ===== *)
(** * The hazards of replication

    The convergence theorems of [Cluster] and [Convergence] are about runs without
    hazards.  Here is why: each of the six hazards alone, once, leaves two nodes
    that have seen the same versions with different values.  The runs are played by
    an executable strategy for the steps of [Cluster]. *)

From S2P Require Import Prelude PNCounter VectorClock Delta Breaker Membership Codec Wal Store.
From S2P Require Import Messages Service ServiceSpec Durability Gossip Cluster.

(** ** Playing a run *)

Inductive move :=
| MIncrement (a : string) (delta : Z)
| MReset (a : string)
| MSend (a b : string)
| MSendTorn (a b : string) (pos neg : gmap string Z)
| MHandle (a b : string)
| MFinish (a b : string)
| MRetry (a b : string)
| MForget (a : string)
| MStranger (b : string) (u : StateUpdate).

Section play.
Context {D : Type} `{SO : StoreOps D}.
Variable marshal : WALEntry -> string.
Variable addr : string -> string.
Variable name : string.
Implicit Types y : system D.

Definition send_with y (a b : string) (na : node D) (h : list hazard)
    (p : GossipEngine * option StateUpdate) : option (list hazard * system D) :=
  if decide (a <> b /\ flights y !! (a, b) = None) then
    match p, nodes y !! b with
    | (g, Some u), Some _ => Some (h, put_flight (put y a (mkNode (svc na) g)) (a, b) (Some (Sent u)))
    | _, _ => None
    end
  else None.

Definition play_move y (m : move) : option (list hazard * system D) :=
  match m with
  | MIncrement a delta =>
      n ← nodes y !! a;
      let req := mkUpdateRequest delta "" 0 name in
      Some (update_hazard (npos n) (nclk n) (update_key a req) req,
            put y a (mkNode (Increment marshal (calm 5) (svc n) req).1 (eng n)))
  | MReset a =>
      n ← nodes y !! a; Some ([Cleared], put y a (reset_node marshal (calm 5) n name))
  | MSend a b =>
      na ← nodes y !! a;
      send_with y a b na [] (prepare (svc na) (eng na) (NewMembership a) (addr b) 6)
  | MSendTorn a b pos neg =>
      na ← nodes y !! a;
      send_with y a b na [Torn] (prepare_read pos neg (nclk na) (eng na) (NewMembership a) (addr b) 6)
  | MHandle a b =>
      match flights y !! (a, b), nodes y !! b with
      | Some (Sent u), Some nb =>
          match sync_update marshal (calm 7) (svc nb) u with
          | (s', Some r) => Some ([], put_flight (put y b (mkNode s' (eng nb))) (a, b) (Some (Replied u r)))
          | _ => None
          end
      | _, _ => None
      end
  | MFinish a b =>
      match flights y !! (a, b), nodes y !! a with
      | Some (Replied u r), Some na =>
          let '(s', g') := complete marshal (calm 8) (svc na) (eng na) (addr b) (su_VectorClock u) (Some r) in
          Some ([], put_flight (put y a (mkNode s' g')) (a, b) None)
      | _, _ => None
      end
  | MRetry a b =>
      match flights y !! (a, b) with
      | Some (Replied u r) => Some (loss_hazard (Replied u r), put_flight y (a, b) (Some (Sent u)))
      | _ => None
      end
  | MForget a =>
      n ← nodes y !! a;
      let n' := mkNode (NewCounterService a 50051 ∅) (NewGossipEngine a 0) in
      if decide (flights y = ∅ /\ s_nodeID (svc n) = a /\ g_nodeID (eng n) = a /\
        pn_nodeID (s_counter (svc n)) = a /\ vc_nodeID (s_clock (svc n)) = a)
      then Some ([Forgotten], put y a n') else None
  | MStranger b u =>
      nb ← nodes y !! b;
      let '(s', _) := sync_update marshal (calm 7) (svc nb) u in
      Some ([Foreign], put y b (mkNode s' (eng nb)))
  end.

Fixpoint play y (l : list move) : option (list hazard * system D) :=
  match l with
  | [] => Some ([], y)
  | m :: l =>
      hy ← play_move y m; hy' ← play hy.2 l; Some (hy.1 ++ hy'.1, hy'.2)
  end.

Lemma send_with_inv y (a b : string) (na : node D) (h h' : list hazard) p y' :
  send_with y a b na h p = Some (h', y') ->
  exists g u nb, p = (g, Some u) /\ nodes y !! b = Some nb /\ a <> b /\ flights y !! (a, b) = None /\
    h' = h /\ y' = put_flight (put y a (mkNode (svc na) g)) (a, b) (Some (Sent u)).
Proof.
  unfold send_with. case_decide as Hd; [|done]. destruct p as [g [u|]]; [|done].
  destruct (nodes y !! b) as [nb|] eqn:Hb; [|done]. intros [= <- <-]. destruct Hd. by exists g, u, nb.
Qed.

(** Every move is a step of the cluster. *)
Lemma play_move_step y (m : move) (h : list hazard) y' :
  play_move y m = Some (h, y') -> ystep marshal addr y h y'.
Proof.
  destruct m as [a delta|a|a b|a b pos neg|a b|a b|a b|a|b u]; simpl;
    rewrite ?bind_Some; first [intros (n & Hn & Hp)|intros Hp].
  - simplify_eq. by apply y_increment.
  - simplify_eq. by apply y_reset.
  - apply send_with_inv in Hp as (g & u & nb & Hpr & ? & ? & ? & -> & ->). by eapply y_send.
  - apply send_with_inv in Hp as (g & u & nb & Hpr & ? & ? & ? & -> & ->). by eapply y_send_torn.
  - destruct (flights y !! _) as [[u|]|] eqn:Hf; [|done..].
    destruct (nodes y !! b) as [nb|] eqn:Hb; [|done].
    destruct (sync_update _ _ _ _) as [s' [r|]] eqn:Hs; [|done]. simplify_eq. by eapply y_handle.
  - destruct (flights y !! _) as [[|u r]|] eqn:Hf; [done| |done].
    destruct (nodes y !! a) as [na|] eqn:Ha; [|done].
    simplify_eq. by eapply y_finish.
  - destruct (flights y !! _) as [[|u r]|] eqn:Hf; [done| |done]. simplify_eq. by apply (y_retry _ _ _ a b u r).
  - case_decide as Hd; [|done]. destruct Hd as (Hf & H1 & H2 & H3 & H4). simplify_eq.
    eapply y_forget; [done|intros b; by rewrite Hf, lookup_empty|by split].
  - destruct (sync_update _ _ _ _) as [s' r] eqn:Hs. simplify_eq. by eapply y_stranger.
Qed.

Lemma play_run (l : list move) : forall y (hs : list hazard) y',
  play y l = Some (hs, y') -> yrun marshal addr y hs y'.
Proof.
  induction l as [|m l IH]; simpl; intros y hs y'; [intros [= <- <-]; constructor|].
  rewrite bind_Some. intros ([h y1] & Hm & Hp). simpl in Hp. apply bind_Some in Hp as ([h2 y2] & Hp & Hr).
  simplify_eq. eapply yrun_step; [by apply (play_move_step y m)|by apply IH].
Qed.

End play.

(** ** One hazard is enough *)

Definition exchange (a b : string) : list move := [MSend a b; MHandle a b; MFinish a b].

(** A run of two nodes in which [h] is the only hazard, and happens once. *)
Definition mishap (h : hazard) : list move :=
  match h with
  | Unfit => [MIncrement "a" 5] ++ exchange "a" "b" ++ [MIncrement "a" (-3)] ++ exchange "a" "b"
  | Cleared => [MIncrement "a" 5] ++ exchange "a" "b" ++ [MReset "a"; MIncrement "a" 3]
  | ReplyLost => [MIncrement "a" 1; MIncrement "b" 5; MSend "a" "b"; MHandle "a" "b"; MRetry "a" "b";
                  MHandle "a" "b"; MFinish "a" "b"]
  | Forgotten => [MIncrement "a" 5] ++ exchange "a" "b" ++ [MForget "a"; MIncrement "a" 3]
  | Torn => [MIncrement "a" 5; MSendTorn "a" "b" ∅ ∅; MHandle "a" "b"; MFinish "a" "b"]
  | Foreign => [MStranger "b" (mkStateUpdate "x" {["likes:x" := 7]} ∅ ∅ 0 FULL_STATE 0 ∅)]
  end.

Definition ex_play (h : hazard) : option (list hazard * system RedisStore) :=
  @play _ ex_ops marshal_entry ex_addr "likes" (boot ex_ids ∅ 50051 0) (mishap h).

(** What the two nodes answer, if they have seen the same versions. *)
Definition ex_answers (y : system RedisStore) : option (Z * Z) :=
  na ← nodes y !! "a"; nb ← nodes y !! "b";
  if decide (nclk na = nclk nb) then
    Some (ValueName (s_counter (svc na)) "likes", ValueName (s_counter (svc nb)) "likes")
  else None.

Lemma mishap_answers (h : hazard) :
  exists y v w, ex_play h = Some ([h], y) /\ ex_answers y = Some (v, w) /\ v <> w.
Proof.
  destruct h; (eexists _, _, _; split; [vm_compute; reflexivity|split; [vm_compute; reflexivity|done]]).
Qed.

(** Every hazard matters: for each of them there is a run in which it is the only
    one and happens once, and which ends with two nodes that have the same clock
    and answer differently. *)
Theorem hazards_matter (h : hazard) :
  exists y na nb, @reached _ ex_ops marshal_entry ex_addr ex_ids ∅ 50051 0 [h] y /\
    nodes y !! "a" = Some na /\ nodes y !! "b" = Some nb /\ nclk na = nclk nb /\
    ValueName (s_counter (svc na)) "likes" <> ValueName (s_counter (svc nb)) "likes".
Proof.
  destruct (mishap_answers h) as (y & v & w & Hp & Ha & Hne).
  apply bind_Some in Ha as (na & Hna & Ha). apply bind_Some in Ha as (nb & Hnb & Ha).
  case_decide; [|done]. simplify_eq. exists y, na, nb. split_and!; [|done..].
  by eapply play_run.
Qed.
