(* ===== verification/Server.v ===== *)
(** * The gRPC server (internal/server/grpc_server.go, middleware.go)

    The objects of one process and how a gRPC call reaches them: the auth
    interceptor, then the rate limiter, then the handler of the counter or the
    admin service.  The service, the gossip engine and the admin service share
    the membership table and the engine, so the process holds each object once. *)

From Stdlib Require Import SpecFloat.
From S2P Require Import Prelude PNCounter VectorClock Membership Bully Codec Wal Store Messages Service.
From S2P Require Import Gossip Admin Float RateLimit.

(** ** Middleware *)

Record MiddlewareConfig := mkMiddlewareConfig {
  mc_NodeID : string;
  mc_AuthEnabled : bool;
  mc_APIKey : string;
  mc_RateLimitPerSecond : Z;
}.

Record RateLimitInterceptor := mkRateLimitInterceptor {
  rl_nodeID : string;
  limiter : RateLimiter;
}.

Definition NewRateLimitInterceptor (cfg : MiddlewareConfig) (now : Z) : RateLimitInterceptor :=
  {| rl_nodeID := mc_NodeID cfg; limiter := NewRateLimiter (mc_RateLimitPerSecond cfg) now |}.

Record GRPCServer := mkGRPCServer {
  srv_port : Z;
  srv_auth : AuthInterceptor;
  srv_rateLimit : RateLimitInterceptor;
  (** Whether an admin service was passed. *)
  srv_adminSvc : bool;
}.

Definition NewGRPCServer (port : Z) (cfg : MiddlewareConfig) (extra : bool) (now : Z) : GRPCServer :=
  {| srv_port := port; srv_auth := NewAuthInterceptor (mc_AuthEnabled cfg) (mc_APIKey cfg);
     srv_rateLimit := NewRateLimitInterceptor cfg now; srv_adminSvc := extra |}.

(** ** A process *)

Record Process (D : Type) := mkProcess {
  p_nodeID : string;
  p_address : string;
  p_service : CounterService D;
  p_engine : GossipEngine;
  p_server : GRPCServer;
}.

Arguments mkProcess {D}.
Arguments p_nodeID {D}.
Arguments p_address {D}.
Arguments p_service {D}.
Arguments p_engine {D}.
Arguments p_server {D}.

Definition set_service {D : Type} (p : Process D) (s : CounterService D) : Process D :=
  mkProcess (p_nodeID p) (p_address p) s (p_engine p) (p_server p).

Definition set_engine {D : Type} (p : Process D) (g : GossipEngine) : Process D :=
  mkProcess (p_nodeID p) (p_address p) (p_service p) g (p_server p).

Definition set_limiter {D : Type} (p : Process D) (l : RateLimiter) : Process D :=
  let srv := p_server p in
  mkProcess (p_nodeID p) (p_address p) (p_service p) (p_engine p)
    (mkGRPCServer (srv_port srv) (srv_auth srv)
       (mkRateLimitInterceptor (rl_nodeID (srv_rateLimit srv)) l) (srv_adminSvc srv)).

(** The admin service's pointers, and what it leaves behind them. *)
Definition admin_of {D : Type} (p : Process D) : AdminService :=
  mkAdminService (p_nodeID p) (s_cluster (p_service p)) (Some (p_engine p)).

Definition with_admin {D : Type} (p : Process D) (a : AdminService) : Process D :=
  set_engine (set_service p (Service.SetCluster (p_service p) (a_membership a)))
    (default (p_engine p) (a_gossip a)).

(** ** Calls *)

Inductive request :=
| RqIncrement (req : UpdateRequest)
| RqDecrement (req : UpdateRequest)
| RqGetValue (counterName : string)
| RqGetNodeInfo
| RqReset (counterName : string)
| RqCreateCounter (name : string) (tags : list string)
| RqListCounters (tag : string)
| RqSyncState
| RqJoinCluster (req : JoinRequest)
| RqHeartbeat (req : HeartbeatRequest)
| RqSwimPing (messageId : Z)
| RqSwimPingReq (targetId : string) (messageId : Z)
| RqElection (req : ElectionRequest)
| RqCoordinator (req : CoordinatorRequest)
| RqAddNode (nodeId address : string)
| RqRemoveNode (nodeId : string)
| RqForceSync.

Inductive reply :=
| RsCounter (r : CounterResponse)
| RsNode (r : NodeInfo)
| RsInfo (r : CounterInfo)
| RsList (r : list CounterInfo)
| RsStream
| RsMembers (r : MemberList)
| RsHeartbeat (r : HeartbeatResponse)
| RsSwim (r : SwimResponse)
| RsElection (r : ElectionResponse)
| RsCoordinator (ok : bool)
| RsAdmin (r : AdminResponse)
| RsForceSync (r : ForceSyncResponse).

(** The status codes the code returns; an error without one is [Unknown]. *)
Inductive code := Unauthenticated | ResourceExhausted | InvalidArgument | Unknown | Unimplemented.

Inductive outcome :=
| Ok (r : reply)
| Err (c : code)
| Panics.

Definition full_method (r : request) : string :=
  match r with
  | RqIncrement _ => "/counter.CounterService/Increment"
  | RqDecrement _ => "/counter.CounterService/Decrement"
  | RqGetValue _ => "/counter.CounterService/GetValue"
  | RqGetNodeInfo => "/counter.CounterService/GetNodeInfo"
  | RqReset _ => "/counter.CounterService/Reset"
  | RqCreateCounter _ _ => "/counter.CounterService/CreateCounter"
  | RqListCounters _ => "/counter.CounterService/ListCounters"
  | RqSyncState => "/counter.CounterService/SyncState"
  | RqJoinCluster _ => "/counter.CounterService/JoinCluster"
  | RqHeartbeat _ => "/counter.CounterService/Heartbeat"
  | RqSwimPing _ => "/counter.CounterService/SwimPing"
  | RqSwimPingReq _ _ => "/counter.CounterService/SwimPingReq"
  | RqElection _ => "/counter.CounterService/Election"
  | RqCoordinator _ => "/counter.CounterService/Coordinator"
  | RqAddNode _ _ => "/counter.AdminService/AddNode"
  | RqRemoveNode _ => "/counter.AdminService/RemoveNode"
  | RqForceSync => "/counter.AdminService/ForceSync"
  end.

Definition is_admin (r : request) : bool :=
  match r with RqAddNode _ _ | RqRemoveNode _ | RqForceSync => true | _ => false end.

(** What surrounds a call: the environment, the caller's transport address and
    what a ping to an address yields. *)
Record call_env := mkCallEnv {
  ce_io : env;
  ce_peer : option string;
  ce_ping : string -> option bool;
}.

Section calls.
Context {D : Type} `{SO : StoreOps D}.
Variable marshal : WALEntry -> string.
Variable quote : string -> string.
Implicit Types p : Process D.

(** [fmt.Errorf] without a status becomes [Unknown]. *)
Definition admin_reply (r : AdminResponse + adminError) : outcome :=
  match r with inl r => Ok (RsAdmin r) | inr _ => Err Unknown end.

(** The registered handlers.  A [SyncState] call only opens the stream here: its
    messages arrive later.  The reset callback is the engine's. *)
Definition handle (ce : call_env) p (r : request) : Process D * outcome :=
  let io := ce_io ce in
  let s := p_service p in
  match r with
  | RqIncrement req =>
      let '(s, resp) := Increment marshal io s req in (set_service p s, Ok (RsCounter resp))
  | RqDecrement req =>
      let '(s, resp) := Decrement marshal io s req in (set_service p s, Ok (RsCounter resp))
  | RqGetValue name => (p, Ok (RsCounter (GetValue io s name)))
  | RqGetNodeInfo => (p, Ok (RsNode (GetNodeInfo io s)))
  | RqReset name =>
      let '(s, resp, called) := Reset marshal io s name in
      let p := set_service p s in
      (if (called : bool) then set_engine p (InvalidateBaselines (p_engine p)) else p,
       Ok (RsCounter resp))
  | RqCreateCounter name tags =>
      let '(s, info) := CreateCounter s name tags in
      (set_service p s, match info with Some i => Ok (RsInfo i) | None => Panics end)
  | RqListCounters tag =>
      (p, match ListCounters s tag with Some l => Ok (RsList l) | None => Panics end)
  | RqSyncState => (p, Ok RsStream)
  | RqJoinCluster req =>
      let '(s, resp) := JoinCluster io s req in (set_service p s, Ok (RsMembers resp))
  | RqHeartbeat req =>
      let '(s, resp) := Heartbeat s req (ce_peer ce) in (set_service p s, Ok (RsHeartbeat resp))
  | RqSwimPing id => (p, Ok (RsSwim (SwimPing s id)))
  | RqSwimPingReq target id => (p, Ok (RsSwim (SwimPingReq s (ce_ping ce) target id)))
  | RqElection req => (p, Ok (RsElection (Election s req).1))
  | RqCoordinator req =>
      let '(s, ok) := Coordinator io s req in (set_service p s, Ok (RsCoordinator ok))
  | RqAddNode id address =>
      let '(a, resp) := AddNode quote (admin_of p) id address (e_now io) in
      (with_admin p a, admin_reply resp)
  | RqRemoveNode id =>
      let '(a, resp) := RemoveNode quote (admin_of p) id in (with_admin p a, admin_reply resp)
  | RqForceSync =>
      let '(a, resp, _) := ForceSync (admin_of p) in (with_admin p a, Ok (RsForceSync resp))
  end.

(** An interceptor wraps the rest of the call; streams and unary calls are
    treated alike. *)
Definition interceptor : Type :=
  call_env -> option (list string) -> request ->
  (Process D -> Process D * outcome) -> Process D -> Process D * outcome.

Definition auth_Unary : interceptor := fun ce md r handler p =>
  match intercept (srv_auth (p_server p)) (full_method r) md tt with
  | inr _ => (p, Err Unauthenticated)
  | inl _ => handler p
  end.

Definition rateLimit_Unary : interceptor := fun ce md r handler p =>
  let '(l, allowed) := Allow (limiter (srv_rateLimit (p_server p))) (e_now (ce_io ce)) in
  let p := set_limiter p l in
  if negb allowed then (p, Err ResourceExhausted) else handler p.

(** [grpc.ChainUnaryInterceptor]: the first interceptor is the outermost. *)
Definition chain (l : list interceptor) : interceptor :=
  fun ce md r handler => fold_right (fun i next => i ce md r next) handler l.

Definition unaryInterceptors : list interceptor := [auth_Unary; rateLimit_Unary].

(** A call on the server: the methods of a service that is not registered are
    unimplemented. *)
Definition grpc_call (ce : call_env) (md : option (list string)) p (r : request) :
    Process D * outcome :=
  if is_admin r && negb (srv_adminSvc (p_server p)) then (p, Err Unimplemented)
  else chain unaryInterceptors ce md r (fun p => handle ce p r) p.

End calls.

(** ** The gate in front of the handlers *)

Lemma full_method_application (r : request) : allowlist (full_method r) = false.
Proof. by destruct r. Qed.

(** No handler touches the server's own state. *)
Lemma handle_server {D : Type} `{SO : StoreOps D} (marshal : WALEntry -> string)
    (quote : string -> string) (ce : call_env)
    (p : Process D) (r : request) :
  p_server (handle marshal quote ce p r).1 = p_server p.
Proof. destruct r; cbn [handle]; by repeat case_match. Qed.

(** The call is let through by the auth interceptor. *)
Definition authentic {D : Type} (p : Process D) (md : option (list string)) : bool :=
  let a := srv_auth (p_server p) in negb (enabled a) || authorized a md.

(** The two interceptors in front of the handler. *)
Lemma grpc_call_eq {D : Type} `{SO : StoreOps D} (marshal : WALEntry -> string)
    (quote : string -> string) (ce : call_env)
    (md : option (list string)) (p : Process D) (r : request) :
  is_admin r && negb (srv_adminSvc (p_server p)) = false ->
  grpc_call marshal quote ce md p r =
  if authentic p md then
    let '(l, allowed) := Allow (limiter (srv_rateLimit (p_server p))) (e_now (ce_io ce)) in
    if allowed then handle marshal quote ce (set_limiter p l) r
    else (set_limiter p l, Err ResourceExhausted)
  else (p, Err Unauthenticated).
Proof.
  intros Had. unfold grpc_call, chain, unaryInterceptors. rewrite Had. cbn [fold_right].
  unfold auth_Unary, rateLimit_Unary, intercept, authentic. rewrite full_method_application.
  destruct (Allow _ _) as [l allowed].
  destruct (enabled _), (authorized _ md); simpl; try done; by destruct allowed.
Qed.

(** No handler looks at the bucket. *)
Lemma handle_set_limiter {D : Type} `{SO : StoreOps D} (marshal : WALEntry -> string)
    (quote : string -> string) (ce : call_env) (p : Process D) (r : request) (l : RateLimiter) :
  handle marshal quote ce (set_limiter p l) r =
  (set_limiter (handle marshal quote ce p r).1 l, (handle marshal quote ce p r).2).
Proof.
  destruct r; cbn [handle set_limiter p_service p_engine]; try done; try (by case_match).
  - destruct (Reset _ _ _ _) as [[s resp] []]; done.
  - unfold admin_of. cbn [set_limiter p_nodeID p_service p_engine]. by destruct (AddNode _ _ _ _ _).
  - unfold admin_of. cbn [set_limiter p_nodeID p_service p_engine]. by destruct (RemoveNode _ _ _).
  - unfold admin_of. cbn [set_limiter p_nodeID p_service p_engine].
    destruct (Admin.ForceSync _) as [[a resp] l0]. done.
Qed.

(** The order of the middleware: a call without the key is answered
    [Unauthenticated] and changes nothing in the process, not even the rate
    limiter, so that strangers cannot drain the bucket; an authentic call that
    finds no token is answered [ResourceExhausted] and changes the bucket only;
    any other call gets the handler's own result, for one token. *)
Theorem grpc_gate {D : Type} `{SO : StoreOps D} (marshal : WALEntry -> string)
    (quote : string -> string) (ce : call_env)
    (md : option (list string)) (p : Process D) (r : request) :
  let run := grpc_call marshal quote ce md p r in
  let limited := Allow (limiter (srv_rateLimit (p_server p))) (e_now (ce_io ce)) in
  srv_adminSvc (p_server p) = true ->
  (authentic p md = false -> run = (p, Err Unauthenticated)) /\
  (authentic p md = true -> limited.2 = false ->
   run = (set_limiter p limited.1, Err ResourceExhausted)) /\
  (authentic p md = true -> limited.2 = true ->
   run = handle marshal quote ce (set_limiter p limited.1) r).
Proof.
  intros run limited Had. unfold run. rewrite grpc_call_eq by (by rewrite Had, andb_false_r).
  fold limited. destruct limited as [l allowed]. cbn [fst snd].
  split_and!; intros ->; [done|by intros ->..].
Qed.

(** ** Witnesses *)

(** A process with the key "k" and one call per second, which a stranger calls. *)
Definition ex_process : Process RedisStore :=
  mkProcess "a" "a:1" (NewCounterService "a" 1 ∅) (NewGossipEngine "a" 0)
    (NewGRPCServer 1 (mkMiddlewareConfig "a" true "k" 1) true 0).

Lemma grpc_gate_witness :
  @grpc_call _ redis_ops marshal_entry id
    (mkCallEnv (calm 5) None (fun _ => None)) (Some ["Bearer x"]) ex_process (RqReset "likes") =
  (ex_process, Err Unauthenticated).
Proof.
  apply (@grpc_gate _ redis_ops marshal_entry id
    (mkCallEnv (calm 5) None (fun _ => None)) (Some ["Bearer x"]) ex_process (RqReset "likes")).
  - reflexivity.
  - vm_compute. reflexivity.
Defined.
