(* ===== verification/Entry.v ===== *)
(** * The entry of the program (internal/config/config.go, pkg/logger, pkg/utils, cmd/server/main.go)

    What [main] does before it creates the objects of the process: loading the
    configuration and making the logger, either of which ends the program when it
    fails; and the identifiers of [GenerateID].  Viper and zap are parameters. *)

From Stdlib Require Import SpecFloat.
From S2P Require Import Prelude Lattice PNCounter VectorClock Delta Breaker Membership Bully Swim Json Codec Wal.
From S2P Require Import Store Messages Service ServiceSpec Durability Gossip Cluster Bootstrap.

(** ** Loading the configuration *)

(** What the code asks of viper, for a file of a type: whether it can be read, and
    the record its values and those of the environment decode to. *)
Record Viper := mkViper {
  v_ReadInConfig : string -> string -> bool;
  v_Unmarshal : string -> string -> option Config;
}.

Definition Load (v : Viper) (configPath : string) : option Config :=
  if negb (v_ReadInConfig v configPath "yaml") then None
  else match v_Unmarshal v configPath "yaml" with
  | None => None
  | Some cfg => Some (with_defaults cfg)
  end.

(** ** The logger *)

Inductive Level := DebugLevel | InfoLevel.

Record LogConfig := mkLogConfig { lc_TimeKey : string; lc_EncodeTime : string; lc_Level : Level }.

Fixpoint ToLower (s : string) : string :=
  match s with
  | EmptyString => ""
  | String c s => String (lower c) (ToLower s)
  end.

(** [production] is [zap.NewProductionConfig()], [build] its [Build]; [level] is the
    value of COUNTER_LOG_LEVEL. *)
Definition logger_New {L : Type} (production : LogConfig) (build : LogConfig -> option L) (level : string) :
    option L :=
  let level' := if String.eqb (ToLower level) "debug" then DebugLevel else lc_Level production in
  build (mkLogConfig "timestamp" "ISO8601" level').

(** ** The first steps of [main] *)

Inductive start (L : Type) :=
| FatalConfig
| FatalLogger
| Ready (cfg : Config) (zlog : L).

Arguments FatalConfig {L}.
Arguments FatalLogger {L}.
Arguments Ready {L}.

(** [flag] is the value of the [-config] flag, if it is given. *)
Definition main_start {L : Type} (v : Viper) (zap : option L) (flag : option string) : start L :=
  let configPath := default "configs/config.yaml" flag in
  match Load v configPath with
  | None => FatalConfig
  | Some cfg =>
      match zap with
      | None => FatalLogger
      | Some zlog => Ready cfg zlog
      end
  end.

(** ** Identifiers *)

(** [hex.EncodeToString] *)
Fixpoint EncodeToString (s : string) : string :=
  match s with
  | EmptyString => ""
  | String c s =>
      String (hex_digit (N.shiftr (code c) 4)) (String (hex_digit (N.land (code c) 15)) (EncodeToString s))
  end.

(** [read n] is what [rand.Read] puts into a slice of [n] bytes; [None] is a panic,
    for a negative length or when the source of randomness fails. *)
Definition GenerateID (read : nat -> option string) (length : Z) : option string :=
  if length <? 0 then None
  else match read (Z.to_nat length) with
  | None => None
  | Some bytes => Some (EncodeToString bytes)
  end.

(** ** Properties *)

(** A node starts exactly when its configuration can be read and decoded and its
    logger built; then every interval is positive, whatever the file says. *)
Lemma main_start_ready {L : Type} (v : Viper) (zap : option L) (flag : option string) (cfg : Config) (zlog : L) :
  main_start v zap flag = Ready cfg zlog <->
  exists raw, v_ReadInConfig v (default "configs/config.yaml" flag) "yaml" = true /\
    v_Unmarshal v (default "configs/config.yaml" flag) "yaml" = Some raw /\
    cfg = with_defaults raw /\ zap = Some zlog.
Proof.
  unfold main_start, Load. set (path := default _ flag).
  destruct (v_ReadInConfig v path "yaml"), (v_Unmarshal v path "yaml") as [raw|], zap as [l|]; simpl;
    (split; [|intros (? & ? & ? & ? & ?); by simplify_eq]); try done.
  intros [= <- <-]. by exists raw.
Qed.

Lemma Load_intervals (v : Viper) (path : string) (cfg : Config) :
  Load v path = Some cfg ->
  0 < cfg_GossipInterval cfg /\ 0 < cfg_HeartbeatInterval cfg /\
  Load (mkViper (fun _ _ => true) (fun _ _ => Some cfg)) path = Some cfg.
Proof.
  unfold Load. destruct (v_ReadInConfig v path "yaml"), (v_Unmarshal v path "yaml") as [raw|]; try done.
  intros [= <-]. destruct (with_defaults_spec raw) as (H1 & H2 & H3 & _). simpl. by rewrite H1.
Qed.

(** The two digits of a byte determine it. *)
Definition hex_byte (h l : ascii) : option ascii :=
  x ← hex_value h; y ← hex_value l; Some (chr (x * 16 + y)).

Lemma hex_byte_digits (c : ascii) :
  hex_byte (hex_digit (N.shiftr (code c) 4)) (hex_digit (N.land (code c) 15)) = Some c.
Proof. by destruct c as [[] [] [] [] [] [] [] []]. Qed.

Lemma EncodeToString_length (s : string) : String.length (EncodeToString s) = (2 * String.length s)%nat.
Proof. induction s as [|c s IH]; simpl in *; lia. Qed.

Lemma EncodeToString_inj (s t : string) : EncodeToString s = EncodeToString t -> s = t.
Proof.
  revert t. induction s as [|c s IH]; intros [|d t]; simpl; try done. intros [= H1 H2 H3].
  f_equal; [|by apply IH]. apply (inj Some). by rewrite <- hex_byte_digits, H1, H2, hex_byte_digits.
Qed.

(** Identifiers are hexadecimal, two digits for each byte, and differ when the bytes
    do. *)
Lemma GenerateID_spec (read : nat -> option string) (length : Z) (bytes : string) :
  0 <= length -> read (Z.to_nat length) = Some bytes -> String.length bytes = Z.to_nat length ->
  exists id, GenerateID read length = Some id /\ Z.of_nat (String.length id) = 2 * length /\
    forall read' bytes', read' (Z.to_nat length) = Some bytes' ->
      GenerateID read' length = Some id -> bytes' = bytes.
Proof.
  intros H0 Hr Hl. exists (EncodeToString bytes). unfold GenerateID.
  destruct (Z.ltb_spec length 0); [lia|]. rewrite Hr. split_and!; [done| |].
  - rewrite EncodeToString_length, Hl. lia.
  - intros read' bytes' ->. intros [= E]. by apply EncodeToString_inj.
Qed.
