(* ===== verification/Process.v ===== *)
(** * A node's process (cmd/server/main.go)

    How [main] builds the objects of a node and which events act on them
    afterwards: calls of the gRPC server and of the HTTP gateway, messages on
    the sync streams, the phases of the engine's rounds, the ticks of the
    election, heartbeat, staleness, SWIM and snapshot loops, and the joining and
    recovery that [main] runs while the server already answers.  Events
    interleave freely. *)

From Stdlib Require Import SpecFloat.
From stdpp Require Import pretty.
From S2P Require Import Prelude Lattice PNCounter VectorClock Delta Breaker Membership Bully Swim Codec Wal.
From S2P Require Import Store Messages Service ServiceSpec Durability Gossip Cluster Bootstrap.
From S2P Require Import Float RateLimit Admin Server.

(** ** Wiring *)

(** [time.Duration(n) * time.Second] *)
Definition seconds (n : Z) : Z := wrap64 (n * Second).

Definition local_address (cfg : Config) : string :=
  if String.eqb (cfg_AdvertiseAddress cfg) "" then "localhost:" +:+ pretty (cfg_GRPCPort cfg)
  else cfg_AdvertiseAddress cfg.

Definition bully_config (cfg : Config) : BullyConfig :=
  {| Bully.cfg_NodeID := cfg_NodeID cfg; Bully.cfg_Priority := cfg_NodePriority cfg;
     Bully.cfg_Interval := seconds (cfg_ElectionInterval cfg);
     Bully.cfg_LeaderTimeout := seconds (cfg_HeartbeatTimeout cfg) |}.

Definition swim_config (cfg : Config) : SWIMConfig :=
  NewSWIMDetector
    {| NodeID := cfg_NodeID cfg; ProtocolPeriod := seconds (cfg_SwimInterval cfg);
       ProbeTimeout := seconds (cfg_SwimProbeTimeout cfg);
       SuspectToDeadThreshold := cfg_SwimSuspectToDead cfg |}.

Definition middleware (cfg : Config) : MiddlewareConfig :=
  {| mc_NodeID := cfg_NodeID cfg; mc_AuthEnabled := cfg_AuthEnabled cfg;
     mc_APIKey := cfg_APIKey cfg; mc_RateLimitPerSecond := cfg_RateLimitPerSecond cfg |}.

(** What happens in a running process.  [EvPrepare] carries the counts its round
    read before it reads the clock.  [EvRecover] is a recovery that nothing
    disturbs; [EvSeedReply] is its last part alone, the reply of a seed to a
    request sent earlier. *)
Inductive event :=
| EvCall (ce : call_env) (md : option (list string)) (r : request)
| EvHTTP (ce : call_env) (r : request)
| EvRecv (io : env) (update : StateUpdate)
| EvGossip (shuffle : list Member -> list Member)
| EvPrepare (pos neg : gmap string Z) (address : string) (now : Z)
| EvDeliver (t : transport) (address : string) (stream : bool) (attempts : nat)
| EvComplete (io : env) (address : string) (clk : gmap string Z) (response : option StateUpdate)
| EvSwim (e : round_env)
| EvHeartbeats (heartbeat : string -> bool) (now : Z)
| EvStale (now : Z)
| EvBully (rpc : Member -> nat -> Bully.probe) (during : list (CoordinatorRequest * Z)) (now : Z)
    (polls : list poll)
| EvElect (rpc : Member -> nat -> Bully.probe) (during : list (CoordinatorRequest * Z)) (now : Z)
    (polls : list poll)
| EvSnapshot (io : env)
| EvJoin (call : string -> join_io)
| EvRecovering (b : bool)
| EvRecover (call : nat -> string -> StateUpdate -> seed_io) (now : Z)
| EvSeedReply (response : StateUpdate) (now : Z).

Section process.
Context {D : Type} `{SO : StoreOps D}.
Variable marshal : WALEntry -> string.
Variable unmarshal : string -> option WALEntry.
Variable quote : string -> string.
Variable cfg : Config.
Implicit Types p : Process D.

(** The objects [main] creates before the servers start; [store] is the
    connected database, if any. *)
Definition wire (store : option D) (fs : disk) (io : boot_env) (now : Z) : Process D :=
  let nodeID := cfg_NodeID cfg in
  let localAddress := local_address cfg in
  let s := startup unmarshal nodeID (cfg_GRPCPort cfg) (cfg_CounterShards cfg)
             (if cfg_PersistenceEnabled cfg then store else None)
             (if cfg_WALEnabled cfg then Some (cfg_WALDir cfg) else None) fs io in
  let m := AddMember (NewMembership nodeID) nodeID localAddress now in
  let s := Service.SetCluster s (Some m) in
  let s := SetBully s (Some (Bully.New (bully_config cfg))) in
  let s := Service.SetPriority s (cfg_NodePriority cfg) in
  let g := NewGossipEngine nodeID (seconds (cfg_GossipInterval cfg)) in
  let g := Gossip.SetWAL g (bool_decide (is_Some (s_wal s))) in
  let g := Gossip.SetClientConfig g (cfg_APIKey cfg) (cfg_CompressionEnabled cfg) in
  let s := Service.SetClientConfig s (cfg_APIKey cfg) (cfg_CompressionEnabled cfg) in
  let s := SetOnReset s true in
  {| p_nodeID := nodeID; p_address := localAddress; p_service := s; p_engine := g;
     p_server := NewGRPCServer (cfg_GRPCPort cfg) (middleware cfg) true now |}.

(** An operation on the shared membership table. *)
Definition on_table p (f : Membership -> Membership) : Process D :=
  match s_cluster (p_service p) with
  | Some m => set_service p (Service.SetCluster (p_service p) (Some (f m)))
  | None => p
  end.

(** An operation on the election instance, given the table. *)
Definition on_bully p (f : Bully -> Membership -> Bully) : Process D :=
  match s_bully (p_service p), s_cluster (p_service p) with
  | Some b, Some m => set_service p (SetBully (p_service p) (Some (f b m)))
  | _, _ => p
  end.

Definition step p (e : event) : Process D :=
  let s := p_service p in
  let g := p_engine p in
  let m := default (NewMembership (p_nodeID p)) (s_cluster s) in
  match e with
  | EvCall ce md r => (grpc_call marshal quote ce md p r).1
  | EvHTTP ce r => (handle marshal quote ce p r).1
  | EvRecv io update => set_service p (sync_update marshal io s update).1
  | EvGossip shuffle => set_engine p (gossip shuffle g m).1
  | EvPrepare pos neg address now =>
      set_engine p (prepare_read pos neg (State (s_clock s)) g m address now).1
  | EvDeliver t address stream n => set_engine p (deliver t g address stream 0 n).1
  | EvComplete io address clk response =>
      let '(s, g) := complete marshal io s g address clk response in
      set_engine (set_service p s) (round_over g address)
  | EvSwim env => on_table p (fun m => Swim.round (swim_config cfg) m env)
  | EvHeartbeats hb now => on_table p (sendHeartbeats hb (p_nodeID p) (p_address p) now)
  | EvStale now => on_table p (failureDetection (seconds (cfg_HeartbeatTimeout cfg)) now)
  | EvBully rpc during now polls => on_bully p (fun b m => (tick b m rpc during now polls).1)
  | EvElect rpc during now polls => on_bully p (fun b m => (StartElection b m rpc during now polls).1)
  | EvSnapshot io => set_service p (Snapshot io s)
  | EvJoin call => on_table p (fun m => (joinCluster call (cfg_SeedNodes cfg) m false).1)
  | EvRecovering b => on_table p (fun m => SetRecovering m b)
  | EvRecover call now =>
      set_service p (recoverStateFromSeedNodes (p_nodeID p) (p_address p) now undisturbed call
                       (cfg_SeedNodes cfg) s).1
  | EvSeedReply response now =>
      if has_state response
      then set_service p (recovered (p_nodeID p) (p_address p) now s response) else p
  end.

Definition run p (es : list event) : Process D := foldl step p es.

(** The sequence [main] itself performs after the servers are up. *)
Definition bootstrap (join : string -> join_io) (seeds : nat -> string -> StateUpdate -> seed_io)
    (now : Z) : list event :=
  [EvJoin join; EvRecovering true; EvRecover seeds now; EvRecovering false].

End process.

(** ** The table evolves by membership operations only *)

Definition evolves (m m' : Membership) : Prop := exists ops, m' = foldl exec m ops.

#[export] Instance evolves_preorder : PreOrder evolves.
Proof.
  split; [by exists []|]. intros m1 m2 m3 [o1 ->] [o2 ->]. exists (o1 ++ o2). by rewrite foldl_app.
Qed.

Lemma evolves_refl (m : Membership) : evolves m m.
Proof. reflexivity. Qed.

Create HintDb process.
#[export] Hint Resolve evolves_refl : process.

(** A field-by-field frame of a service that is a constructor. *)
Ltac frame_service s := destruct s; simpl in *; subst; repeat split; simpl; eauto with process; try (by intros).

Lemma evolves_exec (m : Membership) (o : mop) : evolves m (exec m o).
Proof. by exists [o]. Qed.

Lemma evolves_foldl {A : Type} (f : Membership -> A -> Membership) (l : list A) (m : Membership) :
  (forall m x, evolves m (f m x)) -> evolves m (foldl f m l).
Proof.
  intros Hf. revert m. induction l as [|x l IH]; intros m; [done|]. simpl.
  etransitivity; [apply Hf|apply IH].
Qed.

Lemma on_member_frame (m : Membership) (id : string) (f : Member -> Member) (j : string) :
  m_nodeID (on_member m id f) = m_nodeID m /\
  (is_Some (members m !! j) -> is_Some (members (on_member m id f) !! j)).
Proof.
  split; [unfold on_member; by destruct (members m !! id)|]. rewrite on_member_lookup.
  case_decide; [|done]. by rewrite fmap_is_Some.
Qed.

Lemma add_frame (m : Membership) (id address : string) (status : Status) (t : Z) (j : string) :
  m_nodeID (AddOrUpdateMemberStatus m id address status t) = m_nodeID m /\
  (is_Some (members m !! j) -> is_Some (members (AddOrUpdateMemberStatus m id address status t) !! j)).
Proof.
  unfold AddOrUpdateMemberStatus. destruct (members m !! id); simpl; rewrite lookup_insert; by case_decide.
Qed.

(** No operation changes whose table it is or forgets a member. *)
Lemma exec_frame (m : Membership) (o : mop) (j : string) :
  m_nodeID (exec m o) = m_nodeID m /\ (is_Some (members m !! j) -> is_Some (members (exec m o) !! j)).
Proof.
  destruct o; simpl; try apply on_member_frame; try apply add_frame.
  - pose proof (MarkStale_spec m threshold now) as H. destruct (MarkStale m threshold now) as [m' ch].
    destruct H as (H1 & H2 & _). split; [done|]. by rewrite H2, fmap_is_Some.
  - split; [|by rewrite ApplyMembership_lookup, fmap_is_Some]. unfold ApplyMembership.
    apply (range_ind _ (fun _ m' => m_nodeID m' = m_nodeID m)); [done|].
    intros k v _ m' _ Hm'. case_match; [done|]. by rewrite (proj1 (on_member_frame m' k _ j)).
  - unfold AddDiscoveredNodes. apply (range_ind _ (fun _ m' => m_nodeID m' = m_nodeID m /\
      (is_Some (members m !! j) -> is_Some (members m' !! j)))); [done|].
    intros k v _ m' _ [H1 H2]. case_match; [done|].
    destruct (add_frame m' k v StatusAlive now j) as [E1 E2]. split; [by rewrite <- H1|auto].
  - done.
Qed.

Lemma evolves_spec (m m' : Membership) :
  evolves m m' ->
  m_nodeID m' = m_nodeID m /\ (membership_ok m -> membership_ok m') /\
  forall j, is_Some (members m !! j) -> is_Some (members m' !! j).
Proof.
  intros [ops ->]. revert m. induction ops as [|o ops IH]; intros m; [done|]. simpl.
  destruct (IH (exec m o)) as (H1 & H2 & H3). split_and!.
  - rewrite H1. apply (exec_frame m o "").
  - intros Hok. by apply H2, exec_ok.
  - intros j Hj. by apply H3, exec_frame.
Qed.

Lemma round_evolves (c : SWIMConfig) (m : Membership) (e : round_env) : evolves m (Swim.round c m e).
Proof.
  unfold Swim.round. destruct (GetRandomProbeTarget _ m) as [target|]; [|done].
  assert (forall m1 l m2, evolves (foldl exec m1 l) m2 -> evolves m1 m2) as Hpre.
  { intros m1 l m2 H. etransitivity; [|exact H]. by exists l. }
  apply (Hpre m (re_direct e)). case_match; [exact (evolves_exec _ (OpHeartbeat _ _))|].
  apply (Hpre _ (re_indirect e)). case_match; [exact (evolves_exec _ (OpHeartbeat _ _))|].
  repeat case_match; try done;
    first [exact (evolves_exec _ (OpSuspect _)) | exact (evolves_exec _ (OpDead _))].
Qed.

Lemma sendHeartbeats_evolves (hb : string -> bool) (id la : string) (now : Z) (m : Membership) :
  evolves m (sendHeartbeats hb id la now m).
Proof.
  apply evolves_foldl. intros m' x. unfold heartbeat_step. repeat case_match; try done;
    first [exact (evolves_exec _ (OpHeartbeat _ _)) | exact (evolves_exec _ (OpInactive _))].
Qed.

Lemma learn_evolves (m : Membership) (x : pbMember) : evolves m (learn m x).
Proof.
  unfold learn. match goal with |- evolves m (if _ then Membership.SetPriority ?m1 _ _ else _) =>
    assert (evolves m m1) as H1 by exact (evolves_exec m (OpAddStatus _ _ _ _)) end.
  case_match; [|exact H1]. etransitivity; [exact H1|exact (evolves_exec _ (OpPriority _ _))].
Qed.

Lemma joinCluster_evolves (call : string -> join_io) (seeds : list string) (m : Membership)
    (lastErr : bool) : evolves m (joinCluster call seeds m lastErr).1.
Proof.
  revert m lastErr. induction seeds as [|seed seeds IH]; intros m lastErr; [done|]. simpl.
  destruct (call seed) as [| |lists failed]; [apply IH..|].
  pose proof (evolves_foldl learn (concat lists) m learn_evolves) as Hl.
  case_match; [exact Hl|]. etransitivity; [exact Hl|apply IH].
Qed.

(** ** What every operation on the service keeps *)

Section service.
Context {D : Type} `{SO : StoreOps D}.
Variable marshal : WALEntry -> string.
Implicit Types s : CounterService D.
Implicit Types p : Process D.

(** The identities and the configuration stay, the table evolves, and the log
    and the election instance are not dropped. *)
Record svc_evolves s s' : Prop := {
  sv_id : s_nodeID s' = s_nodeID s;
  sv_pn : pn_nodeID (s_counter s') = pn_nodeID (s_counter s);
  sv_vc : vc_nodeID (s_clock s') = vc_nodeID (s_clock s);
  sv_onReset : s_onReset s' = s_onReset s;
  sv_shards : counterShards s' = counterShards s;
  sv_priority : s_priority s' = s_priority s;
  sv_wal : is_Some (s_wal s') <-> is_Some (s_wal s);
  sv_store : s_store s = None -> s_store s' = None;
  sv_cluster m : s_cluster s = Some m -> exists m', s_cluster s' = Some m' /\ evolves m m';
  sv_bully b : s_bully s = Some b -> exists b', s_bully s' = Some b' /\ identity b' = identity b;
}.

#[export] Instance svc_evolves_preorder : PreOrder svc_evolves.
Proof.
  split.
  - intros s. split; eauto with process; done.
  - intros s1 s2 s3 [A1 A2 A3 A4 A5 A6 A7 A0 A8 A9] [B1 B2 B3 B4 B5 B6 B7 B0 B8 B9]. split; try congruence.
    + by rewrite B7.
    + auto.
    + intros m H1. destruct (A8 m H1) as (m2 & H2 & E2). destruct (B8 m2 H2) as (m3 & H3 & E3).
      exists m3. split; [done|by etransitivity].
    + intros b H1. destruct (A9 b H1) as (b2 & H2 & E2). destruct (B9 b2 H2) as (b3 & H3 & E3).
      exists b3. split; [done|congruence].
Qed.

(** Moreover the replicated data and the reply baselines stay. *)
Record svc_local s s' : Prop := {
  sl_evolves : svc_evolves s s';
  sl_counter : s_counter s' = s_counter s;
  sl_clock : s_clock s' = s_clock s;
  sl_last : lastSyncClock s' = lastSyncClock s;
}.

#[export] Instance svc_local_preorder : PreOrder svc_local.
Proof.
  split; [by intros s; split|]. intros s1 s2 s3 [A1 A2 A3 A4] [B1 B2 B3 B4].
  split; [by etransitivity|congruence..].
Qed.

Lemma walAppend_local io s (op counter : string) (delta : Z) (pos neg clk : gmap string Z) :
  svc_local s (walAppend marshal io s op counter delta pos neg clk).
Proof.
  unfold walAppend. destruct (s_wal s) as [w|] eqn:Hw; [|done].
  destruct (AppendCounter _ _ _ _ _ _ _ _ _ _ _ _) as [[w1 d1] err].
  frame_service s.
Qed.

Lemma persist_local io s : svc_local s (persist io s).
Proof.
  unfold persist. destruct (s_wal s) eqn:Hw, (s_store s) eqn:Hst; try done.
  frame_service s.
Qed.

Lemma log_local io s (op counter : string) (delta : Z) (pos neg clk : gmap string Z) :
  svc_local s (persist io (walAppend marshal io s op counter delta pos neg clk)).
Proof. etransitivity; [apply walAppend_local|apply persist_local]. Qed.

Lemma SetCluster_local s (m m' : Membership) :
  s_cluster s = Some m -> evolves m m' -> svc_local s (Service.SetCluster s (Some m')).
Proof.
  intros Hm He. frame_service s. intros x [= <-]. eauto.
Qed.

Lemma SetBully_local s (b b' : Bully) :
  s_bully s = Some b -> identity b' = identity b -> svc_local s (SetBully s (Some b')).
Proof.
  intros Hb He. frame_service s. intros x [= <-]. eauto.
Qed.

Lemma Snapshot_local io s : svc_local s (Snapshot io s).
Proof.
  unfold Snapshot, save_state, truncate_log. destruct (s_store s) as [d|] eqn:Hst; [|done].
  destruct (Save _ _ _ _) as [d' failed].
  assert (svc_local s (SetStore s (Some d')) /\ s_wal (SetStore s (Some d')) = s_wal s) as [H1 H2].
  { split; [frame_service s|by destruct s]. }
  destruct failed; [exact H1|]. rewrite H2. destruct (s_wal s) as [w|] eqn:Hw; [|exact H1].
  destruct (Truncate _ _ _ _) as [[w' fs] e]. etransitivity; [exact H1|].
  frame_service s.
Qed.

(** Replacing the data by data of the same replica. *)
Lemma set_data_evolves s (c : PNCounter) (k : VectorClock) :
  pn_nodeID c = pn_nodeID (s_counter s) -> vc_nodeID k = vc_nodeID (s_clock s) ->
  svc_evolves s (set_clock (set_counter s c) k).
Proof. intros H1 H2. frame_service s. Qed.

Lemma absorb_evolves s (id : string) (pos neg clk : gmap string Z) :
  svc_evolves s (absorb s id pos neg clk).
Proof. unfold absorb. apply (set_data_evolves s); by destruct s. Qed.

Lemma update_evolves io s (req : UpdateRequest) :
  svc_evolves s (Increment marshal io s req).1 /\
  svc_evolves s (Decrement marshal io s req).1.
Proof.
  unfold Increment, Decrement. cbn [fst]. split;
    (etransitivity; [|apply log_local]); apply (set_data_evolves s); by destruct s.
Qed.

Lemma Reset_evolves io s (name : string) : svc_evolves s (Reset marshal io s name).1.1.
Proof.
  unfold Reset. cbn [fst]. etransitivity; [|apply log_local].
  etransitivity; [apply (set_data_evolves s
    (PNCounter.ResetName (s_counter s) (normalizeName name))
    (VectorClock.ResetName (s_clock s) (normalizeName name)))|].
  - unfold PNCounter.ResetName. by case_match.
  - unfold VectorClock.ResetName. by case_match.
  - frame_service s.
Qed.

Lemma CreateCounter_local s (name : string) (tags : list string) :
  svc_local s (CreateCounter s name tags).1.
Proof. unfold CreateCounter. cbn [fst]. case_match; [frame_service s|done]. Qed.

Lemma JoinCluster_local io s (req : JoinRequest) : svc_local s (JoinCluster io s req).1.
Proof.
  unfold JoinCluster. cbn [fst]. destruct (s_cluster s) as [m|] eqn:Hm; [|done].
  apply (SetCluster_local s m); [done|]. exact (evolves_exec m (OpAdd _ _ true _)).
Qed.

Lemma Heartbeat_local s (req : HeartbeatRequest) (peer : option string) :
  svc_local s (Heartbeat s req peer).1.
Proof.
  unfold Heartbeat. destruct (s_cluster s) as [m|] eqn:Hm; [|done]. cbn [fst].
  apply (SetCluster_local s m); [done|].
  set (a := if String.eqb _ _ then _ else _). set (t := unix_Time _).
  transitivity (AddOrUpdateMember m (hb_NodeId req) a true t).
  - exact (evolves_exec m (OpAdd _ _ true _)).
  - case_match; [exact (evolves_exec _ (OpPriority _ _))|done].
Qed.

Lemma Coordinator_local io s (req : CoordinatorRequest) : svc_local s (Coordinator io s req).1.
Proof.
  unfold Coordinator. destruct (s_bully s) as [b|] eqn:Hb; [|done].
  pose proof (HandleCoordinator_identity b req (e_now io)) as Hi.
  destruct (HandleCoordinator b req (e_now io)) as [b' ok]. by apply (SetBully_local s b).
Qed.

(** The gossiped statuses a message carries. *)
Lemma apply_statuses_evolves s (statuses : gmap string Z) :
  svc_evolves s (match s_cluster s with
    | Some m => if 0 <? Z.of_nat (size statuses)
                then Service.SetCluster s (Some (ApplyMembership m statuses)) else s
    | None => s
    end).
Proof.
  destruct (s_cluster s) as [m|] eqn:Hm; [|done]. case_match; [|done].
  apply (SetCluster_local s m); [done|]. exact (evolves_exec m (OpApply _)).
Qed.

Lemma sync_update_evolves io s (u : StateUpdate) : svc_evolves s (sync_update marshal io s u).1.
Proof.
  unfold sync_update. case_match; [done|].
  match goal with |- svc_evolves s (if _ then let '(_, _) := buildDeltaReply _ ?x _ in _ else _).1 =>
    assert (svc_evolves s x) as Hx end.
  { etransitivity; [apply absorb_evolves|]. etransitivity; [|apply log_local].
    apply apply_statuses_evolves. }
  destruct (su_Type u =? DELTA_UPDATE); [|exact Hx]. etransitivity; [exact Hx|].
  match goal with |- svc_evolves ?x _ => generalize x end. intros x. unfold buildDeltaReply.
  cbn [fst]. frame_service x.
Qed.

Lemma complete_evolves io s s' g g' (address : string) (clk : gmap string Z)
    (response : option StateUpdate) :
  complete marshal io s g address clk response = (s', g') -> svc_evolves s s'.
Proof.
  destruct response as [r|]; simpl; [|by intros [= <- _]]. intros [= <- _]. unfold mergeRemoteState.
  match goal with |- svc_evolves s (if _ then match s_wal ?x with _ => _ end else _) =>
    assert (svc_evolves s x) as Hx end.
  { etransitivity; [apply absorb_evolves|]. apply apply_statuses_evolves. }
  destruct (g_wal _); [|exact Hx]. match goal with |- svc_evolves s (match s_wal ?x with _ => _ end) =>
    destruct (s_wal x) as [w|] eqn:Hw; [|exact Hx]; generalize dependent x end.
  intros x Hx Hw. destruct (Append _ _ _ _ _ _ _ _ _ _ _) as [[w' d'] e]. etransitivity; [exact Hx|].
  frame_service x.
Qed.

Lemma recovered_evolves (id la : string) (now : Z) s (r : StateUpdate) :
  svc_evolves s (recovered id la now s r).
Proof.
  unfold recovered. match goal with |- svc_evolves s (match s_cluster ?x with _ => _ end) =>
    assert (svc_evolves s x) as Hx by (apply (set_data_evolves s); by destruct s);
    destruct (s_cluster x) as [m|] eqn:Hm; [|exact Hx]; generalize dependent x end.
  intros x Hx Hm. etransitivity; [exact Hx|]. apply (SetCluster_local x m); [done|].
  exact (evolves_exec m (OpAdd _ _ true _)).
Qed.

Lemma recover_evolves (id la : string) (now : Z) (call : nat -> string -> StateUpdate -> seed_io)
    (seeds : list string) s :
  svc_evolves s (recoverStateFromSeedNodes id la now undisturbed call seeds s).1.
Proof.
  destruct (recover_undisturbed id la now call seeds s) as [->|[r ->]]; [done|apply recovered_evolves].
Qed.

End service.

(** ** What every operation on the engine keeps *)

(** The fields [main] configures. *)
Definition engine_conf (g : GossipEngine) :=
  (g_nodeID g, g_interval g, g_wal g, (g_apiKey g, g_compression g), fullSyncInterval g,
   (maxRetries g, backoffBase g, backoffMax g), (circuitFailures g, circuitCooldown g)).

Lemma launch_conf (g : GossipEngine) (peers : list Member) :
  engine_conf (launch g peers).1 = engine_conf g.
Proof.
  revert g. induction peers as [|peer peers IH]; intros g; [done|]. cbn [launch].
  destruct (decide _); [apply IH|]. specialize (IH (set_syncing g ({[Address peer]} ∪ syncing g))).
  destruct (launch (set_syncing _ _) peers) as [g' l]. simpl in *. rewrite IH. by destruct g.
Qed.

(** Delivery touches the cached connections only. *)
Lemma deliver_connections (t : transport) (address : string) (n : nat) :
  forall g stream i, exists x, (deliver t g address stream i n).1 = set_connections g x.
Proof.
  assert (forall g, exists x, g = set_connections g x) as Hid.
  { intros g. exists (connections g). by destruct g. }
  assert (forall g x y, set_connections (set_connections g x) y = set_connections g y) as Hset
    by (by intros []).
  induction n as [|n IH]; intros g stream i; [apply Hid|]. cbn [deliver].
  assert (exists x ok, (if stream then (g, true) else let '(d, o) := t_stream t i in
    getOrCreateStream g address d o) = (set_connections g x, ok)) as (x & ok & ->).
  { destruct (Hid g) as [x Hx]. destruct stream; [exists x, true; by rewrite <- Hx|].
    destruct (t_stream t i) as [d o]. unfold getOrCreateStream.
    repeat case_match; eauto; exists x; eexists; by rewrite <- Hx. }
  destruct ok; simpl; [destruct (t_attempt t i); simpl; [| |by eauto]|];
    match goal with |- context [deliver t ?g' address false (i + 1) n] =>
      destruct (IH g' false (i + 1)) as [z ->] end; unfold evictConn; rewrite ?Hset; eauto.
Qed.

Lemma prepare_conf (pos neg clk : gmap string Z) (g : GossipEngine) (m : Membership)
    (address : string) (now : Z) : engine_conf (prepare_read pos neg clk g m address now).1 = engine_conf g.
Proof.
  unfold prepare_read. assert (engine_conf (breaker g address).1 = engine_conf g) as Hb.
  { unfold breaker. case_match; [done|]. by destruct g. }
  destruct (breaker g address) as [g0 b]. simpl in Hb. rewrite <- Hb.
  destruct (negb _); [done|]. repeat case_match; by destruct g0.
Qed.

Lemma complete_conf {D : Type} (marshal : WALEntry -> string) (io : env) (s s' : CounterService D)
    (g g' : GossipEngine) (address : string) (clk : gmap string Z) (response : option StateUpdate) :
  complete marshal io s g address clk response = (s', g') -> engine_conf g' = engine_conf g.
Proof. destruct response; simpl; intros [= _ <-]; by destruct g. Qed.

(** ** What every event keeps *)

Record proc_evolves {D : Type} (p p' : Process D) : Prop := {
  pe_id : p_nodeID p' = p_nodeID p;
  pe_address : p_address p' = p_address p;
  pe_service : svc_evolves (p_service p) (p_service p');
  pe_engine : engine_conf (p_engine p') = engine_conf (p_engine p);
  pe_auth : srv_auth (p_server p') = srv_auth (p_server p);
  pe_admin : srv_adminSvc (p_server p') = srv_adminSvc (p_server p);
}.

#[export] Instance proc_evolves_preorder {D : Type} : PreOrder (@proc_evolves D).
Proof.
  split; [by intros p; split|]. intros p1 p2 p3 [] []. split; try congruence. by etransitivity.
Qed.

Section process_steps.
Context {D : Type} `{SO : StoreOps D}.
Variable marshal : WALEntry -> string.
Variable unmarshal : string -> option WALEntry.
Variable quote : string -> string.
Variable cfg : Config.
Implicit Types p : Process D.

Lemma set_service_evolves p s : svc_evolves (p_service p) s -> proc_evolves p (set_service p s).
Proof. by split. Qed.

Lemma set_engine_evolves p g : engine_conf g = engine_conf (p_engine p) -> proc_evolves p (set_engine p g).
Proof. by split. Qed.

(** The admin service hands back an evolved table and the same kind of engine. *)
Lemma with_admin_evolves p (a : AdminService) :
  (s_cluster (p_service p) = a_membership a \/
   exists m m', s_cluster (p_service p) = Some m /\ a_membership a = Some m' /\ evolves m m') ->
  engine_conf (default (p_engine p) (a_gossip a)) = engine_conf (p_engine p) ->
  svc_local (p_service p) (p_service (with_admin p a)) /\ proc_evolves p (with_admin p a).
Proof.
  intros Hm Hg. assert (svc_local (p_service p) (Service.SetCluster (p_service p) (a_membership a))) as Hs.
  { destruct Hm as [<-|(m & m' & H1 & -> & He)]; [|by apply (SetCluster_local _ m)].
    replace (Service.SetCluster _ _) with (p_service p); [done|]. by destruct (p_service p). }
  split; [exact Hs|]. split; try done. apply Hs.
Qed.

(** Moreover the replicated data and the baselines stay. *)
Record proc_local p p' : Prop := {
  pl_evolves : proc_evolves p p';
  pl_service : svc_local (p_service p) (p_service p');
  pl_base : lastSync (p_engine p') = lastSync (p_engine p);
}.

#[local] Instance proc_local_preorder : PreOrder proc_local.
Proof.
  split; [by intros p; split|]. intros p1 p2 p3 [] []. split; [by etransitivity..|congruence].
Qed.

Lemma set_service_local p s : svc_local (p_service p) s -> proc_local p (set_service p s).
Proof. intros H. split; [|done|done]. apply set_service_evolves, H. Qed.

Lemma set_engine_local p g :
  engine_conf g = engine_conf (p_engine p) -> lastSync g = lastSync (p_engine p) ->
  proc_local p (set_engine p g).
Proof. intros H1 H2. split; [by apply set_engine_evolves|done|done]. Qed.

Lemma set_limiter_local p (l : RateLimiter) : proc_local p (set_limiter p l).
Proof. repeat split; eauto with process. Qed.

Definition local_request (r : request) : bool :=
  match r with RqIncrement _ | RqDecrement _ | RqReset _ => false | _ => true end.

Lemma handle_admin_local ce p r :
  is_admin r = true -> proc_local p (handle marshal quote ce p r).1.
Proof.
  assert (forall a, (s_cluster (p_service p) = a_membership a \/
      exists m m', s_cluster (p_service p) = Some m /\ a_membership a = Some m' /\ evolves m m') ->
    engine_conf (default (p_engine p) (a_gossip a)) = engine_conf (p_engine p) ->
    lastSync (default (p_engine p) (a_gossip a)) = lastSync (p_engine p) ->
    proc_local p (with_admin p a)) as Hadmin.
  { intros a H1 H2 H3. destruct (with_admin_evolves p a H1 H2). by split. }
  destruct r; try done; intros _; simpl.
  - unfold AddNode. repeat case_match; simpl in *; simplify_eq; apply Hadmin; simpl; eauto.
    right. do 2 eexists. split_and!; [done..|]. exact (evolves_exec _ (OpAdd _ _ true _)).
  - unfold RemoveNode. repeat case_match; simpl in *; simplify_eq; apply Hadmin; simpl; eauto.
    right. do 2 eexists. split_and!; [done..|]. exact (evolves_exec _ (OpLeft _)).
  - unfold ForceSync, Gossip.ForceSync. simpl.
    set (m := default _ _). pose proof (launch_conf (p_engine p) (GetAlivePeers m)) as Hc.
    pose proof (launch_spec (p_engine p) (GetAlivePeers m)) as Hl.
    destruct (launch (p_engine p) (GetAlivePeers m)) as [g' l]. simpl in *.
    apply Hadmin; simpl; [by left|done|]. by destruct Hl as (_ & _ & _ & _ & ? & _).
Qed.

Lemma handle_local ce p r :
  local_request r = true -> proc_local p (handle marshal quote ce p r).1.
Proof.
  destruct (is_admin r) eqn:Ha; [intros _; by apply handle_admin_local|].
  destruct r; try done; intros _; cbn [handle].
  - pose proof (CreateCounter_local (p_service p) name tags) as H.
    destruct (CreateCounter _ _ _) as [s i]. by apply set_service_local.
  - pose proof (JoinCluster_local (ce_io ce) (p_service p) req) as H.
    destruct (JoinCluster _ _ _) as [s i]. by apply set_service_local.
  - pose proof (Heartbeat_local (p_service p) req (ce_peer ce)) as H.
    destruct (Heartbeat _ _ _) as [s i]. by apply set_service_local.
  - pose proof (Coordinator_local (ce_io ce) (p_service p) req) as H.
    destruct (Coordinator _ _ _) as [s i]. by apply set_service_local.
Qed.

Lemma handle_evolves ce p r : proc_evolves p (handle marshal quote ce p r).1.
Proof.
  destruct (local_request r) eqn:Hr; [by apply handle_local|]. destruct r; try done; cbn [handle].
  - pose proof (update_evolves marshal (ce_io ce) (p_service p) req) as [H _].
    destruct (Increment _ _ _ _) as [s i]. by apply set_service_evolves.
  - pose proof (update_evolves marshal (ce_io ce) (p_service p) req) as [_ H].
    destruct (Decrement _ _ _ _) as [s i]. by apply set_service_evolves.
  - pose proof (Reset_evolves marshal (ce_io ce) (p_service p) counterName) as H.
    destruct (Reset _ _ _ _) as [[s i] called]. simpl in *.
    transitivity (set_service p s); [by apply set_service_evolves|].
    destruct called; [|done]. apply set_engine_evolves. simpl. by destruct (p_engine p).
Qed.

(** A call either stops at the middleware or reaches the handler. *)
Lemma grpc_call_cases ce md p r :
  let p' := (grpc_call marshal quote ce md p r).1 in
  proc_local p p' \/
  exists l, p' = (handle marshal quote ce (set_limiter p l) r).1.
Proof.
  unfold grpc_call. case_match; [by left|]. unfold chain, unaryInterceptors. cbn [fold_right].
  unfold auth_Unary. case_match; [|by left]. unfold rateLimit_Unary.
  destruct (Allow _ _) as [l ok]. destruct (negb ok); [left; apply set_limiter_local|right; by exists l].
Qed.

Lemma on_table_local p (f : Membership -> Membership) :
  (forall m, evolves m (f m)) -> proc_local p (on_table p f).
Proof.
  intros Hf. unfold on_table. destruct (s_cluster (p_service p)) as [m|] eqn:Hm; [|done].
  apply set_service_local. by apply (SetCluster_local _ m).
Qed.

Lemma on_bully_local p (f : Bully -> Membership -> Bully) :
  (forall b m, identity (f b m) = identity b) -> proc_local p (on_bully p f).
Proof.
  intros Hf. unfold on_bully. destruct (s_bully (p_service p)) as [b|] eqn:Hb; [|done].
  destruct (s_cluster (p_service p)) as [m|]; [|done].
  apply set_service_local. by apply (SetBully_local _ b).
Qed.

(** Events that leave the replicated data alone. *)
Definition local_event (e : event) : bool :=
  match e with
  | EvCall _ _ r | EvHTTP _ r => local_request r
  | EvRecv _ _ | EvComplete _ _ _ _ | EvRecover _ _ | EvSeedReply _ _ => false
  | _ => true
  end.

Lemma step_local p (e : event) :
  local_event e = true -> proc_local p (step marshal quote cfg p e).
Proof.
  destruct e; try done; cbn [local_event step]; intros He;
    try (apply on_table_local; intros m); try (apply on_bully_local; intros b m).
  - destruct (grpc_call_cases ce md p r) as [H|[l ->]]; [exact H|].
    etransitivity; [apply (set_limiter_local p l)|by apply handle_local].
  - by apply handle_local.
  - unfold gossip. set (peers := GetRandomPeers _ _ _). pose proof (launch_conf (p_engine p) peers) as Hc.
    pose proof (launch_spec (p_engine p) peers) as Hl.
    destruct (launch (p_engine p) peers) as [g' l]. apply set_engine_local; [done|].
    by destruct Hl as (_ & _ & _ & _ & ? & _).
  - apply set_engine_local; [apply prepare_conf|]. destruct (prepare_read _ _ _ _ _ _ _) as [g' u] eqn:Hp.
    by destruct (prepare_read_spec _ _ _ _ _ _ _ _ _ Hp).
  - destruct (deliver_connections t address attempts (p_engine p) stream 0) as [x ->].
    apply set_engine_local; by destruct (p_engine p).
  - apply round_evolves.
  - apply sendHeartbeats_evolves.
  - exact (evolves_exec m (OpStale _ _)).
  - apply tick_identity.
  - apply tick_identity.
  - apply set_service_local, Snapshot_local.
  - apply joinCluster_evolves.
  - exact (evolves_exec m (OpRecovering _)).
Qed.

Lemma step_evolves p (e : event) : proc_evolves p (step marshal quote cfg p e).
Proof.
  destruct (local_event e) eqn:He; [by apply step_local|]. destruct e; try done; cbn [step].
  - destruct (grpc_call_cases ce md p r) as [H|[l ->]]; [apply H|].
    etransitivity; [apply (set_limiter_local p l)|apply handle_evolves].
  - apply handle_evolves.
  - apply set_service_evolves, sync_update_evolves.
  - destruct (complete _ _ _ _ _ _ _) as [s g] eqn:Hc.
    transitivity (set_service p s); [apply set_service_evolves; by eapply complete_evolves|].
    apply set_engine_evolves. cbn [set_service p_engine].
    rewrite <- (complete_conf _ _ _ _ _ _ _ _ _ Hc). by destruct g.
  - apply set_service_evolves, recover_evolves.
  - case_match; [|done]. apply set_service_evolves, recovered_evolves.
Qed.

Lemma run_evolves (es : list event) p : proc_evolves p (run marshal quote cfg p es).
Proof.
  revert p. induction es as [|e es IH]; intros p; [done|]. unfold run. simpl.
  etransitivity; [apply step_evolves|apply IH].
Qed.

End process_steps.

(** ** Well-formed processes *)

Section wellformed.
Context {D : Type} `{SO : StoreOps D}.
Variable unmarshal : string -> option WALEntry.
Implicit Types s : CounterService D.
Implicit Types p : Process D.

(** What [main] wires and every component relies on. *)
Record process_ok (cfg : Config) p : Prop := {
  po_id : p_nodeID p = cfg_NodeID cfg;
  po_service : s_nodeID (p_service p) = cfg_NodeID cfg;
  po_counter : pn_nodeID (s_counter (p_service p)) = cfg_NodeID cfg;
  po_clock : vc_nodeID (s_clock (p_service p)) = cfg_NodeID cfg;
  po_engine : g_nodeID (p_engine p) = cfg_NodeID cfg;
  po_retries : maxRetries (p_engine p) = 3;
  po_interval : g_interval (p_engine p) =
    g_interval (NewGossipEngine (cfg_NodeID cfg) (seconds (cfg_GossipInterval cfg)));
  po_wal : g_wal (p_engine p) = true <-> is_Some (s_wal (p_service p));
  po_store : cfg_PersistenceEnabled cfg = false -> s_store (p_service p) = None;
  po_onReset : s_onReset (p_service p) = true;
  po_shards : 1 <= counterShards (p_service p);
  po_priority : s_priority (p_service p) = cfg_NodePriority cfg;
  po_table : exists m, s_cluster (p_service p) = Some m /\ m_nodeID m = cfg_NodeID cfg /\
    membership_ok m /\ is_Some (members m !! cfg_NodeID cfg);
  po_bully : exists b, s_bully (p_service p) = Some b /\
    identity b = identity (Bully.New (bully_config cfg));
  po_auth : srv_auth (p_server p) = NewAuthInterceptor (cfg_AuthEnabled cfg) (cfg_APIKey cfg);
  po_admin : srv_adminSvc (p_server p) = true;
}.

Lemma process_ok_evolves (cfg : Config) p p' : process_ok cfg p -> proc_evolves p p' -> process_ok cfg p'.
Proof.
  intros [O1 O2 O3 O4 O5 O6 O16 O7 O15 O8 O9 O10 (m & Hm & Hid & Hok & Hself) (b & Hb & Hbi) O13 O14]
    [E1 _ [S1 S2 S3 S4 S5 S6 S7 S10 S8 S9] E4 E5 E6].
  unfold engine_conf in E4. simplify_eq E4. intros. split; try congruence.
  - rewrite S7, <- O7. by f_equiv; congruence.
  - auto.
  - destruct (S8 m Hm) as (m' & Hm' & (F1 & F2 & F3)%evolves_spec). exists m'.
    split_and!; [done|congruence|auto|auto].
  - destruct (S9 b Hb) as (b' & Hb' & Hi'). exists b'. split; [done|congruence].
Qed.

(** The fields start-up settles. *)
Definition svc_ident s := (s_nodeID s, pn_nodeID (s_counter s), vc_nodeID (s_clock s), counterShards s).

Lemma absorb_ident s (id : string) (pos neg clk : gmap string Z) :
  svc_ident (absorb s id pos neg clk) = svc_ident s.
Proof. by destruct s. Qed.

Lemma replay_entry_ident s (e : WALEntry) : svc_ident (replay_entry s e) = svc_ident s.
Proof.
  unfold replay_entry. repeat case_match; try (by destruct s).
  destruct s. unfold svc_ident, PNCounter.ResetName, VectorClock.ResetName. simpl.
  by destruct (is_default (Counter e)).
Qed.

Lemma startup_ident (nodeID : string) (port shards : Z) (store : option D) (walDir : option string)
    (fs : disk) (io : boot_env) :
  svc_ident (startup unmarshal nodeID port shards store walDir fs io) =
  (nodeID, nodeID, nodeID, if shards <? 1 then 1 else shards).
Proof.
  unfold startup. set (s0 := SetShardCount (NewCounterService nodeID port fs) shards).
  assert (svc_ident s0 = (nodeID, nodeID, nodeID, if shards <? 1 then 1 else shards)) as H0 by done.
  rewrite <- H0. clearbody s0. clear H0.
  set (s1 := match store with Some _ => _ | None => s0 end).
  assert (svc_ident s1 = svc_ident s0) as <-.
  { unfold s1. destruct store as [d|]; [|done].
    assert (svc_ident (SetStore s0 (Some d)) = svc_ident s0) as E by (by destruct s0).
    destruct (Load _ _ _) as [[st|]|]; [|done..]. unfold Restore. rewrite <- E.
    rewrite <- (absorb_ident (SetStore s0 (Some d)) "" (st_Positive st) (st_Negative st) (st_Clock st)).
    generalize (absorb (SetStore s0 (Some d)) "" (st_Positive st) (st_Negative st) (st_Clock st)).
    intros x. case_match; [by destruct x|done]. }
  clearbody s1. destruct walDir as [dir|]; [|done]. destruct (NewWALStore _ _) as [w|]; [|done].
  unfold ReplayWAL. assert (forall x, svc_ident (Service.SetWAL s1 x) = svc_ident s1) as Hw by (by destruct s1).
  destruct (s_wal (Service.SetWAL s1 (Some w))) as [w1|]; [|apply Hw].
  destruct (Replay _ _ _ _ _) as [[w2 entries] err].
  assert (forall l x, svc_ident (foldl replay_entry x l) = svc_ident x) as Hf.
  { intros l. induction l as [|e l IH]; intros x; [done|]. simpl. by rewrite IH, replay_entry_ident. }
  destruct err; simpl; rewrite ?Hf; by destruct s1.
Qed.

(** Start-up keeps the store it was given and knows no peer's state. *)
Lemma startup_store (nodeID : string) (port shards : Z) (store : option D) (walDir : option string)
    (fs : disk) (io : boot_env) :
  let s := startup unmarshal nodeID port shards store walDir fs io in
  s_store s = store /\ lastSyncClock s = ∅.
Proof.
  unfold startup. match goal with |- context [match walDir with Some _ => _ | None => ?x end] =>
    assert (s_store x = store /\ lastSyncClock x = ∅) as Hx; [|generalize dependent x] end.
  { destruct store as [d|]; [|done]. destruct (Load _ _ _) as [[st|]|]; [|done..].
    unfold Restore, absorb. by case_match. }
  intros s1 Hs1. destruct walDir as [dir|]; [|done]. destruct (NewWALStore _ _) as [w|]; [|done].
  unfold ReplayWAL. assert (forall s x, (s_store (Service.SetWAL s x), lastSyncClock (Service.SetWAL s x)) =
    (s_store s, lastSyncClock s)) as Hw by (by intros []).
  destruct (s_wal _) as [w1|]; [|by destruct s1].
  destruct (Replay _ _ _ _ _) as [[w2 entries] err].
  pose proof (Hw (Service.SetWAL s1 (Some w)) (Some w2)) as [= E1 E2].
  pose proof (Hw s1 (Some w)) as [= E3 E4]. rewrite E3, E4 in *. clear E3 E4 Hw.
  set (s2 := Service.SetWAL _ (Some w2)) in *. clearbody s2. destruct Hs1 as [<- <-].
  destruct err; simpl; [done|]. rewrite <- E1, <- E2. clear.
  revert s2. induction entries as [|e l IH]; intros s; [done|]. simpl.
  destruct (IH (replay_entry s e)) as [-> ->]. unfold replay_entry, absorb.
  repeat case_match; by destruct s.
Qed.

Lemma wire_ok (cfg : Config) (store : option D) (fs : disk) (io : boot_env) (now : Z) :
  process_ok cfg (wire unmarshal cfg store fs io now).
Proof.
  unfold wire. set (s := startup _ _ _ _ _ _ _ _).
  assert (svc_ident s = _) as Hs by apply startup_ident.
  pose proof (startup_store (cfg_NodeID cfg) (cfg_GRPCPort cfg) (cfg_CounterShards cfg)
    (if cfg_PersistenceEnabled cfg then store else None)
    (if cfg_WALEnabled cfg then Some (cfg_WALDir cfg) else None) fs io) as [Hst _]. fold s in Hst. clearbody s.
  unfold svc_ident in Hs. simplify_eq Hs. intros Hid Hpn Hvc Hsh.
  split; try done; try (by destruct s); try (destruct s; simpl in *; done).
  - destruct s. exact (bool_decide_eq_true _).
  - intros Hp. rewrite Hp in Hst. by destruct s.
  - destruct s; simpl in *. destruct (Z.ltb_spec (cfg_CounterShards cfg) 1); lia.
  - eexists. split; [by destruct s|]. split_and!; [done| |].
    + apply (exec_ok (NewMembership (cfg_NodeID cfg)) (OpAdd _ _ true now)). intros id mem. simpl.
      by rewrite lookup_empty.
    + unfold AddMember, AddOrUpdateMember, AddOrUpdateMemberStatus. simpl. rewrite lookup_empty.
      simpl. by rewrite lookup_insert_eq.
  - eexists. split; [by destruct s|done].
Qed.

End wellformed.

(** ** Calls that reach a handler *)

Section admission.
Context {D : Type} `{SO : StoreOps D}.
Variable marshal : WALEntry -> string.
Variable quote : string -> string.
Variable cfg : Config.
Implicit Types p : Process D.

Definition served (o : outcome) : bool :=
  match o with Err Unauthenticated | Err ResourceExhausted => false | _ => true end.

(** The number of gRPC calls of a run that a handler answered. *)
Fixpoint admitted p (es : list event) : Z :=
  match es with
  | [] => 0
  | e :: es =>
      (match e with
       | EvCall ce md r => if served (grpc_call marshal quote ce md p r).2 then 1 else 0
       | _ => 0
       end) + admitted (step marshal quote cfg p e) es
  end.

(** The times of the calls that carry the key. *)
Definition authentic_times (a : AuthInterceptor) (es : list event) : list Z :=
  omap (fun e => match e with
    | EvCall ce md _ => if negb (enabled a) || authorized a md then Some (e_now (ce_io ce)) else None
    | _ => None
    end) es.

Lemma handle_served ce p r : served (handle marshal quote ce p r).2 = true.
Proof.
  destruct r; cbn [handle]; repeat case_match; try done.
  all: unfold admin_reply; by repeat case_match.
Qed.

Abbreviation bucket p := (limiter (srv_rateLimit (p_server p))).

(** A call moves the bucket exactly when it is authentic. *)
Lemma grpc_call_bucket ce md p r :
  srv_adminSvc (p_server p) = true ->
  let run := grpc_call marshal quote ce md p r in
  if authentic p md
  then (bucket run.1, served run.2) = Allow (bucket p) (e_now (ce_io ce))
  else bucket run.1 = bucket p /\ served run.2 = false.
Proof.
  intros Had run. unfold run, grpc_call, chain, unaryInterceptors. rewrite Had, andb_false_r.
  cbn [fold_right]. unfold auth_Unary, rateLimit_Unary, intercept, authentic.
  rewrite full_method_application. destruct (Allow _ _) as [l ok].
  destruct (enabled _), (authorized _ md); simpl; try done; destruct ok; simpl; try done;
    by rewrite handle_served, handle_server.
Qed.

Lemma step_bucket p (e : event) :
  (forall ce md r, e <> EvCall ce md r) ->
  bucket (step marshal quote cfg p e) = bucket p.
Proof.
  intros Hne. destruct e; cbn [step]; try done; unfold on_table, on_bully; repeat case_match; try done.
  - by destruct (Hne ce md r).
  - by rewrite handle_server.
Qed.

(** The bucket of a process is the limiter serving its authentic calls. *)
Lemma run_serves (es : list event) :
  forall p, srv_adminSvc (p_server p) = true ->
  serve (bucket p) (authentic_times (srv_auth (p_server p)) es) =
  (bucket (run marshal quote cfg p es), admitted p es).
Proof.
  induction es as [|e es IH]; intros p Had; [done|]. unfold run. cbn [foldl admitted].
  pose proof (step_evolves marshal quote cfg p e) as [_ _ _ _ Ea Eb].
  specialize (IH (step marshal quote cfg p e)). rewrite Ea, Eb in IH. specialize (IH Had).
  fold (run marshal quote cfg (step marshal quote cfg p e) es).
  destruct (match e with EvCall _ _ _ => true | _ => false end) eqn:He.
  - destruct e as [ce md r| | | | | | | | | | | | | | | |]; try done.
    pose proof (grpc_call_bucket ce md p r Had) as Hc. unfold authentic in Hc.
    cbn [authentic_times omap list_omap step] in *.
    destruct (negb _ || authorized _ md).
    + cbn [serve]. rewrite <- Hc. fold (authentic_times (srv_auth (p_server p)) es).
      rewrite IH. destruct (served _); f_equal; lia.
    + destruct Hc as [Hb ->]. rewrite Hb in IH. exact IH.
  - assert (forall ce md r, e <> EvCall ce md r) as Hne by (by intros ce md r ->).
    rewrite (step_bucket p e Hne) in IH.
    replace (authentic_times (srv_auth (p_server p)) (e :: es))
      with (authentic_times (srv_auth (p_server p)) es) by (by destruct e).
    rewrite IH. by destruct e.
Qed.

End admission.

(** ** Properties *)

(** C6: A process stays well formed: whatever the disk and the database held at
    start-up, whatever the peers, seeds and clients send and in whatever order
    calls, stream messages, rounds and ticks interleave, all components keep
    acting for the configured node, with the configured priority, key and reset
    callback, the engine logs exactly when the service does, and the shared
    membership table is consistent and never loses the node itself. *)
Theorem process_wellformed {D : Type} `{SO : StoreOps D} (marshal : WALEntry -> string)
    (unmarshal : string -> option WALEntry)
    (quote : string -> string) (cfg : Config) (store : option D) (fs : disk) (io : boot_env)
    (now : Z) (es : list event) :
  process_ok cfg (run marshal quote cfg (wire unmarshal cfg store fs io now) es).
Proof. eapply process_ok_evolves; [apply wire_ok|apply run_evolves]. Qed.

(** C37: The configured rate bounds the whole process: after any run of events, in
    any further run the handlers answer at most the burst of [perSecond] gRPC
    calls, plus the refill for the time between the authentic calls, plus one
    for the rounding of the [float64] bucket, however the calls mix with
    unauthenticated ones, gossip and ticks. *)
Theorem process_rate {D : Type} `{SO : StoreOps D} (marshal : WALEntry -> string)
    (unmarshal : string -> option WALEntry)
    (quote : string -> string) (cfg : Config) (store : option D) (fs : disk) (io : boot_env)
    (now : Z) (es0 es1 : list event) :
  let perSecond := cfg_RateLimitPerSecond cfg in
  let p0 := wire unmarshal cfg store fs io now in
  let times := authentic_times (srv_auth (p_server p0)) in
  0 < perSecond < 2 ^ 50 -> 0 <= now -> ascending now (times es0 ++ times es1) ->
  let p := run marshal quote cfg p0 es0 in
  let start := last (limiter (srv_rateLimit (p_server p))) in
  let T := default start (list.last (times es1)) - start in
  Z.of_nat (length (times es1)) * (perSecond + 1) * Second + 2 * (perSecond * T) <= 2 ^ 51 * Second ->
  admitted marshal quote cfg p es1 * Second <= (perSecond + 1) * Second + perSecond * T.
Proof.
  intros perSecond p0 times Hp Hn Hasc p start T Hlim.
  pose proof (run_serves marshal quote cfg es0 p0 eq_refl) as H0.
  pose proof (run_evolves marshal quote cfg es0 p0) as [_ _ _ _ Ea Eb].
  pose proof (run_serves marshal quote cfg es1 p) as H1.
  fold p in H0, Ea, Eb. rewrite Ea in H1. specialize (H1 Eb). fold times in H0, H1.
  pose proof (limiter_bound perSecond now (times es0) (times es1) Hp Hn Hasc) as Hb. cbv zeta in Hb.
  change (NewRateLimiter perSecond now) with (limiter (srv_rateLimit (p_server p0))) in Hb.
  rewrite H0 in Hb. cbn [fst] in Hb. rewrite H1 in Hb. exact (Hb Hlim).
Qed.

(** ** Witnesses *)

(** A configuration with authentication, the log and two calls per second. *)
Definition ex_config (id : string) : Config :=
  mkConfig id 50051 9090 8080 (id +:+ ":50051") [] 5 3 10 false "" "" 0 true "data" 30 1 2 3 true "k" 2
    false false "" float_one 4 1 2.

(** Three calls with the key and one without it, all at once. *)
Definition ex_burst : list event :=
  let call md := EvCall (mkCallEnv (calm 10) None (fun _ => None)) md RqGetNodeInfo in
  [call (Some ["Bearer k"]); call None; call (Some ["Bearer k"]); call (Some ["Bearer k"])].

Lemma process_rate_witness :
  let p := @wire _ ex_ops unmarshal_entry (ex_config "a") None ∅ (mkBootEnv true true true) 10 in
  @admitted _ ex_ops marshal_entry id (ex_config "a") p ex_burst = 2 /\
  2 * Second <= (2 + 1) * Second + 2 * 0.
Proof.
  intros p. split; [vm_compute; reflexivity|].
  assert (@admitted _ ex_ops marshal_entry id (ex_config "a") p ex_burst * Second <=
    (2 + 1) * Second + 2 * 0) as H; [|vm_compute in H; vm_compute; exact H].
  apply (@process_rate _ ex_ops marshal_entry unmarshal_entry id (ex_config "a") None ∅
    (mkBootEnv true true true) 10 [] ex_burst).
  - vm_compute. split; [reflexivity|reflexivity].
  - lia.
  - vm_compute. repeat split; discriminate.
  - vm_compute. discriminate.
Defined.
