(* ===== verification/Metrics.v ===== *)
(** * Metrics (internal/metrics/metrics.go)

    The collectors, the functions that update them, and the calls of these
    functions in the middleware, the handlers, the gossip engine and the
    recovery of [main].  Prometheus is an interface: [Registry] are the operations
    the program uses and [RegistryLaws] their documented effect.  Metrics flow one
    way, so the calls are a function of the process and the event. *)

From Stdlib Require Import SpecFloat.
From S2P Require Import Prelude Lattice PNCounter VectorClock Delta Breaker Membership Bully Swim Codec Wal.
From S2P Require Import Store Messages Service ServiceSpec Durability Gossip Cluster Bootstrap.
From S2P Require Import Float RateLimit Admin Server Process.

(** ** Collectors *)

Inductive kind := CounterVec | GaugeVec | HistogramVec.

(** A vector of collectors: one collector for each list of label values. *)
Record desc := mkDesc { d_kind : kind; d_Name : string; d_labels : list string }.

#[export] Instance kind_eq_dec : EqDecision kind.
Proof. solve_decision. Defined.

#[export] Instance desc_eq_dec : EqDecision desc.
Proof. solve_decision. Defined.

Definition IncrementTotal : desc := mkDesc CounterVec "counter_increment_total" ["node_id"].

Definition DecrementTotal : desc := mkDesc CounterVec "counter_decrement_total" ["node_id"].

Definition CurrentValue : desc := mkDesc GaugeVec "counter_current_value" ["node_id"].

Definition GossipMessagesSent : desc := mkDesc CounterVec "gossip_messages_sent_total" ["node_id"].

Definition GossipMessagesReceived : desc :=
  mkDesc CounterVec "gossip_messages_received_total" ["node_id"].

Definition RecoveryRetryTotal : desc := mkDesc CounterVec "recovery_retry_total" ["node_id"; "seed_node"].

Definition RecoverySeedFailuresTotal : desc :=
  mkDesc CounterVec "recovery_seed_failures_total" ["node_id"; "seed_node"].

Definition RecoverySyncDurationSeconds : desc :=
  mkDesc HistogramVec "recovery_sync_duration_seconds" ["node_id"; "seed_node"].

Definition RecoveryInProgress : desc := mkDesc GaugeVec "recovery_in_progress" ["node_id"].

Definition RateLimitedTotal : desc := mkDesc CounterVec "rpc_rate_limited_total" ["node_id"; "method"].

Definition AuthRejectedTotal : desc := mkDesc CounterVec "rpc_auth_rejected_total" ["node_id"; "method"].

(** [v.WithLabelValues(l...).Inc()], [.Set(x)] and [.Observe(x)], and what the
    collectors show. *)
Class Registry (R : Type) := {
  Inc : R -> desc -> list string -> R;
  Set_ : R -> desc -> list string -> spec_float -> R;
  Observe : R -> desc -> list string -> spec_float -> R;
  counter_value : R -> desc -> list string -> Z;
  gauge_value : R -> desc -> list string -> spec_float;
}.

Class RegistryLaws (R : Type) `{Registry R} := {
  inc_counter (r : R) (d d' : desc) (l l' : list string) :
    counter_value (Inc r d l) d' l' = counter_value r d' l' + (if decide ((d, l) = (d', l')) then 1 else 0);
  inc_gauge (r : R) (d d' : desc) (l l' : list string) :
    gauge_value (Inc r d l) d' l' = gauge_value r d' l';
  set_counter (r : R) (d d' : desc) (l l' : list string) (x : spec_float) :
    counter_value (Set_ r d l x) d' l' = counter_value r d' l';
  set_gauge (r : R) (d d' : desc) (l l' : list string) (x : spec_float) :
    gauge_value (Set_ r d l x) d' l' = if decide ((d, l) = (d', l')) then x else gauge_value r d' l';
  observe_counter (r : R) (d d' : desc) (l l' : list string) (x : spec_float) :
    counter_value (Observe r d l x) d' l' = counter_value r d' l';
  observe_gauge (r : R) (d d' : desc) (l l' : list string) (x : spec_float) :
    gauge_value (Observe r d l x) d' l' = gauge_value r d' l';
}.

(** ** The functions of the package *)

Section functions.
Context {R : Type} `{RG : Registry R}.

Definition UpdateCounterValue (r : R) (nodeID : string) (value : Z) : R :=
  Set_ r CurrentValue [nodeID] (float_of_int value).

Definition IncIncrementTotal (r : R) (nodeID : string) : R := Inc r IncrementTotal [nodeID].

Definition IncDecrementTotal (r : R) (nodeID : string) : R := Inc r DecrementTotal [nodeID].

Definition IncGossipSent (r : R) (nodeID : string) : R := Inc r GossipMessagesSent [nodeID].

Definition IncGossipReceived (r : R) (nodeID : string) : R := Inc r GossipMessagesReceived [nodeID].

Definition IncRecoveryRetry (r : R) (nodeID seedNode : string) : R :=
  Inc r RecoveryRetryTotal [nodeID; seedNode].

Definition IncRecoverySeedFailure (r : R) (nodeID seedNode : string) : R :=
  Inc r RecoverySeedFailuresTotal [nodeID; seedNode].

Definition ObserveRecoverySyncDuration (r : R) (nodeID seedNode : string) (seconds : spec_float) : R :=
  Observe r RecoverySyncDurationSeconds [nodeID; seedNode] seconds.

Definition SetRecoveryInProgress (r : R) (nodeID : string) (inProgress : bool) : R :=
  if inProgress then Set_ r RecoveryInProgress [nodeID] (float_of_int 1)
  else Set_ r RecoveryInProgress [nodeID] (float_of_int 0).

Definition IncRateLimited (r : R) (nodeID method : string) : R := Inc r RateLimitedTotal [nodeID; method].

Definition IncAuthRejected (r : R) (nodeID method : string) : R := Inc r AuthRejectedTotal [nodeID; method].

(** One call of the package. *)
Inductive mcall :=
| MValue (nodeID : string) (value : Z)
| MIncrement (nodeID : string)
| MDecrement (nodeID : string)
| MSent (nodeID : string)
| MReceived (nodeID : string)
| MRetry (nodeID seedNode : string)
| MSeedFailure (nodeID seedNode : string)
| MSyncDuration (nodeID seedNode : string) (seconds : spec_float)
| MInProgress (nodeID : string) (inProgress : bool)
| MRateLimited (nodeID method : string)
| MAuthRejected (nodeID method : string).

Definition perform (r : R) (c : mcall) : R :=
  match c with
  | MValue id v => UpdateCounterValue r id v
  | MIncrement id => IncIncrementTotal r id
  | MDecrement id => IncDecrementTotal r id
  | MSent id => IncGossipSent r id
  | MReceived id => IncGossipReceived r id
  | MRetry id seed => IncRecoveryRetry r id seed
  | MSeedFailure id seed => IncRecoverySeedFailure r id seed
  | MSyncDuration id seed x => ObserveRecoverySyncDuration r id seed x
  | MInProgress id b => SetRecoveryInProgress r id b
  | MRateLimited id method => IncRateLimited r id method
  | MAuthRejected id method => IncAuthRejected r id method
  end.

End functions.

(** ** The calls of the recovery *)

Section recovery.
Context {D : Type}.
Variable nodeID localAddress : string.
Variable now : Z.
(** [time.Since(syncStartedAt).Seconds()] for the seed that answered. *)
Variable elapsed : string -> spec_float.
Implicit Types s : CounterService D.

(** One pass over the seeds: the calls, [lastFailedSeed] and whether a reply was
    merged. *)
Fixpoint seed_calls (call : string -> StateUpdate -> seed_io) (seeds : list string) s
    (lastFailedSeed : string) : list mcall * string * bool :=
  match seeds with
  | [] => ([], lastFailedSeed, false)
  | seed :: rest =>
      match call seed (recovery_request nodeID now s) with
      | SeedReply r =>
          if has_state r then
            ([MValue nodeID (Value (s_counter (recovered nodeID localAddress now s r)));
              MSyncDuration nodeID seed (elapsed seed)], lastFailedSeed, true)
          else seed_calls call rest s lastFailedSeed
      | _ =>
          let '(cs, last, ok) := seed_calls call rest s seed in (MSeedFailure nodeID seed :: cs, last, ok)
      end
  end.

Fixpoint attempt_calls (call : nat -> string -> StateUpdate -> seed_io) (uniqueSeeds : list string) s
    (attempt n : nat) : list mcall :=
  match n with
  | O => []
  | S n =>
      let startIndex := Nat.modulo attempt (length uniqueSeeds) in
      let '(cs, last, ok) := seed_calls (call attempt) (rotateSeeds uniqueSeeds startIndex) s "" in
      if (ok : bool) then cs
      else
        let retry := if Nat.ltb attempt (maxAttempts - 1) && negb (String.eqb last "")
                     then [MRetry nodeID last] else [] in
        cs ++ retry ++ attempt_calls call uniqueSeeds s (S attempt) n
  end.

Definition recovery_calls (call : nat -> string -> StateUpdate -> seed_io) (seedNodes : list string) s :
    list mcall :=
  let uniqueSeeds := uniqueOrderedSeeds seedNodes in
  if Nat.eqb (length uniqueSeeds) 0 then [] else attempt_calls call uniqueSeeds s 0 maxAttempts.

End recovery.

(** ** The calls of an event *)

Section events.
Context {D : Type} `{SO : StoreOps D}.
Variable marshal : WALEntry -> string.
Variable quote : string -> string.
Variable elapsed : string -> spec_float.
Variable cfg : Config.
Implicit Types p : Process D.

(** What a handler reports, on the process it leaves behind. *)
Definition handler_calls p (r : request) : list mcall :=
  let s := p_service p in
  let value name := MValue (s_nodeID s) (ValueName (s_counter s) (normalizeName name)) in
  match r with
  | RqIncrement req => [MIncrement (s_nodeID s); value (rq_CounterName req)]
  | RqDecrement req => [MDecrement (s_nodeID s); value (rq_CounterName req)]
  | RqReset name => [value name]
  | _ => []
  end.

(** The same of the interceptors: each counts what it refuses. *)
Definition grpc_calls (ce : call_env) (md : option (list string)) p (r : request) : list mcall :=
  if is_admin r && negb (srv_adminSvc (p_server p)) then []
  else match intercept (srv_auth (p_server p)) (full_method r) md tt with
  | inr _ => [MAuthRejected (p_nodeID p) (full_method r)]
  | inl _ =>
      let '(l, allowed) := Allow (limiter (srv_rateLimit (p_server p))) (e_now (ce_io ce)) in
      if negb allowed then [MRateLimited (p_nodeID p) (full_method r)]
      else handler_calls (handle marshal quote ce (set_limiter p l) r).1 r
  end.

Definition calls p (e : event) : list mcall :=
  let p' := step marshal quote cfg p e in
  let s' := p_service p' in
  match e with
  | EvCall ce md r => grpc_calls ce md p r
  | EvHTTP ce r => handler_calls p' r
  | EvRecv io u =>
      if su_Type u =? HEARTBEAT then []
      else [MValue (s_nodeID s') (Value (s_counter s')); MReceived (s_nodeID s')]
  | EvComplete _ _ _ (Some _) => [MSent (g_nodeID (p_engine p))]
  | EvRecovering b => [MInProgress (p_nodeID p) b]
  | EvRecover call now =>
      recovery_calls (p_nodeID p) (p_address p) now elapsed call (cfg_SeedNodes cfg) (p_service p)
  | EvSeedReply r _ => if has_state r then [MValue (p_nodeID p) (Value (s_counter s'))] else []
  | _ => []
  end.

(** The registry after a run. *)
Fixpoint observe_run {R : Type} `{Registry R} (r : R) p (es : list event) : R :=
  match es with
  | [] => r
  | e :: es => observe_run (foldl perform r (calls p e)) (step marshal quote cfg p e) es
  end.

(** The events of a run that satisfy [P], with the process that takes each. *)
Fixpoint tally (P : Process D -> event -> bool) p (es : list event) : Z :=
  match es with
  | [] => 0
  | e :: es => (if P p e then 1 else 0) + tally P (step marshal quote cfg p e) es
  end.

End events.

(** ** What a sequence of calls does to the collectors *)

(** The counter a call increments. *)
Definition target (c : mcall) : option (desc * list string) :=
  match c with
  | MIncrement id => Some (IncrementTotal, [id])
  | MDecrement id => Some (DecrementTotal, [id])
  | MSent id => Some (GossipMessagesSent, [id])
  | MReceived id => Some (GossipMessagesReceived, [id])
  | MRetry id seed => Some (RecoveryRetryTotal, [id; seed])
  | MSeedFailure id seed => Some (RecoverySeedFailuresTotal, [id; seed])
  | MRateLimited id method => Some (RateLimitedTotal, [id; method])
  | MAuthRejected id method => Some (AuthRejectedTotal, [id; method])
  | MValue _ _ | MSyncDuration _ _ _ | MInProgress _ _ => None
  end.

Definition hit (x : desc * list string) (c : mcall) : Z := if decide (target c = Some x) then 1 else 0.

Fixpoint hits (x : desc * list string) (cs : list mcall) : Z :=
  match cs with [] => 0 | c :: cs => hit x c + hits x cs end.

Lemma hits_app (x : desc * list string) (cs cs' : list mcall) : hits x (cs ++ cs') = hits x cs + hits x cs'.
Proof. induction cs as [|c cs IH]; simpl; [done|lia]. Qed.

Lemma hits_none (x : desc * list string) (cs : list mcall) :
  Forall (fun c => target c <> Some x) cs -> hits x cs = 0.
Proof.
  induction 1 as [|c cs Hc _ IH]; [done|]. simpl. unfold hit. rewrite decide_False by done. lia.
Qed.

Lemma hit_other (x y : desc * list string) (c : mcall) : target c = Some y -> y <> x -> hit x c = 0.
Proof. intros Hc Hne. unfold hit. rewrite decide_False; [done|]. congruence. Qed.

Section registry.
Context {R : Type} `{RL : RegistryLaws R}.

Lemma perform_counter (r : R) (c : mcall) (x : desc * list string) :
  counter_value (perform r c) x.1 x.2 = counter_value r x.1 x.2 + hit x c.
Proof.
  destruct x as [d l]. unfold hit.
  destruct c; simpl; unfold UpdateCounterValue, IncIncrementTotal, IncDecrementTotal, IncGossipSent,
    IncGossipReceived, IncRecoveryRetry, IncRecoverySeedFailure, ObserveRecoverySyncDuration,
    SetRecoveryInProgress, IncRateLimited, IncAuthRejected;
    repeat match goal with |- context [if ?b then Set_ _ _ _ _ else _] => destruct b end;
    rewrite ?inc_counter, ?set_counter, ?observe_counter; repeat case_decide; simplify_eq; try done; lia.
Qed.

Lemma performs_counter (cs : list mcall) (r : R) (x : desc * list string) :
  counter_value (foldl perform r cs) x.1 x.2 = counter_value r x.1 x.2 + hits x cs.
Proof.
  revert r. induction cs as [|c cs IH]; intros r; simpl; [lia|]. rewrite IH, perform_counter. lia.
Qed.

End registry.

Section counting.
Context {D : Type} `{SO : StoreOps D}.
Variable marshal : WALEntry -> string.
Variable quote : string -> string.
Variable elapsed : string -> spec_float.
Variable cfg : Config.
Implicit Types p : Process D.
Abbreviation calls_of := (calls marshal quote elapsed cfg).

(** A counter that each event of a well-formed process increments exactly when
    [P] holds shows the number of such events. *)
Lemma observe_counts {R : Type} `{RL : RegistryLaws R} (P : Process D -> event -> bool)
    (x : desc * list string) (es : list event) :
  (forall p e, process_ok cfg p -> hits x (calls_of p e) = if P p e then 1 else 0) ->
  forall (r : R) p, process_ok cfg p ->
  counter_value (observe_run marshal quote elapsed cfg r p es) x.1 x.2 =
  counter_value r x.1 x.2 + tally marshal quote cfg P p es.
Proof.
  intros HP. induction es as [|e es IH]; intros r p Hok; simpl; [lia|].
  rewrite IH by (eapply process_ok_evolves; [exact Hok|apply step_evolves]).
  rewrite performs_counter, HP by done. lia.
Qed.

(** The calls of a recovery concern recovery. *)
Definition recovery_call (c : mcall) : bool :=
  match c with
  | MValue _ _ | MSyncDuration _ _ _ | MSeedFailure _ _ | MRetry _ _ => true
  | _ => false
  end.

Lemma seed_calls_kind (id la : string) (now : Z) (call : string -> StateUpdate -> seed_io)
    (seeds : list string) (s : CounterService D) (last : string) :
  Forall (fun c => recovery_call c = true) (seed_calls id la now elapsed call seeds s last).1.1.
Proof.
  revert last. induction seeds as [|seed seeds IH]; intros last; simpl; [done|].
  specialize (IH seed) as IH1. specialize (IH last) as IH2.
  destruct (seed_calls id la now elapsed call seeds s seed) as [[cs l] ok]. simpl in *.
  case_match; simpl; [by constructor..|]. case_match; [by repeat constructor|done].
Qed.

Lemma recovery_calls_kind (id la : string) (now : Z) (call : nat -> string -> StateUpdate -> seed_io)
    (seeds : list string) (s : CounterService D) :
  Forall (fun c => recovery_call c = true) (recovery_calls id la now elapsed call seeds s).
Proof.
  unfold recovery_calls. case_match; [done|]. generalize 0%nat. generalize maxAttempts at 1 as n.
  intros n. induction n as [|n IH]; intros a; simpl; [done|].
  pose proof (seed_calls_kind id la now (call a) (rotateSeeds (uniqueOrderedSeeds seeds)
    (Nat.modulo a (length (uniqueOrderedSeeds seeds)))) s "") as Hk.
  destruct (seed_calls _ _ _ _ _ _ _ _) as [[cs l] ok]. destruct ok; [done|].
  rewrite !Forall_app. split; [done|]. split; [|apply IH]. case_match; by repeat constructor.
Qed.

(** Counters that neither handlers nor recoveries touch. *)
Lemma recovery_hits (x : desc * list string) (id la : string) (now : Z)
    (call : nat -> string -> StateUpdate -> seed_io) (seeds : list string) (s : CounterService D) :
  x.1 <> RecoverySeedFailuresTotal -> x.1 <> RecoveryRetryTotal ->
  hits x (recovery_calls id la now elapsed call seeds s) = 0.
Proof.
  intros H1 H2. apply hits_none. eapply Forall_impl; [apply recovery_calls_kind|].
  intros c Hc. destruct x as [d l]. simpl in *. destruct c; try done; simpl; congruence.
Qed.

(** A pass in which no seed answers counts one failure for each. *)
Lemma seed_calls_fail (id la : string) (now : Z) (call : string -> StateUpdate -> seed_io)
    (seeds : list string) (s : CounterService D) (last : string) :
  (forall seed req r, call seed req <> SeedReply r) ->
  let '(cs, _, ok) := seed_calls id la now elapsed call seeds s last in
  cs = MSeedFailure id <$> seeds /\ ok = false.
Proof.
  intros Hf. revert last. induction seeds as [|seed seeds IH]; intros last; simpl; [done|].
  specialize (IH seed). destruct (seed_calls id la now elapsed call seeds s seed) as [[cs l] ok].
  destruct IH as [-> ->]. destruct (call seed _) as [| | | |r] eqn:Hc; try done. by destruct (Hf seed _ r Hc).
Qed.

Lemma failures_hits (id seed : string) (seeds : list string) :
  NoDup seeds -> hits (RecoverySeedFailuresTotal, [id; seed]) (MSeedFailure id <$> seeds) =
  if decide (seed ∈ seeds) then 1 else 0.
Proof.
  induction 1 as [|x seeds Hx _ IH]; [done|]. cbn [fmap list_fmap hits].
  rewrite IH. unfold hit. simpl. repeat case_decide; simplify_eq; set_solver.
Qed.

(** When no seed ever answers, each seed fails once in every attempt. *)
Lemma recovery_failures (id la seed : string) (now : Z) (call : nat -> string -> StateUpdate -> seed_io)
    (seeds : list string) (s : CounterService D) :
  (forall attempt seed req r, call attempt seed req <> SeedReply r) -> seed ∈ seeds ->
  hits (RecoverySeedFailuresTotal, [id; seed]) (recovery_calls id la now elapsed call seeds s) =
  Z.of_nat maxAttempts.
Proof.
  intros Hf Hseed. destruct (uniqueOrderedSeeds_spec seeds) as [Hnd Hin]. apply Hin in Hseed.
  unfold recovery_calls. set (us := uniqueOrderedSeeds seeds) in *. clearbody us.
  assert (length us <> 0%nat) as Hlen by (intros H; apply nil_length_inv in H; set_solver).
  apply Nat.eqb_neq in Hlen as Hl. rewrite Hl. generalize 0%nat. generalize maxAttempts as n.
  intros n. induction n as [|n IH]; intros a; [done|]. cbn [attempt_calls].
  pose proof (rotateSeeds_perm us (Nat.modulo a (length us))
    ltac:(by apply Nat.mod_upper_bound)) as Hperm.
  pose proof (seed_calls_fail id la now (call a) (rotateSeeds us (Nat.modulo a (length us))) s ""
    ltac:(intros; apply Hf)) as Hc.
  destruct (seed_calls _ _ _ _ _ _ _ _) as [[cs l] ok]. destruct Hc as [-> ->].
  rewrite !hits_app, IH, failures_hits by (by rewrite Hperm). rewrite decide_True by (by rewrite Hperm).
  rewrite hits_none by (case_match; by repeat constructor). lia.
Qed.

(** The update requests a handler counts. *)
Definition counts_as (x : desc) (r : request) : bool :=
  match r with
  | RqIncrement _ => bool_decide (x = IncrementTotal)
  | RqDecrement _ => bool_decide (x = DecrementTotal)
  | _ => false
  end.

Lemma handler_hits p (r : request) (x : desc) (l : list string) (id : string) :
  s_nodeID (p_service p) = id ->
  hits (x, l) (handler_calls p r) =
  if counts_as x r && bool_decide (l = [id]) then 1 else 0.
Proof.
  intros Hid. destruct r; simpl; unfold hit; simpl; rewrite ?Hid; try done;
    repeat case_decide; repeat case_bool_decide; simplify_eq; simpl; done.
Qed.

(** The outcome of a call decides which calls are made. *)
Lemma grpc_hits ce md p (r : request) (x : desc) (l : list string) :
  process_ok cfg p ->
  hits (x, l) (grpc_calls marshal quote ce md p r) =
  let id := cfg_NodeID cfg in
  match (grpc_call marshal quote ce md p r).2 with
  | Err Unauthenticated =>
      if bool_decide ((x, l) = (AuthRejectedTotal, [id; full_method r])) then 1 else 0
  | Err ResourceExhausted =>
      if bool_decide ((x, l) = (RateLimitedTotal, [id; full_method r])) then 1 else 0
  | _ => if counts_as x r && bool_decide (l = [id]) then 1 else 0
  end.
Proof.
  intros Hok. unfold grpc_calls, grpc_call. rewrite (po_admin _ _ Hok), andb_false_r.
  unfold chain, unaryInterceptors. cbn [fold_right]. unfold auth_Unary, rateLimit_Unary.
  rewrite (po_id _ _ Hok).
  assert (forall y, (if decide (Some y = Some (x, l)) then 1 else 0) + 0 =
    if bool_decide ((x, l) = y) then 1 else 0) as Hone.
  { intros y. rewrite Z.add_0_r. case_decide; case_bool_decide; congruence. }
  destruct (intercept _ _ md tt); [|apply Hone].
  destruct (Allow _ _) as [lim ok]. destruct ok; [|apply Hone]. cbn [negb].
  pose proof (handle_served marshal quote ce (set_limiter p lim) r) as Hs.
  pose proof (handle_evolves marshal quote ce (set_limiter p lim) r) as He.
  destruct (handle _ _ _ _ _) as [p' o]. cbn [fst snd] in *.
  rewrite (handler_hits p' r x l (cfg_NodeID cfg)).
  - destruct o as [| [] |]; done.
  - rewrite (sv_id _ _ (pe_service _ _ He)). exact (po_service _ _ Hok).
Qed.

End counting.

(** ** The events the counters count *)

Section predicates.
Context {D : Type} `{SO : StoreOps D}.
Variable marshal : WALEntry -> string.
Variable quote : string -> string.
Variable elapsed : string -> spec_float.
Variable cfg : Config.
Implicit Types p : Process D.
Abbreviation call_of := (grpc_call marshal quote).
Abbreviation calls_of := (calls marshal quote elapsed cfg).

(** A gRPC call of [method] that is refused for want of the key. *)
Definition unauthenticated (method : string) p (e : event) : bool :=
  match e with
  | EvCall ce md r =>
      match (call_of ce md p r).2 with
      | Err Unauthenticated => String.eqb (full_method r) method
      | _ => false
      end
  | _ => false
  end.

(** A gRPC call of [method] that is refused for want of a token. *)
Definition limited (method : string) p (e : event) : bool :=
  match e with
  | EvCall ce md r =>
      match (call_of ce md p r).2 with
      | Err ResourceExhausted => String.eqb (full_method r) method
      | _ => false
      end
  | _ => false
  end.

(** An update of the kind [x] counts that reaches its handler. *)
Definition updates (x : desc) p (e : event) : bool :=
  match e with
  | EvCall ce md r => counts_as x r && served (call_of ce md p r).2
  | EvHTTP _ r => counts_as x r
  | _ => false
  end.

Definition receives p (e : event) : bool :=
  match e with EvRecv _ u => negb (su_Type u =? HEARTBEAT) | _ => false end.

Definition completes p (e : event) : bool :=
  match e with EvComplete _ _ _ (Some _) => true | _ => false end.

(** Events outside the gRPC server. *)
Lemma other_hits p (e : event) (x : desc) (l : list string) :
  process_ok cfg p -> x <> RecoverySeedFailuresTotal -> x <> RecoveryRetryTotal ->
  (forall ce md r, e <> EvCall ce md r) ->
  hits (x, l) (calls_of p e) =
  let id := cfg_NodeID cfg in
  match e with
  | EvHTTP _ r => if counts_as x r && bool_decide (l = [id]) then 1 else 0
  | EvRecv _ u =>
      if negb (su_Type u =? HEARTBEAT) && bool_decide ((x, l) = (GossipMessagesReceived, [id])) then 1 else 0
  | EvComplete _ _ _ (Some _) => if bool_decide ((x, l) = (GossipMessagesSent, [id])) then 1 else 0
  | _ => 0
  end.
Proof.
  intros Hok H1 H2 Hne. pose proof (process_ok_evolves _ _ _ Hok
    (step_evolves marshal quote cfg p e)) as Hok'.
  destruct e; try done; [by destruct (Hne ce md r)|..]; cbn [calls].
  - apply handler_hits. exact (po_service _ _ Hok').
  - destruct (su_Type update =? HEARTBEAT); [done|]. rewrite (po_service _ _ Hok'). simpl. unfold hit. simpl.
    case_decide; case_bool_decide; simplify_eq; done.
  - destruct response; [|done]. rewrite (po_engine _ _ Hok). simpl. unfold hit. simpl.
    case_decide; case_bool_decide; simplify_eq; done.
  - by apply recovery_hits.
  - by destruct (has_state response).
Qed.

(** Each counter moves exactly at its events. *)
Lemma hits_spec p (e : event) (method : string) :
  process_ok cfg p ->
  let id := cfg_NodeID cfg in
  hits (AuthRejectedTotal, [id; method]) (calls_of p e) = (if unauthenticated method p e then 1 else 0) /\
  hits (RateLimitedTotal, [id; method]) (calls_of p e) = (if limited method p e then 1 else 0) /\
  hits (IncrementTotal, [id]) (calls_of p e) = (if updates IncrementTotal p e then 1 else 0) /\
  hits (DecrementTotal, [id]) (calls_of p e) = (if updates DecrementTotal p e then 1 else 0) /\
  hits (GossipMessagesReceived, [id]) (calls_of p e) = (if receives p e then 1 else 0) /\
  hits (GossipMessagesSent, [id]) (calls_of p e) = (if completes p e then 1 else 0).
Proof.
  intros Hok id.
  assert (forall m, bool_decide ([id; m] = [id]) = false) as Hl2 by (intros; by apply bool_decide_false).
  assert (bool_decide ([id] = [id]) = true) as Hl1 by (by apply bool_decide_true).
  destruct (match e with EvCall _ _ _ => true | _ => false end) eqn:He.
  - destruct e as [ce md r| | | | | | | | | | | | | | | |]; try done.
    cbn [calls unauthenticated limited updates receives completes].
    rewrite !(grpc_hits marshal quote cfg ce md p r _ _ Hok). cbn zeta. fold id.
    assert (forall (x y : desc) (m m' : string), bool_decide ((x, [id; m]) = (y, [id; m'])) =
      bool_decide (x = y) && String.eqb m' m) as Hpair.
    { intros x y m m'. destruct (String.eqb_spec m' m) as [->|Hm].
      - rewrite andb_true_r. apply bool_decide_ext. naive_solver.
      - rewrite andb_false_r. apply bool_decide_false. naive_solver. }
    assert (forall (x y : desc) m, bool_decide ((x, [id]) = (y, [id; m])) = false) as Hl3
      by (intros; apply bool_decide_false; congruence).
    rewrite ?Hpair, ?Hl1, ?Hl2, ?Hl3.
    destruct (call_of ce md p r).2 as [o|[]|]; destruct r; done.
  - assert (forall ce md r, e <> EvCall ce md r) as Hne by (by intros ce md r ->).
    rewrite !other_hits by done. destruct e; try done; cbn zeta; fold id; simpl.
    + rewrite !Hl1, !Hl2. by destruct r.
    + assert (forall x : desc, bool_decide ((x, [id]) = (x, [id])) = true) as Hs
        by (intros; by apply bool_decide_true). rewrite ?Hs.
      by destruct (su_Type update =? HEARTBEAT).
    + destruct response; [|done]. simpl. repeat case_bool_decide; simplify_eq; done.
Qed.

End predicates.

(** ** Properties *)

(** C10: The counters are exact: after any run of a process from its start, the
    metrics of the middleware count for each method the gRPC calls that were
    answered [Unauthenticated] and [ResourceExhausted], those of the handlers the
    updates that were executed over gRPC or HTTP, and those of gossip the messages
    merged and the rounds answered: one each, none missed and none twice. *)
Theorem metrics_exact {D R : Type} `{SO : StoreOps D} `{RL : RegistryLaws R}
    (marshal : WALEntry -> string) (unmarshal : string -> option WALEntry)
    (quote : string -> string) (elapsed : string -> spec_float)
    (cfg : Config) (store : option D) (fs : disk) (io : boot_env) (now : Z) (es : list event) (r : R)
    (method : string) :
  let id := cfg_NodeID cfg in
  let p := wire unmarshal cfg store fs io now in
  let r' := observe_run marshal quote elapsed cfg r p es in
  let count P := tally marshal quote cfg P p es in
  counter_value r' AuthRejectedTotal [id; method] = counter_value r AuthRejectedTotal [id; method] +
    count (unauthenticated marshal quote method) /\
  counter_value r' RateLimitedTotal [id; method] = counter_value r RateLimitedTotal [id; method] +
    count (limited marshal quote method) /\
  counter_value r' IncrementTotal [id] = counter_value r IncrementTotal [id] +
    count (updates marshal quote IncrementTotal) /\
  counter_value r' DecrementTotal [id] = counter_value r DecrementTotal [id] +
    count (updates marshal quote DecrementTotal) /\
  counter_value r' GossipMessagesReceived [id] = counter_value r GossipMessagesReceived [id] + count receives /\
  counter_value r' GossipMessagesSent [id] = counter_value r GossipMessagesSent [id] + count completes.
Proof.
  intros id p r' count. pose proof (wire_ok unmarshal cfg store fs io now) as Hok. fold p in Hok.
  assert (forall (P : Process D -> event -> bool) x, (forall q e, process_ok cfg q ->
    hits x (calls marshal quote elapsed cfg q e) = if P q e then 1 else 0) ->
    counter_value r' x.1 x.2 = counter_value r x.1 x.2 + count P) as Hc.
  { intros P x HP. by apply observe_counts. }
  split_and!; [apply (Hc _ (AuthRejectedTotal, [id; method]))|apply (Hc _ (RateLimitedTotal, [id; method]))
    |apply (Hc _ (IncrementTotal, [id]))|apply (Hc _ (DecrementTotal, [id]))
    |apply (Hc _ (GossipMessagesReceived, [id]))|apply (Hc _ (GossipMessagesSent, [id]))];
    intros p0 e Hp0; by apply (hits_spec marshal quote elapsed cfg p0 e method Hp0).
Qed.

(** The gauge of the counter value is labelled by node only and shows whatever was
    reported last: after an update the value of the counter it named, after a
    merged message the sum over all counters. *)
Theorem gauge_mixes_counters {D R : Type} `{SO : StoreOps D} `{RL : RegistryLaws R}
    (marshal : WALEntry -> string) (quote : string -> string)
    (elapsed : string -> spec_float) (cfg : Config) (p : Process D) (r : R) (ce : call_env)
    (req : UpdateRequest) (io : env) (u : StateUpdate) :
  process_ok cfg p ->
  let value := gauge_value (observe_run marshal quote elapsed cfg r p [EvHTTP ce (RqIncrement req)])
                 CurrentValue [cfg_NodeID cfg] in
  let value' := gauge_value (observe_run marshal quote elapsed cfg r p [EvRecv io u])
                  CurrentValue [cfg_NodeID cfg] in
  let counter e := s_counter (p_service (step marshal quote cfg p e)) in
  value = float_of_int (ValueName (counter (EvHTTP ce (RqIncrement req))) (normalizeName (rq_CounterName req))) /\
  (su_Type u <> HEARTBEAT -> value' = float_of_int (Value (counter (EvRecv io u)))).
Proof.
  intros Hok value value' counter.
  assert (forall e, s_nodeID (p_service (step marshal quote cfg p e)) = cfg_NodeID cfg) as Hid.
  { intros e. apply po_service. eapply process_ok_evolves; [exact Hok|apply step_evolves]. }
  unfold value, value'. cbn [observe_run calls handler_calls]. rewrite !Hid. split.
  - simpl. unfold UpdateCounterValue. by rewrite set_gauge, decide_True.
  - intros Ht%Z.eqb_neq. rewrite Ht. simpl. unfold IncGossipReceived, UpdateCounterValue.
    by rewrite inc_gauge, set_gauge, decide_True.
Qed.

(** ** Witnesses *)

(** A registry in memory. *)
Record memory := mkMemory {
  mem_counts : desc * list string -> Z;
  mem_gauges : desc * list string -> spec_float;
}.

#[export] Instance memory_registry : Registry memory := {
  Inc r d l := mkMemory (fun x => mem_counts r x + (if decide ((d, l) = x) then 1 else 0)) (mem_gauges r);
  Set_ r d l v := mkMemory (mem_counts r) (fun x => if decide ((d, l) = x) then v else mem_gauges r x);
  Observe r d l v := r;
  counter_value r d l := mem_counts r (d, l);
  gauge_value r d l := mem_gauges r (d, l);
}.

#[export] Instance memory_laws : RegistryLaws memory.
Proof. split; intros; done. Qed.

Definition ex_memory : memory := mkMemory (fun _ => 0) (fun _ => float_of_int 0).

(** Of three calls with the key and one without it, one is limited and one
    refused; the others find node information. *)
Lemma metrics_exact_witness :
  let p := @wire _ ex_ops unmarshal_entry (ex_config "a") None ∅ (mkBootEnv true true true) 10 in
  let r := @observe_run _ ex_ops marshal_entry id (fun _ => float_of_int 0) (ex_config "a")
             memory memory_registry ex_memory p ex_burst in
  counter_value r AuthRejectedTotal ["a"; "/counter.CounterService/GetNodeInfo"] = 1 /\
  counter_value r RateLimitedTotal ["a"; "/counter.CounterService/GetNodeInfo"] = 1.
Proof.
  intros p r.
  destruct (@metrics_exact _ memory ex_ops memory_registry memory_laws marshal_entry unmarshal_entry
    id (fun _ => float_of_int 0) (ex_config "a") None ∅ (mkBootEnv true true true) 10 ex_burst ex_memory
    "/counter.CounterService/GetNodeInfo") as (H1 & H2 & _).
  split; [etransitivity; [exact H1|]|etransitivity; [exact H2|]]; vm_compute; reflexivity.
Defined.
