(* ===== verification/Lifecycle.v ===== *)
(** * From start to exit (cmd/server/main.go, internal/tracing/tracing.go)

    What [main] does in which order: the bootstrap, the background goroutines
    with their tickers and contexts, the signal handler and the deferred calls.
    A node is the process of [Process] together with the state of its goroutines;
    [nexec] performs one action of one goroutine, and the actions interleave
    freely. *)

From Stdlib Require Import SpecFloat.
From stdpp Require Import functions.
From S2P Require Import Prelude Lattice PNCounter VectorClock Delta Breaker Membership Bully Swim Codec Wal.
From S2P Require Import Store Messages Service ServiceSpec Durability Gossip Cluster Bootstrap.
From S2P Require Import Float RateLimit Admin Server Process.

(** ** Tracing *)

Record TraceConfig := mkTraceConfig {
  tr_Enabled : bool;
  tr_Endpoint : string;
  tr_ServiceName : string;
  tr_NodeID : string;
  tr_SampleRatio : spec_float;
}.

(** The function [Init] returns: the empty one, or the [Shutdown] of a provider
    that exports with the given settings. *)
Inductive shutdown_fn :=
| NoopShutdown
| ProviderShutdown (cfg : TraceConfig).

(** [exporter_ok] and [resource_ok] are the outcomes of the two constructors of
    the OpenTelemetry SDK; [None] is a nil function. *)
Definition Init (cfg : TraceConfig) (exporter_ok resource_ok : bool) : option shutdown_fn * bool :=
  if negb (tr_Enabled cfg) then (Some NoopShutdown, true)
  else
    let cfg := {| tr_Enabled := tr_Enabled cfg;
      tr_Endpoint := nonempty_or "localhost:4317" (tr_Endpoint cfg);
      tr_ServiceName := nonempty_or "distributed-counter" (tr_ServiceName cfg);
      tr_NodeID := tr_NodeID cfg;
      tr_SampleRatio := if SFleb (tr_SampleRatio cfg) float_zero || SFltb float_one (tr_SampleRatio cfg)
                        then float_one else tr_SampleRatio cfg |} in
    if negb exporter_ok then (None, false)
    else if negb resource_ok then (None, false)
    else (Some (ProviderShutdown cfg), true).

Definition tracing_config (cfg : Config) : TraceConfig :=
  mkTraceConfig (cfg_TracingEnabled cfg) (cfg_TraceEndpoint cfg) "distributed-counter"
    (cfg_NodeID cfg) (cfg_TraceSampleRatio cfg).

(** ** The background goroutines *)

(** [time.NewTicker] panics unless the interval is positive. *)
Definition NewTicker (d : Z) : option Z := if d <=? 0 then None else Some d.

Inductive loop := LElection | LHeartbeat | LStale | LSwim | LSnapshot | LGossip.

#[export] Instance loop_eq_dec : EqDecision loop.
Proof. solve_decision. Defined.

(** The contexts the loops watch. *)
Inductive context := Runtime | SwimCtx | GossipCtx.

#[export] Instance context_eq_dec : EqDecision context.
Proof. solve_decision. Defined.

(** A goroutine that may act once, creates a ticker, and then waits for its
    context or a tick: the events it performs before the ticker exists, if any,
    the ticker, the events of a tick and the context that ends it. *)
Record routine := mkRoutine {
  rt_first : option (event -> bool);
  rt_ticker : option Z;
  rt_body : event -> bool;
  rt_ctx : context;
}.

Definition Bully_Run (b : Bully) : routine :=
  {| rt_first := Some (fun e => match e with EvElect _ _ _ _ => true | _ => false end);
     rt_ticker := NewTicker (b_interval b);
     rt_body := fun e => match e with EvBully _ _ _ _ => true | _ => false end;
     rt_ctx := Runtime |}.

Definition runHeartbeatLoop (interval : Z) : routine :=
  {| rt_first := None; rt_ticker := NewTicker interval;
     rt_body := fun e => match e with EvHeartbeats _ _ => true | _ => false end;
     rt_ctx := Runtime |}.

Definition runFailureDetectionLoop : routine :=
  {| rt_first := None; rt_ticker := NewTicker Second;
     rt_body := fun e => match e with EvStale _ => true | _ => false end;
     rt_ctx := Runtime |}.

Definition Swim_Start (c : SWIMConfig) : routine :=
  {| rt_first := None; rt_ticker := NewTicker (ProtocolPeriod c);
     rt_body := fun e => match e with EvSwim _ => true | _ => false end;
     rt_ctx := SwimCtx |}.

Definition runSnapshotLoop (interval : Z) : routine :=
  let interval := if interval <=? 0 then 30 * Second else interval in
  {| rt_first := None; rt_ticker := NewTicker interval;
     rt_body := fun e => match e with EvSnapshot _ => true | _ => false end;
     rt_ctx := Runtime |}.

Definition Gossip_Start (g : GossipEngine) : routine :=
  {| rt_first := None; rt_ticker := NewTicker (g_interval g);
     rt_body := fun e => match e with EvGossip _ => true | _ => false end;
     rt_ctx := GossipCtx |}.

(** ** The exit *)

Inductive action :=
| RuntimeCancel | SwimStop | GossipStop | GatewayClose | GatewayDrain | GrpcClose | GrpcDrain
| WalClose | StoreClose | FlushTraces | LogSync.

#[export] Instance action_eq_dec : EqDecision action.
Proof. solve_decision. Defined.

(** The signal handler.  Stopping a server is to stop accepting and then to wait
    for what is open: at most five seconds for HTTP requests, without bound for
    gRPC calls. *)
Definition handler : list action :=
  [RuntimeCancel; SwimStop; GossipStop; GatewayClose; GatewayDrain; GrpcClose; GrpcDrain].

(** The deferred calls of [main], pushed as the source reaches them: the store
    and the log only when they could be opened. *)
Definition deferred (store wal : bool) : list action :=
  let stack := [LogSync] in
  let stack := FlushTraces :: stack in
  let stack := if store then StoreClose :: stack else stack in
  let stack := if wal then WalClose :: stack else stack in
  RuntimeCancel :: stack.

(** ** A node *)

(** What [main] still has to do once the servers are up. *)
Inductive instr :=
| IJoin
| IRecovering (b : bool)
| IRecover
| IGo (l : loop)
| IHandle.

Definition main_program : list instr :=
  [IJoin; IRecovering true; IRecover; IRecovering false;
   IGo LElection; IGo LHeartbeat; IGo LStale; IGo LSwim; IGo LSnapshot; IGo LGossip; IHandle].

Inductive rstate := NotStarted | Entered | Looping | Returned.

Inductive ending :=
| Exited (panicked : bool)
| Killed
| Crashed (l : loop)
| MetricsPanic.

(** [n_srv] tells that [gw.Start] has set the gateway's server; [n_calls] counts the
    gRPC calls and streams that are open, [n_requests] the HTTP requests. *)
Record node (D : Type) := mkNode {
  n_process : Process D;
  n_main : list instr;
  n_routine : loop -> rstate;
  n_done : context -> bool;
  n_grpc : bool;
  n_http : bool;
  n_listening : bool;
  n_deferred : list action;
  n_tracing : option shutdown_fn;
  n_todo : option (list action);
  n_performed : list action;
  n_panicked : bool;
  n_end : option ending;
  n_srv : bool;
  n_calls : nat;
  n_requests : nat;
}.

Arguments mkNode {D}.
Arguments n_process {D}.
Arguments n_main {D}.
Arguments n_routine {D}.
Arguments n_done {D}.
Arguments n_grpc {D}.
Arguments n_http {D}.
Arguments n_listening {D}.
Arguments n_deferred {D}.
Arguments n_tracing {D}.
Arguments n_todo {D}.
Arguments n_performed {D}.
Arguments n_panicked {D}.
Arguments n_end {D}.
Arguments n_srv {D}.
Arguments n_calls {D}.
Arguments n_requests {D}.

(** One action: a call or a request that begins or ends, an event of one that is
    open or of a peer round, one of [main], of a goroutine that starts, whose ticker
    fires or whose context is done, the metrics server returning from
    [ListenAndServe], a signal, or the next action of the exit. *)
Inductive label :=
| CallBegin
| CallEnd
| RequestBegin
| RequestEnd
| Serve (e : event)
| Main (e : option event)
| Enter (l : loop) (e : option event)
| Fire (l : loop) (e : event)
| Leave (l : loop)
| MetricsListen (err : bool)
| Signal
| Act (ok : bool).

(** The event an action performs on the process. *)
Definition label_event (l : label) : option event :=
  match l with
  | Serve e | Fire _ e => Some e
  | Main e | Enter _ e => e
  | _ => None
  end.

Section node.
Context {D : Type} `{SO : StoreOps D}.
Variable marshal : WALEntry -> string.
Variable unmarshal : string -> option WALEntry.
Variable quote : string -> string.
Variable cfg : Config.
Implicit Types n : node D.
Implicit Types p : Process D.

Abbreviation pstep := (step marshal quote cfg).
Abbreviation prun := (run marshal quote cfg).

Definition spawned (l : loop) : routine :=
  match l with
  | LElection => Bully_Run (Bully.New (bully_config cfg))
  | LHeartbeat => runHeartbeatLoop (seconds (cfg_HeartbeatInterval cfg))
  | LStale => runFailureDetectionLoop
  | LSwim => Swim_Start (swim_config cfg)
  | LSnapshot => runSnapshotLoop (seconds (cfg_SnapshotIntervalSeconds cfg))
  | LGossip => Gossip_Start (NewGossipEngine (cfg_NodeID cfg) (seconds (cfg_GossipInterval cfg)))
  end.

Definition set_process n p : node D :=
  let '(mkNode _ b c d e f g h i j k l m o q r) := n in mkNode p b c d e f g h i j k l m o q r.

Definition set_main n (x : list instr) : node D :=
  let '(mkNode a _ c d e f g h i j k l m o q r) := n in mkNode a x c d e f g h i j k l m o q r.

Definition set_routine n (lp : loop) (x : rstate) : node D :=
  let '(mkNode a b c d e f g h i j k l m o q r) := n in mkNode a b (<[lp := x]> c) d e f g h i j k l m o q r.

Definition set_done n (x : context) : node D :=
  let '(mkNode a b c d e f g h i j k l m o q r) := n in mkNode a b c (<[x := true]> d) e f g h i j k l m o q r.

Definition set_grpc n (x : bool) : node D :=
  let '(mkNode a b c d _ f g h i j k l m o q r) := n in mkNode a b c d x f g h i j k l m o q r.

Definition set_http n (x : bool) : node D :=
  let '(mkNode a b c d e _ g h i j k l m o q r) := n in mkNode a b c d e x g h i j k l m o q r.

Definition set_listening n : node D :=
  let '(mkNode a b c d e f _ h i j k l m o q r) := n in mkNode a b c d e f true h i j k l m o q r.

Definition set_todo n (x : list action) : node D :=
  let '(mkNode a b c d e f g h i _ k l m o q r) := n in mkNode a b c d e f g h i (Some x) k l m o q r.

Definition set_performed n (x : action) : node D :=
  let '(mkNode a b c d e f g h i j k l m o q r) := n in mkNode a b c d e f g h i j (k ++ [x]) l m o q r.

Definition set_panicked n : node D :=
  let '(mkNode a b c d e f g h i j k _ m o q r) := n in mkNode a b c d e f g h i j k true m o q r.

Definition set_end n (x : ending) : node D :=
  let '(mkNode a b c d e f g h i j k l _ o q r) := n in mkNode a b c d e f g h i j k l (Some x) o q r.

Definition set_calls n (x : nat) : node D :=
  let '(mkNode a b c d e f g h i j k l m o _ r) := n in mkNode a b c d e f g h i j k l m o x r.

Definition set_requests n (x : nat) : node D :=
  let '(mkNode a b c d e f g h i j k l m o q _) := n in mkNode a b c d e f g h i j k l m o q x.

(** The [Stop] methods of the detector and of the engine cancel a context. *)
Definition Swim_Stop n : node D := set_done n SwimCtx.

Definition Gossip_Stop n : node D := set_done n GossipCtx.

(** [gw.Stop]: [Shutdown] closes the listener, unless [Start] has not made a server
    yet, and returns when no request is open or, with an error nobody looks at,
    after five seconds. *)
Definition Gateway_Stop n : node D := if n_srv n then set_http n false else n.

Definition Gateway_Stopped n (in_time : bool) : bool :=
  negb (n_srv n) || negb in_time || (n_requests n =? 0)%nat.

(** [grpcServer.Stop]: [GracefulStop] accepts nothing new and returns when no call
    or stream is open. *)
Definition Grpc_Stop n : node D := set_grpc n false.

Definition Grpc_Stopped n : bool := (n_calls n =? 0)%nat.

(** [wal.Close()] on the log of the service. *)
Definition close_log p (close_ok : bool) : Process D :=
  match s_wal (p_service p) with
  | Some w => set_service p (Service.SetWAL (p_service p) (Some (Close w close_ok).1))
  | None => p
  end.

(** Whether an action can be done; [ok] tells of [GatewayDrain] that the five
    seconds have not passed. *)
Definition ready n (a : action) (ok : bool) : bool :=
  match a with
  | GatewayDrain => Gateway_Stopped n ok
  | GrpcDrain => Grpc_Stopped n
  | _ => true
  end.

(** The effect of an action; calling a nil shutdown function panics, and the
    calls deferred earlier still run. *)
Definition act n (a : action) (close_ok : bool) : node D :=
  match a with
  | RuntimeCancel => set_done n Runtime
  | SwimStop => Swim_Stop n
  | GossipStop => Gossip_Stop n
  | GatewayClose => Gateway_Stop n
  | GrpcClose => Grpc_Stop n
  | WalClose => set_process n (close_log (n_process n) close_ok)
  | GatewayDrain | GrpcDrain | StoreClose | LogSync => n
  | FlushTraces => if n_tracing n is Some _ then n else set_panicked n
  end.

(** The goroutine of [metrics.StartServer]: it panics, and with it the node, when
    it cannot listen or serve. *)
Definition StartServer n (err : bool) : node D := if err then set_end n MetricsPanic else n.

(** Which events reach the process from outside: those of an open call, stream or
    request, which the servers accept while they are up and let run to its end;
    the phases of a gossip round and the election an [Election] call starts run in
    goroutines of their own, which nothing stops. *)
Definition servable n (e : event) : bool :=
  match e with
  | EvCall _ _ _ | EvRecv _ _ => negb (n_calls n =? 0)%nat
  | EvHTTP _ _ => negb (n_requests n =? 0)%nat
  | EvPrepare _ _ _ _ | EvDeliver _ _ _ _ | EvComplete _ _ _ _ | EvElect _ _ _ _ => true
  | _ => false
  end.

Definition instr_event (i : instr) (e : event) : bool :=
  match i, e with
  | IJoin, EvJoin _ => true
  | IRecovering b, EvRecovering b' => Bool.eqb b b'
  | IRecover, (EvRecover _ _ | EvSeedReply _ _) => true
  | _, _ => false
  end.

(** One action; [None] when it is not possible now. *)
Definition nexec n (l : label) : option (node D) :=
  if n_end n is Some _ then None
  else match l with
  | CallBegin => if n_grpc n then Some (set_calls n (S (n_calls n))) else None
  | CallEnd => if n_calls n is S k then Some (set_calls n k) else None
  | RequestBegin => if n_http n then Some (set_requests n (S (n_requests n))) else None
  | RequestEnd => if n_requests n is S k then Some (set_requests n k) else None
  | Serve e => if servable n e then Some (set_process n (pstep (n_process n) e)) else None
  | Main oe =>
      match n_main n, oe with
      | IGo r :: rest, None => Some (set_routine (set_main n rest) r Entered)
      | IHandle :: rest, None => Some (set_listening (set_main n rest))
      | i :: rest, Some e =>
          if instr_event i e then Some (set_main (set_process n (pstep (n_process n) e)) rest) else None
      | _, _ => None
      end
  | Enter r oe =>
      match n_routine n r, rt_first (spawned r), oe with
      | Entered, None, None =>
          Some (if rt_ticker (spawned r) is Some _ then set_routine n r Looping else set_end n (Crashed r))
      | Entered, Some f, Some e =>
          if f e then
            let n := set_process n (pstep (n_process n) e) in
            Some (if rt_ticker (spawned r) is Some _ then set_routine n r Looping else set_end n (Crashed r))
          else None
      | _, _, _ => None
      end
  | Fire r e =>
      match n_routine n r with
      | Looping => if rt_body (spawned r) e then Some (set_process n (pstep (n_process n) e)) else None
      | _ => None
      end
  | Leave r =>
      match n_routine n r with
      | Looping => if n_done n (rt_ctx (spawned r)) then Some (set_routine n r Returned) else None
      | _ => None
      end
  | MetricsListen err => Some (StartServer n err)
  | Signal =>
      if n_listening n then
        match n_todo n with
        | None => Some (set_todo n (handler ++ n_deferred n))
        | Some _ => Some n
        end
      else Some (set_end n Killed)
  | Act ok =>
      match n_todo n with
      | Some (a :: rest) =>
          if ready n a ok then
            let n := set_todo (set_performed (act n a ok) a) rest in
            Some (if rest is [] then set_end n (Exited (n_panicked n)) else n)
          else None
      | _ => None
      end
  end.

Fixpoint nrun n (ls : list label) : option (node D) :=
  match ls with
  | [] => Some n
  | l :: ls => match nexec n l with Some n => nrun n ls | None => None end
  end.

(** The node when the goroutines of both servers have run up to their listeners:
    [main] waits for the gRPC server, at most five seconds, before it goes on.
    [grpc_up] and [http_up] tell whether they could listen. *)
Definition started (store : option D) (fs : disk) (io : boot_env) (now : Z)
    (exporter_ok resource_ok grpc_up http_up : bool) : node D :=
  let p := wire unmarshal cfg store fs io now in
  {| n_process := p; n_main := main_program; n_routine := fun _ => NotStarted;
     n_done := fun _ => false; n_grpc := grpc_up; n_http := http_up; n_listening := false;
     n_deferred := deferred (bool_decide (is_Some (s_store (p_service p))))
                     (bool_decide (is_Some (s_wal (p_service p))));
     n_tracing := (Init (tracing_config cfg) exporter_ok resource_ok).1;
     n_todo := None; n_performed := []; n_panicked := false; n_end := None;
     n_srv := true; n_calls := 0; n_requests := 0 |}.

End node.

(** ** Lemmas *)

(** The largest number of seconds a [time.Duration] holds. *)
Definition max_seconds : Z := 9223372036.

Lemma seconds_in_range (n : Z) : 0 < n <= max_seconds -> seconds n = n * Second.
Proof. unfold seconds, max_seconds, Second. intros H. apply wrap64_id. unfold in_int64. lia. Qed.

Lemma NewTicker_some (d : Z) : 0 < d -> NewTicker d = Some d.
Proof. intros Hd. unfold NewTicker. by case_bool; [lia|]. Qed.

(** Every ticker but that of the heartbeats has a positive interval, whatever
    the configuration. *)
Lemma ticker_positive (cfg : Config) (r : loop) :
  r <> LHeartbeat -> exists d, rt_ticker (spawned cfg r) = Some d /\ 0 < d.
Proof.
  intros Hr. assert (forall d, 0 < d -> exists d', NewTicker d = Some d' /\ 0 < d') as Hd.
  { intros d H. exists d. by rewrite NewTicker_some. }
  destruct r; [|done|..]; apply Hd; cbn [Bully.New b_interval swim_config NewSWIMDetector ProtocolPeriod
    NewGossipEngine g_interval]; unfold Second; repeat case_bool; lia.
Qed.

Section lifecycle.
Context {D : Type} `{SO : StoreOps D}.
Variable marshal : WALEntry -> string.
Variable quote : string -> string.
Variable cfg : Config.
Implicit Types n : node D.
Implicit Types p : Process D.

Abbreviation exec := (nexec marshal quote cfg).
Abbreviation execs := (nrun marshal quote cfg).

Lemma close_log_evolves p (ok : bool) : proc_evolves p (close_log p ok).
Proof.
  unfold close_log. destruct (s_wal (p_service p)) as [w|] eqn:Hw; [|done].
  apply set_service_evolves. destruct (p_service p); simpl in *; subst.
  split; simpl; eauto with process. by split; eauto.
Qed.

(** The action that cancels a context. *)
Definition stop_of (c : context) : action :=
  match c with Runtime => RuntimeCancel | SwimCtx => SwimStop | GossipCtx => GossipStop end.

(** The state of a node after the events [es], started with the process [p0],
    the deferred calls [ds], the tracer [tr] and the servers up as told. *)
Record node_core p0 (ds : list action) (tr : option shutdown_fn) (es : list event) n : Prop := {
  ni_ok : process_ok cfg (n_process n);
  ni_run : WalClose ∉ n_performed n -> n_process n = run marshal quote cfg p0 es;
  ni_deferred : n_deferred n = ds;
  ni_tracing : n_tracing n = tr;
  ni_plan : match n_todo n with
    | None => n_performed n = []
    | Some l => n_performed n ++ l = handler ++ ds
    end;
  ni_done c : stop_of c ∈ n_performed n -> n_done n c = true;
  ni_srv : n_srv n = true;
  ni_http : GatewayClose ∈ n_performed n -> n_http n = false;
  ni_grpc : GrpcClose ∈ n_performed n -> n_grpc n = false;
  ni_calls : GrpcDrain ∈ n_performed n -> n_calls n = 0%nat;
  ni_panicked : n_panicked n = true <-> FlushTraces ∈ n_performed n /\ tr = None;
}.

(** How a node ends. *)
Definition end_ok n : Prop :=
  match n_end n with
  | None => n_todo n <> Some []
  | Some (Exited b) => n_todo n = Some [] /\ b = n_panicked n
  | Some Killed => n_listening n = false
  | Some (Crashed r) => rt_ticker (spawned cfg r) = None
  | Some MetricsPanic => True
  end.

Definition node_inv p0 (ds : list action) (tr : option shutdown_fn) (es : list event) n : Prop :=
  node_core p0 ds tr es n /\ end_ok n.

Lemma process_inv p0 ds tr es n (e : event) :
  n_end n = None -> node_inv p0 ds tr es n ->
  node_inv p0 ds tr (es ++ [e]) (set_process n (step marshal quote cfg (n_process n) e)).
Proof.
  intros He [[H1 H2] Hend]. unfold end_ok in *. destruct n; simpl in *; subst.
  split; [split; simpl; try done|done].
  - eapply process_ok_evolves; [exact H1|apply step_evolves].
  - intros Hw. unfold run. rewrite foldl_app. simpl. by rewrite (H2 Hw).
Qed.

(** An action of [main] or of a goroutine that is not the exit. *)
Lemma routine_inv p0 ds tr es n (r : loop) (x : rstate) :
  node_inv p0 ds tr es n -> node_inv p0 ds tr es (set_routine n r x).
Proof. intros [[] He]. unfold end_ok in *. destruct n; simpl in *. by split. Qed.

Lemma main_inv p0 ds tr es n (x : list instr) :
  node_inv p0 ds tr es n -> node_inv p0 ds tr es (set_main n x).
Proof. intros [[] He]. unfold end_ok in *. destruct n; simpl in *. by split. Qed.

Lemma enter_inv p0 ds tr es n (r : loop) :
  n_end n = None -> node_inv p0 ds tr es n ->
  node_inv p0 ds tr es
    (if rt_ticker (spawned cfg r) is Some _ then set_routine n r Looping else set_end n (Crashed r)).
Proof.
  intros He Hn. destruct (rt_ticker (spawned cfg r)) eqn:Ht; [by apply routine_inv|].
  destruct Hn as [[] _]. destruct n; simpl in *. by split.
Qed.

(** The effect of an action, field by field. *)
Lemma act_frame n (a : action) (ok : bool) :
  let n' := act n a ok in
  n_process n' = (if decide (a = WalClose) then close_log (n_process n) ok else n_process n) /\
  n_deferred n' = n_deferred n /\ n_tracing n' = n_tracing n /\ n_performed n' = n_performed n /\
  n_end n' = n_end n /\
  (forall c, n_done n' c = n_done n c || bool_decide (a = stop_of c)) /\
  n_http n' = n_http n && negb (n_srv n && bool_decide (a = GatewayClose)) /\
  n_grpc n' = n_grpc n && negb (bool_decide (a = GrpcClose)) /\
  n_srv n' = n_srv n /\ n_calls n' = n_calls n /\ n_requests n' = n_requests n /\
  n_panicked n' = n_panicked n || (bool_decide (a = FlushTraces) && negb (bool_decide (is_Some (n_tracing n)))).
Proof.
  destruct n as [? ? ? done_ ? ? ? ? tr ? ? ? ? srv ? ?].
  destruct a; unfold Gateway_Stop; simpl; try (destruct tr; simpl); try (destruct srv; simpl);
    rewrite ?andb_true_r, ?andb_false_r, ?orb_false_r, ?orb_true_r; split_and!; try done;
    intros c; destruct c; simpl; rewrite ?orb_false_r, ?orb_true_r; try done;
    by rewrite fn_lookup_insert_ne || by rewrite fn_lookup_insert.
Qed.

Lemma performed_app (l : list action) (a b : action) : b ∈ l ++ [a] <-> b ∈ l \/ a = b.
Proof. rewrite elem_of_app, list_elem_of_singleton. naive_solver. Qed.

(** Performing the next action of the exit. *)
(** The exit closes the gRPC server before it waits for its calls. *)
Lemma closed_before_drained (l ds : list action) :
  l `prefix_of` handler ++ ds -> GrpcDrain ∈ l -> GrpcClose ∈ l.
Proof.
  intros Hl Hd. destruct (prefix_weak_total l handler (handler ++ ds)) as [[k Hk]|[k ->]]; [done|by eexists| |].
  - unfold handler in Hk. do 8 (destruct l as [|? l]; [set_solver|simpl in Hk; simplify_eq Hk; intros]); set_solver.
  - unfold handler. set_solver.
Qed.

Lemma act_core p0 ds tr es n (a : action) (rest : list action) (ok : bool) :
  n_todo n = Some (a :: rest) -> ready n a ok = true -> node_core p0 ds tr es n ->
  node_core p0 ds tr es (set_todo (set_performed (act n a ok) a) rest).
Proof.
  intros Ht Hrd [H1 H2 H3 H4 H5 H6 Hs H7 H8 Hc9 H9]. rewrite Ht in H5.
  destruct (act_frame n a ok) as (E1 & E2 & E3 & E4 & _ & E6 & E7 & E8 & Es & Ec & _ & E9).
  destruct (act n a ok) as [p ? ? ? ? ? ? ? ? ? ? ? ? ? ? ?]. simpl in *. subst. split; simpl;
    rewrite ?performed_app; try done.
  - case_decide; [|done]. eapply process_ok_evolves; [exact H1|apply close_log_evolves].
  - intros Hw. rewrite decide_False by (intros ->; tauto). apply H2. tauto.
  - by rewrite <- app_assoc.
  - intros c. rewrite performed_app, E6. intros [Hc| ->]; [by rewrite H6|].
    by rewrite bool_decide_true, orb_true_r.
  - intros [Hc| ->]; [by rewrite H7|]. by rewrite Hs, andb_false_r.
  - intros [Hc| ->]; [by rewrite H8|]. by rewrite andb_false_r.
  - intros [Hc| ->]; [by apply Hc9|]. by apply Nat.eqb_eq in Hrd.
  - rewrite orb_true_iff, H9, andb_true_iff, negb_true_iff, bool_decide_eq_true, bool_decide_eq_false.
    rewrite eq_None_not_Some. tauto.
Qed.

Lemma act_inv p0 ds tr es n (a : action) (rest : list action) (ok : bool) :
  n_end n = None -> n_todo n = Some (a :: rest) -> ready n a ok = true -> node_core p0 ds tr es n ->
  let n' := set_todo (set_performed (act n a ok) a) rest in
  node_inv p0 ds tr es (if rest is [] then set_end n' (Exited (n_panicked n')) else n').
Proof.
  intros He Ht Hrd Hn n'. pose proof (act_core p0 ds tr es n a rest ok Ht Hrd Hn) as Hn'. fold n' in Hn'.
  assert (n_end n' = None /\ n_todo n' = Some rest) as [He' Ht'].
  { destruct (act_frame n a ok) as (_ & _ & _ & _ & E & _). unfold n'.
    destruct (act n a ok). simpl in *. by rewrite E. }
  clearbody n'. destruct rest; (split; [|unfold end_ok]).
  - destruct Hn'. destruct n'. by split.
  - by destruct n'.
  - done.
  - by rewrite He', Ht'.
Qed.

(** A call or a request begins or ends. *)
Lemma requests_inv p0 ds tr es n (k : nat) :
  node_inv p0 ds tr es n -> node_inv p0 ds tr es (set_requests n k).
Proof. intros [[] He]. unfold end_ok in *. destruct n; simpl in *. by split. Qed.

Lemma calls_inv p0 ds tr es n (k : nat) :
  (k < n_calls n)%nat \/ n_grpc n = true -> node_inv p0 ds tr es n -> node_inv p0 ds tr es (set_calls n k).
Proof.
  intros Hk [[H1 H2 H3 H4 H5 H6 Hs H7 H8 Hc H9] He]. unfold end_ok in *. destruct n; simpl in *.
  split; [|done]. split; try done. simpl. intros Hd. specialize (Hc Hd). destruct Hk as [Hk|Hk]; [lia|].
  rewrite H8 in Hk; [done|]. apply (closed_before_drained _ ds); [|done].
  destruct n_todo0; [by eexists|]. subst. by apply elem_of_nil in Hd.
Qed.

Lemma nexec_inv p0 ds tr es n (l : label) n' :
  exec n l = Some n' -> node_inv p0 ds tr es n ->
  node_inv p0 ds tr (es ++ option_list (label_event l)) n'.
Proof.
  intros Hx Hn. unfold nexec in Hx. destruct (n_end n) eqn:He; [done|].
  destruct l as [| | | |e|oe|r oe|r e|r|err| |ok]; simpl; [rewrite app_nil_r..| | | | | | | |].
  - case_match; simplify_eq. apply calls_inv; [by right|done].
  - case_match; simplify_eq. apply calls_inv; [left; lia|done].
  - case_match; simplify_eq. by apply requests_inv.
  - case_match; simplify_eq. by apply requests_inv.
  - case_match; simplify_eq. by apply process_inv.
  - destruct (n_main n) as [|i rest]; [by destruct oe|]. destruct oe as [e|]; simpl.
    + assert (instr_event i e = true /\ n' = set_main (set_process n (step marshal quote cfg
        (n_process n) e)) rest) as [_ ->] by (destruct i; by case_match; simplify_eq).
      by apply main_inv, process_inv.
    + rewrite app_nil_r. destruct i; simplify_eq; [by apply routine_inv, main_inv|].
      destruct Hn as [[] Hend]. unfold end_ok in *. destruct n; simpl in *; simplify_eq. by split.
  - destruct (n_routine n r); try done. destruct (rt_first (spawned cfg r)), oe as [e|]; try done; simpl.
    + case_match; simplify_eq. apply enter_inv; [by destruct n|by apply process_inv].
    + simplify_eq. rewrite app_nil_r. by apply enter_inv.
  - repeat case_match; simplify_eq. by apply process_inv.
  - rewrite app_nil_r. repeat case_match; simplify_eq. by apply routine_inv.
  - rewrite app_nil_r. simplify_eq. destruct err; [|done]. destruct Hn as [[] Hend].
    destruct n; simpl in *; simplify_eq. by split.
  - rewrite app_nil_r. destruct (n_listening n) eqn:Hl; [destruct (n_todo n) eqn:Ht|]; simplify_eq.
    + done.
    + destruct Hn as [[H1 H2 H3 H4 H5] Hend]. unfold end_ok in *. destruct n; simpl in *; simplify_eq.
      split; [split; simpl|]; done.
    + destruct Hn as [[] Hend]. unfold end_ok in *. destruct n; simpl in *; simplify_eq. by split.
  - rewrite app_nil_r. destruct (n_todo n) as [[|a rest]|] eqn:Ht; simplify_eq.
    destruct (ready n a ok) eqn:Hrd; simplify_eq. apply act_inv; [done..|apply Hn].
Qed.

Lemma nrun_inv p0 ds tr (ls : list label) :
  forall es n n', execs n ls = Some n' -> node_inv p0 ds tr es n ->
  node_inv p0 ds tr (es ++ omap label_event ls) n'.
Proof.
  induction ls as [|l ls IH]; intros es n n' Hr Hn; simpl in Hr.
  { simplify_eq. by rewrite app_nil_r. }
  destruct (exec n l) as [n1|] eqn:Hx; [|done].
  pose proof (IH _ _ _ Hr (nexec_inv _ _ _ _ _ _ _ Hx Hn)) as H. rewrite <- app_assoc in H.
  simpl. by destruct (label_event l).
Qed.

Lemma nrun_app (ls1 ls2 : list label) n :
  execs n (ls1 ++ ls2) = match execs n ls1 with Some n' => execs n' ls2 | None => None end.
Proof. revert n. induction ls1 as [|l ls1 IH]; intros n; simpl; [done|]. by destruct (exec n l). Qed.

(** Events of a gRPC call or stream, and of an HTTP request. *)
Definition rpc_event (e : event) : bool :=
  match e with EvCall _ _ _ | EvRecv _ _ => true | _ => false end.

Definition http_event (e : event) : bool :=
  match e with EvHTTP _ _ => true | _ => false end.

(** Both servers are down: they accept nothing. *)
Definition down n : Prop := n_grpc n = false /\ n_http n = false.

(** Nothing is open at a server that accepts nothing. *)
Definition grpc_drained n : Prop := n_grpc n = false /\ n_calls n = 0%nat.

Definition http_drained n : Prop := n_http n = false /\ n_requests n = 0%nat.

Definition same_gates n n' : Prop :=
  n_grpc n' = n_grpc n /\ n_http n' = n_http n /\ n_calls n' = n_calls n /\ n_requests n' = n_requests n.

Definition at_gate (l : label) : bool :=
  match l with CallBegin | CallEnd | RequestBegin | RequestEnd | Act _ => true | _ => false end.

(** Everything but a call, a request or an action of the exit leaves the servers
    alone, and performs no event of theirs unless one is open. *)
Lemma nexec_gates n (l : label) n' :
  exec n l = Some n' -> at_gate l = false ->
  same_gates n n' /\
  Forall (fun e => (rpc_event e = true -> n_calls n <> 0%nat) /\ (http_event e = true -> n_requests n <> 0%nat))
    (option_list (label_event l)).
Proof.
  intros Hx Hl. unfold nexec in Hx. destruct (n_end n); [done|]. unfold same_gates.
  destruct l as [| | | |e|oe|r oe|r e|r|err| |ok]; try done; simpl.
  - destruct (servable n e) eqn:Hs; simplify_eq. split; [by destruct n|]. constructor; [|done].
    destruct e; simpl in *; try done; by apply negb_true_iff, Nat.eqb_neq in Hs.
  - destruct (n_main n) as [|i rest]; [by destruct oe|]. destruct oe as [e|].
    + destruct (instr_event i e) eqn:Hi; [|by destruct i].
      assert (n' = set_main (set_process n (step marshal quote cfg (n_process n) e)) rest) as ->
        by (destruct i; by simplify_eq).
      split; [by destruct n|]. constructor; [|done]. by destruct i, e.
    + split; [|done]. destruct i; simplify_eq; by destruct n.
  - destruct (n_routine n r); try done. destruct (rt_first (spawned cfg r)) as [f|] eqn:Hf, oe as [e|]; try done.
    + destruct (f e) eqn:Hfe; simplify_eq. split; [case_match; by destruct n|]. constructor; [|done].
      destruct r; simpl in Hf; simplify_eq. by destruct e.
    + simplify_eq. split; [|done]. case_match; by destruct n.
  - destruct (n_routine n r); try done. destruct (rt_body (spawned cfg r) e) eqn:Hb; simplify_eq.
    split; [by destruct n|]. constructor; [|done]. by destruct r, e.
  - split; [|done]. repeat case_match; simplify_eq; by destruct n.
  - split; [|done]. simplify_eq. destruct err; by destruct n.
  - split; [|done]. repeat case_match; injection Hx as <-; by destruct n.
Qed.

(** A server that is drained stays so and brings no events. *)
Lemma nexec_drained n (l : label) n' :
  exec n l = Some n' ->
  (grpc_drained n -> grpc_drained n' /\ Forall (fun e => rpc_event e = false) (option_list (label_event l))) /\
  (http_drained n -> http_drained n' /\ Forall (fun e => http_event e = false) (option_list (label_event l))).
Proof.
  intros Hx. unfold grpc_drained, http_drained. destruct (at_gate l) eqn:Hl.
  - unfold nexec in Hx. destruct (n_end n); [done|].
    destruct l as [| | | |e|oe|r oe|r e|r|err| |ok]; try done;
      [destruct n; simpl in *; split; intros [? ?]; subst; repeat case_match; by simplify_eq/=..|].
    destruct (n_todo n) as [[|a rest]|]; [done| |done]. destruct (ready n a ok); [|done].
    destruct (act_frame n a ok) as (_ & _ & _ & _ & _ & _ & E7 & E8 & _ & Ec & Er & _).
    injection Hx as <-. split; intros [Hd1 Hd2]; rewrite Hd1, Hd2 in *;
      (split; [|done]); destruct rest; destruct (act n a ok); by simpl in *.
  - destruct (nexec_gates _ _ _ Hx Hl) as [(-> & -> & -> & ->) Hf].
    split; intros [Hd1 Hd2]; (split; [done|]); (eapply Forall_impl; [exact Hf|]);
      intros ev [Hr Hh]; apply not_true_is_false; tauto.
Qed.

Lemma nrun_drained (ls : list label) :
  forall n n', execs n ls = Some n' ->
  (grpc_drained n -> Forall (fun e => rpc_event e = false) (omap label_event ls)) /\
  (http_drained n -> Forall (fun e => http_event e = false) (omap label_event ls)).
Proof.
  induction ls as [|l ls IH]; intros n n' Hr; simpl in *; [done|].
  destruct (exec n l) as [n1|] eqn:Hx; [|done].
  destruct (nexec_drained _ _ _ Hx) as [Hg Hh], (IH _ _ Hr) as [IHg IHh].
  split; intros Hd; [destruct (Hg Hd) as [Hd' Hl]; specialize (IHg Hd')|
    destruct (Hh Hd) as [Hd' Hl]; specialize (IHh Hd')]; destruct (label_event l); try done;
    inversion_clear Hl; by constructor.
Qed.

(** The calls and the requests that are open come to their ends. *)
Lemma calls_end (k : nat) : forall n, n_end n = None -> n_calls n = k ->
  execs n (replicate k CallEnd) = Some (set_calls n 0).
Proof.
  induction k as [|k IH]; intros n He Hk; [destruct n; simpl in *; by subst|].
  cbn [replicate nrun]. unfold nexec at 1. rewrite He, Hk.
  rewrite (IH (set_calls n k)) by by destruct n. by destruct n.
Qed.

Lemma requests_end (k : nat) : forall n, n_end n = None -> n_requests n = k ->
  execs n (replicate k RequestEnd) = Some (set_requests n 0).
Proof.
  induction k as [|k IH]; intros n He Hk; [destruct n; simpl in *; by subst|].
  cbn [replicate nrun]. unfold nexec at 1. rewrite He, Hk.
  rewrite (IH (set_requests n k)) by by destruct n. by destruct n.
Qed.

(** Once no call is open nothing blocks the exit: the gateway is waited for until
    its requests have ended or the time is up. *)
Lemma acts_exit (oks : list bool) :
  forall n (l : list action), n_end n = None -> n_todo n = Some l -> l <> [] -> length oks = length l ->
  n_calls n = 0%nat -> n_requests n = 0%nat \/ Forall (fun ok => ok = false) oks ->
  exists n', execs n (Act <$> oks) = Some n' /\ n_end n' = Some (Exited (n_panicked n')).
Proof.
  induction oks as [|ok oks IH]; intros n [|a rest] He Ht Hl Hlen Hc Hq; try done.
  rewrite fmap_cons. cbn [nrun]. unfold nexec at 1. rewrite He, Ht.
  assert (ready n a ok = true) as ->.
  { destruct a; simpl; try done; unfold Gateway_Stopped, Grpc_Stopped; [|by rewrite Hc].
    destruct Hq as [->|Hq]; [by rewrite orb_true_r|]. inversion_clear Hq. subst. by rewrite orb_true_r. }
  destruct (act_frame n a ok) as (_ & _ & _ & _ & E & _ & _ & _ & _ & Ec & Er & _). rewrite He in E.
  set (n1 := set_todo _ rest).
  assert (n_end n1 = None /\ n_todo n1 = Some rest /\ n_calls n1 = n_calls n /\ n_requests n1 = n_requests n)
    as (He1 & Ht1 & Hc1 & Hr1) by (unfold n1; by destruct (act n a ok)).
  clearbody n1. destruct rest as [|b rest].
  - destruct oks; [|done]. eexists. split; [done|]. by destruct n1.
  - apply (IH n1 (b :: rest)); [done..|simpl in *; lia|congruence|].
    destruct Hq as [Hq|Hq]; [left; congruence|right]. by inversion_clear Hq.
Qed.

End lifecycle.

Lemma plan_contains (store wal : bool) (a : action) :
  a ∈ handler ++ [RuntimeCancel; FlushTraces] -> a ∈ handler ++ deferred store wal.
Proof. revert a. apply Forall_forall. destruct store, wal; by apply (bool_decide_unpack _). Qed.

(** When the log or the store is closed the handler has returned. *)
Lemma handler_done (l rest ds : list action) (a : action) :
  l ++ rest = handler ++ ds -> a = WalClose \/ a = StoreClose -> a ∈ l -> handler `prefix_of` l.
Proof.
  intros Hl Ha Hin. destruct (prefix_weak_total l handler (l ++ rest)) as [[k Hk]|H]; [by eexists| | |done].
  - rewrite Hl. by eexists.
  - assert (a ∈ handler) as Hh by (rewrite Hk; set_solver). unfold handler in Hh. set_unfold.
    destruct Ha as [-> | ->]; naive_solver.
Qed.

Section reached.
Context {D : Type} `{SO : StoreOps D}.
Variable unmarshal : string -> option WALEntry.
Variable cfg : Config.

(** What [main] still does when the signal comes, in the order it does it. *)
Definition shutdown_plan (store : option D) (fs : disk) (io : boot_env) (now : Z) : list action :=
  let s := p_service (wire unmarshal cfg store fs io now) in
  handler ++ deferred (bool_decide (is_Some (s_store s))) (bool_decide (is_Some (s_wal s))).

(** Tracing is on and could not be set up. *)
Definition tracing_failed (exporter_ok resource_ok : bool) : bool :=
  cfg_TracingEnabled cfg && negb (exporter_ok && resource_ok).

Lemma Init_fails (exporter_ok resource_ok : bool) :
  (Init (tracing_config cfg) exporter_ok resource_ok).1 = None <->
  tracing_failed exporter_ok resource_ok = true.
Proof.
  unfold Init, tracing_failed. cbn [tracing_config tr_Enabled].
  by destruct (cfg_TracingEnabled cfg), exporter_ok, resource_ok.
Qed.

Variable marshal : WALEntry -> string.
Variable quote : string -> string.

Lemma started_inv (store : option D) (fs : disk) (io : boot_env) (now : Z)
    (exporter_ok resource_ok grpc_up http_up : bool) :
  let n := started unmarshal cfg store fs io now exporter_ok resource_ok grpc_up http_up in
  node_inv marshal quote cfg (n_process n) (n_deferred n) (n_tracing n) [] n.
Proof.
  intros n. split; [|done]. split; simpl; try done; try (by intros ?%elem_of_nil); [apply wire_ok| |].
  - by intros c ?%elem_of_nil.
  - split; [done|]. by intros [?%elem_of_nil _].
Qed.

End reached.

(** ** Properties *)

(** C7: A node's life: with a loaded configuration whose heartbeat interval is a
    representable duration no background loop crashes the node.  Whatever
    its goroutines, servers and peers do and in whatever order, its process
    is a well-formed one that performed exactly these events (until the log is
    closed), and the exit performs the handler's and the deferred calls in their
    order.  Once it has exited, all contexts are cancelled, both servers are down
    and no gRPC call is open, and it panicked on the way exactly when tracing was
    enabled and could not be initialised. *)
Theorem node_lifecycle {D : Type} `{SO : StoreOps D} (marshal : WALEntry -> string)
    (unmarshal : string -> option WALEntry)
    (quote : string -> string) (loaded : Config) (store : option D) (fs : disk) (io : boot_env)
    (now : Z) (exporter_ok resource_ok grpc_up http_up : bool) (ls : list label) (n : node D) :
  let cfg := with_defaults loaded in
  let plan := shutdown_plan unmarshal cfg store fs io now in
  cfg_HeartbeatInterval cfg <= max_seconds ->
  nrun marshal quote cfg
    (started unmarshal cfg store fs io now exporter_ok resource_ok grpc_up http_up) ls = Some n ->
  process_ok cfg (n_process n) /\
  (WalClose ∉ n_performed n ->
   n_process n = run marshal quote cfg (wire unmarshal cfg store fs io now)
                   (omap label_event ls)) /\
  n_performed n `prefix_of` plan /\
  (forall r, n_end n <> Some (Crashed r)) /\
  (forall b, n_end n = Some (Exited b) ->
   n_performed n = plan /\ (forall c, n_done n c = true) /\ down n /\ n_calls n = 0%nat /\
   b = tracing_failed cfg exporter_ok resource_ok).
Proof.
  intros cfg plan Hhb Hrun.
  destruct (nrun_inv _ _ _ _ _ _ _ _ _ _ Hrun (started_inv unmarshal cfg marshal quote
    store fs io now exporter_ok resource_ok grpc_up http_up))
    as [[H1 H2 H3 H4 H5 H6 _ H7 H8 Hc H9] Hend]. cbn [app] in H2.
  fold (shutdown_plan unmarshal cfg store fs io now) in H5.
  cbn [started n_deferred] in H5. fold (shutdown_plan unmarshal cfg store fs io now) in H5. fold plan in H5.
  unfold end_ok in Hend. split_and!; [done|done| | |].
  - destruct (n_todo n); [by eexists|]. rewrite H5. apply prefix_nil.
  - intros r Hr. rewrite Hr in Hend. destruct (decide (r = LHeartbeat)) as [->|Hne].
    + cbn [spawned runHeartbeatLoop rt_ticker] in Hend.
      destruct (with_defaults_spec loaded) as (_ & _ & Hpos & _). fold cfg in Hpos.
      rewrite seconds_in_range, NewTicker_some in Hend by (unfold Second; lia). done.
    + destruct (ticker_positive cfg r Hne) as (d & Hd & _). congruence.
  - intros b Hb. rewrite Hb in Hend. destruct Hend as [Ht ->]. rewrite Ht, app_nil_r in H5.
    assert (forall a, a ∈ handler ++ [RuntimeCancel; FlushTraces] -> a ∈ n_performed n) as Hin.
    { intros a Ha. rewrite H5. by apply plan_contains. }
    split_and!; [done| | |apply Hc, Hin; by apply (bool_decide_unpack _)|].
    + intros c. apply H6, Hin. destruct c; by apply (bool_decide_unpack _).
    + split; [apply H8|apply H7]; apply Hin; by apply (bool_decide_unpack _).
    + apply eq_true_iff_eq. rewrite H9, <- Init_fails. split; [by intros []|]. intros Hi. split; [|done].
      apply Hin. by apply (bool_decide_unpack _).
Qed.

(** C9: The shutdown ends and is orderly, as far as the servers' waits make it so.
    Once the signal was received, whatever happened before: the exit waits for the
    gRPC calls and streams that are open, and takes no step past that wait while
    one is; when they have ended the remaining actions run to the exit, whether the
    HTTP requests end in time or the five seconds pass.  From the moment the log or
    the store is closed no gRPC call and no message of a peer is handled any more;
    an HTTP request is handled exactly if it was still open then, because the
    gateway gave up waiting for it, and if none was open none is handled later.
    (Ticks and gossip rounds under way are not waited for.) *)
Theorem shutdown_orderly {D : Type} `{SO : StoreOps D} (marshal : WALEntry -> string)
    (unmarshal : string -> option WALEntry)
    (quote : string -> string) (cfg : Config) (store : option D) (fs : disk) (io : boot_env)
    (now : Z) (exporter_ok resource_ok grpc_up http_up : bool) (ls : list label) (n : node D)
    (rest : list action) :
  nrun marshal quote cfg
    (started unmarshal cfg store fs io now exporter_ok resource_ok grpc_up http_up) ls = Some n ->
  n_end n = None -> n_todo n = Some rest ->
  (head rest = Some GrpcDrain -> n_calls n <> 0%nat -> forall ok, nexec marshal quote cfg n (Act ok) = None) /\
  (forall oks, length oks = length rest ->
   exists n', nrun marshal quote cfg n
     (replicate (n_calls n) CallEnd ++ replicate (n_requests n) RequestEnd ++ (Act <$> oks)) = Some n' /\
     n_end n' = Some (Exited (n_panicked n'))) /\
  (exists n', nrun marshal quote cfg n
     (replicate (n_calls n) CallEnd ++ replicate (length rest) (Act false)) = Some n' /\
     n_end n' = Some (Exited (n_panicked n'))) /\
  (forall a, a = WalClose \/ a = StoreClose -> a ∈ n_performed n ->
   (forall ls' n', nrun marshal quote cfg n ls' = Some n' ->
    Forall (fun e => rpc_event e = false) (omap label_event ls') /\
    (n_requests n = 0%nat -> Forall (fun e => http_event e = false) (omap label_event ls'))) /\
   (forall ce rq, is_Some (nexec marshal quote cfg n (Serve (EvHTTP ce rq))) <-> n_requests n <> 0%nat)).
Proof.
  intros Hrun He Ht.
  destruct (nrun_inv _ _ _ _ _ _ _ _ _ _ Hrun (started_inv unmarshal cfg marshal quote
    store fs io now exporter_ok resource_ok grpc_up http_up))
    as [[_ _ _ _ H5 _ _ H7 H8 Hc _] Hend]. rewrite Ht in H5.
  unfold end_ok in Hend. rewrite He, Ht in Hend. assert (rest <> []) as Hne by by intros ->. split_and!.
  - intros Hd Hcalls ok. unfold nexec. rewrite He, Ht. destruct rest as [|a rest]; [done|].
    injection Hd as ->. cbn [ready]. unfold Grpc_Stopped. by apply Nat.eqb_neq in Hcalls as ->.
  - intros oks Hl. rewrite nrun_app, calls_end, nrun_app, requests_end by (done || by destruct n).
    apply (acts_exit marshal quote cfg oks _ rest); try done; [by destruct n..|left; by destruct n].
  - rewrite nrun_app, calls_end by done.
    destruct (acts_exit marshal quote cfg (replicate (length rest) false) (set_calls n 0) rest) as (n' & Hn' & Hx);
      try done; [by destruct n..|by rewrite length_replicate|by destruct n| |].
    + right. by apply Forall_replicate.
    + exists n'. split; [|done]. by rewrite fmap_replicate in Hn'.
  - intros a Ha Hin. assert (handler `prefix_of` n_performed n) as [k Hk]
      by (eapply handler_done; [exact H5|exact Ha|exact Hin]).
    assert (forall b, b ∈ handler -> b ∈ n_performed n) as Hh by (intros b Hb; rewrite Hk; set_solver).
    split.
    + intros ls' n' Hrun'. destruct (nrun_drained _ _ _ _ _ _ Hrun') as [Hg Hht]. split.
      * apply Hg. split; [apply H8|apply Hc]; apply Hh; unfold handler; set_solver.
      * intros Hq. apply Hht. split; [apply H7, Hh; unfold handler; set_solver|done].
    + intros ce rq. unfold nexec. rewrite He. cbn [servable].
      destruct (Nat.eqb_spec (n_requests n) 0); cbn [negb]; rewrite ?is_Some_alt; tauto.
Qed.

(** The tickers: with a loaded configuration every background loop but that
    of the heartbeats gets a positive interval, whatever numbers the file holds;
    the heartbeat loop gets the configured number of seconds as long as it is a
    representable duration, and panics exactly when the product wraps to a
    non-positive one. *)
Theorem tickers_start (loaded : Config) :
  let cfg := with_defaults loaded in
  let hb := cfg_HeartbeatInterval cfg in
  (forall r, r <> LHeartbeat -> exists d, rt_ticker (spawned cfg r) = Some d /\ 0 < d) /\
  (hb <= max_seconds -> rt_ticker (spawned cfg LHeartbeat) = Some (hb * Second)) /\
  (rt_ticker (spawned cfg LHeartbeat) = None <-> wrap64 (hb * Second) <= 0).
Proof.
  intros cfg hb. destruct (with_defaults_spec loaded) as (_ & _ & Hpos & _). split_and!.
  - apply ticker_positive.
  - intros Hle. cbn [spawned runHeartbeatLoop rt_ticker].
    rewrite seconds_in_range by (split; [exact Hpos|exact Hle]).
    apply NewTicker_some. fold cfg hb in Hpos. unfold Second. lia.
  - cbn [spawned runHeartbeatLoop rt_ticker]. unfold NewTicker. fold hb.
    change (wrap64 (hb * Second)) with (seconds hb). case_bool; split; (done || lia).
Qed.

(** ** Witnesses *)

(** A node with tracing on. *)
Definition ex_traced : Config :=
  mkConfig "a" 50051 9090 8080 "a:50051" [] 5 3 10 false "" "" 0 true "data" 30 1 2 3 true "k" 2
    false true "" float_one 4 1 2.

Definition ex_request : event :=
  EvHTTP (mkCallEnv (calm 10) None (fun _ => None)) (RqIncrement (mkUpdateRequest 3 "c" 1 "")).

(** The whole start of [main], an election, a tick, an HTTP request that does not
    end, the signal, and a tick of a loop whose context is already cancelled. *)
Definition ex_life : list label :=
  [Main (Some (EvJoin (fun _ => JoinFailed)));
   Main (Some (EvRecovering true));
   RequestBegin; Serve ex_request;
   Main (Some (EvRecover (fun _ _ _ => SeedDialErr) 10));
   Main (Some (EvRecovering false));
   Main None; Enter LElection (Some (EvElect (fun _ _ => Unreachable) [] 10 []));
   Main None; Main None; Main None; Main None; Main None; Main None;
   Enter LStale None; Fire LStale (EvStale 20); Signal; Act true; Fire LStale (EvStale 30); Leave LStale].

Definition ex_started (exporter_ok : bool) : node RedisStore :=
  @started _ ex_ops unmarshal_entry (with_defaults ex_traced) None ∅ (mkBootEnv true true true) 10
    exporter_ok true true true.

Abbreviation ex_run n ls := (@nrun _ ex_ops marshal_entry id (with_defaults ex_traced) n ls).

(** The exit after it: the log is closed, and the nil shutdown function of a
    tracer that could not be set up panics. *)
Lemma node_lifecycle_witness :
  exists n, ex_run (ex_started false) (ex_life ++ RequestEnd :: (Act <$> repeat true 10)) = Some n /\
    n_performed n = handler ++ [RuntimeCancel; WalClose; FlushTraces; LogSync] /\
    n_end n = Some (Exited true).
Proof.
  destruct (ex_run (ex_started false) (ex_life ++ RequestEnd :: (Act <$> repeat true 10))) as [n|] eqn:Hn;
    [|exfalso; vm_compute in Hn; discriminate Hn].
  exists n. split; [reflexivity|].
  assert (n_end n = Some (Exited true)) as He.
  { pose proof (f_equal (fmap n_end) Hn) as He. vm_compute in He. by injection He. }
  destruct (@node_lifecycle _ ex_ops marshal_entry unmarshal_entry id ex_traced None ∅
    (mkBootEnv true true true) 10 false true true true
    (ex_life ++ RequestEnd :: (Act <$> repeat true 10)) n) as (_ & _ & _ & _ & Hx);
    [vm_compute; discriminate|exact Hn|].
  destruct (Hx true He) as (Hp & _). split; [rewrite Hp; vm_compute; reflexivity|exact He].
Defined.

(** The gateway gives up waiting for the request, and the log is closed four
    actions later: no message of a peer gets in, but the request goes on. *)
Definition ex_overdue : list label := ex_life ++ (Act <$> [true; true; true; false; true; true; true; true]).

Lemma shutdown_orderly_witness :
  exists n, ex_run (ex_started true) ex_overdue = Some n /\
    n_todo n = Some [FlushTraces; LogSync] /\
    (exists n', ex_run n [RequestEnd; Act true; Act true] = Some n' /\
       n_end n' = Some (Exited (n_panicked n'))) /\
    ex_run n [Serve (EvRecv (calm 40) (mkStateUpdate "b" ∅ ∅ ∅ 0 FULL_STATE 0 ∅))] = None /\
    is_Some (@nexec _ ex_ops marshal_entry id (with_defaults ex_traced) n (Serve ex_request)).
Proof.
  destruct (ex_run (ex_started true) ex_overdue) as [n|] eqn:Hn; [|exfalso; vm_compute in Hn; discriminate Hn].
  exists n. split; [reflexivity|].
  assert (forall (A : Type) (f : node RedisStore -> A) (x : A),
    f <$> ex_run (ex_started true) ex_overdue = Some x -> f n = x) as Hf
    by (intros A f x; rewrite Hn; by injection 1).
  assert (n_todo n = Some [FlushTraces; LogSync]) as Ht by (apply Hf; vm_compute; reflexivity).
  assert (n_end n = None) as He by (apply Hf; vm_compute; reflexivity).
  assert (n_calls n = 0%nat) as Hc by (apply Hf; vm_compute; reflexivity).
  assert (n_requests n = 1%nat) as Hr by (apply Hf; vm_compute; reflexivity).
  assert (n_performed n = handler ++ [RuntimeCancel; WalClose]) as Hp by (apply Hf; vm_compute; reflexivity).
  assert (WalClose ∈ n_performed n) as Hw by (rewrite Hp; by_eval).
  destruct (@shutdown_orderly _ ex_ops marshal_entry unmarshal_entry id (with_defaults ex_traced)
    None ∅ (mkBootEnv true true true) 10 true true true true _ n _ Hn He Ht) as (_ & H1 & _ & H2).
  rewrite Hc, Hr in H1. destruct (H2 WalClose (or_introl eq_refl) Hw) as [H3 H4].
  split; [exact Ht|]. split; [exact (H1 [true; true] eq_refl)|]. split.
  - destruct (ex_run n _) as [n'|] eqn:Hs; [|reflexivity].
    destruct (H3 _ n' Hs) as [Hno _]. inversion Hno as [|? ? Hx]. discriminate Hx.
  - apply H4. rewrite Hr. discriminate.
Defined.

Lemma tickers_start_witness :
  rt_ticker (spawned (with_defaults ex_traced) LHeartbeat) = Some (3 * Second) /\
  rt_ticker (spawned (with_defaults ex_traced) LElection) = Some (2 * Second).
Proof.
  destruct (tickers_start ex_traced) as (H1 & H2 & _). split.
  - apply H2. vm_compute. discriminate.
  - destruct (H1 LElection) as (d & Hd & _); [discriminate|]. vm_compute in Hd. injection Hd as <-.
    vm_compute. reflexivity.
Defined.
