(* ===== verification/Heartbeat.v ===== *)
(** * Heartbeats between processes (cmd/server/main.go, pkg/grpcutil/dial.go)

    [sendHeartbeats] of one process and the [Heartbeat] handler of another,
    through the client's credentials and the server's middleware. *)

From Stdlib Require Import SpecFloat.
From S2P Require Import Prelude Lattice PNCounter VectorClock Delta Breaker Membership Bully Swim Codec Wal.
From S2P Require Import Store Messages Service ServiceSpec Durability Gossip Cluster Bootstrap.
From S2P Require Import Float RateLimit Admin Server Process.

(** The message of [pingHeartbeat]. *)
Definition heartbeat_request (nodeID localAddress : string) (priority : Z) (leaderID : string)
    (now : Z) : HeartbeatRequest :=
  {| hb_NodeId := nodeID; hb_CurrentValue := 0; hb_Timestamp := time_Unix now;
     hb_Address := localAddress; hb_Priority := priority; hb_LeaderId := leaderID |}.

(** [rpc address req] is the answer to the call, [None] when the address cannot
    be dialed. *)
Definition pingHeartbeat (rpc : string -> HeartbeatRequest -> option outcome)
    (address nodeID localAddress : string) (priority : Z) (leaderID : string) (now : Z) : bool :=
  match rpc address (heartbeat_request nodeID localAddress priority leaderID now) with
  | Some (Ok _) => true
  | _ => false
  end.

Section exchange.
Context {D : Type} `{SO : StoreOps D}.
Variable marshal : WALEntry -> string.
Variable quote : string -> string.
Implicit Types p q : Process D.

(** The priority and the leader the loop reads once per tick. *)
Definition heartbeat_of p (now : Z) : HeartbeatRequest :=
  let '(priority, leaderID) := match s_bully (p_service p) with
    | Some b => (b_priority b, LeaderID b)
    | None => (0, "")
    end in
  heartbeat_request (p_nodeID p) (p_address p) priority leaderID now.

(** The whole tick: the acknowledgements come from the calls. *)
Definition heartbeat_tick (cfg : Config) (rpc : string -> HeartbeatRequest -> option outcome) p (now : Z) :
    Process D :=
  let req := heartbeat_of p now in
  step marshal quote cfg p (EvHeartbeats (fun address =>
    pingHeartbeat rpc address (hb_NodeId req) (hb_Address req) (hb_Priority req) (hb_LeaderId req) now) now).

(** The call [p] makes, as the process [q] serves it. *)
Definition deliver_heartbeat (cfg : Config) (ce : call_env) p q (now : Z) : Process D * outcome :=
  grpc_call marshal quote ce (client_metadata (cfg_APIKey cfg)) q (RqHeartbeat (heartbeat_of p now)).

(** The table of a process. *)
Definition table p : Membership := default (NewMembership (p_nodeID p)) (s_cluster (p_service p)).

(** The server of [q] lets the client of [p] through. *)
Definition accepts (cfg : Config) q (ce : call_env) : bool :=
  authentic q (client_metadata (cfg_APIKey cfg)) &&
  (Allow (limiter (srv_rateLimit (p_server q))) (e_now (ce_io ce))).2.

Lemma deliver_heartbeat_cases cfg ce p q now :
  let '(q', o) := deliver_heartbeat cfg ce p q now in
  if accepts cfg q ce
  then exists l, handle marshal quote ce (set_limiter q l) (RqHeartbeat (heartbeat_of p now)) = (q', o)
  else table q' = table q /\ exists c, o = Err c.
Proof.
  unfold deliver_heartbeat, accepts. rewrite grpc_call_eq by done.
  destruct (authentic q _); [|simpl; eauto]. destruct (Allow _ _) as [l allowed]. simpl.
  destruct allowed; [|simpl; eauto]. destruct (Heartbeat _ _ _) as [s r] eqn:Hh. by exists l.
Qed.

(** A server that wants the client's key, or none, lets the client pass. *)
Lemma authentic_client (cfg cfg' : Config) q :
  process_ok cfg' q ->
  cfg_AuthEnabled cfg' = false \/ (cfg_APIKey cfg' = cfg_APIKey cfg /\ cfg_APIKey cfg <> "") ->
  authentic q (client_metadata (cfg_APIKey cfg)) = true.
Proof.
  intros Hq Hkey. unfold authentic. rewrite (po_auth _ _ Hq). cbn [NewAuthInterceptor enabled].
  destruct Hkey as [->|[Hk Hne]]; [done|]. cbn [NewAuthInterceptor enabled]. rewrite Hk.
  apply orb_true_iff. right.
  unfold client_metadata, authorized. cbn [apiKey NewAuthInterceptor]. apply String.eqb_neq in Hne. rewrite Hne.
  apply String.eqb_eq, TrimPrefix_spec. by left.
Qed.

Lemma heartbeat_of_ok (cfg : Config) p (now : Z) :
  process_ok cfg p ->
  hb_NodeId (heartbeat_of p now) = cfg_NodeID cfg /\ hb_Address (heartbeat_of p now) = p_address p /\
  hb_Timestamp (heartbeat_of p now) = time_Unix now /\
  hb_Priority (heartbeat_of p now) = cfg_NodePriority cfg.
Proof.
  intros Hp. unfold heartbeat_of. destruct (po_bully _ _ Hp) as (b & -> & Hb).
  unfold identity in Hb. simplify_eq Hb. intros _ Hpr _. cbn. by rewrite (po_id _ _ Hp), Hpr.
Qed.

(** The tick of the sender, seen at one peer. *)
Lemma heartbeat_tick_member (cfg : Config) rpc p (now : Z) (id : string) (mem : Member) :
  process_ok cfg p -> members (table p) !! id = Some mem -> id <> cfg_NodeID cfg -> Address mem <> p_address p ->
  let ok := match rpc (Address mem) (heartbeat_of p now) with Some (Ok _) => true | _ => false end in
  exists mem', members (table (heartbeat_tick cfg rpc p now)) !! id = Some mem' /\
    mStatus mem' = (if ok then StatusAlive else
      match mStatus mem with StatusAlive => StatusSuspect | s => s end) /\
    (ok = true -> LastHeartbeat mem' = now /\ SuspectCount mem' = 0).
Proof.
  intros Hp Hmem Hne Hla ok. destruct (po_table _ _ Hp) as (m & Hm & _ & Hok & _).
  unfold table in *. rewrite Hm in Hmem. simpl in Hmem.
  set (hb := fun address => pingHeartbeat rpc address (hb_NodeId (heartbeat_of p now))
    (hb_Address (heartbeat_of p now)) (hb_Priority (heartbeat_of p now)) (hb_LeaderId (heartbeat_of p now)) now).
  assert (hb (Address mem) = ok) as Hhb.
  { unfold hb, pingHeartbeat, ok, heartbeat_of. by destruct (s_bully (p_service p)). }
  destruct (sendHeartbeats_spec hb (p_nodeID p) (p_address p) now m id mem)
    as (mem' & H1 & H2 & H3 & _); [done|done|by rewrite (po_id _ _ Hp)|done|].
  rewrite Hhb in *. exists mem'. split; [|done].
  unfold heartbeat_tick. fold hb. cbn [step]. unfold on_table. rewrite Hm. by destruct (p_service p).
Qed.

End exchange.

(** ** Properties *)

(** C8: Heartbeats tie the nodes together, as long as the peer's server lets them
    through: then the peer registers the sender as an Alive member, at the
    address and with the priority the sender is configured with, and the sender
    holds the peer Alive with no suspicion.  Otherwise the peer's table stays as it
    is and the sender suspects the peer if it held it Alive, although the peer
    answered.  With matching keys the passage depends on the peer's one token
    bucket alone, the one its clients' calls drain. *)
Theorem heartbeat_exchange {D : Type} `{SO : StoreOps D} (marshal : WALEntry -> string)
    (quote : string -> string) (cfg cfg' : Config)
    (p q : Process D) (ce : call_env) (rpc : string -> HeartbeatRequest -> option outcome) (now : Z)
    (mem : Member) :
  let sent := deliver_heartbeat marshal quote cfg ce p q now in
  let p' := heartbeat_tick marshal quote cfg rpc p now in
  process_ok cfg p -> process_ok cfg' q -> p_address p <> "" -> cfg_NodeID cfg' <> cfg_NodeID cfg ->
  members (table p) !! cfg_NodeID cfg' = Some mem -> Address mem <> p_address p ->
  rpc (Address mem) (heartbeat_of p now) = Some sent.2 ->
  (accepts cfg q ce = true ->
   (exists x, members (table sent.1) !! cfg_NodeID cfg = Some x /\ mStatus x = StatusAlive /\
      Address x = p_address p /\ LastHeartbeat x = unix_Time (time_Unix now) /\
      (0 < cfg_NodePriority cfg -> Priority x = cfg_NodePriority cfg)) /\
   (exists y, members (table p') !! cfg_NodeID cfg' = Some y /\ mStatus y = StatusAlive /\
      LastHeartbeat y = now /\ SuspectCount y = 0)) /\
  (accepts cfg q ce = false ->
   table sent.1 = table q /\
   exists y, members (table p') !! cfg_NodeID cfg' = Some y /\
     mStatus y = match mStatus mem with StatusAlive => StatusSuspect | s => s end) /\
  (cfg_AuthEnabled cfg' = false \/ (cfg_APIKey cfg' = cfg_APIKey cfg /\ cfg_APIKey cfg <> "") ->
   accepts cfg q ce = (Allow (limiter (srv_rateLimit (p_server q))) (e_now (ce_io ce))).2).
Proof.
  intros sent p' Hp Hq Hpa Hne Hmem Hla Hrpc.
  destruct (heartbeat_tick_member marshal quote cfg rpc p now _ mem Hp Hmem Hne Hla)
    as (y & Hy & Hys & Hyt). fold p' in Hy. rewrite Hrpc in Hys, Hyt.
  pose proof (deliver_heartbeat_cases marshal quote cfg ce p q now) as Hd. fold sent in Hd.
  destruct sent as [q' o]. cbn [fst snd] in *. split_and!.
  - intros Ha. rewrite Ha in Hd. destruct Hd as [l Hd]. cbn [handle] in Hd.
    destruct (po_table _ _ Hq) as (m & Hm & _ & Hok & _).
    destruct (Heartbeat _ _ _) as [s r] eqn:Hh. injection Hd as <- <-.
    destruct (heartbeat_of_ok cfg p now Hp) as (E1 & E2 & E3 & E4).
    destruct (Heartbeat_registers _ _ m _ _ _ Hm Hok Hh)
      as (m' & x & Hm' & _ & Hx & H1 & H2 & H3 & H4 & _).
    rewrite E1 in Hx. rewrite E2 in H2. rewrite E3 in H3. rewrite E4 in H4.
    split; [exists x|exists y; tauto]. unfold table. cbn [set_service p_service]. rewrite Hm'.
    apply String.eqb_neq in Hpa. rewrite Hpa in H2. by split_and!.
  - intros Ha. rewrite Ha in Hd. destruct Hd as [Ht [c ->]]. split; [done|]. by exists y.
  - intros Hk. unfold accepts. by rewrite (authentic_client cfg cfg' q Hq Hk).
Qed.

(** ** Witnesses *)

(** Node a, which was told of node b; node b, and node b after its clients took
    both its tokens. *)
Definition ex_boot (id : string) : Process RedisStore :=
  @wire _ ex_ops unmarshal_entry (ex_config id) None ∅ (mkBootEnv true true true) 10.

Definition ex_run (name : string) (es : list event) : Process RedisStore :=
  @run _ ex_ops marshal_entry id (ex_config name) (ex_boot name) es.

Definition ex_env : call_env := mkCallEnv (calm 10) None (fun _ => None).

Definition ex_a : Process RedisStore := ex_run "a" [EvHTTP ex_env (RqAddNode "b" "b:50051")].

Lemma ex_run_ok (name : string) (es : list event) : process_ok (ex_config name) (ex_run name es).
Proof. eapply process_ok_evolves; [apply (@wire_ok _ ex_ops)|apply (@run_evolves _ ex_ops)]. Qed.

Definition ex_rpc (q : Process RedisStore) (address : string) (req : HeartbeatRequest) : option outcome :=
  Some (@grpc_call _ ex_ops marshal_entry id ex_env (client_metadata "k") q (RqHeartbeat req)).2.

Definition ex_status (q : Process RedisStore) : option Status :=
  mStatus <$> members (table (@heartbeat_tick _ ex_ops marshal_entry id (ex_config "a")
    (ex_rpc q) ex_a 10)) !! "b".

Lemma heartbeat_exchange_witness :
  ex_status (ex_run "b" []) = Some StatusAlive /\ ex_status (ex_run "b" ex_burst) = Some StatusSuspect.
Proof.
  assert (exists mem, members (table ex_a) !! "b" = Some mem /\ Address mem = "b:50051" /\
    mStatus mem = StatusAlive) as (mem & Hmem & Ha & Hs)
    by (vm_compute; eexists; split; [reflexivity|split; reflexivity]).
  assert (forall es, let q := ex_run "b" es in
    (accepts (ex_config "a") q ex_env = true -> ex_status q = Some StatusAlive) /\
    (accepts (ex_config "a") q ex_env = false -> ex_status q = Some StatusSuspect)) as H.
  { intros es q.
    destruct (@heartbeat_exchange _ ex_ops marshal_entry id (ex_config "a") (ex_config "b")
      ex_a q ex_env (ex_rpc q) 10 mem) as (H1 & H2 & _).
    - apply ex_run_ok.
    - apply ex_run_ok.
    - vm_compute. discriminate.
    - discriminate.
    - exact Hmem.
    - rewrite Ha. vm_compute. discriminate.
    - reflexivity.
    - split; intros Hacc.
      + destruct (H1 Hacc) as [_ (y & Hy & Hys & _)]. unfold ex_status.
        cbn [cfg_NodeID ex_config] in Hy. rewrite Hy. simpl. by rewrite Hys.
      + destruct (H2 Hacc) as [_ (y & Hy & Hys)]. unfold ex_status.
        cbn [cfg_NodeID ex_config] in Hy. rewrite Hy. simpl. by rewrite Hys, Hs. }
  split; apply H; vm_compute; reflexivity.
Defined.
