(* ===== verification/Client.v ===== *)
(** * Clients (pkg/grpcutil/dial.go, api/proto/counter_grpc.pb.go, cmd/test-client/main.go)

    What a connection attaches to its calls, the generated client stubs, and the
    command-line client as a session of calls on a server.  The connection is the
    function [Invoke] on the state of the server behind it; [Conn_Invoke] is the
    one to a process of this program. *)

From Stdlib Require Import SpecFloat.
From S2P Require Import Prelude Lattice PNCounter VectorClock Delta Breaker Membership Bully Swim Codec Wal.
From S2P Require Import Store Messages Service ServiceSpec Durability Gossip Cluster Bootstrap.
From S2P Require Import Float RateLimit Admin Server Process.

(** ** Dialling *)

(** The options the code passes; those of the transport and of the tracing have no
    effect on a call. *)
Inductive DialOption :=
| WithTransportCredentials
| WithStatsHandler
| WithPerRPCCredentials (key : string)
| WithCompressor (name : string)
| WithBlock.

Definition DialOptions (apiKey : string) (compression : bool) : list DialOption :=
  [WithTransportCredentials; WithStatsHandler] ++
  (if negb (String.eqb apiKey "") then [WithPerRPCCredentials apiKey] else []) ++
  (if compression then [WithCompressor "gzip"] else []).

(** [apiKeyCredentials.GetRequestMetadata]: the value under [authorization]. *)
Definition GetRequestMetadata (key : string) : string := "Bearer " +:+ key.

(** The [authorization] values of the calls on a connection. *)
Definition metadata_of (opts : list DialOption) : option (list string) :=
  Some (omap (fun o => match o with
    | WithPerRPCCredentials key => Some (GetRequestMetadata key)
    | _ => None
    end) opts).

Record dialConfig := mkDialConfig { dc_apiKey : string; dc_compression : bool }.

Definition dialOpts (d : dialConfig) : list DialOption :=
  DialOptions (dc_apiKey d) (dc_compression d) ++ [WithBlock].

(** [dial address opts] says whether the connection comes up in time. *)
Definition waitForLocalServer (dial : string -> list DialOption -> bool) (address : string)
    (d : dialConfig) : bool := dial address (dialOpts d).

Lemma metadata_of_DialOptions (key : string) (compression : bool) :
  metadata_of (DialOptions key compression) = client_metadata key.
Proof.
  unfold metadata_of, DialOptions, client_metadata.
  destruct (String.eqb key ""), compression; done.
Qed.

Lemma metadata_of_dialOpts (d : dialConfig) : metadata_of (dialOpts d) = client_metadata (dc_apiKey d).
Proof.
  rewrite <- (metadata_of_DialOptions _ (dc_compression d)). unfold metadata_of, dialOpts.
  by rewrite omap_app, app_nil_r.
Qed.

(** ** The stubs *)

Section stubs.
Context {P : Type}.
(** [cc.Invoke] and [cc.NewStream], by the full name of the method. *)
Variable Invoke : string -> option (list string) -> request -> P -> P * outcome.
Implicit Types md : option (list string).

Definition counterServiceClient_Increment md (req : UpdateRequest) : P -> P * outcome :=
  Invoke "/counter.CounterService/Increment" md (RqIncrement req).

Definition counterServiceClient_Decrement md (req : UpdateRequest) : P -> P * outcome :=
  Invoke "/counter.CounterService/Decrement" md (RqDecrement req).

Definition counterServiceClient_GetValue md (counterName : string) : P -> P * outcome :=
  Invoke "/counter.CounterService/GetValue" md (RqGetValue counterName).

Definition counterServiceClient_GetNodeInfo md : P -> P * outcome :=
  Invoke "/counter.CounterService/GetNodeInfo" md RqGetNodeInfo.

Definition counterServiceClient_Reset md (counterName : string) : P -> P * outcome :=
  Invoke "/counter.CounterService/Reset" md (RqReset counterName).

Definition counterServiceClient_CreateCounter md (name : string) (tags : list string) : P -> P * outcome :=
  Invoke "/counter.CounterService/CreateCounter" md (RqCreateCounter name tags).

Definition counterServiceClient_ListCounters md (tag : string) : P -> P * outcome :=
  Invoke "/counter.CounterService/ListCounters" md (RqListCounters tag).

Definition counterServiceClient_SyncState md : P -> P * outcome :=
  Invoke "/counter.CounterService/SyncState" md RqSyncState.

Definition counterServiceClient_JoinCluster md (req : JoinRequest) : P -> P * outcome :=
  Invoke "/counter.CounterService/JoinCluster" md (RqJoinCluster req).

Definition counterServiceClient_Heartbeat md (req : HeartbeatRequest) : P -> P * outcome :=
  Invoke "/counter.CounterService/Heartbeat" md (RqHeartbeat req).

Definition counterServiceClient_SwimPing md (messageId : Z) : P -> P * outcome :=
  Invoke "/counter.CounterService/SwimPing" md (RqSwimPing messageId).

Definition counterServiceClient_SwimPingReq md (targetId : string) (messageId : Z) : P -> P * outcome :=
  Invoke "/counter.CounterService/SwimPingReq" md (RqSwimPingReq targetId messageId).

Definition counterServiceClient_Election md (req : ElectionRequest) : P -> P * outcome :=
  Invoke "/counter.CounterService/Election" md (RqElection req).

Definition counterServiceClient_Coordinator md (req : CoordinatorRequest) : P -> P * outcome :=
  Invoke "/counter.CounterService/Coordinator" md (RqCoordinator req).

Definition adminServiceClient_AddNode md (nodeId address : string) : P -> P * outcome :=
  Invoke "/counter.AdminService/AddNode" md (RqAddNode nodeId address).

Definition adminServiceClient_RemoveNode md (nodeId : string) : P -> P * outcome :=
  Invoke "/counter.AdminService/RemoveNode" md (RqRemoveNode nodeId).

Definition adminServiceClient_ForceSync md : P -> P * outcome :=
  Invoke "/counter.AdminService/ForceSync" md RqForceSync.

End stubs.

(** ** The command-line client *)

Record Flags := mkFlags {
  f_delta : Z;
  f_decrement : bool;
  f_reset : bool;
  f_get : bool;
}.

(** What it prints; the errors end the program. *)
Inductive line :=
| DialError
| Connected
| ResetError
| ResetDone (value : Z)
| GetValueError
| ValueIs (value : Z) (version : string)
| UpdateError
| NewValue (value : Z) (version : string)
| NodeInfoError
| NodeInfoIs (info : NodeInfo).

#[export] Instance NodeInfo_eq_dec : EqDecision NodeInfo.
Proof. solve_decision. Defined.

#[export] Instance line_eq_dec : EqDecision line.
Proof. solve_decision. Defined.

(** [int32(x)] *)
Definition to_int32 (z : Z) : Z := (z + 2 ^ 31) mod 2 ^ 32 - 2 ^ 31.

Definition counter_reply (o : outcome) : option CounterResponse :=
  match o with Ok (RsCounter r) => Some r | _ => None end.

Definition node_reply (o : outcome) : option NodeInfo :=
  match o with Ok (RsNode r) => Some r | _ => None end.

Section session.
Context {P : Type}.
(** The connection at the first and at the second call. *)
Variable cc : nat -> string -> option (list string) -> request -> P -> P * outcome.

Definition main (dialed : bool) (f : Flags) (p : P) : P * list line :=
  let md := metadata_of [WithTransportCredentials; WithBlock] in
  if negb dialed then (p, [DialError])
  else if f_reset f then
    let '(p, o) := counterServiceClient_Reset (cc 0) md "" p in
    (p, [Connected; match counter_reply o with
      | None => ResetError
      | Some resp => ResetDone (cr_CurrentValue resp)
      end])
  else if f_get f then
    let '(p, o) := counterServiceClient_GetValue (cc 0) md "" p in
    (p, [Connected; match counter_reply o with
      | None => GetValueError
      | Some resp => ValueIs (cr_CurrentValue resp) (cr_Version resp)
      end])
  else
    let req := mkUpdateRequest (to_int32 (f_delta f)) "" 0 "" in
    let '(p, o) :=
      if f_decrement f then counterServiceClient_Decrement (cc 0) md req p
      else counterServiceClient_Increment (cc 0) md req p in
    match counter_reply o with
    | None => (p, [Connected; UpdateError])
    | Some resp =>
        let '(p, o) := counterServiceClient_GetNodeInfo (cc 1%nat) md p in
        (p, [Connected; NewValue (cr_CurrentValue resp) (cr_Version resp);
             match node_reply o with None => NodeInfoError | Some info => NodeInfoIs info end])
    end.

End session.

(** ** A session with a process of this program *)

Section process.
Context {D : Type} `{SO : StoreOps D}.
Variable marshal : WALEntry -> string.
Variable quote : string -> string.
Implicit Types p q : Process D.

(** The connection to a process: the server knows the methods by their names. *)
Definition Conn_Invoke (ce : call_env) (method : string) (md : option (list string)) (r : request) p :
    Process D * outcome :=
  if String.eqb method (full_method r) then grpc_call marshal quote ce md p r else (p, Err Unimplemented).

(** Whether the bucket has a token at the time of the call. *)
Definition has_token p (ce : call_env) : bool :=
  (Allow (limiter (srv_rateLimit (p_server p))) (e_now (ce_io ce))).2.

Lemma grpc_call_outcome (ce : call_env) (md : option (list string)) p (r : request) :
  srv_adminSvc (p_server p) = true ->
  grpc_call marshal quote ce md p r =
  if authentic p md then
    let l := (Allow (limiter (srv_rateLimit (p_server p))) (e_now (ce_io ce))).1 in
    if has_token p ce
    then (set_limiter (handle marshal quote ce p r).1 l, (handle marshal quote ce p r).2)
    else (set_limiter p l, Err ResourceExhausted)
  else (p, Err Unauthenticated).
Proof.
  intros Had. rewrite grpc_call_eq by (by rewrite Had, andb_false_r). unfold has_token.
  destruct (authentic p md); [|done]. destruct (Allow _ _) as [l []]; [|done]. apply handle_set_limiter.
Qed.

Lemma Conn_Invoke_own (ce : call_env) (md : option (list string)) (r : request) p :
  Conn_Invoke ce (full_method r) md r p = grpc_call marshal quote ce md p r.
Proof. unfold Conn_Invoke. by rewrite String.eqb_refl. Qed.

(** A question about the node changes nothing but the bucket. *)
Lemma node_info_service (ce : call_env) (md : option (list string)) p :
  p_service (counterServiceClient_GetNodeInfo (Conn_Invoke ce) md p).1 = p_service p.
Proof.
  unfold counterServiceClient_GetNodeInfo. rewrite (Conn_Invoke_own ce md RqGetNodeInfo).
  rewrite grpc_call_eq by done. destruct (authentic p md); [|done]. by destruct (Allow _ _) as [l []].
Qed.

(** *** Calls between nodes *)

(** What a node with the configuration [cfg] attaches to its calls. *)
Definition outgoing (cfg : Config) : option (list string) :=
  metadata_of (DialOptions (cfg_APIKey cfg) (cfg_CompressionEnabled cfg)).

(** The server of [q] lets a call of a node with [cfg] through. *)
Definition admits (cfg : Config) (ce : call_env) q : bool := authentic q (outgoing cfg) && has_token q ce.

Lemma outgoing_key (cfg : Config) : outgoing cfg = client_metadata (cfg_APIKey cfg).
Proof. apply metadata_of_DialOptions. Qed.

(** A call, by whether the server lets it through. *)
Lemma call_cases (cfg : Config) (ce : call_env) q (r : request) :
  srv_adminSvc (p_server q) = true ->
  exists l, Conn_Invoke ce (full_method r) (outgoing cfg) r q =
    if admits cfg ce q then (set_limiter (handle marshal quote ce q r).1 l, (handle marshal quote ce q r).2)
    else (if authentic q (outgoing cfg) then set_limiter q l else q,
          Err (if authentic q (outgoing cfg) then ResourceExhausted else Unauthenticated)).
Proof.
  intros Had. rewrite Conn_Invoke_own, grpc_call_outcome by done. eexists. unfold admits.
  destruct (authentic q (outgoing cfg)); [|done]. cbn [andb]. by destruct (has_token q ce).
Qed.

End process.

(** Rewrites a call under the name of its method. *)
Ltac call_by H r := let E := fresh in pose proof (H r) as E; cbn [full_method] in E; rewrite E; clear E.

(** The calls of the client on a process that does not ask for the key. *)
Section open_server.
Context {D : Type} `{SO : StoreOps D}.
Variable marshal : WALEntry -> string.
Variable quote : string -> string.
Variable ces : nat -> call_env.
Variable p : Process D.
Let md := metadata_of [WithTransportCredentials; WithBlock].
Let cc (n : nat) := Conn_Invoke marshal quote (ces n).
Let io := ce_io (ces 0%nat).
Let l := (Allow (limiter (srv_rateLimit (p_server p))) (e_now io)).1.
Hypothesis admin : srv_adminSvc (p_server p) = true.
Hypothesis no_key : enabled (srv_auth (p_server p)) = false.
Hypothesis token : has_token p (ces 0%nat) = true.

Lemma open_call (r : request) :
  cc 0 (full_method r) md r p =
  (set_limiter (handle marshal quote (ces 0%nat) p r).1 l, (handle marshal quote (ces 0%nat) p r).2).
Proof.
  unfold cc. rewrite Conn_Invoke_own, grpc_call_outcome by done. unfold authentic. by rewrite no_key, token.
Qed.

(** The whole session of an update, whose second call cannot fail it. *)
Lemma open_update (f : Flags) :
  f_reset f = false -> f_get f = false ->
  let req := mkUpdateRequest (to_int32 (f_delta f)) "" 0 "" in
  let '(s', resp) := if f_decrement f then Decrement marshal io (p_service p) req
                     else Increment marshal io (p_service p) req in
  exists q last, main cc true f p = (q, [Connected; NewValue (cr_CurrentValue resp) (cr_Version resp); last]) /\
    p_service q = s'.
Proof.
  intros Hr Hg req. destruct (if f_decrement f then _ else _) as [s' resp] eqn:Hu.
  assert ((if f_decrement f then counterServiceClient_Decrement (cc 0) md req p
           else counterServiceClient_Increment (cc 0) md req p) =
          (set_limiter (set_service p s') l, Ok (RsCounter resp))) as Hfirst.
  { destruct (f_decrement f).
    - unfold counterServiceClient_Decrement. call_by open_call (RqDecrement req). cbn [handle].
      fold io. by rewrite Hu.
    - unfold counterServiceClient_Increment. call_by open_call (RqIncrement req). cbn [handle].
      fold io. by rewrite Hu. }
  unfold main. rewrite Hr, Hg. fold md. fold req. rewrite Hfirst. cbn [negb counter_reply].
  pose proof (node_info_service marshal quote (ces 1%nat) md (set_limiter (set_service p s') l)) as Hs.
  unfold cc at 1. destruct (counterServiceClient_GetNodeInfo _ _ _) as [q o]. by eexists q, _.
Qed.

Lemma open_reset (f : Flags) :
  f_reset f = true ->
  exists q, (forall delta dec get, main cc true (mkFlags delta dec true get) p = (q, [Connected; ResetDone 0])) /\
    ValueName (s_counter (p_service q)) defaultCounter = 0 /\ main cc true f p = (q, [Connected; ResetDone 0]).
Proof.
  intros Hr. pose proof (open_call (RqReset "")) as Hc. cbn [full_method handle] in Hc. fold io in Hc.
  destruct (Reset marshal io (p_service p) "") as [[s' resp] called] eqn:E.
  destruct (reset_handler marshal io (p_service p) s' "" "" resp called E) as (Hv & Hz & _).
  match type of Hc with _ = (?q, _) => exists q end.
  assert (forall f', f_reset f' = true ->
    main cc true f' p = (set_limiter (if called then set_engine (set_service p s')
      (InvalidateBaselines (p_engine (set_service p s'))) else set_service p s') l,
      [Connected; ResetDone 0])) as Hm.
  { intros f' Hf. unfold main. rewrite Hf. cbn [negb]. fold md. unfold counterServiceClient_Reset.
    rewrite Hc. cbn [fst snd counter_reply]. by rewrite Hv. }
  split_and!; [intros; by apply Hm|by destruct called|by apply Hm].
Qed.

End open_server.

(** ** Properties *)

(** C39: A session of the command-line client with a process.  It carries no key, so a
    server that asks for one refuses its first call and keeps its state.  Without
    authentication and with a token at hand: [-reset] resets the default counter
    and ends the session, whatever the other flags ask for; [-get] prints the
    value and the version of the default counter and leaves the service as it is;
    otherwise the counter moves by the 32 bits of the delta, one when they are
    zero, and the value printed is the one the process holds afterwards. *)
Theorem test_client_session {D : Type} `{SO : StoreOps D} (marshal : WALEntry -> string)
    (quote : string -> string) (cfg : Config) (ces : nat -> call_env) (f : Flags) (p : Process D) :
  process_ok cfg p ->
  let cc n := Conn_Invoke marshal quote (ces n) in
  let value q := ValueName (s_counter (p_service q)) defaultCounter in
  let run := main cc true f p in
  let p' := run.1 in
  let out := run.2 in
  (cfg_AuthEnabled cfg = true ->
   p' = p /\
   out = [Connected; if f_reset f then ResetError else if f_get f then GetValueError else UpdateError]) /\
  (cfg_AuthEnabled cfg = false -> has_token p (ces 0%nat) = true ->
   (f_reset f = true ->
    value p' = 0 /\ out = [Connected; ResetDone 0] /\
    forall delta dec get, main cc true (mkFlags delta dec true get) p = run) /\
   (f_reset f = false -> f_get f = true ->
    p_service p' = p_service p /\
    out = [Connected; ValueIs (value p) (clock_String (State (s_clock (p_service p))))]) /\
   (f_reset f = false -> f_get f = false -> colon_free (cfg_NodeID cfg) ->
    let d := to_int32 (f_delta f) in
    let step := if d =? 0 then 1 else d in
    value p' = wrap64 (if f_decrement f then value p - step else value p + step) /\
    exists version last, out = [Connected; NewValue (value p') version; last])).
Proof.
  intros Hp cc value run p' out. pose proof (po_auth _ _ Hp) as Ha. pose proof (po_admin _ _ Hp) as Had.
  assert (authentic p (metadata_of [WithTransportCredentials; WithBlock]) = negb (cfg_AuthEnabled cfg)) as Hau.
  { unfold authentic. rewrite Ha. simpl. by rewrite orb_false_r. }
  pose proof (eq_refl : main cc true f p = run) as Hm. clearbody run. destruct run as [q lines].
  unfold p', out. clear p' out. cbn [fst snd]. split.
  - intros E. rewrite E in Hau. simpl in Hau.
    assert (forall r, cc 0%nat (full_method r) (metadata_of [WithTransportCredentials; WithBlock]) r p =
      (p, Err Unauthenticated)) as Hc.
    { intros r. unfold cc. by rewrite Conn_Invoke_own, grpc_call_outcome, Hau by done. }
    revert Hm. unfold main. cbn [negb]. unfold counterServiceClient_Reset, counterServiceClient_GetValue,
      counterServiceClient_Decrement, counterServiceClient_Increment.
    call_by Hc (RqReset ""). call_by Hc (RqGetValue "").
    call_by Hc (RqDecrement (mkUpdateRequest (to_int32 (f_delta f)) "" 0 "")).
    call_by Hc (RqIncrement (mkUpdateRequest (to_int32 (f_delta f)) "" 0 "")).
    destruct (f_reset f); [by intros [= <- <-]|]. destruct (f_get f); [by intros [= <- <-]|].
    by destruct (f_decrement f); intros [= <- <-].
  - intros E Ht. assert (enabled (srv_auth (p_server p)) = false) as Hk by (rewrite Ha; exact E). split_and!.
    + intros Hr. destruct (open_reset marshal quote ces p Had Hk Ht f Hr) as (q' & H1 & H2 & H3).
      fold cc in H1, H3. rewrite H3 in Hm. by injection Hm as <- <-.
    + intros Hr Hg. revert Hm. unfold main. rewrite Hr, Hg. cbn [negb].
      unfold counterServiceClient_GetValue, cc.
      call_by (open_call marshal quote ces p Had Hk Ht) (RqGetValue ""). by intros [= <- <-].
    + intros Hr Hg Hid. set (d := to_int32 (f_delta f)).
      pose proof (open_update marshal quote ces p Had Hk Ht f Hr Hg) as Hu.
      fold cc in Hu. rewrite <- (po_counter _ _ Hp) in Hid. cbv zeta in Hu.
      pose proof (Decrement_result marshal (ce_io (ces 0%nat)) (p_service p) (mkUpdateRequest d "" 0 "")) as Hd.
      pose proof (Increment_result marshal (ce_io (ces 0%nat)) (p_service p) (mkUpdateRequest d "" 0 "")) as Hi.
      fold d in Hu. destruct (f_decrement f).
      * destruct (Decrement _ _ _ _) as [s' resp]. destruct Hu as (q' & last & Hmq & <-).
        rewrite Hmq in Hm. injection Hm as <- <-. destruct Hd as (Hd & _ & _ & Hv & _).
        split; [|by eexists _, _; rewrite Hv]. unfold value. rewrite Hd. by apply ValueName_decrement.
      * destruct (Increment _ _ _ _) as [s' resp]. destruct Hu as (q' & last & Hmq & <-).
        rewrite Hmq in Hm. injection Hm as <- <-. destruct Hi as (Hi & _ & _ & Hv & _).
        split; [|by eexists _, _; rewrite Hv]. unfold value. rewrite Hi. by apply ValueName_increment.
Qed.

(** ** Witnesses *)

(** A node without authentication; a client whose delta has more than 32 bits. *)
Definition ex_open : Config :=
  mkConfig "a" 50051 9090 8080 "a:50051" [] 5 3 10 false "" "" 0 true "data" 30 1 2 3 false "" 9
    false false "" float_one 4 1 2.

Definition ex_server : Process RedisStore :=
  @wire _ ex_ops unmarshal_entry ex_open None ∅ (mkBootEnv true true true) 10.

Definition ex_calls (n : nat) : call_env := mkCallEnv (calm 10) None (fun _ => None).

Definition ex_session (f : Flags) : Process RedisStore * list line :=
  main (fun n => @Conn_Invoke _ ex_ops marshal_entry id (ex_calls n)) true f ex_server.

Lemma test_client_session_witness :
  ValueName (s_counter (p_service (ex_session (mkFlags (2 ^ 32 + 5) false false false)).1)) "default" = 5 /\
  (ex_session (mkFlags 7 true true false)).2 = [Connected; ResetDone 0].
Proof.
  pose (H f := @test_client_session _ ex_ops marshal_entry id ex_open ex_calls f ex_server
    (@wire_ok _ ex_ops _ _ _ _ _ _)). split.
  - destruct (H (mkFlags (2 ^ 32 + 5) false false false)) as [_ (_ & _ & H1)];
      [reflexivity|vm_compute; reflexivity|].
    destruct H1 as [H1 _]; [reflexivity..|]. etransitivity; [exact H1|]. vm_compute. reflexivity.
  - destruct (H (mkFlags 7 true true false)) as [_ (H1 & _)]; [reflexivity|vm_compute; reflexivity|].
    destruct H1 as (_ & H1 & _); [reflexivity|]. exact H1.
Defined.
