(* ===== verification/Deployment.v ===== *)
(** * A deployment of processes

    Several processes, each wired by [main] and taking its own events, and the
    sync messages between them.  The deployment refines the abstract cluster of
    [Cluster]: every step of it is a run of cluster steps on the service and
    engine of the process with no other hazards than its own, so what holds of the
    cluster holds of the processes behind their gRPC and HTTP fronts. *)

From S2P Require Import Prelude Lattice PNCounter VectorClock Delta Breaker Membership Bully Swim Codec Wal.
From S2P Require Import Store Messages Service ServiceSpec Durability Gossip Cluster Bootstrap.
From S2P Require Import RateLimit Admin Server Process.

Definition node_of {D : Type} (p : Process D) : node D := mkNode (p_service p) (p_engine p).

Record deployment (D : Type) := mkDeployment {
  procs : gmap string (Process D);
  msgs : gmap (string * string) flight;
}.

Arguments mkDeployment {D}.
Arguments procs {D}.
Arguments msgs {D}.

(** The cluster the processes form. *)
Definition cluster_of {D : Type} (d : deployment D) : system D :=
  mkSystem (node_of <$> procs d) (msgs d).

Section deployment.
Context {D : Type} `{SO : StoreOps D}.
Variable marshal : WALEntry -> string.
Variable unmarshal : string -> option WALEntry.
Variable quote : string -> string.
Variable addr : string -> string.
(** The configuration of each node. *)
Variable cfgs : string -> Config.
Implicit Types d : deployment D.
Implicit Types p : Process D.

Definition pstep (a : string) p (e : event) : Process D :=
  step marshal quote (cfgs a) p e.

(** What an event puts at risk: updates, resets, and messages that are taken from
    outside the messages of the deployment. *)
Definition event_hazard (a : string) p (e : event) : list hazard :=
  let n := node_of p in
  match e with
  | EvCall _ _ (RqIncrement req) | EvHTTP _ (RqIncrement req) =>
      update_hazard (npos n) (nclk n) (update_key a req) req
  | EvCall _ _ (RqDecrement req) | EvHTTP _ (RqDecrement req) =>
      update_hazard (nneg n) (nclk n) (update_key a req) req
  | EvCall _ _ (RqReset _) | EvHTTP _ (RqReset _) => [Cleared]
  | EvRecv _ _ | EvComplete _ _ _ (Some _) | EvRecover _ _ | EvSeedReply _ _ => [Foreign]
  | _ => []
  end.

Definition put_proc d (a : string) p : deployment D := mkDeployment (<[a := p]> (procs d)) (msgs d).

Definition put_msg d (ab : string * string) (f : option flight) : deployment D :=
  mkDeployment (procs d) (partial_alter (fun _ => f) ab (msgs d)).

(** The table the engine of [p] hands to its messages. *)
Definition table p : Membership := default (NewMembership (p_nodeID p)) (s_cluster (p_service p)).

(** One step, with its hazards: a process takes any event at all; an event of an
    exchange takes and leaves its message.  [d_send_torn] is a round whose counts
    were not read together with the clock; [d_ask] and [d_absorb] are the exchange
    of a recovery with a seed; any message may be lost, with the sender's failure
    path ([d_lost]), a repetition ([d_retry]) or nothing ([d_drop]) following. *)
Inductive dstep d : list hazard -> deployment D -> Prop :=
| d_event a p e :
    procs d !! a = Some p -> dstep d (event_hazard a p e) (put_proc d a (pstep a p e))
| d_send a b p q now u :
    procs d !! a = Some p -> procs d !! b = Some q -> a <> b -> msgs d !! (a, b) = None ->
    let pos := Positive (s_counter (p_service p)) in
    let neg := Negative (s_counter (p_service p)) in
    (prepare (p_service p) (p_engine p) (table p) (addr b) now).2 = Some u ->
    dstep d [] (put_msg (put_proc d a (pstep a p (EvPrepare pos neg (addr b) now))) (a, b) (Some (Sent u)))
| d_send_torn a b p q pos neg now u :
    procs d !! a = Some p -> procs d !! b = Some q -> a <> b -> msgs d !! (a, b) = None ->
    (prepare_read pos neg (State (s_clock (p_service p))) (p_engine p) (table p) (addr b) now).2 = Some u ->
    dstep d [Torn]
      (put_msg (put_proc d a (pstep a p (EvPrepare pos neg (addr b) now))) (a, b) (Some (Sent u)))
| d_recv a b q u io r :
    msgs d !! (a, b) = Some (Sent u) -> procs d !! b = Some q ->
    (sync_update marshal io (p_service q) u).2 = Some r ->
    dstep d [] (put_msg (put_proc d b (pstep b q (EvRecv io u))) (a, b) (Some (Replied u r)))
| d_finish a b p u r io :
    msgs d !! (a, b) = Some (Replied u r) -> procs d !! a = Some p ->
    dstep d [] (put_msg (put_proc d a (pstep a p (EvComplete io (addr b) (su_VectorClock u) (Some r))))
                  (a, b) None)
| d_lost a b p u io :
    msgs d !! (a, b) = Some (Sent u) -> procs d !! a = Some p ->
    dstep d [] (put_msg (put_proc d a (pstep a p (EvComplete io (addr b) (su_VectorClock u) None)))
                  (a, b) None)
| d_retry a b u r :
    msgs d !! (a, b) = Some (Replied u r) ->
    dstep d (loss_hazard (Replied u r)) (put_msg d (a, b) (Some (Sent u)))
| d_ask a b p q now :
    procs d !! a = Some p -> procs d !! b = Some q -> a <> b -> msgs d !! (a, b) = None ->
    p_nodeID p = a ->
    dstep d [] (put_msg d (a, b) (Some (Sent (recovery_request (p_nodeID p) now (p_service p)))))
| d_absorb a b p u r now :
    msgs d !! (a, b) = Some (Replied u r) -> procs d !! a = Some p ->
    dstep d [] (put_msg (put_proc d a (pstep a p (EvSeedReply r now))) (a, b) None)
| d_drop a b f :
    msgs d !! (a, b) = Some f -> dstep d (loss_hazard f) (put_msg d (a, b) None).

(** The nodes start on their stores and empty disks. *)
Definition deploy (stores : string -> option D) (ids : gset string) (now : Z) : deployment D :=
  mkDeployment (set_to_map (fun id =>
    (id, wire unmarshal (cfgs id) (stores id) ∅ (mkBootEnv true true true) now)) ids) ∅.

(** The deployments a run with the given hazards leads to. *)
Inductive deployed (stores : string -> option D) (ids : gset string) (now : Z) :
    list hazard -> deployment D -> Prop :=
| d_boot : deployed stores ids now [] (deploy stores ids now)
| d_step hs h d d' :
    deployed stores ids now hs d -> dstep d h d' -> deployed stores ids now (hs ++ h) d'.

(** Nothing is recorded in the stores yet. *)
Definition blank_stores (stores : string -> option D) (ids : gset string) : Prop :=
  forall id, id ∈ ids -> keeps id (stores id) None.

End deployment.

(** ** Every step is a run of the cluster *)

Section refinement.
Context {D : Type} `{SO : StoreOps D}.
Variable marshal : WALEntry -> string.
Variable unmarshal : string -> option WALEntry.
Variable quote : string -> string.
Variable addr : string -> string.
Variable cfgs : string -> Config.
Implicit Types d : deployment D.
Implicit Types p : Process D.
Abbreviation ysteps y y' := (yrun marshal addr y [] y').

(** A run of the cluster with no hazards but those of [hs]. *)
Definition yrun_within (hs : list hazard) (y y' : system D) : Prop :=
  exists h, h ⊆ hs /\ yrun marshal addr y h y'.

Lemma yrun_within_once (y y' : system D) (h : list hazard) : ystep marshal addr y h y' -> yrun_within h y y'.
Proof. intros H. exists h. split; [done|by apply yrun_once]. Qed.

Lemma yrun_within_internal (y y' : system D) (hs : list hazard) : ysteps y y' -> yrun_within hs y y'.
Proof. intros H. exists []. split; [apply list_subseteq_nil|done]. Qed.

Lemma ysteps_trans (y1 y2 y3 : system D) : ysteps y1 y2 -> ysteps y2 y3 -> ysteps y1 y3.
Proof. apply (yrun_app _ _ _ _ _ [] []). Qed.

Lemma yrun_within_app (y1 y2 y3 : system D) (h1 h2 : list hazard) :
  yrun_within h1 y1 y2 -> yrun_within h2 y2 y3 -> yrun_within (h1 ++ h2) y1 y3.
Proof.
  intros (g1 & S1 & R1) (g2 & S2 & R2). exists (g1 ++ g2). split; [|by eapply yrun_app].
  by apply list_subseteq_app_iff_l; split; [apply list_subseteq_app_l|apply list_subseteq_app_r].
Qed.

Lemma cluster_of_put d (a : string) p : cluster_of (put_proc d a p) = put (cluster_of d) a (node_of p).
Proof. unfold cluster_of, put_proc, put. simpl. by rewrite fmap_insert. Qed.

Lemma cluster_of_msg d (ab : string * string) (f : option flight) :
  cluster_of (put_msg d ab f) = put_flight (cluster_of d) ab f.
Proof. done. Qed.

Lemma cluster_of_lookup d (a : string) p :
  procs d !! a = Some p -> nodes (cluster_of d) !! a = Some (node_of p).
Proof. intros Hp. simpl. by rewrite lookup_fmap, Hp. Qed.

Lemma proc_local_same p p' : proc_local p p' -> same_node (node_of p) (node_of p').
Proof.
  intros [[_ _ _ E _ _] [S1 S2 S3 S4] B]. unfold engine_conf in E. simplify_eq E.
  intros. split; simpl; try done. apply S1.
Qed.

Lemma internal_step d (a : string) p p' :
  procs d !! a = Some p -> same_node (node_of p) (node_of p') ->
  ysteps (cluster_of d) (cluster_of (put_proc d a p')).
Proof.
  intros Hp Hs. apply yrun_once. rewrite cluster_of_put. apply (y_internal _ _ _ a (node_of p)); [|done].
  by apply cluster_of_lookup.
Qed.

(** The requests that change the data, as steps of the node. *)
Lemma handle_node ce p (req : UpdateRequest) (name : string) :
  node_of (handle marshal quote ce p (RqIncrement req)).1 =
    mkNode (Increment marshal (ce_io ce) (p_service p) req).1 (p_engine p) /\
  node_of (handle marshal quote ce p (RqDecrement req)).1 =
    mkNode (Decrement marshal (ce_io ce) (p_service p) req).1 (p_engine p) /\
  node_of (handle marshal quote ce p (RqReset name)).1 =
    reset_node marshal (ce_io ce) (node_of p) name.
Proof.
  cbn [handle]. unfold reset_node. cbn [node_of svc eng].
  destruct (Increment marshal _ _ _), (Decrement marshal _ _ _), (Reset _ _ _ _) as [[s r] called].
  split_and!; [done|done|]. by destruct called.
Qed.

Lemma handle_steps d (a : string) ce p r :
  procs d !! a = Some p -> local_request r = false ->
  ystep marshal addr (cluster_of d) (event_hazard a p (EvHTTP ce r))
    (put (cluster_of d) a (node_of (handle marshal quote ce p r).1)).
Proof.
  intros Hp Hr. pose proof (cluster_of_lookup d a p Hp) as Hn. destruct r; try done.
  - destruct (handle_node ce p req "") as (-> & _). by apply (y_increment _ _ _ a (node_of p)).
  - destruct (handle_node ce p req "") as (_ & -> & _). by apply (y_decrement _ _ _ a (node_of p)).
  - destruct (handle_node ce p (mkUpdateRequest 0 "" 0 "") counterName) as (_ & _ & ->).
    by apply (y_reset _ _ _ a (node_of p)).
Qed.

(** The node after an event that takes a message from outside. *)
Lemma stranger_steps d (a : string) p (e : event) :
  procs d !! a = Some p -> local_event e = false ->
  match e with EvCall _ _ _ | EvHTTP _ _ => False | _ => True end ->
  yrun_within (event_hazard a p e) (cluster_of d)
    (cluster_of (put_proc d a (pstep marshal quote cfgs a p e))).
Proof.
  intros Hp He Hno. pose proof (cluster_of_lookup d a p Hp) as Hn.
  assert (forall s' r, merged_with (p_service p) s' r -> lastSyncClock s' = lastSyncClock (p_service p) ->
    yrun_within [Foreign] (cluster_of d) (cluster_of (put_proc d a (set_service p s')))) as Hseed.
  { intros s' r Hm Hl. apply yrun_within_once. rewrite cluster_of_put.
    by apply (y_stranger_seed _ _ _ a (node_of p) r). }
  assert (forall hs, yrun_within hs (cluster_of d) (cluster_of (put_proc d a p))) as Hsame.
  { intros hs. by apply yrun_within_internal, (internal_step d a p). }
  destruct e as [| |io u| | | |io ad clk response| | | | | | | | |call now|response now]; try done;
    unfold pstep; cbn [step event_hazard].
  - apply yrun_within_once. rewrite cluster_of_put.
    apply (y_stranger _ _ _ a (node_of p) u io _ (sync_update marshal io (p_service p) u).2 Hn).
    apply surjective_pairing.
  - destruct (complete _ _ _ _ _ _ _) as [s g] eqn:Hc.
    destruct (complete_spec marshal _ _ _ _ _ _ _ _ Hc) as (L1 & L2 & L3).
    destruct response as [r|].
    + exists ([Foreign] ++ []). split; [done|]. eapply yrun_step.
      { by apply (y_stranger_reply _ _ (cluster_of d) a (node_of p) io ad clk r s g). }
      rewrite cluster_of_put. set (n2 := node_of _). set (y1 := put _ _ _).
      replace (put (cluster_of d) a n2) with (put y1 a n2)
        by (unfold y1, put; simpl; by rewrite insert_insert_eq).
      apply yrun_once, (y_internal _ _ y1 a (mkNode s g)); [apply lookup_insert_eq|].
      split; try done; by destruct g.
    + destruct L3 as [-> L4]. apply yrun_within_internal, (internal_step d a p); [done|].
      by split; try done; destruct g.
  - destruct (recover_undisturbed (p_nodeID p) (p_address p) now call (cfg_SeedNodes (cfgs a)) (p_service p))
      as [->|[r ->]]; [by replace (set_service p (p_service p)) with p by (by destruct p)|].
    destruct (recovered_merged (p_nodeID p) (p_address p) now (p_service p) r) as (Hm & Hl & _).
    by apply (Hseed _ r).
  - destruct (has_state response); [|done].
    destruct (recovered_merged (p_nodeID p) (p_address p) now (p_service p) response) as (Hm & Hl & _).
    by apply (Hseed _ response).
Qed.

(** Any event: a request stops at the middleware or is the handler's. *)
Lemma event_steps d (a : string) p (e : event) :
  procs d !! a = Some p ->
  yrun_within (event_hazard a p e) (cluster_of d)
    (cluster_of (put_proc d a (pstep marshal quote cfgs a p e))).
Proof.
  intros Hp. destruct (local_event e) eqn:He.
  { apply yrun_within_internal, (internal_step d a p); [done|]. by apply proc_local_same, step_local. }
  destruct e as [ce md r|ce r| | | | | | | | | | | | | | |]; try (by apply stranger_steps);
    unfold pstep; cbn [step].
  - destruct (grpc_call_cases marshal quote ce md p r) as [H|[l ->]].
    { apply yrun_within_internal, (internal_step d a p); [done|]. by apply proc_local_same. }
    apply yrun_within_once. rewrite cluster_of_put. pose proof (handle_steps d a ce p r Hp He) as Hs.
    replace (node_of (handle marshal quote ce (set_limiter p l) r).1)
      with (node_of (handle marshal quote ce p r).1); [by destruct r|].
    destruct r; try done;
      first [destruct (handle_node ce p req "") as (E1 & E2 & _),
               (handle_node ce (set_limiter p l) req "") as (E3 & E4 & _); congruence
            |destruct (handle_node ce p (mkUpdateRequest 0 "" 0 "") counterName) as (_ & _ & E1),
               (handle_node ce (set_limiter p l) (mkUpdateRequest 0 "" 0 "") counterName) as (_ & _ & E2);
             rewrite E1, E2; by destruct p].
  - apply yrun_within_once. rewrite cluster_of_put. by apply handle_steps.
Qed.

(** The end of a round: the cluster's last step, then the freed address. *)
Lemma complete_steps d (a b : string) p (u : StateUpdate) io (response : option StateUpdate) :
  procs d !! a = Some p ->
  msgs d !! (a, b) = Some (match response with Some r => Replied u r | None => Sent u end) ->
  ysteps (cluster_of d) (cluster_of (put_msg (put_proc d a
    (pstep marshal quote cfgs a p (EvComplete io (addr b) (su_VectorClock u) response)))
    (a, b) None)).
Proof.
  intros Hp Hf. pose proof (cluster_of_lookup d a p Hp) as Hn. unfold pstep. cbn [step].
  destruct (complete _ _ _ _ _ _ _) as [s g] eqn:Hc.
  apply (yrun_step _ _ _ [] [] (put_flight (put (cluster_of d) a (mkNode s g)) (a, b) None)).
  - destruct response as [r|].
    + by apply (y_finish _ _ (cluster_of d) a b (node_of p) u r io).
    + by apply (y_lost _ _ (cluster_of d) a b (node_of p) u io).
  - apply yrun_once. rewrite cluster_of_msg, cluster_of_put.
    set (n2 := node_of _). set (y1 := put_flight _ _ _).
    replace (put_flight (put (cluster_of d) a n2) (a, b) None) with (put y1 a n2).
    + apply (y_internal _ _ y1 a (mkNode s g)); [apply lookup_insert_eq|].
      split; try done; by destruct g.
    + unfold y1, put, put_flight. simpl. by rewrite insert_insert_eq.
Qed.

(** A reply that is merged outside the engine. *)
Lemma absorb_step d (a b : string) p (u r : StateUpdate) (now : Z) :
  procs d !! a = Some p -> msgs d !! (a, b) = Some (Replied u r) ->
  ystep marshal addr (cluster_of d) [] (cluster_of (put_msg (put_proc d a
    (pstep marshal quote cfgs a p (EvSeedReply r now))) (a, b) None)).
Proof.
  intros Hp Hf. rewrite cluster_of_msg, cluster_of_put.
  assert (exists s', node_of (pstep marshal quote cfgs a p (EvSeedReply r now)) =
    mkNode s' (p_engine p) /\ merged_with (p_service p) s' r /\
    lastSyncClock s' = lastSyncClock (p_service p)) as (s' & -> & Hm & Hl).
  { unfold pstep. cbn [step]. destruct (has_state r) eqn:Hh.
    - eexists. split; [done|].
      by destruct (recovered_merged (p_nodeID p) (p_address p) now (p_service p) r) as (? & ? & _).
    - exists (p_service p). split; [done|]. split; [|done]. by apply stateless_merged. }
  by apply (y_absorb _ _ (cluster_of d) a b (node_of p) u r); [|apply cluster_of_lookup|..].
Qed.

Lemma dstep_refines d d' (hs : list hazard) :
  dstep marshal quote addr cfgs d hs d' -> yrun_within hs (cluster_of d) (cluster_of d').
Proof.
  destruct 1 as [a p e Hp|a b p q now u Hp Hq Hne Hf pos neg Hu|a b p q pos neg now u Hp Hq Hne Hf Hu|
                 a b q u io r Hf Hq Hr|a b p u r io Hf Hp|a b p u io Hf Hp|a b u r Hf|
                 a b p q now Hp Hq Hne Hf Hid|a b p u r now Hf Hp|a b f Hf].
  - by apply event_steps.
  - apply yrun_within_once. rewrite cluster_of_msg, cluster_of_put. unfold pstep. cbn [step].
    fold (table p). unfold pos, neg. change (prepare_read _ _ _ _ _ _ _) with
      (prepare (p_service p) (p_engine p) (table p) (addr b) now).
    destruct (prepare _ _ _ _ _) as [g ou] eqn:Hrun. simpl in Hu. subst ou.
    by eapply (y_send _ _ (cluster_of d) a b (node_of p) (node_of q)); try apply cluster_of_lookup.
  - apply yrun_within_once. rewrite cluster_of_msg, cluster_of_put. unfold pstep. cbn [step].
    fold (table p). destruct (prepare_read _ _ _ _ _ _ _) as [g ou] eqn:Hrun. simpl in Hu. subst ou.
    unfold State in Hrun. rewrite copy_map_id in Hrun.
    by eapply (y_send_torn _ _ (cluster_of d) a b (node_of p) (node_of q)); try apply cluster_of_lookup.
  - apply yrun_within_once. rewrite cluster_of_msg, cluster_of_put. unfold pstep. cbn [step].
    destruct (sync_update _ _ _ _) as [s' or] eqn:Hrun. simpl in Hr. subst or.
    apply (y_handle _ _ (cluster_of d) a b (node_of q) u io s' r); [done| |exact Hrun].
    by apply cluster_of_lookup.
  - by apply yrun_within_internal, (complete_steps d a b p u io (Some r)).
  - by apply yrun_within_internal, (complete_steps d a b p u io None).
  - apply yrun_within_once. rewrite cluster_of_msg. by apply (y_retry _ _ (cluster_of d) a b u r).
  - apply yrun_within_once. rewrite cluster_of_msg.
    apply (y_ask _ _ (cluster_of d) a b (node_of p) (node_of q)); try by apply cluster_of_lookup.
    1-4: done. all: apply copy_map_id.
  - apply yrun_within_once. by apply (absorb_step d a b p u r now).
  - apply yrun_within_once. rewrite cluster_of_msg. by apply y_drop.
Qed.

(** Nodes may be exchanged for ones with the same data, all at once. *)
Lemma internal_all (ns' : gmap string (node D)) (f : gmap (string * string) flight) (l : list string) :
  forall ns, (forall a, is_Some (ns !! a) <-> is_Some (ns' !! a)) ->
  (forall a n n', ns !! a = Some n -> ns' !! a = Some n' -> n = n' \/ (a ∈ l /\ same_node n n')) ->
  ysteps (mkSystem ns f) (mkSystem ns' f).
Proof.
  induction l as [|a l IH]; intros ns Hd Hs.
  - replace ns with ns'; [constructor|]. apply map_eq. intros a. specialize (Hd a). specialize (Hs a).
    destruct (ns !! a) as [n|], (ns' !! a) as [n'|]; [|naive_solver..].
    destruct (Hs n n' eq_refl eq_refl) as [->|[[]%not_elem_of_nil _]]. done.
  - destruct (ns' !! a) as [n'|] eqn:Ha'.
    + destruct (proj2 (Hd a)) as [n Ha]; [by rewrite Ha'|].
      apply (yrun_step _ _ _ [] [] (mkSystem (<[a := n']> ns) f)).
      { apply (y_internal _ _ (mkSystem ns f) a n n'); [done|].
        by destruct (Hs a n n' Ha Ha') as [->|[_ ?]]. }
      apply IH.
      * intros b. rewrite lookup_insert. case_decide; [naive_solver|apply Hd].
      * intros b x x'. rewrite lookup_insert. case_decide; [intros; left; congruence|].
        intros H1 H2. destruct (Hs b x x' H1 H2) as [?|[[->|?]%elem_of_cons ?]]; naive_solver.
    + apply IH; [done|]. intros b x x' H1 H2.
      destruct (Hs b x x' H1 H2) as [?|[[->|?]%elem_of_cons ?]]; naive_solver.
Qed.

(** A process wired on an empty disk and a blank store, as a node. *)
Lemma wire_fresh (cfg : Config) (store : option D) (fs : disk) (port interval now : Z) :
  keeps (cfg_NodeID cfg) store None ->
  same_node (mkNode (NewCounterService (cfg_NodeID cfg) port fs) (NewGossipEngine (cfg_NodeID cfg) interval))
    (node_of (wire unmarshal cfg store ∅ (mkBootEnv true true true) now)).
Proof.
  intros Hk.
  assert (forall o st, keeps (cfg_NodeID cfg) st None ->
    let s := startup unmarshal (cfg_NodeID cfg) (cfg_GRPCPort cfg) (cfg_CounterShards cfg)
      (D:=D) st o ∅ (mkBootEnv true true true) in
    s_nodeID s = cfg_NodeID cfg /\ s_counter s = NewPNCounter (cfg_NodeID cfg) /\
    s_clock s = NewVectorClock (cfg_NodeID cfg) /\ lastSyncClock s = ∅) as Hstart.
  { intros o st Hst s. unfold s, startup. destruct st as [db|]; simpl in *; [rewrite Hst|];
      by destruct o. }
  unfold wire, node_of. simpl.
  destruct (Hstart (if cfg_WALEnabled cfg then Some (cfg_WALDir cfg) else None)
    (if cfg_PersistenceEnabled cfg then store else None)) as (H1 & H2 & H3 & H4);
    [by destruct (cfg_PersistenceEnabled cfg)|].
  set (s := startup _ _ _ _ _ _ _ _) in *. clearbody s.
  split; simpl; destruct s; done.
Qed.

Lemma deploy_steps (stores : string -> option D) (ids : gset string) (fs : disk)
    (port interval now : Z) :
  (forall id, id ∈ ids -> cfg_NodeID (cfgs id) = id) -> blank_stores stores ids ->
  ysteps (boot ids fs port interval) (cluster_of (deploy unmarshal cfgs stores ids now)).
Proof.
  intros Hids Hbl. unfold boot, cluster_of, deploy. simpl.
  assert (forall (A : Type) (f : string -> A) a x,
    (set_to_map (fun id => (id, f id)) ids : gmap string A) !! a = Some x <-> a ∈ ids /\ x = f a)
    as Hmap.
  { intros A f a x. rewrite lookup_set_to_map by naive_solver. naive_solver. }
  apply (internal_all _ _ (elements ids)).
  - intros a. rewrite lookup_fmap, fmap_is_Some. unfold is_Some. setoid_rewrite Hmap. naive_solver.
  - intros a n n' [Ha ->]%Hmap. rewrite lookup_fmap. intros (p & [_ ->]%Hmap & ->)%fmap_Some. right.
    split; [by apply elem_of_elements|].
    pose proof (wire_fresh (cfgs a) (stores a) fs port interval now) as H.
    rewrite (Hids a Ha) in H. by apply H, Hbl.
Qed.

(** A deployment is a state of the cluster, reached with no other hazards. *)
Lemma deployed_reached (stores : string -> option D) (ids : gset string) (fs : disk)
    (port interval now : Z) (hs : list hazard) d :
  (forall id, id ∈ ids -> cfg_NodeID (cfgs id) = id) -> blank_stores stores ids ->
  deployed marshal unmarshal quote addr cfgs stores ids now hs d ->
  exists h, h ⊆ hs /\ reached marshal addr ids fs port interval h (cluster_of d).
Proof.
  intros Hids Hbl. induction 1 as [|hs h d d' _ IH Hs].
  - exists []. split; [done|]. by apply deploy_steps.
  - by apply (yrun_within_app _ (cluster_of d)); [|by apply dstep_refines].
Qed.

End refinement.

(** ** Properties *)

(** C3: The processes refine the cluster.  Every step of a deployment is matched by
    a run of the abstract cluster that brings no hazard the step does not bring,
    and every state a deployment reaches is a state the cluster reaches, whatever
    disk, port and interval the abstract nodes start with.  A step is any event of
    any process behind its middleware, updates with negative deltas, resets and
    messages of strangers included, or a phase or loss of an exchange; the
    processes start on stores that hold nothing of them and on empty disks, and a
    request handler runs at one instant. *)
Theorem deployment_refines {D : Type} `{SO : StoreOps D} (marshal : WALEntry -> string)
    (unmarshal : string -> option WALEntry)
    (quote addr : string -> string) (cfgs : string -> Config) (stores : string -> option D)
    (ids : gset string) (fs : disk) (port interval now : Z) (hs h : list hazard) (d d' : deployment D) :
  (forall id, id ∈ ids -> cfg_NodeID (cfgs id) = id) -> blank_stores stores ids ->
  deployed marshal unmarshal quote addr cfgs stores ids now hs d ->
  dstep marshal quote addr cfgs d h d' ->
  (exists hs', hs' ⊆ hs /\ reached marshal addr ids fs port interval hs' (cluster_of d)) /\
  (exists h', h' ⊆ h /\ yrun marshal addr (cluster_of d) h' (cluster_of d')).
Proof.
  intros Hids Hbl Hd Hs. split; [by eapply deployed_reached|by eapply dstep_refines].
Qed.

(** C4: Clients cannot tell converged processes apart.  As long as no update had a
    negative delta or left [int64], no counter was reset, no answer to a delta was
    lost, no round read its counts and its clock at different instants, and no
    stranger sent a message (a run with no hazards; ids have no colon, addresses are
    distinct, the stores are empty at the start, nobody restarts), two processes of a deployment
    whose clocks agree answer a read of any counter with the same value, whether it
    comes over gRPC or HTTP; and a process never credits another replica with more
    than that replica counted. *)
Theorem deployment_reads_agree {D : Type} `{SO : StoreOps D} (marshal : WALEntry -> string)
    (unmarshal : string -> option WALEntry)
    (quote addr : string -> string) (cfgs : string -> Config) (stores : string -> option D)
    (ids : gset string) (now : Z) (d : deployment D) (a b name : string) (p q : Process D) (ce ce' : call_env)
    (r r' : CounterResponse) :
  (forall a b, addr a = addr b -> a = b) -> (forall id, id ∈ ids -> colon_free id) ->
  (forall id, id ∈ ids -> cfg_NodeID (cfgs id) = id) -> blank_stores stores ids ->
  deployed marshal unmarshal quote addr cfgs stores ids now [] d ->
  procs d !! a = Some p -> procs d !! b = Some q ->
  (handle marshal quote ce p (RqGetValue name)).2 = Ok (RsCounter r) ->
  (handle marshal quote ce' q (RqGetValue name)).2 = Ok (RsCounter r') ->
  (clock (s_clock (p_service p)) ≈ clock (s_clock (p_service q)) ->
   cr_CurrentValue r = cr_CurrentValue r') /\
  (forall k, key_owner k = a ->
     (positive (s_counter (p_service q))).[k] <= (positive (s_counter (p_service p))).[k] /\
     (negative (s_counter (p_service q))).[k] <= (negative (s_counter (p_service p))).[k]).
Proof.
  intros Hinj Hfree Hids Hbl Hd Hp Hq [= <-] [= <-].
  destruct (deployed_reached marshal unmarshal quote addr cfgs stores ids ∅ 0 0 now [] d
    Hids Hbl Hd) as (h & ->%list_nil_subseteq & Hr).
  destruct (reached_inv marshal addr Hinj ids ∅ 0 0 _ Hfree Hr) as (V & T & HI).
  apply cluster_of_lookup in Hp, Hq.
  destruct (i_node addr _ V T HI a _ Hp) as [_ Va], (i_node addr _ V T HI b _ Hq) as [_ Vb]. split.
  - intros Hk. simpl. apply ValueName_proper; [|done]. by apply (versioned_agree V T _ _ _ _ Va Vb).
  - intros k Ho. by apply (owner_ahead addr (cluster_of d) V T a b (node_of p) (node_of q)).
Qed.

(** ** Witnesses

    A client increments a counter on node a over gRPC; a synchronises with b. *)

Abbreviation ex_step := (@pstep _ ex_ops marshal_entry id ex_config).

Definition ex_call : call_env := mkCallEnv (calm 5) None (fun _ => None).

Definition ex_d0 : deployment RedisStore := @deploy _ ex_ops unmarshal_entry ex_config (fun _ => None) ex_ids 0.

Definition ex_wired (id : string) : Process RedisStore :=
  @wire _ ex_ops unmarshal_entry (ex_config id) None ∅ (mkBootEnv true true true) 0.

Definition ex_increment : event :=
  EvCall ex_call (Some ["Bearer k"]) (RqIncrement (mkUpdateRequest 3 "" 0 "likes")).

Definition ex_pa1 : Process RedisStore := ex_step "a" (ex_wired "a") ex_increment.

Definition ex_d1 : deployment RedisStore := put_proc ex_d0 "a" ex_pa1.

Lemma ex_deployed1 :
  @deployed _ ex_ops marshal_entry unmarshal_entry id ex_addr ex_config (fun _ => None) ex_ids 0
    [] ex_d1.
Proof.
  apply (d_step _ _ _ _ _ _ _ _ [] [] ex_d0); [apply d_boot|].
  by apply (d_event _ _ _ _ _ "a" (ex_wired "a") ex_increment).
Qed.

(** The phases of the exchange. *)
Definition ex_u : StateUpdate :=
  default ex_blank (prepare (p_service ex_pa1) (p_engine ex_pa1)
    (default (NewMembership "a") (s_cluster (p_service ex_pa1))) (ex_addr "b") 6).2.

Definition ex_pa2 : Process RedisStore := ex_step "a" ex_pa1
  (EvPrepare (Positive (s_counter (p_service ex_pa1))) (Negative (s_counter (p_service ex_pa1))) (ex_addr "b") 6).

Definition ex_d2 : deployment RedisStore :=
  put_msg (put_proc ex_d1 "a" ex_pa2) ("a", "b") (Some (Sent ex_u)).

Definition ex_pb3 : Process RedisStore := ex_step "b" (ex_wired "b") (EvRecv (calm 7) ex_u).

Definition ex_r : StateUpdate :=
  default ex_blank (@sync_update _ ex_ops marshal_entry (calm 7) (p_service (ex_wired "b")) ex_u).2.

Definition ex_d3 : deployment RedisStore :=
  put_msg (put_proc ex_d2 "b" ex_pb3) ("a", "b") (Some (Replied ex_u ex_r)).

Definition ex_pa4 : Process RedisStore :=
  ex_step "a" ex_pa2 (EvComplete (calm 8) (ex_addr "b") (su_VectorClock ex_u) (Some ex_r)).

Definition ex_d4 : deployment RedisStore := put_msg (put_proc ex_d3 "a" ex_pa4) ("a", "b") None.

Lemma ex_sent : @dstep _ ex_ops marshal_entry id ex_addr ex_config ex_d1 [] ex_d2.
Proof.
  apply (d_send _ _ _ _ _ "a" "b" ex_pa1 (ex_wired "b") 6 ex_u).
  - reflexivity.
  - vm_compute. reflexivity.
  - discriminate.
  - reflexivity.
  - vm_compute. reflexivity.
Qed.

Lemma ex_deployed4 :
  @deployed _ ex_ops marshal_entry unmarshal_entry id ex_addr ex_config (fun _ => None) ex_ids 0
    [] ex_d4.
Proof.
  apply (d_step _ _ _ _ _ _ _ _ [] [] ex_d3); [apply (d_step _ _ _ _ _ _ _ _ [] [] ex_d2);
    [apply (d_step _ _ _ _ _ _ _ _ [] [] ex_d1); [exact ex_deployed1|exact ex_sent]|]|].
  - apply (d_recv _ _ _ _ ex_d2 "a" "b" (ex_wired "b") ex_u (calm 7) ex_r).
    + reflexivity.
    + vm_compute. reflexivity.
    + vm_compute. reflexivity.
  - apply (d_finish _ _ _ _ ex_d3 "a" "b" ex_pa2 ex_u ex_r (calm 8)).
    + reflexivity.
    + reflexivity.
Qed.

Lemma ex_config_ids (id : string) : id ∈ ex_ids -> cfg_NodeID (ex_config id) = id.
Proof. reflexivity. Qed.

Lemma ex_blank_stores : @blank_stores RedisStore ex_ops (fun _ => None) ex_ids.
Proof. done. Qed.

(** The sending of an update, and a reset, which is a hazard. *)
Lemma deployment_refines_witness :
  (exists h, h ⊆ [] /\ @yrun _ ex_ops marshal_entry ex_addr (cluster_of ex_d1) h (cluster_of ex_d2)) /\
  (exists h, h ⊆ [Cleared] /\ @yrun _ ex_ops marshal_entry ex_addr (cluster_of ex_d1) h
     (cluster_of (put_proc ex_d1 "a" (ex_step "a" ex_pa1 (EvHTTP ex_call (RqReset "likes")))))).
Proof.
  split.
  - apply (@deployment_refines _ ex_ops marshal_entry unmarshal_entry id ex_addr ex_config
      (fun _ => None) ex_ids ∅ 50051 0 0 [] [] ex_d1 ex_d2 ex_config_ids ex_blank_stores ex_deployed1 ex_sent).
  - apply (@deployment_refines _ ex_ops marshal_entry unmarshal_entry id ex_addr ex_config
      (fun _ => None) ex_ids ∅ 50051 0 0 [] [Cleared] ex_d1 _ ex_config_ids ex_blank_stores ex_deployed1).
    by apply (d_event _ _ _ _ ex_d1 "a" ex_pa1 (EvHTTP ex_call (RqReset "likes"))).
Defined.

(** After the exchange both processes answer 3. *)
Lemma deployment_reads_agree_witness :
  cr_CurrentValue (GetValue (calm 9) (p_service ex_pb3) "likes") = 3 /\
  cr_CurrentValue (GetValue (calm 9) (p_service ex_pa4) "likes") =
  cr_CurrentValue (GetValue (calm 9) (p_service ex_pb3) "likes").
Proof.
  split; [vm_compute; reflexivity|].
  apply (@deployment_reads_agree _ ex_ops marshal_entry unmarshal_entry id ex_addr ex_config
    (fun _ => None) ex_ids 0 ex_d4 "a" "b" "likes" ex_pa4 ex_pb3 (mkCallEnv (calm 9) None (fun _ => None))
    (mkCallEnv (calm 9) None (fun _ => None)) _ _ ex_addr_inj ex_ids_free ex_config_ids ex_blank_stores
    ex_deployed4).
  - reflexivity.
  - reflexivity.
  - reflexivity.
  - reflexivity.
  - by_eval.
Defined.
