(* ===== verification/Restart.v ===== *)
(** * A deployment whose processes crash

    The deployment of [Deployment] with processes that die and are started again
    by [main] on the same disk and database.  A restart is the restart step of
    [Cluster] as long as all mutations of the process could be logged, because
    recovery rebuilds the data of [Durability]; the exceptions are state merged
    from a seed, which is neither logged nor saved until the next snapshot, and
    writes that failed or cannot be represented.  They are tracked, and a restart
    with them is the hazard [Forgotten]. *)

From S2P Require Import Prelude Lattice PNCounter VectorClock Delta Breaker Membership Bully Swim Codec Wal.
From S2P Require Import Store Messages Service ServiceSpec Durability Gossip Cluster Bootstrap.
From S2P Require Import RateLimit Admin Server Process Deployment.

(** ** Steps *)

(** A deployment, the nodes that hold state no log or snapshot has, and the nodes
    whose log does not tell their state any more. *)
Record fleet (D : Type) := mkFleet {
  fl_procs : deployment D;
  fl_unsaved : gset string;
  fl_broken : gset string;
}.

Arguments mkFleet {D}.
Arguments fl_procs {D}.
Arguments fl_unsaved {D}.
Arguments fl_broken {D}.

(** Every change of the node can be rebuilt from its disk and database. *)
Definition all_recorded {D : Type} (fl : fleet D) (a : string) : Prop :=
  a ∉ fl_unsaved fl ∪ fl_broken fl.

Section restart.
Context {D : Type} `{SO : StoreOps D}.
Variable marshal : WALEntry -> string.
Variable unmarshal : string -> option WALEntry.
Variable quote : string -> string.
Variable addr : string -> string.
Variable cfgs : string -> Config.
Implicit Types d : deployment D.
Implicit Types p : Process D.

(** The operation [o] logs, on a disk and a store without failures. *)
Definition logs (a : string) p (io : env) (o : Z -> op) : Prop :=
  exists now, io = calm now /\ legal marshal a (cfg_WALDir (cfgs a)) (p_service p) (o now).

(** The writes of the event succeed and can be represented. *)
Definition recorded (a : string) p (e : event) : Prop :=
  match e with
  | EvCall ce _ (RqIncrement req) | EvHTTP ce (RqIncrement req) => logs a p (ce_io ce) (OpIncrement req)
  | EvCall ce _ (RqDecrement req) | EvHTTP ce (RqDecrement req) => logs a p (ce_io ce) (OpDecrement req)
  | EvCall ce _ (RqReset name) | EvHTTP ce (RqReset name) => logs a p (ce_io ce) (OpReset name)
  | EvRecv io u | EvComplete io _ _ (Some u) => logs a p io (OpSync u)
  | EvSnapshot io => logs a p io OpSnapshot
  | EvRecover _ _ => False
  | _ => True
  end.

(** The nodes with unsaved state after the event. *)
Definition unsaved (a : string) p (e : event) (U : gset string) : gset string :=
  match e with
  | EvSeedReply response _ => if has_state response then {[a]} ∪ U else U
  | EvSnapshot _ => if decide (is_Some (s_store (p_service p))) then U ∖ {[a]} else U
  | _ => U
  end.

(** The process started again on the disk and the database it left. *)
Definition reborn (a : string) p (now : Z) : Process D :=
  wire unmarshal (cfgs a) (s_store (p_service p)) (files (p_service p)) (mkBootEnv true true true) now.

(** The messages of [a] die with it. *)
Definition drop_msgs d (a : string) : deployment D :=
  mkDeployment (procs d) (filter (fun kf => kf.1.1 <> a) (msgs d)).

(** A step of the deployment in which one process takes an event, recorded or not,
    or none does; or a crash of any process between two events, with all its
    exchanges, and its restart.  The hazards of a crash are those of the messages
    that die, and [Forgotten] unless everything was recorded.  A crash in the middle
    of a write, a disk that was exchanged and a start on which recovery fails are
    [r_damage]: a start on any disk, database and outcome of the reads. *)
Inductive rstep : fleet D -> list hazard -> fleet D -> Prop :=
| r_event d d' U B h a p e :
    dstep marshal quote addr cfgs d h d' -> procs d !! a = Some p -> recorded a p e ->
    procs d' = <[a := pstep marshal quote cfgs a p e]> (procs d) ->
    rstep (mkFleet d U B) h (mkFleet d' (unsaved a p e U) B)
| r_unrecorded d d' U B h a p e :
    dstep marshal quote addr cfgs d h d' -> procs d !! a = Some p ->
    procs d' = <[a := pstep marshal quote cfgs a p e]> (procs d) ->
    rstep (mkFleet d U B) h (mkFleet d' U ({[a]} ∪ B))
| r_msg d d' U B h :
    dstep marshal quote addr cfgs d h d' -> procs d' = procs d ->
    rstep (mkFleet d U B) h (mkFleet d' U B)
| r_crash d U B h a p now :
    procs d !! a = Some p -> (forall b f, msgs d !! (a, b) = Some f -> loss_hazard f ⊆ h) ->
    a ∉ U ∪ B \/ Forgotten ∈ h ->
    rstep (mkFleet d U B) h
      (mkFleet (put_proc (drop_msgs d a) a (reborn a p now)) U
         (if decide (a ∈ U) then {[a]} ∪ B else B))
| r_damage d U B h a p store fs io now :
    procs d !! a = Some p -> (forall b f, msgs d !! (a, b) = Some f -> loss_hazard f ⊆ h) ->
    Forgotten ∈ h ->
    rstep (mkFleet d U B) h
      (mkFleet (put_proc (drop_msgs d a) a (wire unmarshal (cfgs a) store fs io now)) U ({[a]} ∪ B)).

Inductive ran (stores : string -> option D) (ids : gset string) (now : Z) :
    list hazard -> fleet D -> Prop :=
| r_boot : ran stores ids now [] (mkFleet (deploy unmarshal cfgs stores ids now) ∅ ∅)
| r_step hs h fl fl' : ran stores ids now hs fl -> rstep fl h fl' -> ran stores ids now (hs ++ h) fl'.

End restart.

(** ** Events and the disk *)

Section disk.
Context {D : Type} `{SO : StoreOps D}.
Variable marshal : WALEntry -> string.
Variable unmarshal : string -> option WALEntry.
Variable quote : string -> string.
Variable cfg : Config.
Implicit Types s : CounterService D.
Implicit Types p : Process D.

Lemma disk_setters s :
  (forall m, disk_of (Service.SetCluster s m) = disk_of s) /\
  (forall b, disk_of (SetBully s b) = disk_of s) /\ forall tags, disk_of (set_tags s tags) = disk_of s.
Proof. by destruct s. Qed.

Lemma handle_disk ce p r :
  local_request r = true ->
  disk_of (p_service (handle marshal quote ce p r).1) = disk_of (p_service p).
Proof.
  destruct (disk_setters (p_service p)) as (H1 & H2 & H3).
  destruct r; try done; intros _; cbn [handle];
    unfold CreateCounter, JoinCluster, Heartbeat, Coordinator, AddNode, RemoveNode, ForceSync;
    repeat case_match; simplify_eq; simpl; try done; auto.
Qed.

(** A call that does not reach a handler leaves the service alone. *)
Lemma grpc_call_service ce md p r :
  let p' := (grpc_call marshal quote ce md p r).1 in
  p_service p' = p_service p \/
  exists l, p' = (handle marshal quote ce (set_limiter p l) r).1.
Proof.
  unfold grpc_call. case_match; [by left|]. unfold chain, unaryInterceptors. cbn [fold_right].
  unfold auth_Unary. case_match; [|by left]. unfold rateLimit_Unary.
  destruct (Allow _ _) as [l ok]. destruct (negb ok); [by left|right; by exists l].
Qed.

Definition is_snapshot (e : event) : bool := match e with EvSnapshot _ => true | _ => false end.

Lemma step_disk p (e : event) :
  local_event e = true -> is_snapshot e = false ->
  disk_of (p_service (step marshal quote cfg p e)) = disk_of (p_service p).
Proof.
  destruct (disk_setters (p_service p)) as (H1 & H2 & H3).
  destruct e; try done; cbn [local_event step]; intros He _;
    try (unfold on_table, on_bully; repeat case_match; simpl; try done; auto); try done.
  - destruct (grpc_call_service ce md p r) as [->|[l ->]]; [done|]. by rewrite handle_disk.
  - by apply handle_disk.
Qed.

(** The data and the disk of a wired process are those of the start-up. *)
Lemma wire_startup (store : option D) (fs : disk) (io : boot_env) (now : Z) :
  let p := wire unmarshal cfg store fs io now in
  let s := startup unmarshal (cfg_NodeID cfg) (cfg_GRPCPort cfg) (cfg_CounterShards cfg)
             (if cfg_PersistenceEnabled cfg then store else None)
             (if cfg_WALEnabled cfg then Some (cfg_WALDir cfg) else None) fs io in
  data (p_service p) = data s /\ s_nodeID (p_service p) = s_nodeID s /\
  disk_of (p_service p) = disk_of s /\ lastSyncClock (p_service p) = ∅ /\ lastSync (p_engine p) = ∅.
Proof.
  intros p s. destruct (startup_store unmarshal (cfg_NodeID cfg) (cfg_GRPCPort cfg) (cfg_CounterShards cfg)
    (if cfg_PersistenceEnabled cfg then store else None)
    (if cfg_WALEnabled cfg then Some (cfg_WALDir cfg) else None) fs io) as [_ Hl].
  unfold p, wire. fold s in Hl |- *. clearbody s. simpl. by destruct s.
Qed.

End disk.

(** ** Durability of a running process *)

Section durable_process.
Context {D : Type} `{SO : StoreOps D} `{ST : !Store D}.
Variable marshal : WALEntry -> string.
Variable unmarshal : string -> option WALEntry.
Context `{EC : !EntryCodec marshal unmarshal}.
Variable quote : string -> string.
Variable addr : string -> string.
Variable cfgs : string -> Config.
Implicit Types s : CounterService D.
Implicit Types p : Process D.
Abbreviation durable_at a := (durable marshal a (cfg_WALDir (cfgs a))).

(** The engine logs what it merges through the service's log. *)
Lemma mergeRemoteState_logs (now : Z) s g (u : StateUpdate) :
  g_wal g = true -> is_Some (s_wal s) -> g_nodeID g = s_nodeID s ->
  mergeRemoteState marshal (calm now) s g u =
  persist (calm now) (walAppend marshal (calm now) (absorbed s u) "merge" "" 0
    (su_PositiveState u) (su_NegativeState u) (su_VectorClock u)).
Proof.
  intros Hg [w Hw] Hid. unfold mergeRemoteState. fold (absorbed s u). rewrite Hg, Hid.
  assert (s_wal (absorbed s u) = Some w /\ s_nodeID (absorbed s u) = s_nodeID s) as [E1 E2].
  { unfold absorbed. destruct s as [? ? ? ? cl ? ? ? ? ? ? ? ? ? ? ?]. simpl in *.
    destruct cl; [|done]. by destruct (0 <? _). }
  unfold walAppend, Append. rewrite E1, E2. simpl.
  destruct (AppendCounter _ _ _ _ _ _ _ _ _ _ _ _) as [[w' d'] err].
  unfold persist. by destruct (absorbed s u).
Qed.

(** An update or reset request, behind the middleware or not. *)
Lemma handle_durable (a : string) (c : bool) ce p r :
  durable_at a c (p_service p) -> local_request r = false ->
  recorded marshal cfgs a p (EvHTTP ce r) ->
  durable_at a c (p_service (handle marshal quote ce p r).1).
Proof.
  intros Hd Hr. destruct r; try done; intros (now & Hio & Hl); cbn [handle]; rewrite Hio.
  - pose proof (increment_durable marshal unmarshal a (cfg_WALDir (cfgs a)) c _ req now Hd Hl)
      as [H _]. cbn [run_op] in H. by destruct (Increment _ _ _ _).
  - pose proof (decrement_durable marshal unmarshal a (cfg_WALDir (cfgs a)) c _ req now Hd Hl)
      as [H _]. cbn [run_op] in H. by destruct (Decrement _ _ _ _).
  - pose proof (reset_durable marshal unmarshal a (cfg_WALDir (cfgs a)) c _ counterName now Hd Hl)
      as [H _]. cbn [run_op] in H. destruct (Reset _ _ _ _) as [[s i] called]. simpl in *. by destruct called.
Qed.

Lemma recovered_durable (a : string) (c : bool) (la : string) (now : Z) s (u : StateUpdate) :
  durable_at a c s -> durable_at a false (recovered a la now s u).
Proof.
  intros (Hwf & [Hn1 Hn2] & snap & es & Hlog & _).
  destruct (recovered_merged a la now s u) as ([M1 M2 M3 M4 M5 M6] & _ & E1 & E2 & E3).
  set (s' := recovered a la now s u) in *. clearbody s'. split; [|split; [split; congruence|]].
  - pose proof (data_wf_merged (data s) (su_PositiveState u) (su_NegativeState u) (su_VectorClock u) Hwf)
      as H. unfold merged in H. rewrite remote_counter_eq in H. unfold data_wf, pn_wf, vc_wf in *.
    simpl in *. by rewrite M4, M5, M6.
  - exists snap, es. split; [|done]. by eapply logged_same.
Qed.

(** What the disk says of the process after the event. *)
Definition clean_after p (e : event) (c : bool) : bool :=
  match e with
  | EvSeedReply response _ => c && negb (has_state response)
  | EvSnapshot _ => c || bool_decide (is_Some (s_store (p_service p)))
  | _ => c
  end.

Lemma step_durable (a : string) (c : bool) p (e : event) :
  cfg_NodeID (cfgs a) = a -> process_ok (cfgs a) p -> durable_at a c (p_service p) ->
  recorded marshal cfgs a p e ->
  durable_at a (clean_after p e c) (p_service (pstep marshal quote cfgs a p e)).
Proof.
  intros Hida Hok Hd Hrec. unfold pstep.
  destruct (local_event e && negb (is_snapshot e)) eqn:He.
  { apply andb_prop in He as [Hl Hns%negb_true_iff].
    pose proof (step_local marshal quote (cfgs a) p e Hl) as [_ [S1 S2 S3 _] _].
    replace (clean_after p e c) with c by (by destruct e).
    apply (durable_same marshal a (cfg_WALDir (cfgs a)) c (p_service p)); [done| |apply S1|by apply step_disk].
    unfold data. by rewrite S2, S3. }
  destruct e as [ce md r|ce r|io u| | | |io ad clk response| | | | | |io| | |call now|r now];
    try done; cbn [step clean_after]; simpl in He; rewrite ?andb_true_r in He.
  - destruct (grpc_call_service marshal quote ce md p r) as [->|[l ->]]; [done|].
    by apply (handle_durable a c ce (set_limiter p l) r).
  - by apply handle_durable.
  - destruct Hrec as (now & -> & Hl).
    by destruct (sync_durable marshal unmarshal a (cfg_WALDir (cfgs a)) c _ u now Hd Hl).
  - destruct response as [r|]; [|done]. destruct Hrec as (now & -> & Hl). cbn [complete].
    pose proof Hd as (_ & _ & _ & _ & [_ (w & Hw & _) _ _ _] & _).
    cbn [set_service set_engine p_service]. rewrite mergeRemoteState_logs.
    + apply (absorbed_durable marshal a (cfg_WALDir (cfgs a)) c _ r now Hd Hl).
    + destruct (p_engine p) eqn:Hg. simpl. pose proof (po_wal _ _ Hok) as Hwal. rewrite Hg in Hwal.
      apply Hwal. by rewrite Hw.
    + by rewrite Hw.
    + pose proof (po_engine _ _ Hok). pose proof (po_service _ _ Hok).
      destruct (p_engine p). simpl in *. congruence.
  - destruct Hrec as (now & -> & Hl).
    by destruct (snapshot_durable marshal unmarshal a (cfg_WALDir (cfgs a)) c _ now Hd Hl).
  - destruct (has_state r) eqn:Hh; [|by rewrite andb_true_r]. rewrite andb_false_r.
    replace (p_nodeID p) with a by (by rewrite (po_id _ _ Hok)). by eapply recovered_durable.
Qed.

(** The restarted process has the data back and forgets its baselines. *)
Lemma reborn_restarted (a : string) p (now : Z) :
  cfg_NodeID (cfgs a) = a -> cfg_WALEnabled (cfgs a) = true -> process_ok (cfgs a) p ->
  durable_at a true (p_service p) ->
  let p' := reborn unmarshal cfgs a p now in
  process_ok (cfgs a) p' /\ durable_at a true (p_service p') /\
  restarted (node_of p) (node_of p').
Proof.
  intros Hida Hwal Hok Hd p'. pose proof (wire_ok unmarshal (cfgs a) (s_store (p_service p))
    (files (p_service p)) (mkBootEnv true true true) now) as Hok'.
  change (wire _ _ _ _ _ _) with p' in Hok'.
  destruct (wire_startup unmarshal (cfgs a) (s_store (p_service p)) (files (p_service p))
    (mkBootEnv true true true) now) as (W1 & W2 & W3 & W4 & W5).
  change (wire _ _ _ _ _ _) with p' in W1, W2, W3, W4, W5. rewrite Hwal, Hida in *.
  replace (if cfg_PersistenceEnabled (cfgs a) then s_store (p_service p) else None)
    with (s_store (p_service p)) in *.
  2:{ destruct (cfg_PersistenceEnabled (cfgs a)) eqn:Hp; [done|]. by apply (po_store _ _ Hok). }
  destruct (startup_durable marshal unmarshal a
    (cfg_WALDir (cfgs a)) (cfg_GRPCPort (cfgs a)) (cfg_CounterShards (cfgs a)) (p_service p) Hd) as [Hd' Hs].
  split; [done|]. split; [by eapply durable_same|].
  rewrite <- W1 in Hs. clearbody p'. destruct Hs as (Hs1 & Hs2 & Hs3 & Hs4), Hok, Hok'.
  split; simpl; try done; congruence.
Qed.

End durable_process.

(** ** The refinement *)

Section refinement.
Context {D : Type} `{SO : StoreOps D} `{ST : !Store D}.
Variable marshal : WALEntry -> string.
Variable unmarshal : string -> option WALEntry.
Context `{EC : !EntryCodec marshal unmarshal}.
Variable quote : string -> string.
Variable addr : string -> string.
Variable cfgs : string -> Config.
Variable ids : gset string.
Hypothesis ids_conf : forall id, id ∈ ids -> cfg_NodeID (cfgs id) = id.
Hypothesis ids_wal : forall id, id ∈ ids -> cfg_WALEnabled (cfgs id) = true.
Implicit Types d : deployment D.
Implicit Types p : Process D.
Implicit Types fl : fleet D.
(** Every process is well formed and, unless its log is broken, durable up to its
    unsaved state. *)
Definition fleet_ok fl : Prop :=
  forall a p, procs (fl_procs fl) !! a = Some p ->
    a ∈ ids /\ process_ok (cfgs a) p /\
    (a ∉ fl_broken fl ->
     durable marshal a (cfg_WALDir (cfgs a)) (bool_decide (a ∉ fl_unsaved fl)) (p_service p)).

Lemma unsaved_clean (a : string) p (e : event) (U : gset string) :
  bool_decide (a ∉ unsaved a p e U) = clean_after p e (bool_decide (a ∉ U)).
Proof.
  destruct e; try done; simpl.
  - case_decide as Hs; [rewrite (bool_decide_true _ Hs)|rewrite (bool_decide_false _ Hs), orb_false_r];
      [|done]. rewrite orb_true_r. apply bool_decide_true. set_solver.
  - destruct (has_state response); [|by rewrite andb_true_r]. rewrite andb_false_r.
    apply bool_decide_false. set_solver.
Qed.

Lemma unsaved_other (a b : string) p (e : event) (U : gset string) :
  b <> a -> bool_decide (b ∉ unsaved a p e U) = bool_decide (b ∉ U).
Proof. intros Hne. apply bool_decide_ext. destruct e; try done; simpl; case_match; set_solver. Qed.

(** The messages of a crashed node are lost one by one. *)
Lemma drop_all (a : string) (ns : gmap string (node D)) (hs : list hazard) (l : list string) :
  forall fs : gmap (string * string) flight,
  (forall b f, fs !! (a, b) = Some f -> loss_hazard f ⊆ hs) -> (forall b, is_Some (fs !! (a, b)) -> b ∈ l) ->
  yrun_within marshal addr hs (mkSystem ns fs) (mkSystem ns (filter (fun kf => kf.1.1 <> a) fs)).
Proof.
  induction l as [|b l IH]; intros fs Hdr Hl.
  - replace (filter _ fs) with fs; [by apply yrun_within_internal; constructor|].
    symmetry. apply map_filter_id.
    intros [x b] f Hf. simpl. intros ->. destruct (not_elem_of_nil b). apply Hl. by eexists.
  - destruct (fs !! (a, b)) as [f|] eqn:Hf.
    + replace (filter _ fs) with (filter (fun kf => kf.1.1 <> a) (delete (a, b) fs)).
      * destruct (IH (delete (a, b) fs)) as (h & Hh & Hrun).
        -- intros c g. rewrite lookup_delete_Some. intros [_ Hg]. by apply (Hdr c g).
        -- intros c [g Hg]. apply lookup_delete_Some in Hg as [Hne Hg].
           destruct (proj1 (elem_of_cons l c b)) as [->|?]; [apply Hl; by eexists|done..].
        -- exists (loss_hazard f ++ h). split; [|by eapply yrun_step; [apply y_drop|]].
           intros x [Hx|Hx]%elem_of_app; [by apply (Hdr b f)|by apply Hh].
      * apply map_eq. intros [x c]. apply option_eq. intros g.
        rewrite !map_lookup_filter_Some, lookup_delete_Some. simpl. naive_solver.
    + apply IH; [done|]. intros c [g Hg]. destruct (proj1 (elem_of_cons l c b)) as [->|?]; [|congruence|done].
      apply Hl. by eexists.
Qed.

(** What any new process of a node has in common with the old one. *)
Lemma wire_renewed (a : string) p (store : option D) (fs : disk) (io : boot_env) (now : Z) :
  process_ok (cfgs a) p ->
  let p' := wire unmarshal (cfgs a) store fs io now in
  process_ok (cfgs a) p' /\ renewed (node_of p) (node_of p').
Proof.
  intros Hok p'. pose proof (wire_ok unmarshal (cfgs a) store fs io now) as Hok'.
  destruct (wire_startup unmarshal (cfgs a) store fs io now) as (_ & _ & _ & W4 & W5).
  fold p' in Hok', W4, W5. clearbody p'. split; [done|].
  destruct Hok, Hok'. split; simpl; try done; congruence.
Qed.

Lemma crash_steps d (a : string) p p' (h : list hazard) :
  procs d !! a = Some p -> (forall b f, msgs d !! (a, b) = Some f -> loss_hazard f ⊆ h) ->
  restarted (node_of p) (node_of p') \/ (renewed (node_of p) (node_of p') /\ Forgotten ∈ h) ->
  yrun_within marshal addr h (cluster_of d) (cluster_of (put_proc (drop_msgs d a) a p')).
Proof.
  intros Hp Hdr Hr. pose proof (cluster_of_lookup d a p Hp) as Hn.
  destruct (drop_all a (node_of <$> procs d) h ((fun kf => kf.1.2) <$> map_to_list (msgs d)) (msgs d) Hdr)
    as (h1 & Hh1 & Hrun).
  { intros b [f Hf]. apply list_elem_of_fmap. exists ((a, b), f). split; [done|].
    by apply elem_of_map_to_list. }
  assert (forall b, flights (cluster_of (drop_msgs d a)) !! (a, b) = None) as Hnone.
  { intros b. simpl. apply map_lookup_filter_None. right. intros f _. simpl. naive_solver. }
  rewrite cluster_of_put. destruct Hr as [Hr|[Hr Hf]].
  - exists (h1 ++ []). split; [by rewrite app_nil_r|]. eapply yrun_app; [exact Hrun|].
    apply yrun_once, (y_restart _ _ _ a (node_of p)); done.
  - exists (h1 ++ [Forgotten]). split.
    + intros x [Hx|Hx]%elem_of_app; [by apply Hh1|]. apply list_elem_of_singleton in Hx as ->. done.
    + eapply yrun_app; [exact Hrun|]. apply yrun_once, (y_forget _ _ _ a (node_of p)); done.
Qed.

Lemma rstep_ok fl fl' (h : list hazard) :
  fleet_ok fl -> rstep marshal unmarshal quote addr cfgs fl h fl' ->
  fleet_ok fl' /\ yrun_within marshal addr h (cluster_of (fl_procs fl)) (cluster_of (fl_procs fl')).
Proof.
  intros Hok. destruct 1 as [d d' U B h a p e Hs Hp Hrec Hd'|d d' U B h a p e Hs Hp Hd'|d d' U B h Hs Hd'|
    d U B h a p now Hp Hdr HU|d U B h a p store disk io now Hp Hdr HF]; simpl.
  - split; [|by eapply dstep_refines]. intros b q. simpl. rewrite Hd', lookup_insert. case_decide as Hb.
    + intros [= <-]. subst b. destruct (Hok a p Hp) as (Ha & Hpo & Hdu). split_and!; [done| |].
      * eapply process_ok_evolves; [exact Hpo|apply step_evolves].
      * intros HB. rewrite unsaved_clean. apply (step_durable marshal unmarshal quote cfgs); auto.
    + intros Hq. destruct (Hok b q Hq) as (Hbi & Hpo & Hdu). simpl in Hdu.
      rewrite unsaved_other by done. done.
  - split; [|by eapply dstep_refines]. intros b q. simpl. rewrite Hd', lookup_insert. case_decide as Hb.
    + intros [= <-]. subst b. destruct (Hok a p Hp) as (Ha & Hpo & _). split_and!; [done| |set_solver].
      eapply process_ok_evolves; [exact Hpo|apply step_evolves].
    + intros Hq. destruct (Hok b q Hq) as (Hbi & Hpo & Hdu). simpl in Hdu. split_and!; [done..|].
      intros HB. apply Hdu. set_solver.
  - split; [|by eapply dstep_refines]. intros b q. simpl. rewrite Hd'. apply Hok.
  - destruct (Hok a p Hp) as (Ha & Hpo & Hdu). simpl in Hdu.
    destruct (wire_renewed a p (s_store (p_service p)) (files (p_service p)) (mkBootEnv true true true)
      now Hpo) as [R1 R2]. split.
    + intros b q. simpl. destruct (decide (a = b)) as [<-|Hb];
        [rewrite lookup_insert_eq|rewrite lookup_insert_ne by done].
      * intros [= <-]. split_and!; [done..|]. case_decide as HaU; [set_solver|]. intros HB.
        rewrite bool_decide_true in Hdu |- * by done.
        apply (reborn_restarted marshal unmarshal cfgs a p now); auto.
      * intros Hq. destruct (Hok b q Hq) as (Hbi & Hpb & Hdb). simpl in Hdb. split_and!; [done..|].
        intros HB. apply Hdb. contradict HB. destruct (decide (a ∈ U)); [by apply elem_of_union_r|done].
    + apply (crash_steps d a p); [done..|]. destruct HU as [HU|HU]; [left|by right].
      apply not_elem_of_union in HU as [HU HB]. rewrite bool_decide_true in Hdu by done.
      apply (reborn_restarted marshal unmarshal cfgs a p now); auto.
  - destruct (Hok a p Hp) as (Ha & Hpo & _).
    destruct (wire_renewed a p store disk io now Hpo) as [R1 R2].
    split; [|by apply (crash_steps d a p); [..|right]].
    intros b q. simpl. destruct (decide (a = b)) as [<-|Hb];
      [rewrite lookup_insert_eq|rewrite lookup_insert_ne by done].
    + intros [= <-]. split_and!; [done..|]. intros []. by apply elem_of_union_l, elem_of_singleton.
    + intros Hq. destruct (Hok b q Hq) as (Hbi & Hpb & Hdb). simpl in Hdb. split_and!; [done..|].
      intros HB. apply Hdb. contradict HB. by apply elem_of_union_r.
Qed.

Lemma deploy_ok (stores : string -> option D) (now : Z) :
  blank_stores stores ids -> fleet_ok (mkFleet (deploy unmarshal cfgs stores ids now) ∅ ∅).
Proof.
  intros Hbl a p Hp. simpl in *. apply lookup_set_to_map in Hp as (x & Hx & [= -> <-]); [|naive_solver].
  split; [done|]. split; [apply wire_ok|]. intros _. rewrite bool_decide_true by set_solver.
  destruct (wire_startup unmarshal (cfgs a) (stores a) ∅ (mkBootEnv true true true) now)
    as (W1 & W2 & W3 & _). rewrite (ids_conf a Hx), (ids_wal a Hx) in *.
  eapply durable_same; [|exact W1|exact W2|exact W3].
  apply (startup_fresh marshal unmarshal); [|done].
  specialize (Hbl a Hx). by destruct (cfg_PersistenceEnabled (cfgs a)).
Qed.

Lemma ran_reached (stores : string -> option D) (fs : disk) (port interval now : Z) (hs : list hazard) fl :
  blank_stores stores ids -> ran marshal unmarshal quote addr cfgs stores ids now hs fl ->
  fleet_ok fl /\
  exists h, h ⊆ hs /\ reached marshal addr ids fs port interval h (cluster_of (fl_procs fl)).
Proof.
  intros Hbl. induction 1 as [|hs h fl fl' _ [Hok Hr] Hs].
  - split; [by apply deploy_ok|]. exists []. split; [done|]. by apply deploy_steps.
  - destruct (rstep_ok fl fl' h Hok Hs) as [Hok' Hst]. split; [done|].
    by apply (yrun_within_app marshal addr _ (cluster_of (fl_procs fl))).
Qed.

(** A process all of whose changes were recorded is durable. *)
Lemma recorded_durable fl (a : string) p :
  fleet_ok fl -> procs (fl_procs fl) !! a = Some p -> all_recorded fl a ->
  a ∈ ids /\ process_ok (cfgs a) p /\ durable marshal a (cfg_WALDir (cfgs a)) true (p_service p).
Proof.
  intros Hok Hp Hall. destruct (Hok a p Hp) as (Ha & Hpo & Hdu). apply not_elem_of_union in Hall as [HU HB].
  rewrite bool_decide_true in Hdu by done. split_and!; [done..|]. by apply Hdu.
Qed.

End refinement.

(** ** Properties *)

(** C5: A deployment of logging processes any of which may die at any moment, with
    all its exchanges, and be started again by [main]: every state is a state the
    abstract cluster reaches, and every step a run of it, with no hazards but those
    of the deployment's steps.  A restart is a hazard only if an answered delta of
    the process dies with it, if not all of its changes were recorded (a write that
    failed or could not be represented, an update with a negative delta or beyond
    [int64], state taken over from a seed and not yet in a snapshot), or if the
    process died in the middle of a write or was started on another disk or with
    failing reads; the log that is half written or survives its snapshot then makes
    up another state ([torn_tail_hides_log], [surviving_log_is_replayed_twice],
    [snapshot_race_loses_updates]).  A process all of whose changes were recorded,
    killed between two events, answers reads afterwards as before. *)
Theorem restarts_refine {D : Type} `{SO : StoreOps D} `{ST : !Store D}
    (quote addr : string -> string) (cfgs : string -> Config) (stores : string -> option D)
    (ids : gset string) (fs : disk) (port interval now : Z) (hs h : list hazard) (fl fl' : fleet D) :
  (forall id, id ∈ ids -> cfg_NodeID (cfgs id) = id) ->
  (forall id, id ∈ ids -> cfg_WALEnabled (cfgs id) = true) -> blank_stores stores ids ->
  ran marshal_entry unmarshal_entry quote addr cfgs stores ids now hs fl ->
  rstep marshal_entry unmarshal_entry quote addr cfgs fl h fl' ->
  (exists hs', hs' ⊆ hs /\ reached marshal_entry addr ids fs port interval hs' (cluster_of (fl_procs fl))) /\
  (exists h', h' ⊆ h /\
     yrun marshal_entry addr (cluster_of (fl_procs fl)) h' (cluster_of (fl_procs fl'))) /\
  forall a p t name, procs (fl_procs fl) !! a = Some p -> all_recorded fl a ->
    ValueName (s_counter (p_service (reborn unmarshal_entry cfgs a p t))) name =
    ValueName (s_counter (p_service p)) name.
Proof.
  intros Hids Hwal Hbl Hran Hs.
  destruct (ran_reached marshal_entry unmarshal_entry quote addr cfgs ids Hids Hwal stores fs port
    interval now hs fl Hbl Hran) as [Hok Hr].
  split; [done|]. split; [by eapply (rstep_ok marshal_entry unmarshal_entry)|].
  intros a p t name Hp HU.
  destruct (recorded_durable marshal_entry cfgs ids fl a p Hok Hp HU) as (Ha & Hpo & Hdu).
  destruct (reborn_restarted marshal_entry unmarshal_entry cfgs a p t (Hids a Ha) (Hwal a Ha) Hpo Hdu)
    as (_ & _ & [_ _ _ _ R _ _ _]). by apply ValueName_proper.
Qed.

(** C26: The state a node takes over from a seed is not durable: it is merged
    without being logged or saved, so a process that dies before its next
    snapshot is started again with the values it had before the recovery. *)
Theorem seed_state_forgotten {D : Type} `{SO : StoreOps D} `{ST : !Store D}
    (quote addr : string -> string) (cfgs : string -> Config) (stores : string -> option D)
    (ids : gset string) (now : Z) (hs : list hazard) (fl : fleet D) (a : string) (p : Process D) (r : StateUpdate)
    (t t' : Z) (name : string) :
  (forall id, id ∈ ids -> cfg_NodeID (cfgs id) = id) ->
  (forall id, id ∈ ids -> cfg_WALEnabled (cfgs id) = true) -> blank_stores stores ids ->
  ran marshal_entry unmarshal_entry quote addr cfgs stores ids now hs fl ->
  procs (fl_procs fl) !! a = Some p -> all_recorded fl a -> has_state r = true ->
  let p' := pstep marshal_entry quote cfgs a p (EvSeedReply r t) in
  ValueName (s_counter (p_service p')) name =
    ValueName (PNCounter.Merge (s_counter (p_service p))
                 (pbToPNCounter a (su_PositiveState r) (su_NegativeState r))) name /\
  ValueName (s_counter (p_service (reborn unmarshal_entry cfgs a p' t'))) name =
    ValueName (s_counter (p_service p)) name.
Proof.
  intros Hids Hwal Hbl Hran Hp HU Hst p'.
  destruct (ran_reached marshal_entry unmarshal_entry quote addr cfgs ids Hids Hwal stores ∅ 0 0
    now hs fl Hbl Hran) as [Hok _].
  destruct (recorded_durable marshal_entry cfgs ids fl a p Hok Hp HU) as (Ha & Hpo & Hdu).
  assert (p' = set_service p (recovered a (p_address p) t (p_service p) r)) as Ep'.
  { unfold p', pstep. cbn [step]. by rewrite Hst, (po_id _ _ Hpo), (Hids a Ha). }
  destruct (recovered_merged a (p_address p) t (p_service p) r) as (_ & _ & _ & E2 & E3).
  rewrite Ep'. cbn [set_service p_service]. split.
  - f_equal. unfold recovered. destruct (s_cluster _); by destruct (p_service p).
  - replace (reborn unmarshal_entry cfgs a _ t') with (reborn unmarshal_entry cfgs a p t')
      by (unfold reborn; cbn [set_service p_service]; by rewrite E2, E3).
    destruct (reborn_restarted marshal_entry unmarshal_entry cfgs a p t' (Hids a Ha) (Hwal a Ha) Hpo Hdu)
      as (_ & _ & [_ _ _ _ R _ _ _]). by apply ValueName_proper.
Qed.

(** ** Witnesses

    Node a counts 3, dies and is started again. *)

Abbreviation ex_ran := (@ran _ ex_ops marshal_entry unmarshal_entry id ex_addr ex_config
  (fun _ => None) ex_ids 0).

Lemma ex_config_wal (id : string) : id ∈ ex_ids -> cfg_WALEnabled (ex_config id) = true.
Proof. reflexivity. Qed.

Lemma ex_ran1 : ex_ran [] (mkFleet ex_d1 ∅ ∅).
Proof.
  apply (r_step _ _ _ _ _ _ _ _ [] [] (mkFleet ex_d0 ∅ ∅)); [apply r_boot|].
  apply (r_event _ _ _ _ _ ex_d0 ex_d1 ∅ ∅ [] "a" (ex_wired "a") ex_increment).
  - by apply (d_event _ _ _ _ _ "a" (ex_wired "a") ex_increment).
  - vm_compute. reflexivity.
  - exists 5. split; [reflexivity|]. by_eval.
  - reflexivity.
Qed.

Definition ex_fl2 : fleet RedisStore :=
  mkFleet (put_proc (drop_msgs ex_d1 "a") "a" (@reborn _ ex_ops unmarshal_entry ex_config "a" ex_pa1 9)) ∅ ∅.

Lemma ex_crash :
  @rstep _ ex_ops marshal_entry unmarshal_entry id ex_addr ex_config (mkFleet ex_d1 ∅ ∅) [] ex_fl2.
Proof.
  pose proof (@r_crash _ ex_ops marshal_entry unmarshal_entry id ex_addr ex_config ex_d1 ∅ ∅ [] "a" ex_pa1 9) as H.
  rewrite decide_False in H by set_solver. apply H; [reflexivity| |left; set_solver].
  intros b f. simpl. by rewrite lookup_empty.
Qed.

Lemma restarts_refine_witness :
  ValueName (s_counter (p_service (@reborn _ ex_ops unmarshal_entry ex_config "a" ex_pa1 9))) "likes" = 3.
Proof.
  destruct (@restarts_refine _ ex_ops ex_redis id ex_addr ex_config
    (fun _ => None) ex_ids ∅ 0 0 0 [] [] (mkFleet ex_d1 ∅ ∅) ex_fl2 ex_config_ids ex_config_wal ex_blank_stores
    ex_ran1 ex_crash) as (_ & _ & H).
  etransitivity; [apply (H "a" ex_pa1 9 "likes"); [reflexivity|unfold all_recorded; set_solver]|].
  vm_compute. reflexivity.
Defined.

(** A seed hands node a the counts of node b: 4, which it forgets. *)
Definition ex_seed_reply : StateUpdate :=
  mkStateUpdate "b" {["likes:b" := 4]} ∅ {["likes:b" := 1]} 6 FULL_STATE 1 ∅.

Lemma seed_state_forgotten_witness :
  let p' := @pstep _ ex_ops marshal_entry id ex_config "a" ex_pa1 (EvSeedReply ex_seed_reply 6) in
  ValueName (s_counter (p_service p')) "likes" = 7 /\
  ValueName (s_counter (p_service (@reborn _ ex_ops unmarshal_entry ex_config "a" p' 9))) "likes" = 3.
Proof.
  intros p'.
  destruct (@seed_state_forgotten _ ex_ops ex_redis id ex_addr
    ex_config (fun _ => None) ex_ids 0 [] (mkFleet ex_d1 ∅ ∅) "a" ex_pa1 ex_seed_reply 6 9 "likes"
    ex_config_ids ex_config_wal ex_blank_stores ex_ran1) as [H1 H2];
    [reflexivity|unfold all_recorded; set_solver|reflexivity|].
  split; [etransitivity; [exact H1|]|etransitivity; [exact H2|]]; vm_compute; reflexivity.
Defined.
