(* ===== verification/Dashboard.v ===== *)
(** * The dashboard (internal/dashboard/dashboard.go)

    The aggregated view of the cluster that one node serves.  The view is a
    graph of pointers: the row of the node itself is reachable both as [Self]
    and from [Nodes], and the loop over the members writes through the second
    pointer, so rows live in a store.  Polling a peer is an oracle, and the view
    is built against one state of the table and of the service. *)

From Stdlib Require Import SpecFloat.
From stdpp Require Import pretty.
From S2P Require Import Prelude PNCounter VectorClock Membership Bully Json Codec Wal Store Messages Service.
From S2P Require Import ServiceSpec Float.

(** ** Data *)

Record NodeView := mkNodeView {
  nv_NodeID : string;
  nv_Address : string;
  nv_Status : string;
  nv_IsActive : bool;
  nv_IsLeader : bool;
  nv_LeaderID : string;
  nv_Priority : Z;
  nv_CounterValue : Z;
  nv_Version : string;
  nv_LastSeen : Z;
  nv_Reachable : bool;
}.

Record CounterView := mkCounterView {
  cv_Name : string;
  cv_Value : Z;
  cv_Shard : Z;
  cv_Tags : list string;
  cv_Contributors : list string;
}.

Record GossipStats := mkGossipStats { SentTotal : Z; ReceivedTotal : Z }.

(** The store of rows; a pointer is an index. *)
Abbreviation rows := (list NodeView).

Record ClusterView := mkClusterView {
  view_rows : rows;
  view_Self : option nat;
  view_Nodes : list nat;
  view_Counters : list CounterView;
  view_Gossip : GossipStats;
}.

(** What [json] prints for the pointers. *)
Definition self_row (v : ClusterView) : option NodeView := view_Self v ≫= fun i => view_rows v !! i.

Definition node_rows (v : ClusterView) : list (option NodeView) :=
  (fun i => view_rows v !! i) <$> view_Nodes v.

(** What the peers answer: [GetNodeInfo] of a member at an address, and
    [ListCounters] at an address for the [i]-th row; [None] when the dial or the
    call fails. *)
Record poll_env := mkPollEnv {
  poll_info : string -> string -> option NodeInfo;
  poll_list : nat -> string -> option (list CounterInfo);
}.

(** A Prometheus family: its name and, for each metric, its counter value. *)
Abbreviation family := (string * list (option spec_float))%type.

(** ** Polling *)

Definition nodeViewFromInfo (info : NodeInfo) (reachable : bool) : NodeView :=
  {| nv_NodeID := ni_NodeId info; nv_Address := ni_Address info; nv_Status := "Alive";
     nv_IsActive := true; nv_IsLeader := ni_IsLeader info; nv_LeaderID := ni_LeaderId info;
     nv_Priority := ni_Priority info; nv_CounterValue := ni_CounterValue info;
     nv_Version := ni_Version info; nv_LastSeen := ni_LastSeen info; nv_Reachable := reachable |}.

(** [pollNode] with a nil service. *)
Definition pollNode (env : poll_env) (m : Membership) (nodeID : string) : option NodeView :=
  match GetMember m nodeID with
  | None => None
  | Some member =>
      match poll_info env nodeID (Address member) with
      | None => None
      | Some info => Some (nodeViewFromInfo info true)
      end
  end.

Definition pollCounters (env : poll_env) (i : nat) (address : string) : option (list CounterInfo) :=
  if String.eqb address "" then None else poll_list env i address.

(** ** The rows *)

(** The row of a member that could not be polled. *)
Definition unreachable_row (member : Member) : NodeView :=
  {| nv_NodeID := ID member; nv_Address := Address member; nv_Status := Status_String (mStatus member);
     nv_IsActive := IsActive member; nv_IsLeader := false; nv_LeaderID := "";
     nv_Priority := Priority member; nv_CounterValue := 0; nv_Version := "";
     nv_LastSeen := time_Unix (LastHeartbeat member); nv_Reachable := false |}.

(** The writes through [nv] at the end of the loop body. *)
Definition fill (member : Member) (nv : NodeView) : NodeView :=
  {| nv_NodeID := nv_NodeID nv;
     nv_Address := if String.eqb (nv_Address nv) "" then Address member else nv_Address nv;
     nv_Status := if String.eqb (nv_Status nv) "" then Status_String (mStatus member) else nv_Status nv;
     nv_IsActive := nv_IsActive nv; nv_IsLeader := nv_IsLeader nv; nv_LeaderID := nv_LeaderID nv;
     nv_Priority := if nv_Priority nv =? 0 then Priority member else nv_Priority nv;
     nv_CounterValue := nv_CounterValue nv; nv_Version := nv_Version nv;
     nv_LastSeen := nv_LastSeen nv; nv_Reachable := nv_Reachable nv |}.

Definition alloc (st : rows) (nv : NodeView) : rows * nat := (st ++ [nv], length st).

(** The body of the loop over the members: the store and the row appended. *)
Definition member_step (env : poll_env) (m : Membership) (nodeID : string) (self : option nat)
    (acc : rows * list nat) (member : Member) : rows * list nat :=
  let '(st, nodes) := acc in
  let '(st, nv) :=
    if String.eqb (ID member) nodeID then (st, self)
    else match pollNode env m (ID member) with
         | Some v => let '(st, i) := alloc st v in (st, Some i)
         | None => (st, None)
         end in
  let '(st, i) := match nv with
    | Some i => (st, i)
    | None => alloc st (unreachable_row member)
    end in
  (alter (fill member) i st, nodes ++ [i]).

(** ** The counters *)

Definition local_view (ci : CounterInfo) : CounterView :=
  {| cv_Name := ci_Name ci; cv_Value := ci_CurrentValue ci; cv_Shard := ci_Shard ci;
     cv_Tags := ci_Tags ci; cv_Contributors := [] |}.

Definition local_agg (cs : list CounterInfo) : gmap string CounterView :=
  foldl (fun agg ci => <[ci_Name ci := local_view ci]> agg) ∅ cs.

(** The body of the inner loop, for a counter the row [nodeID] reported. *)
Definition report (nodeID : string) (agg : gmap string CounterView) (ci : CounterInfo) :
    gmap string CounterView :=
  match agg !! ci_Name ci with
  | Some existing =>
      <[ci_Name ci :=
        {| cv_Name := cv_Name existing;
           cv_Value := if cv_Value existing <? ci_CurrentValue ci then ci_CurrentValue ci
                       else cv_Value existing;
           cv_Shard := cv_Shard existing; cv_Tags := cv_Tags existing;
           cv_Contributors := cv_Contributors existing ++ [nodeID] |}]> agg
  | None => agg
  end.

(** The outer loop from the [i]-th row on. *)
Fixpoint poll_rows (env : poll_env) (st : rows) (agg : gmap string CounterView) (i : nat)
    (nodes : list nat) : gmap string CounterView :=
  match nodes with
  | [] => agg
  | r :: nodes =>
      match st !! r with
      | Some nv =>
          match pollCounters env i (nv_Address nv) with
          | None => poll_rows env st agg (S i) nodes
          | Some l => poll_rows env st (foldl (report (nv_NodeID nv)) agg l) (S i) nodes
          end
      | None => poll_rows env st agg (S i) nodes
      end
  end.

Definition sorted_counters (agg : gmap string CounterView) : list CounterView :=
  let names := range (fun name _ names => names ++ [name]) agg [] in
  omap (fun name => agg !! name) (sort_strings names).

(** ** Gossip totals *)

Section totals.
(** [int64(x)] of a value that is no [int64], which the platform decides. *)
Variable out_of_range : spec_float -> Z.

(** [int64(x)] truncates towards zero. *)
Definition int64_of_float (x : spec_float) : Z :=
  match x with
  | S754_zero _ => 0
  | S754_finite s m e =>
      let a := if 0 <=? e then Zpos m * 2 ^ e else Zpos m / 2 ^ (- e) in
      let v := if s then - a else a in
      if (- 2 ^ 63 <=? v) && (v <? 2 ^ 63) then v else out_of_range x
  | _ => out_of_range x
  end.

Definition sumCounterValues (metrics : list (option spec_float)) : Z :=
  int64_of_float (foldl (fun total m => match m with
    | Some v => fadd total v
    | None => total
    end) (S754_zero false) metrics).

(** [None] when the registry cannot be gathered. *)
Definition pollGossip (families : option (list family)) : GossipStats :=
  match families with
  | None => mkGossipStats 0 0
  | Some families =>
      foldl (fun stats f =>
        if String.eqb f.1 "gossip_messages_sent_total"
        then mkGossipStats (sumCounterValues f.2) (ReceivedTotal stats)
        else if String.eqb f.1 "gossip_messages_received_total"
        then mkGossipStats (SentTotal stats) (sumCounterValues f.2)
        else stats) (mkGossipStats 0 0) families
  end.

(** ** The view *)

Record Dashboard (D : Type) := mkDashboard {
  d_nodeID : string;
  d_membership : option Membership;
  d_service : option (CounterService D);
}.

Arguments mkDashboard {D}.
Arguments d_nodeID {D}.
Arguments d_membership {D}.
Arguments d_service {D}.

(** [None] is the panic of the local [ListCounters]. *)
Definition BuildClusterView {D : Type} (io : env)
    (env : poll_env) (families : option (list family)) (d : Dashboard D) : option ClusterView :=
  let '(st, self) := match d_service d with
    | Some s => let '(st, i) := alloc [] (nodeViewFromInfo (GetNodeInfo io s) true) in
                (st, Some i)
    | None => ([], None)
    end in
  let '(st, nodes) := match d_membership d with
    | Some m => foldl (member_step env m (d_nodeID d) self) (st, []) (GetMembers m)
    | None => (st, [])
    end in
  agg ← match d_service d with
    | Some s => local_agg <$> ListCounters s ""
    | None => Some ∅
    end;
  let agg := poll_rows env st agg 0 nodes in
  Some {| view_rows := st; view_Self := self; view_Nodes := nodes;
          view_Counters := sorted_counters agg; view_Gossip := pollGossip families |}.

(** ** The payload *)

(** What is sent to the browser. *)
Record page := mkPage { pg_status : Z; pg_type : string; pg_body : string }.

Definition node_json (nv : NodeView) : json :=
  JObj [("node_id", JStr (nv_NodeID nv)); ("address", JStr (nv_Address nv)); ("status", JStr (nv_Status nv));
        ("is_active", JBool (nv_IsActive nv)); ("is_leader", JBool (nv_IsLeader nv));
        ("leader_id", JStr (nv_LeaderID nv)); ("priority", JNum (write_int (nv_Priority nv)));
        ("counter_value", JNum (write_int (nv_CounterValue nv))); ("version", JStr (nv_Version nv));
        ("last_seen", JNum (write_int (nv_LastSeen nv))); ("reachable", JBool (nv_Reachable nv))].

(** A pointer; nil is [null]. *)
Definition row_json (row : option NodeView) : json := if row is Some nv then node_json nv else JNull.

Definition counter_view_json (c : CounterView) : json :=
  JObj [("name", JStr (cv_Name c)); ("value", JNum (write_int (cv_Value c)));
        ("shard", JNum (write_int (cv_Shard c))); ("tags", slice_json (cv_Tags c));
        ("contributors", slice_json (cv_Contributors c))].

(** A slice that nothing was appended to is nil. *)
Definition array_json (l : list json) : json := if l is [] then JNull else JArr l.

Definition gossip_json (g : GossipStats) : json :=
  JObj [("sent_total", JNum (write_int (SentTotal g))); ("received_total", JNum (write_int (ReceivedTotal g)))].

Definition view_json (v : ClusterView) : json :=
  JObj [("self", row_json (self_row v)); ("nodes", array_json (row_json <$> node_rows v));
        ("counters", array_json (counter_view_json <$> view_Counters v)); ("gossip", gossip_json (view_Gossip v))].

(** The encoder ends the text with a newline. *)
Definition Cluster {D : Type} (io : env) (env : poll_env) (families : option (list family)) (d : Dashboard D) :
    option page :=
  view ← BuildClusterView io env families d;
  Some (mkPage 200 "application/json" (json_text (view_json view) +:+ String line_feed "")).

End totals.

(** The embedded page is the parameter. *)
Definition Index (indexHTML : string) : page := mkPage 200 "text/html; charset=utf-8" indexHTML.

Arguments mkDashboard {D}.
Arguments d_nodeID {D}.
Arguments d_membership {D}.
Arguments d_service {D}.

(** ** The rows, as a function of the member *)

(** The row of a member when [own] is what the local service says of itself. *)
Definition row_of (env : poll_env) (m : Membership) (nodeID : string) (own : option NodeView)
    (member : Member) : NodeView :=
  fill member (default (unreachable_row member)
    (if String.eqb (ID member) nodeID then own else pollNode env m (ID member))).

Section rows.
Variable env : poll_env.
Variable m : Membership.
Variable nodeID : string.
Implicit Types st : rows.

Lemma member_step_self (k : nat) st (nodes : list nat) (member : Member) :
  ID member = nodeID ->
  member_step env m nodeID (Some k) (st, nodes) member = (alter (fill member) k st, nodes ++ [k]).
Proof. intros Hid. unfold member_step. by rewrite Hid, String.eqb_refl. Qed.

(** A member with no row yet gets a new one. *)
Lemma member_step_other (self : option nat) st (nodes : list nat) (member : Member) :
  ID member <> nodeID \/ self = None ->
  member_step env m nodeID self (st, nodes) member =
  (st ++ [row_of env m nodeID None member], nodes ++ [length st]).
Proof.
  intros Hid. unfold member_step, row_of, alloc.
  assert (forall v, alter (fill member) (length st) (st ++ [v]) = st ++ [fill member v]) as Halter.
  { intros v. replace (length st) with (length st + 0)%nat by lia. by rewrite alter_app_r. }
  destruct (String.eqb_spec (ID member) nodeID) as [E|E].
  - destruct Hid as [?| ->]; [done|]. by rewrite Halter.
  - destruct (pollNode env m (ID member)); by rewrite Halter.
Qed.

Lemma members_rows (own : option NodeView) (self : option nat) (ms : list Member) :
  forall st nodes, NoDup (ID <$> ms) ->
  (nodeID ∈ ID <$> ms -> own = self ≫= fun k => st !! k) ->
  (forall k, self = Some k -> k < length st)%nat ->
  let '(st', nodes') := foldl (member_step env m nodeID self) (st, nodes) ms in
  exists new, nodes' = nodes ++ new /\ (length st <= length st')%nat /\
    (forall i, (i < length st)%nat -> (self = Some i -> nodeID ∉ ID <$> ms) -> st' !! i = st !! i) /\
    Forall2 (fun i member => st' !! i = Some (row_of env m nodeID own member) /\
      (ID member = nodeID -> forall k, self = Some k -> i = k)) new ms.
Proof.
  induction ms as [|member ms IH]; intros st nodes Hnd Hown Hself.
  { exists []. simpl. by rewrite app_nil_r. }
  rewrite fmap_cons in Hnd, Hown |- *. apply NoDup_cons in Hnd as [Hni Hnd].
  cbn [foldl]. destruct (decide (ID member = nodeID /\ is_Some self)) as [[Hid [k ->]]|Hid].
  - rewrite member_step_self by done. rewrite Hid in *. pose proof (Hself k eq_refl) as Hk.
    specialize (IH (alter (fill member) k st) (nodes ++ [k]) Hnd ltac:(set_solver)).
    rewrite length_alter in IH. specialize (IH Hself).
    destruct (foldl _ _ ms) as [st' nodes']. destruct IH as (new & -> & Hlen & Hst & Hall).
    exists (k :: new). split; [by rewrite <- app_assoc|]. split; [done|]. split.
    + intros i Hi Hne. rewrite Hst by (try done; intros; set_solver).
      apply list_lookup_alter_ne. intros ->. set_solver.
    + constructor; [|done]. split; [|by intros _ k' [= <-]]. rewrite Hst by done.
      rewrite list_lookup_alter_eq.
      destruct (st !! k) as [r|] eqn:Hr; [|apply lookup_ge_None in Hr; lia]. simpl.
      unfold row_of. rewrite Hid, String.eqb_refl. rewrite Hown by set_solver. simpl. by rewrite Hr.
  - assert (ID member <> nodeID \/ self = None) as Ho
      by (destruct self; [left; naive_solver|by right]).
    rewrite member_step_other by done.
    set (r := row_of env m nodeID None member).
    specialize (IH (st ++ [r]) (nodes ++ [length st]) Hnd). rewrite length_app in IH. cbn [length] in IH.
    destruct (foldl _ _ ms) as [st' nodes']. destruct IH as (new & -> & Hlen & Hst & Hall).
    + intros Hin. rewrite Hown by set_solver. destruct self as [k|]; [|done]. simpl.
      by rewrite lookup_app_l by (by apply Hself).
    + intros k Hk. specialize (Hself k Hk). lia.
    + exists (length st :: new). split; [by rewrite <- app_assoc|]. split; [lia|]. split.
      * intros i Hi Hne. rewrite Hst by (try lia; set_solver). by apply lookup_app_l.
      * constructor; [|done]. split; [|by intros ? k ->; destruct Ho].
        rewrite Hst; [|lia|intros Hk; specialize (Hself _ Hk); lia].
        rewrite lookup_app_r, Nat.sub_diag by lia. simpl. f_equal. unfold r, row_of. f_equal.
        destruct (String.eqb_spec (ID member) nodeID) as [E|E]; [|done].
        destruct Ho as [?| ->]; [done|]. rewrite Hown by set_solver. done.
Qed.

End rows.

(** ** The counters, as a function of the reports *)

(** What the rows report, in the order of the loops: who lists which counter. *)
Fixpoint reports (env : poll_env) (st : rows) (i : nat) (nodes : list nat) :
    list (string * CounterInfo) :=
  match nodes with
  | [] => []
  | r :: nodes =>
      match st !! r with
      | Some nv => (pair (nv_NodeID nv) <$> default [] (pollCounters env i (nv_Address nv)))
                   ++ reports env st (S i) nodes
      | None => reports env st (S i) nodes
      end
  end.

(** The reports about one counter. *)
Definition about (n : string) (xs : list (string * CounterInfo)) : list (string * CounterInfo) :=
  filter (fun x => ci_Name x.2 = n) xs.

Definition reported (c : CounterView) (xs : list (string * CounterInfo)) : CounterView :=
  {| cv_Name := cv_Name c; cv_Value := foldl Z.max (cv_Value c) ((fun x => ci_CurrentValue x.2) <$> xs);
     cv_Shard := cv_Shard c; cv_Tags := cv_Tags c;
     cv_Contributors := cv_Contributors c ++ (fst <$> xs) |}.

Lemma poll_rows_reports (env : poll_env) (st : rows) (nodes : list nat) :
  forall agg i, poll_rows env st agg i nodes =
    foldl (fun agg x => report x.1 agg x.2) agg (reports env st i nodes).
Proof.
  induction nodes as [|r nodes IH]; intros agg i; [done|]. cbn [poll_rows reports].
  destruct (st !! r) as [nv|]; [|apply IH].
  destruct (pollCounters env i (nv_Address nv)) as [l|]; simpl; [|apply IH].
  rewrite IH, foldl_app, foldl_fmap. done.
Qed.

Lemma report_fold (xs : list (string * CounterInfo)) :
  forall agg n, foldl (fun agg x => report x.1 agg x.2) agg xs !! n =
    (fun c => reported c (about n xs)) <$> agg !! n.
Proof.
  assert (forall c, reported c [] = c) as Hnil by (intros []; unfold reported; simpl; by rewrite app_nil_r).
  induction xs as [|[id ci] xs IH]; intros agg n; cbn [foldl fst snd].
  { unfold about. simpl. destruct (agg !! n); simpl; by rewrite ?Hnil. }
  rewrite IH. unfold report, about. rewrite filter_cons. cbn [snd].
  destruct (agg !! ci_Name ci) as [e|] eqn:He.
  - destruct (decide (ci_Name ci = n)) as [<-|Hne].
    + rewrite lookup_insert_eq, He. simpl. f_equal. unfold reported. simpl.
      rewrite <- app_assoc. f_equal. f_equal.
      destruct (Z.ltb_spec (cv_Value e) (ci_CurrentValue ci)); lia.
    + by rewrite lookup_insert_ne.
  - destruct (decide (ci_Name ci = n)) as [<-|Hne]; [by rewrite He|done].
Qed.

Lemma local_agg_lookup (cs : list CounterInfo) (n : string) :
  NoDup (ci_Name <$> cs) ->
  forall c, local_agg cs !! n = Some c <-> exists ci, ci ∈ cs /\ ci_Name ci = n /\ c = local_view ci.
Proof.
  unfold local_agg. induction cs as [|ci cs IH] using rev_ind; intros Hnd c.
  { cbn [foldl]. rewrite lookup_empty. split; [done|]. by intros (ci & ?%not_elem_of_nil & _). }
  rewrite fmap_app in Hnd. apply NoDup_app in Hnd as (Hnd & Hdis & _).
  rewrite foldl_app. cbn [foldl]. destruct (decide (ci_Name ci = n)) as [<-|Hne].
  - rewrite lookup_insert_eq. split; [intros [= <-]; exists ci; set_solver|].
    intros (ci' & [Hin|Hin]%elem_of_app & Hname & ->); [|set_solver].
    destruct (Hdis (ci_Name ci')); [by apply list_elem_of_fmap_2|]. rewrite Hname. set_solver.
  - rewrite lookup_insert_ne by done. rewrite (IH Hnd). split.
    + intros (ci' & ? & ? & ?). exists ci'. set_solver.
    + intros (ci' & [?|Hin]%elem_of_app & ? & ?); [by exists ci'|].
      apply list_elem_of_singleton in Hin as ->. done.
Qed.

Lemma ListCounters_NoDup {D : Type} (s : CounterService D) (tag : string) (cs : list CounterInfo) :
  ListCounters s tag = Some cs -> NoDup (ci_Name <$> cs).
Proof.
  unfold ListCounters. rewrite copy_map_id. set (l := List.filter _ _). intros H.
  destruct (mapM (buildCounterInfo s) l) as [res|] eqn:Hm; [|done]. injection H as <-.
  assert (ci_Name <$> res = l) as Hn.
  { apply mapM_Some in Hm. clear -Hm. induction Hm as [|n i l res Hi _ IH]; [done|].
    rewrite fmap_cons, IH. f_equal. unfold buildCounterInfo in Hi.
    destruct (Shard s n); [|done]. by injection Hi as <-. }
  rewrite (fmap_Permutation ci_Name _ _ (merge_sort_Permutation name_le res)), Hn. unfold l.
  apply NoDup_ListNoDup, List.NoDup_filter, NoDup_ListNoDup, NoDup_elements.
Qed.

Lemma range_names (agg : gmap string CounterView) :
  range (fun name _ names => names ++ [name]) agg [] = (map_to_list agg).*1.
Proof.
  assert (forall (l : list (string * CounterView)) acc,
    range_list (fun name _ names => names ++ [name]) l acc = acc ++ l.*1) as H; [|apply H].
  unfold range_list. intros l. induction l as [|[k v] l IH]; intros acc; simpl.
  - by rewrite app_nil_r.
  - by rewrite IH, <- app_assoc.
Qed.

(** Sorting the names and looking them up loses and invents nothing. *)
Lemma sorted_counters_spec (agg : gmap string CounterView) :
  (forall n c, agg !! n = Some c -> cv_Name c = n) ->
  cv_Name <$> sorted_counters agg = sort_strings (map_to_list agg).*1 /\
  forall n c, agg !! n = Some c -> c ∈ sorted_counters agg.
Proof.
  intros Hname. unfold sorted_counters. rewrite range_names. split.
  - assert (forall n, n ∈ sort_strings (map_to_list agg).*1 -> is_Some (agg !! n)) as Hin.
    { intros n. rewrite sort_strings_perm. intros ([k v] & -> & Hkv%elem_of_map_to_list)%list_elem_of_fmap.
      by exists v. }
    induction (sort_strings (map_to_list agg).*1) as [|n l IH]; [done|]. simpl.
    destruct (Hin n) as [c Hc]; [by left|]. rewrite Hc. simpl. rewrite (Hname n c Hc). f_equal.
    apply IH. intros k Hk. apply Hin. by right.
  - intros n c Hc. apply list_elem_of_omap. exists n. split; [|done]. rewrite sort_strings_perm.
    apply list_elem_of_fmap. exists (n, c). split; [done|]. by apply elem_of_map_to_list.
Qed.

Lemma pollNode_member (env : poll_env) (m : Membership) (member : Member) :
  membership_ok m -> member ∈ GetMembers m ->
  pollNode env m (ID member) =
  (fun info => nodeViewFromInfo info true) <$> poll_info env (ID member) (Address member).
Proof.
  intros Hok [id Hid]%GetMembers_elem. destruct (Hok id member Hid) as [<- _].
  unfold pollNode, GetMember. rewrite Hid. by destruct (poll_info _ _ _).
Qed.

(** The loop has nothing to add to a row made from the table. *)
Lemma fill_unreachable (member : Member) : fill member (unreachable_row member) = unreachable_row member.
Proof.
  unfold fill, unreachable_row. cbn. f_equal.
  - by destruct (String.eqb_spec (Address member) "").
  - by destruct (mStatus member).
  - by destruct (Priority member =? 0).
Qed.

(** ** Properties *)


(** ** The payload *)

Definition row_ok (nv : NodeView) : Prop :=
  utf8_string (nv_NodeID nv) /\ utf8_string (nv_Address nv) /\ utf8_string (nv_Status nv) /\
  utf8_string (nv_LeaderID nv) /\ utf8_string (nv_Version nv).

Definition counter_view_ok (c : CounterView) : Prop :=
  utf8_string (cv_Name c) /\ Forall utf8_string (cv_Tags c) /\ Forall utf8_string (cv_Contributors c).

Definition view_ok (v : ClusterView) : Prop :=
  Forall row_ok (view_rows v) /\ Forall counter_view_ok (view_Counters v).

Lemma written_slice (d : nat) (l : list string) : Forall utf8_string l -> writable (S d) (slice_json l).
Proof.
  intros Hl. destruct l as [|x l]; [done|]. simpl. apply (Forall_fmap _ _ (x :: l)).
  eapply Forall_impl; [exact Hl|]. by destruct d.
Qed.

Lemma written_array (d : nat) (l : list json) : Forall (writable d) l -> writable (S d) (array_json l).
Proof. by destruct l. Qed.

Lemma row_written (d : nat) (row : option NodeView) :
  (forall nv, row = Some nv -> row_ok nv) -> writable (S d) (row_json row).
Proof.
  intros Hr. destruct row as [nv|]; [|done]. destruct (Hr nv eq_refl) as (H1 & H2 & H3 & H4 & H5).
  assert (forall k, utf8_string k -> utf8_string k) as HP by done.
  fields HP; first [by destruct d | destruct d; by eexists].
Qed.

Lemma counter_view_written (d : nat) (c : CounterView) :
  counter_view_ok c -> writable (S (S d)) (counter_view_json c).
Proof.
  intros (H1 & H2 & H3). assert (forall k, utf8_string k -> utf8_string k) as HP by done.
  fields HP; first [by apply written_slice | done | by eexists].
Qed.

(** The browser gets the view: the body of the answer is a text for it. *)
Lemma Cluster_payload {D : Type} (out_of_range : spec_float -> Z) (io : env) (env : poll_env)
    (families : option (list family)) (d : Dashboard D) (v : ClusterView) :
  BuildClusterView out_of_range io env families d = Some v -> view_ok v ->
  exists body, Cluster out_of_range io env families d = Some (mkPage 200 "application/json" body) /\
    parse body = Some (view_json v).
Proof.
  intros Hv [Hrows Hcs]. unfold Cluster. rewrite Hv.
  exists (json_text (view_json v) +:+ String line_feed ""). split; [done|].
  apply (parse_json_text 4); try done.
  rewrite Forall_forall in Hrows. rewrite Forall_forall in Hcs.
  assert (forall i nv, view_rows v !! i = Some nv -> row_ok nv) as Hrow
    by (intros i nv Hi; apply Hrows; by eapply list_elem_of_lookup_2).
  assert (forall k, utf8_string k -> utf8_string k) as HP by done. fields HP.
  - apply row_written. intros nv Hs. unfold self_row in Hs. destruct (view_Self v); [|done]. by eapply Hrow.
  - apply (written_array 2), Forall_fmap, Forall_fmap, Forall_forall. intros i _. apply row_written. apply Hrow.
  - apply (written_array 2), Forall_fmap, Forall_forall. intros c Hc. by apply counter_view_written, Hcs.
  - by eexists.
  - by eexists.
Qed.

(** The member rows of the dashboard: the view has one row per member of the
    table, in the table's order.  The row of a peer that answers carries its
    answer, with the address and the priority the table knows where the peer
    left them out; the row of a peer that does not answer is built from the
    table and marked unreachable; and the row of the node itself is the very
    object shown as [Self], so what the loop fills in shows in both.  A peer that
    runs this very code answers with [localhost] and its port, so its row shows
    that address, at which its counters are then polled, and not the address the
    table has for it. *)
Theorem dashboard_rows {D : Type} (out_of_range : spec_float -> Z)
    (io : env) (env : poll_env)
    (families : option (list family)) (d : Dashboard D) (m : Membership) (s : CounterService D)
    (v : ClusterView) :
  d_membership d = Some m -> d_service d = Some s -> membership_ok m ->
  BuildClusterView out_of_range io env families d = Some v ->
  length (node_rows v) = length (GetMembers m) /\
  forall j member, GetMembers m !! j = Some member ->
    exists row, node_rows v !! j = Some (Some row) /\
      (ID member = d_nodeID d ->
       row = fill member (nodeViewFromInfo (GetNodeInfo io s) true) /\ self_row v = Some row) /\
      (ID member <> d_nodeID d ->
       row = match poll_info env (ID member) (Address member) with
             | Some info => fill member (nodeViewFromInfo info true)
             | None => unreachable_row member
             end /\
       forall (s' : CounterService D) io',
         poll_info env (ID member) (Address member) = Some (GetNodeInfo io' s') ->
         nv_Address row = "localhost:" +:+ pretty (s_port s')).
Proof.
  intros Hm Hs Hok. unfold BuildClusterView. rewrite Hm, Hs. cbn [alloc app length].
  set (own := nodeViewFromInfo _ true).
  assert (NoDup (ID <$> GetMembers m)) as Hnd by (by apply GetMembers_NoDup).
  pose proof (members_rows env m (d_nodeID d) (Some own) (Some 0%nat) (GetMembers m) [own] [] Hnd) as Hrows.
  destruct (foldl _ _ (GetMembers m)) as [st nodes]. intros Hv.
  destruct (ListCounters s "") as [cs|]; [|done]. injection Hv as <-.
  destruct Hrows as (new & Hnew & _ & _ & Hall); [done|simpl; intros k [= <-]; lia|].
  simpl in Hnew. subst nodes. unfold node_rows, self_row.
  cbn [view_rows view_Nodes view_Self mbind option_bind].
  split; [rewrite length_fmap; by eapply Forall2_length|].
  intros j member Hj. destruct (Forall2_lookup_r _ _ _ _ _ Hall Hj) as (i & Hi & Hrow & Hself).
  exists (row_of env m (d_nodeID d) (Some own) member). rewrite list_lookup_fmap, Hi. simpl.
  rewrite Hrow. split; [done|]. unfold row_of. split; intros Hid.
  - rewrite Hid, String.eqb_refl. split; [done|]. rewrite <- (Hself Hid 0%nat eq_refl), Hrow. unfold row_of.
    by rewrite Hid, String.eqb_refl.
  - apply String.eqb_neq in Hid as ->. rewrite (pollNode_member env m member Hok).
    + split; [by destruct (poll_info env (ID member) (Address member)); [|apply fill_unreachable]|].
      intros s' io' ->. simpl. unfold GetNodeInfo. by destruct (s_bully s').
    + by apply list_elem_of_lookup_2 in Hj.
Qed.

(** C40: The counters of the dashboard: the view lists, sorted by name, exactly the
    counters the local service lists, so a counter only a peer knows is missing;
    a counter's value is the largest among the local one and those the polled
    rows report, its contributors are the rows that reported it, and its shard
    and tags are the local ones. *)
Theorem dashboard_counters {D : Type} (out_of_range : spec_float -> Z)
    (io : env) (env : poll_env)
    (families : option (list family)) (d : Dashboard D) (s : CounterService D) (v : ClusterView)
    (cs : list CounterInfo) :
  d_service d = Some s -> ListCounters s "" = Some cs ->
  BuildClusterView out_of_range io env families d = Some v ->
  let heard ci := about (ci_Name ci) (reports env (view_rows v) 0 (view_Nodes v)) in
  cv_Name <$> view_Counters v = sort_strings (ci_Name <$> cs) /\
  (forall ci, ci ∈ cs -> exists c, c ∈ view_Counters v /\ cv_Name c = ci_Name ci /\
     cv_Value c = foldl Z.max (ci_CurrentValue ci) ((fun x => ci_CurrentValue x.2) <$> heard ci) /\
     cv_Contributors c = fst <$> heard ci /\ cv_Shard c = ci_Shard ci /\ cv_Tags c = ci_Tags ci).
Proof.
  intros Hs Hcs Hv. unfold BuildClusterView in Hv. rewrite Hs, Hcs in Hv. cbn [alloc] in Hv.
  destruct (match d_membership d with Some _ => _ | None => _ end) as [st nodes].
  injection Hv as <-. cbn [view_rows view_Nodes view_Counters]. rewrite poll_rows_reports.
  set (xs := reports env st 0 nodes). set (agg := foldl _ (local_agg cs) xs).
  pose proof (ListCounters_NoDup s "" cs Hcs) as Hnd.
  assert (forall n c, agg !! n = Some c <->
    exists ci, ci ∈ cs /\ ci_Name ci = n /\ c = reported (local_view ci) (about n xs)) as Hagg.
  { intros n c. unfold agg. rewrite report_fold, fmap_Some. setoid_rewrite local_agg_lookup; [|done].
    naive_solver. }
  destruct (sorted_counters_spec agg) as [Hnames Hin].
  { intros n c (ci & _ & <- & ->)%Hagg. done. }
  split.
  - rewrite Hnames. apply sort_strings_unique, NoDup_Permutation; [apply NoDup_fst_map_to_list|done|].
    intros n. split.
    + intros ([k c] & -> & (ci & Hci & <- & _)%elem_of_map_to_list%Hagg)%list_elem_of_fmap.
      cbn [fst]. by apply list_elem_of_fmap_2.
    + intros (ci & -> & Hci)%list_elem_of_fmap.
      apply list_elem_of_fmap. eexists (ci_Name ci, _). split; [done|].
      apply elem_of_map_to_list, Hagg. by exists ci.
  - intros ci Hci. eexists. split; [apply (Hin (ci_Name ci)), Hagg; by exists ci|]. done.
Qed.

(** ** Witnesses

    Node a counted 9 likes and removed 4; peer b still reports 9 likes and a
    counter of its own, peer c does not answer. *)

Definition ex_dash_service : CounterService RedisStore :=
  let io := calm 5 in
  let s := (@Increment _ ex_ops marshal_entry io (NewCounterService "a" 50051 ∅)
              (mkUpdateRequest 9 "" 0 "likes")).1 in
  (@Decrement _ ex_ops marshal_entry io s (mkUpdateRequest 4 "" 0 "likes")).1.

Definition ex_dash_table : Membership :=
  AddMember (AddMember (AddMember (NewMembership "a") "a" "a:1" 5) "b" "b:1" 5) "c" "c:1" 5.

Definition ex_dash : Dashboard RedisStore := mkDashboard "a" (Some ex_dash_table) (Some ex_dash_service).

Definition ex_polls : poll_env :=
  mkPollEnv
    (fun id _ => if String.eqb id "b" then Some (mkNodeInfo "b" "" 0 "" false 7 "" 2) else None)
    (fun _ address => if String.eqb address "b:1"
       then Some [mkCounterInfo "likes" 9 0 []; mkCounterInfo "views" 1 0 []] else None).

Definition ex_view : option ClusterView :=
  BuildClusterView (fun _ => 0) (calm 6) ex_polls None ex_dash.

Lemma dashboard_rows_witness :
  exists v row, ex_view = Some v /\ node_rows v !! 0%nat = Some (Some row) /\ nv_Reachable row = false.
Proof.
  destruct ex_view as [v|] eqn:Hv; [|vm_compute in Hv; discriminate].
  destruct (dashboard_rows (fun _ => 0) (calm 6) ex_polls None ex_dash ex_dash_table
    ex_dash_service v eq_refl eq_refl ltac:(by_eval) Hv) as [_ H].
  destruct (H 0%nat (mkMember "c" "c:1" StatusAlive true 0 5 0 0)) as (row & H1 & _ & H2).
  - vm_compute. reflexivity.
  - exists v, row. split; [reflexivity|]. split; [exact H1|].
    destruct H2 as [-> _]; [discriminate|]. reflexivity.
Defined.

(** The local value is 5, the dashboard shows 9. *)
Lemma dashboard_counters_witness :
  exists v, ex_view = Some v /\ ValueName (s_counter ex_dash_service) "likes" = 5 /\
    cv_Name <$> view_Counters v = ["likes"] /\
    (fun c => (cv_Value c, cv_Contributors c)) <$> view_Counters v = [(9, ["b"])].
Proof.
  destruct ex_view as [v|] eqn:Hv; [|vm_compute in Hv; discriminate]. exists v.
  split; [reflexivity|]. split; [vm_compute; reflexivity|]. split.
  - destruct (dashboard_counters (fun _ => 0) (calm 6) ex_polls None ex_dash
      ex_dash_service v [mkCounterInfo "likes" 5 0 []] eq_refl ltac:(vm_compute; reflexivity) Hv) as [H _].
    exact H.
  - vm_compute in Hv. injection Hv as <-. vm_compute. reflexivity.
Defined.
