(* ===== verification/Polling.v ===== *)
(** * The dashboard among running nodes (internal/dashboard/dashboard.go)

    The polls of [BuildClusterView] as calls on the processes of the other nodes,
    through the dashboard's connection options and their middleware. *)

From Stdlib Require Import SpecFloat.
From stdpp Require Import pretty.
From S2P Require Import Prelude Lattice PNCounter VectorClock Delta Breaker Membership Bully Swim Codec Wal.
From S2P Require Import Store Messages Service ServiceSpec Durability Gossip Cluster Bootstrap.
From S2P Require Import Float RateLimit Admin Server Process Client Heartbeat Dashboard.

Definition list_reply (o : outcome) : option (list CounterInfo) :=
  match o with Ok (RsList l) => Some l | _ => None end.

Section polling.
Context {D : Type} `{SO : StoreOps D}.
Variable marshal : WALEntry -> string.
Variable quote : string -> string.
(** The configuration of the node that serves the page, who listens at an address
    when it asks for the node, and again when it asks for the counters of a row. *)
Variable cfg : Config.
Variable net : string -> option (Process D).
Variable net' : nat -> string -> option (Process D).
Variable ce : call_env.

(** [dial]: the options of the connection to a peer. *)
Definition dial_options : list DialOption :=
  DialOptions (cfg_APIKey cfg) (cfg_CompressionEnabled cfg) ++ [WithBlock].

Definition poll_node (id address : string) : option NodeInfo :=
  q ← net address;
  node_reply (counterServiceClient_GetNodeInfo (Conn_Invoke marshal quote ce) (metadata_of dial_options) q).2.

Definition poll_counters (i : nat) (address : string) : option (list CounterInfo) :=
  q ← net' i address;
  list_reply (counterServiceClient_ListCounters (Conn_Invoke marshal quote ce) (metadata_of dial_options) "" q).2.

Definition live_polls : poll_env := mkPollEnv poll_node poll_counters.

Lemma dial_options_key : metadata_of dial_options = outgoing cfg.
Proof.
  rewrite outgoing_key.
  exact (metadata_of_dialOpts (mkDialConfig (cfg_APIKey cfg) (cfg_CompressionEnabled cfg))).
Qed.

(** The answer of a node, by whether its server lets the dashboard in. *)
Lemma poll_node_spec (id address : string) (q : Process D) :
  net address = Some q -> srv_adminSvc (p_server q) = true ->
  poll_node id address =
  if admits cfg ce q then Some (GetNodeInfo (ce_io ce) (p_service q)) else None.
Proof.
  intros Hq Had. unfold poll_node. rewrite Hq, dial_options_key. simpl. unfold counterServiceClient_GetNodeInfo.
  destruct (call_cases marshal quote cfg ce q RqGetNodeInfo Had) as [l Hc]. cbn [full_method] in Hc. rewrite Hc.
  by destruct (admits cfg ce q).
Qed.

End polling.

(** The page shows of every other member what its process says of itself, when its
    server lets the dashboard in, and else the row of an unreachable node, also
    when the node is up and only its bucket is empty. *)
Theorem dashboard_live {D : Type} `{SO : StoreOps D} (marshal : WALEntry -> string) (quote : string -> string)
    (out_of_range : spec_float -> Z) (cfg : Config) (net : string -> option (Process D))
    (net' : nat -> string -> option (Process D)) (ce : call_env) (io : env) (families : option (list family))
    (d : Dashboard D) (m : Membership) (s : CounterService D) (v : ClusterView) :
  d_membership d = Some m -> d_service d = Some s -> membership_ok m ->
  BuildClusterView out_of_range io (live_polls marshal quote cfg net net' ce) families d = Some v ->
  forall j member q cfg', GetMembers m !! j = Some member -> ID member <> d_nodeID d ->
    net (Address member) = Some q -> process_ok cfg' q ->
    node_rows v !! j = Some (Some
      (if admits cfg ce q then fill member (nodeViewFromInfo (GetNodeInfo (ce_io ce) (p_service q)) true)
       else unreachable_row member)) /\
    (cfg_AuthEnabled cfg' = false \/ (cfg_APIKey cfg' = cfg_APIKey cfg /\ cfg_APIKey cfg <> "") ->
     admits cfg ce q = has_token q ce).
Proof.
  intros Hm Hs Hok Hv j member q cfg' Hj Hne Hq Hpq. split.
  - destruct (dashboard_rows out_of_range io (live_polls marshal quote cfg net net' ce) families d m s v
      Hm Hs Hok Hv)
      as [_ Hrows]. destruct (Hrows j member Hj) as (row & -> & _ & Hrow).
    destruct (Hrow Hne) as [-> _]. do 2 f_equal. cbn [poll_info live_polls].
    rewrite (poll_node_spec marshal quote cfg net ce _ _ q Hq (po_admin _ _ Hpq)). by destruct (admits cfg ce q).
  - intros Hk. unfold admits. by rewrite outgoing_key, (authentic_client cfg cfg' q Hpq Hk).
Qed.
