(* ===== verification/Gateway.v ===== *)
(** * The HTTP gateway (internal/gateway/gateway.go, api/proto/counter.pb.gw.go)

    The JSON front of a process: the routes the generated code registers on the
    mux, the decoding of each request into the message of its RPC, and the
    direct call of the handler, which goes around the gRPC server.  The mux,
    the JSON and form decoding and the header annotation are the grpc-gateway
    runtime's: parameters here. *)

From Stdlib Require Import SpecFloat.
From S2P Require Import Prelude PNCounter VectorClock Membership Bully Codec Wal Store Messages Service.
From S2P Require Import Gossip Admin Float RateLimit Server Dashboard.

(** ** Requests *)

(** [h_path] are the components of the URL path. *)
Record http_request := mkHttpRequest {
  h_method : string;
  h_path : list string;
  h_query : string;
  h_body : string;
  h_headers : list (string * string);
}.

(** The result of decoding a body: a message, an empty body, or an error. *)
Inductive decoded (A : Type) :=
| Decoded (a : A)
| Eof
| DecodeErr.

Arguments Decoded {A}.
Arguments Eof {A}.
Arguments DecodeErr {A}.

(** The operations of the runtime the generated code calls: the decoder of each
    message, [ParseForm] and [PopulateQueryParameters], and whether
    [AnnotateIncomingContext] succeeds. *)
Record codec := mkCodec {
  c_update : string -> decoded UpdateRequest;
  c_reset : string -> decoded string;
  c_create : string -> decoded (string * list string);
  c_addNode : string -> decoded (string * string);
  c_removeNode : string -> decoded string;
  c_forceSync : string -> decoded unit;
  c_form : http_request -> option (list (string * string));
  c_value : list (string * string) -> option string;
  c_list : list (string * string) -> option string;
  c_annotate : http_request -> string -> bool;
}.

(** [if err != nil && !errors.Is(err, io.EOF)]: an empty body leaves the zero
    message. *)
Definition from_body {A : Type} (d : decoded A) (zero : A) (rpc : A -> request) : request + code :=
  match d with
  | Decoded a => inl (rpc a)
  | Eof => inl (rpc zero)
  | DecodeErr => inr InvalidArgument
  end.

Definition from_query {A : Type} (form : option (list (string * string)))
    (populate : list (string * string) -> option A) (rpc : A -> request) : request + code :=
  match form with
  | None => inr InvalidArgument
  | Some form =>
      match populate form with
      | None => inr InvalidArgument
      | Some a => inl (rpc a)
      end
  end.

Section local_requests.
Variable c : codec.
Implicit Types h : http_request.

Definition local_request_CounterService_Increment_0 h : request + code :=
  from_body (c_update c (h_body h)) (mkUpdateRequest 0 "" 0 "") RqIncrement.

Definition local_request_CounterService_Decrement_0 h : request + code :=
  from_body (c_update c (h_body h)) (mkUpdateRequest 0 "" 0 "") RqDecrement.

Definition local_request_CounterService_GetValue_0 h : request + code :=
  from_query (c_form c h) (c_value c) RqGetValue.

Definition local_request_CounterService_GetNodeInfo_0 h : request + code := inl RqGetNodeInfo.

Definition local_request_CounterService_Reset_0 h : request + code :=
  from_body (c_reset c (h_body h)) "" RqReset.

Definition local_request_CounterService_CreateCounter_0 h : request + code :=
  from_body (c_create c (h_body h)) ("", []) (fun x => RqCreateCounter x.1 x.2).

Definition local_request_CounterService_ListCounters_0 h : request + code :=
  from_query (c_form c h) (c_list c) RqListCounters.

Definition local_request_AdminService_AddNode_0 h : request + code :=
  from_body (c_addNode c (h_body h)) ("", "") (fun x => RqAddNode x.1 x.2).

Definition local_request_AdminService_RemoveNode_0 h : request + code :=
  from_body (c_removeNode c (h_body h)) "" RqRemoveNode.

Definition local_request_AdminService_ForceSync_0 h : request + code :=
  from_body (c_forceSync c (h_body h)) tt (fun _ => RqForceSync).

(** ** Routes *)

(** Where a route leads: to an RPC, by its name and its decoder, or to one of
    the dashboard's pages. *)
Inductive target :=
| TRpc (name : string) (local_request : http_request -> request + code)
| TCluster
| TIndex.

Record route := mkRoute { rt_method : string; rt_path : list string; rt_target : target }.

(** The patterns are literal: each [OpLitPush] names a component. *)
Definition RegisterCounterServiceHandlerServer : list route :=
  [ mkRoute "POST" ["v1"; "counter"; "increment"]
      (TRpc "/counter.CounterService/Increment" local_request_CounterService_Increment_0);
    mkRoute "POST" ["v1"; "counter"; "decrement"]
      (TRpc "/counter.CounterService/Decrement" local_request_CounterService_Decrement_0);
    mkRoute "GET" ["v1"; "counter"; "value"]
      (TRpc "/counter.CounterService/GetValue" local_request_CounterService_GetValue_0);
    mkRoute "GET" ["v1"; "node"; "info"]
      (TRpc "/counter.CounterService/GetNodeInfo" local_request_CounterService_GetNodeInfo_0);
    mkRoute "POST" ["v1"; "counter"; "reset"]
      (TRpc "/counter.CounterService/Reset" local_request_CounterService_Reset_0);
    mkRoute "POST" ["v1"; "counter"]
      (TRpc "/counter.CounterService/CreateCounter" local_request_CounterService_CreateCounter_0);
    mkRoute "GET" ["v1"; "counters"]
      (TRpc "/counter.CounterService/ListCounters" local_request_CounterService_ListCounters_0) ].

Definition RegisterAdminServiceHandlerServer : list route :=
  [ mkRoute "POST" ["v1"; "admin"; "add-node"]
      (TRpc "/counter.AdminService/AddNode" local_request_AdminService_AddNode_0);
    mkRoute "POST" ["v1"; "admin"; "remove-node"]
      (TRpc "/counter.AdminService/RemoveNode" local_request_AdminService_RemoveNode_0);
    mkRoute "POST" ["v1"; "admin"; "force-sync"]
      (TRpc "/counter.AdminService/ForceSync" local_request_AdminService_ForceSync_0) ].

(** The mux [New] builds, by the optional parts it is given. *)
Definition New (adminService dashboard : bool) : list route :=
  RegisterCounterServiceHandlerServer
  ++ (if adminService then RegisterAdminServiceHandlerServer else [])
  ++ (if dashboard then [mkRoute "GET" ["api"; "cluster"] TCluster; mkRoute "GET" [""] TIndex] else []).

End local_requests.

(** ** Serving *)

Inductive http_response :=
| HReply (o : outcome)
| HNotFound
| HAnnotateErr
| HPage (pg : option page).

Section serving.
Context {D : Type} `{SO : StoreOps D}.
Variable marshal : WALEntry -> string.
Variable quote : string -> string.
Variable c : codec.
(** The mux's choice of a route for a method and a path. *)
Variable mux : list (string * list string) -> string -> list string -> option nat.
(** What the dashboard's page is built from. *)
Variable out_of_range : spec_float -> Z.
Variable polls : poll_env.
Variable families : option (list family).
Variable indexHTML : string.
Implicit Types p : Process D.

Definition dashboard_of p : Dashboard D :=
  mkDashboard (p_nodeID p) (s_cluster (p_service p)) (Some (p_service p)).

(** The closure registered for a route. *)
Definition serve_route (ce : call_env) p (t : target) (h : http_request) : Process D * http_response :=
  match t with
  | TRpc name local_request =>
      if negb (c_annotate c h name) then (p, HAnnotateErr)
      else match local_request h with
      | inr e => (p, HReply (Err e))
      | inl r => let '(p, o) := handle marshal quote ce p r in (p, HReply o)
      end
  | TCluster =>
      (p, HPage (Cluster out_of_range (ce_io ce) polls families (dashboard_of p)))
  | TIndex => (p, HPage (Some (Index indexHTML)))
  end.

Definition ServeHTTP (ce : call_env) p (h : http_request) : Process D * http_response :=
  let routes := New c true true in
  match mux ((fun rt => (rt_method rt, rt_path rt)) <$> routes) (h_method h) (h_path h) with
  | None => (p, HNotFound)
  | Some i =>
      match routes !! i with
      | None => (p, HNotFound)
      | Some rt => serve_route ce p (rt_target rt) h
      end
  end.

End serving.

(** ** Properties *)

(** What the runtime documents of literal patterns: a request is dispatched to
    the route whose method and path it has, if there is one only. *)
Definition mux_literal (mux : list (string * list string) -> string -> list string -> option nat) : Prop :=
  forall table i method path, NoDup table -> table !! i = Some (method, path) ->
    mux table method path = Some i.

Lemma routes_distinct (c : codec) :
  NoDup ((fun rt => (rt_method rt, rt_path rt)) <$> New c true true).
Proof. by_eval. Qed.

Lemma from_body_spec {A : Type} (d : decoded A) (zero : A) (rpc : A -> request) (name : string) :
  (forall a, full_method (rpc a) = name) ->
  match from_body d zero rpc with inl r => full_method r = name | inr e => e = InvalidArgument end.
Proof. intros H. destruct d; simpl; auto. Qed.

Lemma from_query_spec {A : Type} (form : option (list (string * string)))
    (populate : list (string * string) -> option A) (rpc : A -> request) (name : string) :
  (forall a, full_method (rpc a) = name) ->
  match from_query form populate rpc with inl r => full_method r = name | inr e => e = InvalidArgument end.
Proof. intros H. unfold from_query. destruct form as [l|]; [|done]. destruct (populate l); simpl; auto. Qed.

(** A route's RPC is the one it is registered for, and only decoding fails. *)
Lemma routes_target (c : codec) :
  Forall (fun rt => match rt_target rt with
    | TRpc name f => forall h, match f h with
        | inl r => full_method r = name
        | inr e => e = InvalidArgument
        end
    | _ => True
    end) (New c true true).
Proof.
  unfold New, RegisterCounterServiceHandlerServer, RegisterAdminServiceHandlerServer. cbn [app].
  rewrite !Forall_cons. cbn [rt_target]. split_and!; try done; intros h;
    first [by apply from_body_spec | by apply from_query_spec | done].
Qed.

Section gateway.
Context {D : Type} `{SO : StoreOps D}.
Variable marshal : WALEntry -> string.
Variable quote : string -> string.
Variable c : codec.
Variable mux : list (string * list string) -> string -> list string -> option nat.
Variable out_of_range : spec_float -> Z.
Variable polls : poll_env.
Variable families : option (list family).
Variable indexHTML : string.
Hypothesis literal : mux_literal mux.

Lemma ServeHTTP_route (ce : call_env) (p : Process D) (h : http_request) (i : nat) (rt : route) :
  New c true true !! i = Some rt -> h_method h = rt_method rt -> h_path h = rt_path rt ->
  ServeHTTP marshal quote c mux out_of_range polls families indexHTML ce p h =
  serve_route marshal quote c out_of_range polls families indexHTML ce p (rt_target rt) h.
Proof.
  intros Hi Hm Hp. unfold ServeHTTP. rewrite Hm, Hp.
  rewrite (literal _ i (rt_method rt) (rt_path rt) (routes_distinct c)); [by rewrite Hi|].
  by rewrite list_lookup_fmap, Hi.
Qed.

End gateway.

(** The gateway's routes: a request for a registered route is decoded into a
    message of exactly the RPC the route is registered for, the missing body
    into the empty message, and answered with that handler's result on the
    process; a body or query that cannot be decoded is answered
    [InvalidArgument] and reading a page or failing leaves the process as it is. *)
Theorem gateway_routes {D : Type} `{SO : StoreOps D} (marshal : WALEntry -> string)
    (quote : string -> string) (c : codec)
    (mux : list (string * list string) -> string -> list string -> option nat)
    (out_of_range : spec_float -> Z) (polls : poll_env) (families : option (list family))
    (indexHTML : string) (ce : call_env) (p : Process D) (h : http_request) (i : nat) (rt : route) :
  mux_literal mux -> New c true true !! i = Some rt ->
  h_method h = rt_method rt -> h_path h = rt_path rt ->
  let run := ServeHTTP marshal quote c mux out_of_range polls families indexHTML ce p h in
  match rt_target rt with
  | TRpc name f =>
      if c_annotate c h name then
        match f h with
        | inl r => full_method r = name /\
            run = ((handle marshal quote ce p r).1,
                   HReply (handle marshal quote ce p r).2)
        | inr e => e = InvalidArgument /\ run = (p, HReply (Err InvalidArgument))
        end
      else run = (p, HAnnotateErr)
  | TCluster | TIndex => run.1 = p
  end.
Proof.
  intros Hmux Hi Hm Hp run. unfold run.
  rewrite (ServeHTTP_route marshal quote c mux out_of_range polls families indexHTML Hmux ce p h i rt)
    by done.
  pose proof (Forall_lookup_1 _ _ _ _ (routes_target c) Hi) as Ht. cbv beta in Ht. unfold serve_route.
  destruct (rt_target rt) as [name f| |]; try done. destruct (c_annotate c h name); [|done].
  specialize (Ht h). destruct (f h) as [r|e]; simpl; [|by rewrite Ht].
  by destruct (handle _ _ _ _ _) as [p' o].
Qed.

(** The gateway does not ask for the key: with authentication on, a call
    without it is refused over gRPC, but the same RPC sent to its HTTP route
    runs the handler whatever headers the request has, admin operations and
    resets included, and takes no token from the rate limiter. *)
Theorem gateway_unguarded {D : Type} `{SO : StoreOps D} (marshal : WALEntry -> string)
    (quote : string -> string) (c : codec)
    (mux : list (string * list string) -> string -> list string -> option nat)
    (out_of_range : spec_float -> Z) (polls : poll_env) (families : option (list family))
    (indexHTML : string) (ce : call_env) (p : Process D) (h : http_request) (i : nat) (rt : route) (name : string)
    (f : http_request -> request + code) (r : request) (md : option (list string)) :
  mux_literal mux -> New c true true !! i = Some rt ->
  h_method h = rt_method rt -> h_path h = rt_path rt -> rt_target rt = TRpc name f ->
  c_annotate c h name = true -> f h = inl r ->
  srv_adminSvc (p_server p) = true -> enabled (srv_auth (p_server p)) = true ->
  authorized (srv_auth (p_server p)) md = false ->
  grpc_call marshal quote ce md p r = (p, Err Unauthenticated) /\
  (let run := ServeHTTP marshal quote c mux out_of_range polls families indexHTML ce p h in
   run.1 = (handle marshal quote ce p r).1 /\
   run.2 = HReply (handle marshal quote ce p r).2 /\
   srv_rateLimit (p_server run.1) = srv_rateLimit (p_server p)).
Proof.
  intros Hmux Hi Hm Hp Ht Hann Hr Had Hen Hau. split.
  - unfold grpc_call, chain, unaryInterceptors. rewrite Had, andb_false_r. cbn [fold_right].
    unfold auth_Unary, intercept. by rewrite full_method_application, Hen, Hau.
  - rewrite (ServeHTTP_route marshal quote c mux out_of_range polls families indexHTML Hmux ce p h i rt)
      by done.
    rewrite Ht. unfold serve_route. rewrite Hann, Hr. cbn [negb].
    pose proof (handle_server marshal quote ce p r) as Hs.
    destruct (handle _ _ _ _ _) as [p' o]. simpl in *. by rewrite Hs.
Qed.

(** ** Witnesses

    A mux that takes the first match; an operator's key protects the process. *)

Fixpoint toy_mux (table : list (string * list string)) (method : string) (path : list string) :
    option nat :=
  match table with
  | [] => None
  | x :: table => if decide (x = (method, path)) then Some 0%nat else S <$> toy_mux table method path
  end.

Lemma toy_mux_literal : mux_literal toy_mux.
Proof.
  intros table. induction table as [|x table IH]; intros i method path Hnd Hi; [done|]. simpl.
  apply NoDup_cons in Hnd as [Hni Hnd]. destruct i as [|i]; simpl in Hi.
  - injection Hi as ->. by rewrite decide_True.
  - rewrite decide_False; [by rewrite (IH i)|]. intros ->. by apply Hni, (list_elem_of_lookup_2 _ i).
Qed.

(** Bodies are the counter name alone. *)
Definition toy_codec : codec :=
  mkCodec (fun s => Decoded (mkUpdateRequest 1 "" 0 s)) (fun s => if String.eqb s "" then Eof else Decoded s)
    (fun s => Decoded (s, [])) (fun _ => DecodeErr) Decoded (fun _ => Eof)
    (fun _ => Some []) (fun _ => Some "") (fun _ => Some "") (fun _ _ => true).

Definition ex_reset_http : http_request := mkHttpRequest "POST" ["v1"; "counter"; "reset"] "" "likes" [].

Definition no_polls : poll_env := mkPollEnv (fun _ _ => None) (fun _ _ => None).

Abbreviation ex_store := redis_ops.

Definition ex_served : Process RedisStore * http_response :=
  @ServeHTTP _ ex_store marshal_entry id toy_codec toy_mux (fun _ => 0) no_polls None ""
    (mkCallEnv (calm 5) None (fun _ => None)) ex_process ex_reset_http.

Lemma gateway_routes_witness :
  ex_served = ((@handle _ ex_store marshal_entry id (mkCallEnv (calm 5) None (fun _ => None))
      ex_process (RqReset "likes")).1,
    HReply (@handle _ ex_store marshal_entry id (mkCallEnv (calm 5) None (fun _ => None))
      ex_process (RqReset "likes")).2).
Proof.
  apply (@gateway_routes _ ex_store marshal_entry id toy_codec toy_mux (fun _ => 0) no_polls
    None "" (mkCallEnv (calm 5) None (fun _ => None)) ex_process ex_reset_http 4
    (mkRoute "POST" ["v1"; "counter"; "reset"] (TRpc "/counter.CounterService/Reset"
      (local_request_CounterService_Reset_0 toy_codec)))).
  - exact toy_mux_literal.
  - reflexivity.
  - reflexivity.
  - reflexivity.
Defined.

Lemma gateway_unguarded_witness :
  @grpc_call _ ex_store marshal_entry id (mkCallEnv (calm 5) None (fun _ => None)) None
    ex_process (RqReset "likes") = (ex_process, Err Unauthenticated) /\
  srv_rateLimit (p_server ex_served.1) = srv_rateLimit (p_server ex_process).
Proof.
  destruct (@gateway_unguarded _ ex_store marshal_entry id toy_codec toy_mux (fun _ => 0)
    no_polls None "" (mkCallEnv (calm 5) None (fun _ => None)) ex_process ex_reset_http 4
    (mkRoute "POST" ["v1"; "counter"; "reset"] (TRpc "/counter.CounterService/Reset"
      (local_request_CounterService_Reset_0 toy_codec))) "/counter.CounterService/Reset"
    (local_request_CounterService_Reset_0 toy_codec) (RqReset "likes") None toy_mux_literal)
    as (H1 & _ & _ & H2); try reflexivity.
  split; [exact H1|exact H2].
Defined.
