(* ===== verification/Proxy.v ===== *)
(** * The gateway as a client (api/proto/counter.pb.gw.go)

    The other half of the generated gateway: routes that pass each request on to a
    server over a connection, with the metadata the runtime makes of the headers,
    instead of calling the service in the process.  It is registered from an
    endpoint or from a connection; the routes and the decoding are those of
    [Gateway]. *)

From Stdlib Require Import SpecFloat.
From S2P Require Import Prelude Lattice PNCounter VectorClock Delta Breaker Membership Bully Swim Codec Wal.
From S2P Require Import Store Messages Service ServiceSpec Durability Gossip Cluster Bootstrap.
From S2P Require Import Float RateLimit Admin Server Process Client Dashboard Gateway.

(** ** Requests *)

Section requests.
Context {P : Type}.
Variable c : codec.
Variable Invoke : string -> option (list string) -> request -> P -> P * outcome.
Implicit Types h : http_request.
Implicit Types md : option (list string).

(** Decodes the body, calls the stub. *)
Definition send_body {A : Type} (d : decoded A) (zero : A) (call : A -> P -> P * outcome) (p : P) : P * outcome :=
  match d with
  | Decoded a => call a p
  | Eof => call zero p
  | DecodeErr => (p, Err InvalidArgument)
  end.

(** Decodes the query, calls the stub. *)
Definition send_query {A : Type} (form : option (list (string * string)))
    (populate : list (string * string) -> option A) (call : A -> P -> P * outcome) (p : P) : P * outcome :=
  match form with
  | None => (p, Err InvalidArgument)
  | Some form =>
      match populate form with
      | None => (p, Err InvalidArgument)
      | Some a => call a p
      end
  end.

Definition request_CounterService_Increment_0 md h : P -> P * outcome :=
  send_body (c_update c (h_body h)) (mkUpdateRequest 0 "" 0 "") (counterServiceClient_Increment Invoke md).

Definition request_CounterService_Decrement_0 md h : P -> P * outcome :=
  send_body (c_update c (h_body h)) (mkUpdateRequest 0 "" 0 "") (counterServiceClient_Decrement Invoke md).

Definition request_CounterService_GetValue_0 md h : P -> P * outcome :=
  send_query (c_form c h) (c_value c) (counterServiceClient_GetValue Invoke md).

Definition request_CounterService_GetNodeInfo_0 md h : P -> P * outcome :=
  counterServiceClient_GetNodeInfo Invoke md.

Definition request_CounterService_Reset_0 md h : P -> P * outcome :=
  send_body (c_reset c (h_body h)) "" (counterServiceClient_Reset Invoke md).

Definition request_CounterService_CreateCounter_0 md h : P -> P * outcome :=
  send_body (c_create c (h_body h)) ("", []) (fun x => counterServiceClient_CreateCounter Invoke md x.1 x.2).

Definition request_CounterService_ListCounters_0 md h : P -> P * outcome :=
  send_query (c_form c h) (c_list c) (counterServiceClient_ListCounters Invoke md).

Definition request_AdminService_AddNode_0 md h : P -> P * outcome :=
  send_body (c_addNode c (h_body h)) ("", "") (fun x => adminServiceClient_AddNode Invoke md x.1 x.2).

Definition request_AdminService_RemoveNode_0 md h : P -> P * outcome :=
  send_body (c_removeNode c (h_body h)) "" (adminServiceClient_RemoveNode Invoke md).

Definition request_AdminService_ForceSync_0 md h : P -> P * outcome :=
  send_body (c_forceSync c (h_body h)) tt (fun _ => adminServiceClient_ForceSync Invoke md).

(** ** Routes *)

(** A route to a server: its method and path, the name of the RPC and the function
    that sends the request. *)
Record remote_route := mkRemoteRoute {
  rr_method : string;
  rr_path : list string;
  rr_name : string;
  rr_request : option (list string) -> http_request -> P -> P * outcome;
}.

Definition RegisterCounterServiceHandlerClient : list remote_route :=
  [ mkRemoteRoute "POST" ["v1"; "counter"; "increment"]
      "/counter.CounterService/Increment" request_CounterService_Increment_0;
    mkRemoteRoute "POST" ["v1"; "counter"; "decrement"]
      "/counter.CounterService/Decrement" request_CounterService_Decrement_0;
    mkRemoteRoute "GET" ["v1"; "counter"; "value"]
      "/counter.CounterService/GetValue" request_CounterService_GetValue_0;
    mkRemoteRoute "GET" ["v1"; "node"; "info"]
      "/counter.CounterService/GetNodeInfo" request_CounterService_GetNodeInfo_0;
    mkRemoteRoute "POST" ["v1"; "counter"; "reset"]
      "/counter.CounterService/Reset" request_CounterService_Reset_0;
    mkRemoteRoute "POST" ["v1"; "counter"]
      "/counter.CounterService/CreateCounter" request_CounterService_CreateCounter_0;
    mkRemoteRoute "GET" ["v1"; "counters"]
      "/counter.CounterService/ListCounters" request_CounterService_ListCounters_0 ].

Definition RegisterAdminServiceHandlerClient : list remote_route :=
  [ mkRemoteRoute "POST" ["v1"; "admin"; "add-node"]
      "/counter.AdminService/AddNode" request_AdminService_AddNode_0;
    mkRemoteRoute "POST" ["v1"; "admin"; "remove-node"]
      "/counter.AdminService/RemoveNode" request_AdminService_RemoveNode_0;
    mkRemoteRoute "POST" ["v1"; "admin"; "force-sync"]
      "/counter.AdminService/ForceSync" request_AdminService_ForceSync_0 ].

(** The connection is that of the client. *)
Definition RegisterCounterServiceHandler : list remote_route := RegisterCounterServiceHandlerClient.

Definition RegisterAdminServiceHandler : list remote_route := RegisterAdminServiceHandlerClient.

(** [dialed] says whether [grpc.NewClient] makes a connection for the endpoint; the
    connection is closed with the context. *)
Definition RegisterCounterServiceHandlerFromEndpoint (dialed : bool) : option (list remote_route) :=
  if dialed then Some RegisterCounterServiceHandler else None.

Definition RegisterAdminServiceHandlerFromEndpoint (dialed : bool) : option (list remote_route) :=
  if dialed then Some RegisterAdminServiceHandler else None.

(** The closure registered for a route.  [annotate] is the runtime's
    [AnnotateContext]: the [authorization] metadata made of the headers, or an
    error. *)
Definition serve_remote (annotate : http_request -> string -> option (option (list string)))
    (rt : remote_route) (h : http_request) (p : P) : P * http_response :=
  match annotate h (rr_name rt) with
  | None => (p, HAnnotateErr)
  | Some md => let '(p, o) := rr_request rt md h p in (p, HReply o)
  end.

End requests.

Arguments remote_route : clear implicits.

(** The routes of both services, as [New] registers them and as a client would. *)
Definition direct_routes (c : codec) : list route :=
  RegisterCounterServiceHandlerServer c ++ RegisterAdminServiceHandlerServer c.

Definition remote_routes {P : Type} (c : codec)
    (Invoke : string -> option (list string) -> request -> P -> P * outcome) : list (remote_route P) :=
  RegisterCounterServiceHandlerClient c Invoke ++ RegisterAdminServiceHandlerClient c Invoke.

(** ** The two gateways side by side *)

Section paired.
Context {P : Type}.
Variable c : codec.
Variable Invoke : string -> option (list string) -> request -> P -> P * outcome.

(** The remote request sends what the local one hands to the service. *)
Definition sends (f : http_request -> request + code)
    (send : option (list string) -> http_request -> P -> P * outcome) : Prop :=
  forall md h p, send md h p =
    match f h with inl r => Invoke (full_method r) md r p | inr e => (p, Err e) end.

Definition paired (rt : route) (rr : remote_route P) : Prop :=
  rt_method rt = rr_method rr /\ rt_path rt = rr_path rr /\
  exists f, rt_target rt = TRpc (rr_name rr) f /\ sends f (rr_request rr).

Lemma routes_paired : Forall2 paired (direct_routes c) (remote_routes c Invoke).
Proof.
  unfold direct_routes, remote_routes, RegisterCounterServiceHandlerServer, RegisterAdminServiceHandlerServer,
    RegisterCounterServiceHandlerClient, RegisterAdminServiceHandlerClient. cbn [app].
  repeat (apply Forall2_cons; split); [..|by apply Forall2_nil];
    (split; [reflexivity|split; [reflexivity|]]; eexists; split; [reflexivity|]; intros md h p;
     cbn [rr_request]; unfold request_CounterService_Increment_0, request_CounterService_Decrement_0,
       request_CounterService_GetValue_0, request_CounterService_GetNodeInfo_0, request_CounterService_Reset_0,
       request_CounterService_CreateCounter_0, request_CounterService_ListCounters_0,
       request_AdminService_AddNode_0, request_AdminService_RemoveNode_0, request_AdminService_ForceSync_0,
       local_request_CounterService_Increment_0, local_request_CounterService_Decrement_0,
       local_request_CounterService_GetValue_0, local_request_CounterService_GetNodeInfo_0,
       local_request_CounterService_Reset_0, local_request_CounterService_CreateCounter_0,
       local_request_CounterService_ListCounters_0, local_request_AdminService_AddNode_0,
       local_request_AdminService_RemoveNode_0, local_request_AdminService_ForceSync_0,
       send_body, send_query, from_body, from_query; by repeat case_match).
Qed.

End paired.

(** C38: The two generated gateways differ by the server's checks alone.  Their routes
    are the same in the same order, and a request that cannot be decoded is
    answered alike.  Any other request runs, at the gateway of this program, the
    handler of the route's RPC, whatever headers it came with and for no token;
    passed on to the process as a client's call, it is refused without the key and
    changes nothing, costs a token or is limited with it, and then has the same
    answer and the same effect. *)
Theorem gateways_compared {D : Type} `{SO : StoreOps D} (marshal : WALEntry -> string)
    (quote : string -> string) (c : codec) (out_of_range : spec_float -> Z) (polls : poll_env)
    (families : option (list family)) (indexHTML : string)
    (annotate : http_request -> string -> option (option (list string))) (md : option (list string))
    (ce : call_env) (p : Process D) (h : http_request) (i : nat) (rt : route) (rr : remote_route (Process D)) :
  direct_routes c !! i = Some rt ->
  remote_routes c (Conn_Invoke marshal quote ce) !! i = Some rr ->
  c_annotate c h (rr_name rr) = true -> annotate h (rr_name rr) = Some md ->
  srv_adminSvc (p_server p) = true ->
  let direct := serve_route marshal quote c out_of_range polls families indexHTML ce p (rt_target rt) h in
  let remote := serve_remote annotate rr h p in
  let l := (Allow (limiter (srv_rateLimit (p_server p))) (e_now (ce_io ce))).1 in
  rt_method rt = rr_method rr /\ rt_path rt = rr_path rr /\
  (direct = (p, HReply (Err InvalidArgument)) /\ remote = direct \/
   exists r, full_method r = rr_name rr /\
     direct = ((handle marshal quote ce p r).1, HReply (handle marshal quote ce p r).2) /\
     remote =
       if authentic p md then
         if has_token p ce then (set_limiter direct.1 l, direct.2)
         else (set_limiter p l, HReply (Err ResourceExhausted))
       else (p, HReply (Err Unauthenticated))).
Proof.
  intros Hi Hj Hann Hmd Had direct remote l.
  destruct (Forall2_lookup_lr _ _ _ _ _ _ (routes_paired c (Conn_Invoke marshal quote ce)) Hi Hj)
    as (H1 & H2 & f & Hf & Hs). split; [done|]. split; [done|].
  assert (New c true true !! i = Some rt) as Hn.
  { unfold New. rewrite app_assoc. by apply lookup_app_l_Some. }
  pose proof (Forall_lookup_1 _ _ _ _ (routes_target c) Hn) as Ht. cbv beta in Ht. rewrite Hf in Ht.
  specialize (Ht h). unfold remote, direct, serve_remote, serve_route. rewrite Hf, Hmd, Hann.
  cbn [negb]. pose proof (Hs md h p) as Hsend.
  destruct (f h) as [r|e]; rewrite Hsend; [right|left; by rewrite Ht]. exists r.
  rewrite Conn_Invoke_own, grpc_call_outcome by done. fold l.
  destruct (handle marshal quote ce p r) as [p' o]. split; [done|]. split; [done|]. cbn [fst snd].
  destruct (authentic p md); [|done]. by destruct (has_token p ce).
Qed.

(** ** Witnesses

    A reset with the operator's key in its headers, and without. *)

Definition ex_annotate (h : http_request) (name : string) : option (option (list string)) :=
  Some (Some (omap (fun kv => if String.eqb kv.1 "Authorization" then Some kv.2 else None) (h_headers h))).

Definition ex_reset_request (headers : list (string * string)) : http_request :=
  mkHttpRequest "POST" ["v1"; "counter"; "reset"] "" "likes" headers.

Definition ex_call : call_env := mkCallEnv (calm 5) None (fun _ => None).

Definition ex_reset_route : remote_route (Process RedisStore) :=
  mkRemoteRoute "POST" ["v1"; "counter"; "reset"] "/counter.CounterService/Reset"
    (request_CounterService_Reset_0 toy_codec (@Conn_Invoke _ ex_store marshal_entry id ex_call)).

Definition ex_remote (headers : list (string * string)) : Process RedisStore * http_response :=
  serve_remote ex_annotate ex_reset_route (ex_reset_request headers) ex_process.

Lemma gateways_compared_witness :
  (ex_remote []).2 = HReply (Err Unauthenticated) /\
  (ex_remote [("Authorization", "Bearer k")]).2 =
    HReply (@handle _ ex_store marshal_entry id ex_call ex_process (RqReset "likes")).2.
Proof.
  pose (H headers md := @gateways_compared _ ex_store marshal_entry id toy_codec (fun _ => 0) no_polls None ""
    ex_annotate md ex_call ex_process (ex_reset_request headers) 4
    (mkRoute "POST" ["v1"; "counter"; "reset"] (TRpc "/counter.CounterService/Reset"
      (local_request_CounterService_Reset_0 toy_codec))) ex_reset_route eq_refl eq_refl eq_refl).
  split.
  - destruct (H [] (Some [])) as (_ & _ & [[Hd _]|(r & _ & _ & Hr)]); [reflexivity..|discriminate Hd|].
    fold (ex_remote []) in Hr. rewrite Hr. vm_compute. reflexivity.
  - destruct (H [("Authorization", "Bearer k")] (Some ["Bearer k"])) as (_ & _ & [[Hd _]|(r & _ & _ & Hr)]);
      [reflexivity..|discriminate Hd|].
    fold (ex_remote [("Authorization", "Bearer k")]) in Hr. rewrite Hr. vm_compute. reflexivity.
Defined.
