(* ===== verification/Election.v ===== *)
(** * Elections between processes (internal/election/bully.go, cmd/server/main.go)

    The calls of [sendElection] and [sendCoordinator] of one process as the servers
    of the others answer them, and a leader that comes back without its term. *)

From Stdlib Require Import SpecFloat.
From S2P Require Import Prelude Lattice PNCounter VectorClock Delta Breaker Membership Bully Swim Codec Wal.
From S2P Require Import Store Messages Service ServiceSpec Durability Gossip Cluster Bootstrap.
From S2P Require Import Float RateLimit Admin Server Process Client Heartbeat.

(** ** Calls *)

Section calls.
Context {D : Type} `{SO : StoreOps D}.
Variable marshal : WALEntry -> string.
Variable quote : string -> string.
Implicit Types p q : Process D.


(** One attempt of [sendElection] on the process [q]. *)
Definition challenge (cfg : Config) (ce : call_env) (b : Bully) q : Process D * outcome :=
  counterServiceClient_Election (Conn_Invoke marshal quote ce) (outgoing cfg)
    (mkElectionRequest (b_nodeID b) (b_priority b)) q.

(** The process [q] after [n] attempts, made under [ces]. *)
Fixpoint challenged (cfg : Config) (ces : nat -> call_env) (b : Bully) q (n : nat) : Process D :=
  match n with
  | O => q
  | S n => (challenge cfg (ces n) b (challenged cfg ces b q n)).1
  end.

(** The outcome of the [n]-th attempt. *)
Definition probe_of (cfg : Config) (ces : nat -> call_env) (b : Bully) q (n : nat) : Bully.probe :=
  match (challenge cfg (ces n) b (challenged cfg ces b q n)).2 with
  | Ok (RsElection resp) => Bully.Answer (ers_Ok resp)
  | _ => Bully.Unreachable
  end.

(** The announcements of an election of the process [p]. *)
Definition announcements (rpc : Member -> nat -> Bully.probe) (during : list (CoordinatorRequest * Z))
    (now : Z) (polls : list poll) p : list (string * CoordinatorRequest) :=
  match s_bully (p_service p), s_cluster (p_service p) with
  | Some b, Some m => (StartElection b m rpc during now polls).2
  | _, _ => []
  end.

(** What the process says of its leader. *)
Definition leader_of p : option (string * bool) :=
  b ← s_bully (p_service p); Some (LeaderID b, IsLeader b).



End calls.

(** ** Winning and losing an election *)

Lemma StartElection_wins (b : Bully) (m : Membership) (rpc : Member -> nat -> Bully.probe)
    (during : list (CoordinatorRequest * Z)) (now : Z) (polls : list poll) :
  electionRunning b = false -> existsb (sendElection b rpc) (higherPriorityLivePeers b m) = false ->
  let b1 := handle_all b during in
  let b' := with_leader b1 (b_nodeID b) (b_priority b) (wrap64 (leaderTerm b1 + 1)) now in
  StartElection b m rpc during now polls = (b', broadcast b m (leaderTerm b')).
Proof.
  intros Hrun Hno b1 b'. unfold StartElection. rewrite Hrun, foldl_ack. cbn [orb].
  change (higherPriorityLivePeers (with_running b true) m) with (higherPriorityLivePeers b m).
  change (sendElection (with_running b true) rpc) with (sendElection b rpc). rewrite Hno, handle_all_running.
  cbn [negb]. fold b1. destruct (handle_all_frame b during) as (Hid & Hr & _). fold b1 in Hid, Hr.
  unfold identity in Hid. simplify_eq Hid. intros H1 H2 _. unfold BecomeLeader, broadcast, b'.
  destruct b1; simpl in *. subst. by rewrite Hrun.
Qed.

(** The winner calls itself leader. *)
Lemma elected_leader {D : Type} `{SO : StoreOps D} (marshal : WALEntry -> string) (quote : string -> string)
    (cfg : Config) (p : Process D) (b : Bully) (m : Membership) (rpc : Member -> nat -> Bully.probe)
    (during : list (CoordinatorRequest * Z)) (now : Z) (polls : list poll) :
  s_bully (p_service p) = Some b -> s_cluster (p_service p) = Some m -> electionRunning b = false ->
  existsb (sendElection b rpc) (higherPriorityLivePeers b m) = false ->
  leader_of (step marshal quote cfg p (EvElect rpc during now polls)) = Some (b_nodeID b, true).
Proof.
  intros Hb Hm Hrun Hno. unfold leader_of. cbn [step]. unfold on_bully.
  rewrite Hb, Hm, (StartElection_wins b m rpc during now polls Hrun Hno).
  destruct (handle_all_frame b during) as (Hid & _). unfold identity in Hid. simplify_eq Hid. intros H1 _ _.
  destruct (p_service p); simpl. unfold LeaderID, IsLeader. simpl. by rewrite H1, String.eqb_refl.
Qed.


(** A better leader, or the same one with a term that did not go back. *)
Lemma accept_better (b : Bully) (req : CoordinatorRequest) (now : Z) :
  leaderPriority b < crq_Priority req \/ (leaderPriority b = crq_Priority req /\ leaderTerm b <= crq_Term req) ->
  accept b req now = true.
Proof.
  intros [H|[H1 H2]]; unfold accept.
  - by apply Z.ltb_lt in H as ->.
  - rewrite <- H1, Z.eqb_refl. apply Z.leb_le in H2 as ->. by rewrite orb_true_r.
Qed.

(** *** Probes *)

Section probes.
Context {D : Type} `{SO : StoreOps D}.
Variable marshal : WALEntry -> string.
Variable quote : string -> string.
Variable cfg : Config.
Variable ces : nat -> call_env.
Variable b : Bully.
Variable p : Process D.
Hypothesis admin : srv_adminSvc (p_server p) = true.

Abbreviation after n := (challenged marshal quote cfg ces b p n).
Abbreviation refused n := (admits cfg (ces n) (after n) = false).

(** A refused attempt leaves the service alone and is not answered. *)
Lemma challenge_refused (ce : call_env) (q : Process D) :
  srv_adminSvc (p_server q) = true -> admits cfg ce q = false ->
  let '(q', o) := challenge marshal quote cfg ce b q in
  p_service q' = p_service q /\ srv_adminSvc (p_server q') = true /\ exists e, o = Err e.
Proof.
  intros Had Hno. unfold challenge, counterServiceClient_Election.
  destruct (call_cases marshal quote cfg ce q (RqElection (mkElectionRequest (b_nodeID b) (b_priority b))) Had)
    as [l Hc]. cbn [full_method] in Hc. rewrite Hc, Hno. destruct (authentic q (outgoing cfg)); eauto.
Qed.

Lemma challenged_refused (n : nat) :
  (forall k, (k < n)%nat -> refused k) ->
  p_service (after n) = p_service p /\ srv_adminSvc (p_server (after n)) = true.
Proof.
  induction n as [|n IH]; intros Hno; [done|]. destruct IH as [IH1 IH2]; [intros k Hk; apply Hno; lia|].
  cbn [challenged]. pose proof (challenge_refused (ces n) (after n) IH2 (Hno n ltac:(lia))) as H.
  destruct (challenge _ _ _ _ _ _) as [q' o]. destruct H as (H1 & H2 & _). simpl. by rewrite H1.
Qed.

Lemma probe_refused (n : nat) :
  (forall k, (k <= n)%nat -> refused k) -> probe_of marshal quote cfg ces b p n = Bully.Unreachable.
Proof.
  intros Hno. destruct (challenged_refused n) as [_ Had]; [intros k Hk; apply Hno; lia|]. unfold probe_of.
  pose proof (challenge_refused (ces n) (after n) Had (Hno n ltac:(lia))) as H.
  destruct (challenge _ _ _ _ _ _) as [q' o]. by destruct H as (_ & _ & e & ->).
Qed.

Lemma probe_answered (n : nat) :
  (forall k, (k < n)%nat -> refused k) -> admits cfg (ces n) (after n) = true ->
  probe_of marshal quote cfg ces b p n = Bully.Answer true.
Proof.
  intros Hno Hyes. destruct (challenged_refused n Hno) as [_ Had].
  unfold probe_of, challenge, counterServiceClient_Election.
  destruct (call_cases marshal quote cfg (ces n) (after n)
    (RqElection (mkElectionRequest (b_nodeID b) (b_priority b))) Had) as [l Hc]. cbn [full_method] in Hc.
  rewrite Hc, Hyes. cbn [handle snd]. unfold Election. by destruct (s_bully _).
Qed.

(** The loop of attempts. *)
Lemma probe_loop_refused (fuel n : nat) :
  (forall k, (k < n + fuel)%nat -> refused k) ->
  probe_loop (probe_of marshal quote cfg ces b p) n fuel = false.
Proof.
  revert n. induction fuel as [|fuel IH]; intros n Hno; [done|]. simpl.
  rewrite probe_refused by (intros k Hk; apply Hno; lia). apply IH. intros k Hk. apply Hno. lia.
Qed.

Lemma probe_loop_answered (fuel n i : nat) :
  (n <= i < n + fuel)%nat -> (forall k, (k < i)%nat -> refused k) -> admits cfg (ces i) (after i) = true ->
  probe_loop (probe_of marshal quote cfg ces b p) n fuel = true.
Proof.
  revert n. induction fuel as [|fuel IH]; intros n Hi Hno Hyes; [lia|]. simpl.
  destruct (decide (n = i)) as [->|Hne]; [by rewrite probe_answered|].
  rewrite probe_refused by (intros k Hk; apply Hno; lia). apply IH; [lia|done..].
Qed.

End probes.

(** *** A reign *)

(** The elections of a node with nobody to probe, at the given times. *)
Definition reign (m : Membership) (rpc : Member -> nat -> Bully.probe) (b : Bully) (times : list Z) : Bully :=
  foldl (fun b t => (StartElection b m rpc [] t []).1) b times.

(** A node with nobody above it wins each of them, for one term more. *)
Lemma reign_term (m : Membership) (rpc : Member -> nat -> Bully.probe) (times : list Z) :
  forall b, electionRunning b = false -> higherPriorityLivePeers b m = [] ->
  0 <= leaderTerm b -> leaderTerm b + Z.of_nat (length times) < 2 ^ 63 ->
  let b' := reign m rpc b times in
  b_nodeID b' = b_nodeID b /\ b_priority b' = b_priority b /\
  leaderTerm b' = leaderTerm b + Z.of_nat (length times).
Proof.
  induction times as [|t times IH]; intros b Hrun Hno H0 Hb; [simpl; split_and!; [done..|lia]|].
  cbn [length] in Hb. unfold reign. cbn [foldl].
  rewrite (StartElection_wins b m rpc [] t []) by (done || by rewrite Hno). cbn [fst handle_all foldl].
  change (handle_all b []) with b.
  set (b1 := with_leader b (b_nodeID b) (b_priority b) (wrap64 (leaderTerm b + 1)) t).
  assert (leaderTerm b1 = leaderTerm b + 1) as Ht by (apply wrap64_id; unfold in_int64; lia).
  destruct (IH b1) as (H1 & H2 & H3); [done|done|lia|lia|]. fold (reign m rpc b1 times).
  split_and!; [done..|]. rewrite H3, Ht. cbn [length]. lia.
Qed.

(** ** Properties *)


(** C33: The leader's rate limit decides whether it has a rival.  Election probes pass
    the same middleware as any call: when a process that knows of one better live
    member, the leader, finds the leader's bucket empty at every attempt, it calls
    itself leader too, while the leader, alive and answering, remains one.  As soon
    as one of the attempts is let in, it announces nothing. *)
Theorem limited_leader_rivalled {D : Type} `{SO : StoreOps D} (marshal : WALEntry -> string)
    (quote : string -> string) (cfg cfg' : Config) (p q : Process D) (b : Bully) (m : Membership) (mem : Member)
    (ces : nat -> call_env) (rpc : Member -> nat -> Bully.probe)
    (during : list (CoordinatorRequest * Z)) (now : Z) (polls : list poll) :
  process_ok cfg p -> process_ok cfg' q -> leader_of p = Some (cfg_NodeID cfg, true) ->
  s_bully (p_service q) = Some b -> s_cluster (p_service q) = Some m -> electionRunning b = false ->
  higherPriorityLivePeers b m = [mem] -> rpc mem = probe_of marshal quote cfg' ces b p ->
  let state n := challenged marshal quote cfg' ces b p n in
  let refused n := admits cfg' (ces n) (state n) = false in
  let q' := step marshal quote cfg' q (EvElect rpc during now polls) in
  ((forall n, Z.of_nat n < maxProbes b -> refused n) ->
   leader_of q' = Some (cfg_NodeID cfg', true) /\
   leader_of (state (Z.to_nat (maxProbes b))) = Some (cfg_NodeID cfg, true)) /\
  (forall n, Z.of_nat n < maxProbes b -> (forall k, (k < n)%nat -> refused k) ->
   admits cfg' (ces n) (state n) = true -> announcements rpc during now polls q = []).
Proof.
  intros Hp Hq Hl Hb Hm Hrun Hhi Hrpc state refused q'. pose proof (po_admin _ _ Hp) as Had. split.
  - intros Hno. assert (forall k, (k < 0 + Z.to_nat (maxProbes b))%nat -> refused k) as Hno'
      by (intros k Hk; apply Hno; lia).
    assert (existsb (sendElection b rpc) (higherPriorityLivePeers b m) = false) as Hnone.
    { rewrite Hhi. simpl. rewrite orb_false_r. unfold sendElection. rewrite Hrpc.
      by apply probe_loop_refused. }
    destruct (po_bully _ _ Hq) as (b0 & Hb0 & Hid). assert (b0 = b) as -> by congruence.
    unfold identity in Hid. simplify_eq Hid. intros Hn _ _.
    change (b_nodeID (Bully.New (bully_config cfg'))) with (cfg_NodeID cfg') in Hn. split.
    + rewrite <- Hn. by apply (elected_leader marshal quote cfg' q b m).
    + destruct (challenged_refused marshal quote cfg' ces b p Had (Z.to_nat (maxProbes b))) as [Hs _];
        [exact Hno'|]. unfold leader_of, state. by rewrite Hs.
  - intros n Hn Hno Hyes. unfold announcements. rewrite Hb, Hm. unfold StartElection. rewrite Hrun, foldl_ack.
    change (higherPriorityLivePeers (with_running b true) m) with (higherPriorityLivePeers b m).
    change (sendElection (with_running b true) rpc) with (sendElection b rpc). rewrite Hhi. simpl.
    unfold sendElection. rewrite Hrpc.
    by rewrite (probe_loop_answered marshal quote cfg' ces b p Had _ 0 n) by (done || lia).
Qed.

(** C32: A leader that was restarted has forgotten its term, which it counts from zero,
    and its followers ignore its announcements, so that their leader goes stale,
    until the term has reached the one they remember.  It gets there: a follower
    with a stale leader runs an election, its probe makes the leader run one, and
    every election of the leader raises the term by one; from then on the next
    announcement, that of a tick, is accepted and the follower has a fresh leader
    again. *)
Theorem restarted_leader_catches_up (cfg : BullyConfig) (m m' : Membership)
    (rpc rpc' : Member -> nat -> Bully.probe) (times : list Z) (f : Bully)
    (during : list (CoordinatorRequest * Z)) (now : Z) (polls : list poll) :
  higherPriorityLivePeers (Bully.New cfg) m = [] -> Z.of_nat (length times) < 2 ^ 63 ->
  leaderID f = Bully.cfg_NodeID cfg -> leaderPriority f = cfg_Priority cfg -> b_priority f < cfg_Priority cfg ->
  leaderID f <> "" -> leaderID f <> b_nodeID f ->
  let top := reign m rpc (Bully.New cfg) times in
  let told := (HandleCoordinator f (coordinator_message top (leaderTerm top)) now).1 in
  leaderTerm top = Z.of_nat (length times) /\
  (leaderTerm top < leaderTerm f -> told = f) /\
  (leaderTerm f <= leaderTerm top ->
   leaderID told = Bully.cfg_NodeID cfg /\ leaderTerm told = leaderTerm top /\ lastLeaderSeen told = now) /\
  (b_timeout f < time_Sub now (lastLeaderSeen f) ->
   tick f m' rpc' during now polls = StartElection f m' rpc' during now polls) /\
  (HandleElection top (mkElectionRequest (b_nodeID f) (b_priority f))).2 = true.
Proof.
  intros Hno Hlen Hid Hpr Hlow Hne Hother top told.
  destruct (reign_term m rpc times (Bully.New cfg)) as (H1 & H2 & H3); [done|done|done|simpl; lia|].
  fold top in H1, H2, H3. cbn [b_nodeID b_priority leaderTerm Bully.New] in H1, H2, H3. split_and!.
  - lia.
  - intros Hold. unfold told, HandleCoordinator, accept, coordinator_message. simpl. rewrite H2, <- Hpr.
    rewrite Z.ltb_irrefl, Z.eqb_refl. destruct (Z.leb_spec (leaderTerm f) (leaderTerm top)); [lia|].
    destruct (Z.ltb_spec (leaderTerm f) (leaderTerm top)); [lia|]. by destruct (fresh f now).
  - intros Hnew. unfold told, HandleCoordinator. rewrite accept_better.
    + by cbn [fst leaderID leaderTerm lastLeaderSeen with_leader coordinator_message crq_NodeId crq_Term].
    + right. cbn [coordinator_message crq_Priority crq_Term]. split; [congruence|done].
  - intros Hstale. unfold tick. apply String.eqb_neq in Hne, Hother. rewrite Hne, Hother. simpl.
    by apply Z.ltb_lt in Hstale as ->.
  - cbn [HandleElection snd erq_Priority]. apply Z.ltb_lt. lia.
Qed.

(** ** Witnesses

    Node a, told of node b with the better priority, and node b, with its two
    tokens and after its clients took them. *)

Definition ex_best : Config :=
  mkConfig "b" 50051 9090 8080 "b:50051" [] 5 3 10 false "" "" 0 true "data" 30 1 2 3 true "k" 2
    false false "" float_one 4 7 2.

Definition ex_no_answer (mem : Member) (n : nat) : Bully.probe := Bully.Unreachable.

Definition ex_node_b (es : list event) : Process RedisStore :=
  @run _ ex_ops marshal_entry id ex_best
    (@wire _ ex_ops unmarshal_entry ex_best None ∅ (mkBootEnv true true true) 10)
    (EvElect ex_no_answer [] 10 [] :: es).

Definition ex_beat : HeartbeatRequest := heartbeat_request "b" "b:50051" 7 "b" 10.

Definition ex_node_a : Process RedisStore :=
  ex_run "a" [EvCall ex_env (client_metadata "k") (RqHeartbeat ex_beat)].

Lemma ex_node_b_ok (es : list event) : process_ok ex_best (ex_node_b es).
Proof.
  unfold ex_node_b. eapply process_ok_evolves; [apply (@wire_ok _ ex_ops)|exact (@run_evolves _ ex_ops _ _ _ _ _)].
Qed.

Definition ex_bully (p : Process RedisStore) : Bully :=
  default (Bully.New (bully_config ex_best)) (s_bully (p_service p)).



(** The member b in the table of a. *)
Definition ex_b_member : Member :=
  match GetAlivePeers (table ex_node_a) with mem :: _ => mem | [] => mkMember "" "" StatusDead false 0 0 0 0 end.

Definition ex_rpc_b (p : Process RedisStore) (mem : Member) : nat -> Bully.probe :=
  @probe_of _ ex_ops marshal_entry id (ex_config "a") (fun _ => ex_env) (ex_bully ex_node_a) p.

Lemma limited_leader_rivalled_witness :
  leader_of (@step _ ex_ops marshal_entry id (ex_config "a") ex_node_a
    (EvElect (ex_rpc_b (ex_node_b ex_burst)) [] 10 [])) = Some ("a", true) /\
  announcements (ex_rpc_b (ex_node_b [])) [] 10 [] ex_node_a = [].
Proof.
  pose (H es := @limited_leader_rivalled _ ex_ops marshal_entry id ex_best (ex_config "a") (ex_node_b es) ex_node_a
    (ex_bully ex_node_a) (table ex_node_a) ex_b_member (fun _ => ex_env) (ex_rpc_b (ex_node_b es)) [] 10 []
    (ex_node_b_ok es) (ex_run_ok _ _)).
  split.
  - destruct (H ex_burst) as [H1 _]; [vm_compute; reflexivity..|reflexivity|].
    apply H1. intros [|[|[|n]]] Hn; [vm_compute; reflexivity..|].
    assert (maxProbes (ex_bully ex_node_a) = 3) as E by (vm_compute; reflexivity). rewrite E in Hn. exfalso. lia.
  - destruct (H []) as [_ H2]; [vm_compute; reflexivity..|reflexivity|].
    apply (H2 0%nat); [vm_compute; reflexivity|intros k Hk; exfalso; lia|vm_compute; reflexivity].
Defined.

(** A follower remembers the leader's third term. *)
Definition ex_follower : Bully :=
  with_leader (Bully.New (mkBullyConfig "a" 1 0 0)) "b" 7 3 100.

Lemma restarted_leader_catches_up_witness :
  let top n := reign (NewMembership "b") ex_no_answer (Bully.New (mkBullyConfig "b" 7 0 0)) (replicate n 200) in
  let told n := (HandleCoordinator ex_follower (coordinator_message (top n) (leaderTerm (top n))) 300).1 in
  told 2%nat = ex_follower /\ lastLeaderSeen (told 3%nat) = 300.
Proof.
  pose (H n := restarted_leader_catches_up (mkBullyConfig "b" 7 0 0) (NewMembership "b") (NewMembership "a")
    ex_no_answer ex_no_answer (replicate n 200) ex_follower [] 300 []). split.
  - destruct (H 2%nat) as (_ & H1 & _); [reflexivity..|discriminate|discriminate|].
    apply H1. vm_compute. reflexivity.
  - destruct (H 3%nat) as (_ & _ & H1 & _); [reflexivity..|discriminate|discriminate|].
    apply H1. vm_compute. discriminate.
Defined.
